(* ===== verification/_CoqProject ===== *)
-Q . S2P
Prelude.v
Effect.v
External.v
Chain.v
Types.v
Wire.v
Concrete.v
Validators.v
NodeSet.v
Committee.v
Cluster.v
ClusterInfo.v
Validation.v
VoteSet.v
Tally.v
VoteSetFacts.v
ValidationSpec.v
ClusterStart.v
RawContext.v
Scenario.v
ConcreteChain.v
Sortition.v
SortitionSpec.v
VoteSetSpec.v
CertificateSpec.v
HeightVoteSet.v
HeightVoteSpec.v
Transport.v
TransportSpec.v
TransportScenario.v
Execution.v
ExecutionSpec.v
Genesis.v
GenesisSpec.v
Safety.v
Views.v
ViewsSpec.v
Ticker.v
Kbft.v
KbftFacts.v
KbftSpec.v
KbftScenario.v
KbftLoop.v
FinalSpec.v
Tracker.v
Slots.v
SlotsSpec.v
Engine.v
EngineFacts.v
EngineSpec.v
ConcreteEngine.v
GenesisScenario.v
EngineScenario.v
ViewScenario.v
Wal.v
WalSpec.v
KbftProgress.v
Lifecycle.v
LockSpec.v
LockScenario.v
Network.v
Announce.v
