(* ===== verification/Prelude.v ===== *)
(** * Verification library for the Krama consensus engine

    The program is the consensus package of [src/fv-veil-2.0/consensus] (Go).  A
    set of interactions is agreed on by an interaction consensus set (ICS), the
    nodes in the contexts of the accounts involved and a random set.  One
    operator builds the set, collects PREPARED answers, proposes a tesseract and
    runs a BFT agreement with the members; everyone checks what it receives.
    [src/fv-veil/IFPSafety/IFP.go] is an older concatenated copy of the same code
    and is not modelled separately.

    ** The parts and their files

    Foundations.  [Prelude.v] holds the outcomes of a Go call ([res]: [Ret], a
    run-time [Panic], [Hang]), its notation, tactics and shared lemmas; [Effect.v]
    the state-and-error monad [eff] of methods that change a receiver;
    [External.v] and [Chain.v] the classes that stand for code of other modules
    (hashes, bit arrays, tesseracts, interactions, the codec, the state manager,
    the store, the pool) with their documented laws; [Concrete.v],
    [ConcreteChain.v] and [ConcreteEngine.v] instances on which every definition
    computes.

    Data.  [Types.v] and [Wire.v]: [types/consensus.go], [types/message.go],
    [types/proofs.go].  [Validators.v]: [kbft/validatorset.go],
    [kbft/validator.go].

    Committee and cluster.  [NodeSet.v], [Committee.v]: [types/nodeset.go].
    [Cluster.v], [ClusterInfo.v]: [types/ics.go].  [ClusterStart.v] and
    [RawContext.v]: how [krama_engine.go] and [ics.go] build a committee from the
    chain, or from contexts received with a tesseract.

    Votes and certificates.  [VoteSet.v], [Tally.v], [VoteSetFacts.v],
    [VoteSetSpec.v]: [types/voteset.go], [types/votetesseract.go].
    [HeightVoteSet.v], [HeightVoteSpec.v]: [types/votesetheight.go].
    [CertificateSpec.v] joins a vote set with the check of a certificate.

    The agreement.  [Safety.v]: [safety/safety.go].  [Ticker.v]: [kbft/rounds.go],
    [kbft/ticker.go].  [Kbft.v], [KbftFacts.v], [KbftSpec.v]: the handlers of
    [kbft/kbft.go] and [kbft/evidence.go].  [KbftLoop.v]: its goroutine with the
    ticker beside it.  [KbftProgress.v]: what it decides within a view.
    [FinalSpec.v] joins the engine, its vote sets and the check of a certificate;
    [Announce.v] the leader's engine and a follower's.  [Network.v]: any number
    of engines and an adversary, as a step relation.  [LockSpec.v]: what the
    stored certificates bind, and two views that disagree.  [Wal.v], [WalSpec.v]: [kbft/wal.go], [kbft/nullwal.go].

    Checks and execution.  [Validation.v], [ValidationSpec.v]: what
    [krama_engine.go] and [ics.go] check of interactions, certificates and
    tesseracts.  [Execution.v], [ExecutionSpec.v]: context deltas, proposals,
    executing and validating a tesseract.  [Views.v], [ViewsSpec.v]: the view
    information nodes exchange.  [Sortition.v], [SortitionSpec.v]: [sortition.go].
    [Genesis.v], [GenesisSpec.v]: [genesis.go].

    The node.  [Slots.v], [SlotsSpec.v]: [types/slots.go].  [Engine.v],
    [EngineFacts.v], [EngineSpec.v]: the event loop, the handlers of every message
    and the life of a cluster in [krama_engine.go], [handler.go],
    [ics_handler.go] and [message_dispatcher.go].  [Tracker.v]: the tesseract
    tracker of [krama_engine.go].  [Lifecycle.v]: building, starting and closing
    a node made of these parts and of the log.  [Transport.v], [TransportSpec.v]:
    [transport/transport.go], [peer.go], [peerset.go], [router.go].

    [Scenario.v], [KbftScenario.v], [EngineScenario.v], [ViewScenario.v],
    [LockScenario.v], [GenesisScenario.v] and [TransportScenario.v] run the definitions on concrete
    inputs and instantiate the theorems there.

    ** How state and calls correspond to the code

    A struct is a record, a method a function on it, with its guards and early
    returns in the order of the code; a pointer that is shared (tesseracts,
    slots, peers) is a location in an explicit heap, a pointer that is not is an
    option.  A 64- or 32-bit counter is a [Z] with its wrap-around written out
    ([u64], [u32]).  Go's [error] is the type [err], which keeps the wrapping; a
    goroutine and its channels are a transition function over explicit queues,
    and a history is any sequence of its steps.  A loop over a Go map runs over
    [map_to_list]; where the order could matter a theorem says whether it does
    ([fetch_order_irrelevant], [genesis_order_irrelevant], [GetQuorum_spec],
    [seed_depends_on_order]).

    ** What is shown

    - Agreement: in a network whose adversary is too light for a second quorum
      and cannot forge signatures, all majorities, precommits and finalized
      tesseracts of a view are for one tesseract ([network_agreement]); two
      engines never finalize different tesseracts of a view unless validators
      beyond the fault threshold sign twice ([finalized_agreement]).  Both rest
      on the vote sets ([vote_set_majority], [majority_agreement]), on what an
      engine signs ([no_equivocation], [precommit_justified],
      [precommit_after_safety]) and on what it hands over ([finalized_certified]).
      Agreement ends with the view: no validator's vote depends on the
      certificates it has stored ([validator_ignores_locks]), and a leader that
      disregards them gets another tesseract finalized ([views_disagree]).
    - Progress: with a proposal, whatever the view brings in whatever order, an
      engine does not panic and finalizes once enough valid precommits have come,
      singly or in the operator's certificate ([view_decides]; its last step is
      [commit_finalizes]); the certificate a leader sends when it finalizes
      finishes its followers as long as no other vote changes it before it is
      encoded ([announcement_finishes]; [late_vote_spoils_certificate] runs what
      happens otherwise); and [loop_bounded], that a running engine stays in its
      view and blocks on no channel.
    - Certificates: what [verifyQc] accepts ([verifyQc_accepts]), that a majority
      of votes is turned into something it accepts
      ([majority_certificate_verifies]), that so is the certificate an engine seals
      its tesseract with ([finalized_certificate_verifies]), that the thresholds both
      ask for are those of every cluster read from the chain, with or without
      excluded accounts ([fetched_thresholds_cover]), and what the height vote set
      certifies ([GetQC_certifies], [AddQc_transports_majority]).
    - Committees: they are well formed however they are built
      ([cluster_starts], [raw_committee_agrees]), and the lookups implement a
      flat list ([committee_lookup_refines_flat]).
    - The node: the locks of an account exclude writers unless a lock of a third kind
      is asked for that account ([engine_locks_exclusive]), and slots share no
      account under the conditions named there ([writers_disjoint]; the examples
      behind it show what each condition is for); an agreement starts after both
      quorums and once for a slot ([handlePrepared_starts]), future messages are
      answered once, when their view starts ([future_messages]), a leader's proposal is accepted by the members
      ([honest_proposal_validates]), and a failed one stalls its cluster
      ([failed_proposal_stalls]).
    - Operator selection ([eligible_is_best]), views ([updateHighestVI_raises]),
      the tracker ([tracker_refines]) and the genesis ([genesis_setup]).
    - A whole node: it never reports an account lock to its leader
      ([prepared_reports_no_lock]) and cannot be closed ([node_never_closes]).
    - The transport: no send or close on a closed channel ([transport_safe]); a
      closed cluster leaves no peer behind, and its clean-up ends while
      [peerLifeCycle] runs and waits while it does not ([deregister_cleans]); and
      what one full peer does to all ([full_peer_blocks_all]).
    - The log: [wal_roundtrip], [wal_detects_damage], [search_finds_newest].

    ** Fuel and bounds

    Recursion is structural, apart from three loops that carry fuel.
    [HVS_SetView] opens views with fuel the length of its range
    ([SetView_opens_views] shows that the range is opened, so the fuel is enough);
    [ClearActiveAccount] walks an array with fuel its length; the search of the
    log has fuel for the records of a file and a count for the files, and
    [search_finds_newest] gives the amount that suffices.

    ** What is assumed

    Calls on one object are atomic, which the code's mutexes give it.  A panic
    ends the run, after the deferred functions that do more than log or unlock:
    [enterCommit] finalizes in one.  A send never blocks, except in the transport,
    where the sender of a close request waits for [peerLifeCycle] and that waits
    for a full peer channel; [loop_bounded] shows it for the channels the agreement
    writes.  What the agreement sends keeps the reference to the signers' bit array
    and is encoded later.  An agreement is given the cluster state, the database and the heap
    as they are when it starts.  A spawned handler looks its slot up when it is
    spawned.  A nil vote set panics where the code first uses it.  In the engine
    the results of transport calls come from the environment, and the transport is
    modelled on its own, with its direct-peer lock as [Transport.v] says.
    Signatures are code outside the repository: [CertificateSpec.v] assumes that
    aggregates of one or more valid signatures verify, and [Network.v] that what checks under
    the key of a node that runs the code is for something the node has signed.

    ** What is not modelled

    Metrics ([metrics.go], [transport/metrics.go]), tracing and logging, which do
    not affect results; [minter.go], the gossip routines of [router.go], parts of
    [peerset.go] and [transport.go], [isTimely], [verifyOperatorLottery] and
    [runLottery], which are commented out; the options and event types of [kbft]
    (setters of a logger, a log and an evidence object; the event mux is nil in
    the program); the start and stop of the transport's goroutines; and the file
    group below the log, the network, the store, the VRF and the virtual machine,
    which are other modules. *)

From stdpp Require Import base gmap strings list fin_maps.
From Stdlib Require Import ZArith Lia Strings.Byte.

#[global] Open Scope Z_scope.

(** ** Outcomes of a Go call

    A Go function that returns is [Ret]; a run-time panic (index out of range,
    nil dereference, [log.Panic], an explicit [panic]) is [Panic]; a loop that
    never leaves is [Hang].  Go's [error] values are ordinary results. *)
Inductive res (A : Type) : Type :=
| Ret (a : A)
| Panic (msg : string)
| Hang.
Arguments Ret {A} a.
Arguments Panic {A} msg.
Arguments Hang {A}.

#[export] Instance res_ret : MRet res := @Ret.
#[export] Instance res_bind : MBind res := λ A B f m,
  match m with
  | Ret a => f a
  | Panic s => Panic s
  | Hang => Hang
  end.

(** Go [error] values: a fresh error of this repository, a wrapped one, or one
    of the sentinel values of the [common] package by its name, or an error value
    produced by code outside the repository. *)
Inductive err : Type :=
| ENew (msg : string)
| EWrap (e : err) (msg : string)
| ECommon (name : string)
| EExternal (msg : string).
#[export] Instance err_eq_dec : EqDecision err.
Proof. solve_decision. Defined.

#[export] Instance byte_eq_dec : EqDecision Byte.byte := Byte.byte_eq_dec.
Abbreviation bytes := (list Byte.byte).

Lemma bind_Ret {A B} (m : res A) (f : A → res B) b :
  (m ≫= f) = Ret b ↔ ∃ a, m = Ret a ∧ f a = Ret b.
Proof. destruct m; cbn; naive_solver. Qed.

(** Splits a monadic success hypothesis into the successes of its steps. *)
Ltac res_inv :=
  repeat match goal with
  | H : (_ ≫= _) = Ret _ |- _ =>
      apply bind_Ret in H; destruct H as (? & ? & H); cbn beta iota in H
  | H : mret _ = Ret _ |- _ => injection H; clear H; intros
  | H : Ret _ = Ret _ |- _ => injection H; clear H; intros
  | H : Panic _ = Ret _ |- _ => discriminate H
  | H : Hang = Ret _ |- _ => discriminate H
  | H : (_, _) = (_, _) |- _ => injection H; clear H; intros
  end; simplify_eq.

(** Evaluated runs: a run is known to return by computing a boolean, and what is
    seen of its result by computing only that. *)
Definition returns {A} (r : res A) : bool := match r with Ret _ => true | _ => false end.
Definition run_value {A} (d : A) (r : res A) : A := match r with Ret a => a | _ => d end.
Lemma run_value_run {A} (d : A) (r : res A) : returns r = true → r = Ret (run_value d r).
Proof. by destruct r. Qed.
Lemma run_value_pair {A B} (d : A * B) (r : res (A * B)) :
  returns r = true → r = Ret ((run_value d r).1, (run_value d r).2).
Proof. by destruct r as [[a b]| |]. Qed.
Lemma Ret_seen {A B} (f : A → B) (r : res A) (a : A) (b : B) :
  r = Ret a → (x ← r; Ret (f x)) = Ret b → f a = b.
Proof. intros -> [= <-]. done. Qed.

(** ** Calls that return a value or an error

    [let! x := call in rest] is [x, err := call; if err != nil { return err }; rest]. *)
Definition ebind {A B} (m : res (A + err)) (f : A → res (B + err)) : res (B + err) :=
  match m with
  | Ret (inl a) => f a
  | Ret (inr e) => Ret (inr e)
  | Panic s => Panic s
  | Hang => Hang
  end.
Notation "'let!' x ':=' m 'in' k" := (ebind m (λ x, k))
  (at level 200, x name, m at level 100, k at level 200, right associativity).
Notation "'let!' ' x ':=' m 'in' k" := (ebind m (λ x, k))
  (at level 200, x strict pattern, m at level 100, k at level 200, right associativity).
Lemma ebind_inl {A B} (m : res (A + err)) (f : A → res (B + err)) b :
  ebind m f = Ret (inl b) ↔ ∃ a, m = Ret (inl a) ∧ f a = Ret (inl b).
Proof. destruct m as [[a|e]| |]; cbn; naive_solver. Qed.
(** [if err := f(x); err != nil { return err }] over a slice. *)
Fixpoint firstErr {A} (f : A → option err) (l : list A) : option err :=
  match l with
  | [] => None
  | x :: l' => match f x with Some e => Some e | None => firstErr f l' end
  end.
Lemma firstErr_None {A} (f : A → option err) l : firstErr f l = None ↔ ∀ x, x ∈ l → f x = None.
Proof.
  induction l as [|x l IH]; cbn; [set_solver|]. destruct (f x) as [e|] eqn:E.
  - split; [done|]. intros H. rewrite (H x) in E by set_solver. done.
  - rewrite IH. set_solver.
Qed.
(** A loop whose body may end the function with an error. *)
Fixpoint efold {A B} (f : B → A → res (B + err)) (l : list A) (b : B) : res (B + err) :=
  match l with
  | [] => Ret (inl b)
  | x :: l' => ebind (f b x) (efold f l')
  end.

(** The loop rule over an indexed range: an invariant that holds at every index
    holds at the end, unless the loop ends with an error. *)
Lemma efold_range {A B} (P : nat → B → Prop) (f : B → Z * A → res (B + err)) (l : list A) (k : nat) b :
  P k b →
  (∀ i a b, l !! i = Some a → P (k + i)%nat b →
     ∃ r, f b (Z.of_nat (k + i), a) = Ret r ∧ ∀ b', r = inl b' → P (S (k + i)) b') →
  ∃ r, efold f (imap (λ i a, (Z.of_nat (k + i), a)) l) b = Ret r ∧
    ∀ b', r = inl b' → P (k + length l)%nat b'.
Proof.
  revert k b. induction l as [|a l IH]; intros k b Hb Hf; cbn.
  - eexists. split; [done|]. intros b' [= <-]. by rewrite Nat.add_0_r.
  - destruct (Hf 0%nat a b eq_refl) as (r & Hr & Hn); [by rewrite Nat.add_0_r|]. rewrite Hr.
    destruct r as [b1|e]; cbn; [|by exists (inr e)].
    destruct (IH (S k) b1) as (r' & Hr' & Hn').
    + specialize (Hn b1 eq_refl). by rewrite Nat.add_0_r in Hn.
    + intros i a' b' Hl HP. specialize (Hf (S i) a' b' Hl). rewrite !Nat.add_succ_r in Hf. by apply Hf.
    + exists r'. rewrite Nat.add_succ_r. split; [|exact Hn']. rewrite <-Hr'. f_equal.
      apply imap_ext. intros i x _. cbn. do 2 f_equal. lia.
Qed.

(** ** Machine integers *)
Definition u64 (x : Z) : Z := x mod 2 ^ 64.
Definition u32 (x : Z) : Z := x mod 2 ^ 32.
Definition u8 (x : Z) : Z := x mod 2 ^ 8.
Definition i32 (x : Z) : Z := (x + 2 ^ 31) mod 2 ^ 32 - 2 ^ 31.
Definition max_u64 : Z := 2 ^ 64 - 1.

Lemma u64_small x : 0 ≤ x < 2 ^ 64 → u64 x = x.
Proof. apply Z.mod_small. Qed.
Lemma u32_small x : 0 ≤ x < 2 ^ 32 → u32 x = x.
Proof. apply Z.mod_small. Qed.
Lemma u64_range x : 0 ≤ u64 x < 2 ^ 64.
Proof. unfold u64. apply Z.mod_pos_bound. lia. Qed.
Lemma u32_add_l x y : u32 (u32 x + y) = u32 (x + y).
Proof. unfold u32. apply Zplus_mod_idemp_l. Qed.
Lemma i32_small x : - 2 ^ 31 ≤ x < 2 ^ 31 → i32 x = x.
Proof. intros. unfold i32. rewrite Z.mod_small; lia. Qed.

(** ** Slices: Go panics where stdpp's lookup gives [None] *)
Definition go_index {A} (l : list A) (i : Z) : res A :=
  if i <? 0 then Panic "index out of range"
  else match l !! Z.to_nat i with
       | Some x => Ret x
       | None => Panic "index out of range"
       end.

Definition go_update {A} (l : list A) (i : Z) (x : A) : res (list A) :=
  _ ← go_index l i; Ret (<[Z.to_nat i := x]> l).

(** [s\[:hi\]] and [s\[lo:\]] of a slice whose capacity is its length. *)
Definition go_slice {A} (l : list A) (lo hi : Z) : res (list A) :=
  if (lo <? 0) || (hi <? lo) || (Z.of_nat (length l) <? hi)
  then Panic "slice bounds out of range"
  else Ret (drop (Z.to_nat lo) (take (Z.to_nat hi) l)).

(** Dereference of a pointer that may be nil. *)
Definition deref {A} (p : option A) : res A :=
  match p with
  | Some x => Ret x
  | None => Panic "nil pointer dereference"
  end.

Definition zlen {A} (l : list A) : Z := Z.of_nat (length l).

Lemma go_index_Ret {A} (l : list A) i x :
  go_index l i = Ret x ↔ 0 ≤ i ∧ l !! Z.to_nat i = Some x.
Proof.
  unfold go_index. destruct (Z.ltb_spec i 0); [split; [done|lia]|].
  destruct (l !! Z.to_nat i); naive_solver.
Qed.

Lemma go_index_nat {A} (l : list A) (i : nat) x :
  l !! i = Some x → go_index l (Z.of_nat i) = Ret x.
Proof. intros H. apply go_index_Ret. rewrite Nat2Z.id. split; [lia|done]. Qed.

Lemma go_index_lt {A} (l : list A) i :
  0 ≤ i < zlen l → ∃ x, go_index l i = Ret x ∧ l !! Z.to_nat i = Some x.
Proof.
  intros H. destruct (lookup_lt_is_Some_2 l (Z.to_nat i)) as [x Hx].
  - unfold zlen in H. lia.
  - exists x. split; [|done]. apply go_index_Ret. split; [lia|done].
Qed.

Lemma go_update_Ret {A} (l : list A) i x l' :
  go_update l i x = Ret l' ↔
  0 ≤ i ∧ (Z.to_nat i < length l)%nat ∧ l' = <[Z.to_nat i := x]> l.
Proof.
  unfold go_update. rewrite bind_Ret. setoid_rewrite go_index_Ret. split.
  - intros (y & [? Hy] & [= <-]). apply lookup_lt_Some in Hy. done.
  - intros (? & [y Hy]%lookup_lt_is_Some_2 & ->). eauto.
Qed.

(** ** Monadic folds: the shape of Go's [for ... range] loops *)
Fixpoint foldM {A S} (f : S → A → res S) (l : list A) (s : S) : res S :=
  match l with
  | [] => Ret s
  | x :: l' => s' ← f s x; foldM f l' s'
  end.

Fixpoint mapM_res {A B} (f : A → res B) (l : list A) : res (list B) :=
  match l with
  | [] => Ret []
  | x :: l' => y ← f x; ys ← mapM_res f l'; Ret (y :: ys)
  end.

Lemma foldM_app {A S} (f : S → A → res S) l1 l2 s :
  foldM f (l1 ++ l2) s = (s' ← foldM f l1 s; foldM f l2 s').
Proof.
  revert s. induction l1 as [|x l1 IH]; intros s; cbn; [done|].
  destruct (f s x); cbn; auto.
Qed.

(** The loop rule: an invariant every iteration re-establishes, without panic. *)
Lemma foldM_inv {A S} (P : S → Prop) (f : S → A → res S) l s :
  P s → (∀ s x, x ∈ l → P s → ∃ s', f s x = Ret s' ∧ P s') →
  ∃ s', foldM f l s = Ret s' ∧ P s'.
Proof.
  revert s. induction l as [|x l IH]; intros s Hs Hf; cbn; [eauto|].
  destruct (Hf s x) as (s' & -> & Hs'); [set_solver|done|]. cbn.
  apply IH; [done|]. intros. apply Hf; [set_solver|done].
Qed.

Lemma foldM_preserves {A S} (P : S → Prop) (f : S → A → res S) l s s' :
  foldM f l s = Ret s' → P s →
  (∀ s x s', x ∈ l → f s x = Ret s' → P s → P s') → P s'.
Proof.
  revert s. induction l as [|x l IH]; intros s H Hs Hf; cbn in H; res_inv; [done|].
  eapply IH; [done| |]; [eapply Hf; [|done|done]; set_solver|].
  intros. eapply Hf; [|done|done]. set_solver.
Qed.

Lemma mapM_res_Forall2 {A B} (P : A → B → Prop) (f : A → res B) l :
  (∀ x, x ∈ l → ∃ y, f x = Ret y ∧ P x y) →
  ∃ ys, mapM_res f l = Ret ys ∧ Forall2 P l ys.
Proof.
  induction l as [|x l IH]; intros H; cbn; [by exists []; split|].
  destruct (H x) as (y & -> & Hy); [set_solver|].
  destruct IH as (ys & -> & Hys); [intros; apply H; set_solver|].
  exists (y :: ys). split; [done|by constructor].
Qed.

(** ** Sums over the indices of a slice *)
Definition sumZ (f : nat → Z) (n : nat) : Z :=
  foldr (λ i acc, f i + acc) 0 (seq 0 n).

Lemma foldr_plus_shift (f : nat → Z) l (a : Z) :
  foldr (λ i acc, f i + acc) a l = foldr (λ i acc, f i + acc) 0 l + a.
Proof. induction l as [|x l IH]; cbn; lia. Qed.

Lemma sumZ_S f n : sumZ f (S n) = sumZ f n + f n.
Proof.
  unfold sumZ. rewrite seq_S, foldr_app. cbn. rewrite foldr_plus_shift. lia.
Qed.

Lemma sumZ_ext f g n : (∀ i, (i < n)%nat → f i = g i) → sumZ f n = sumZ g n.
Proof.
  induction n as [|n IH]; intros H; [done|].
  rewrite !sumZ_S, IH by (intros; apply H; lia). rewrite H by lia. done.
Qed.

Lemma sumZ_0 f n : (∀ i, (i < n)%nat → f i = 0) → sumZ f n = 0.
Proof.
  induction n as [|n IH]; intros H; [done|].
  rewrite sumZ_S, IH by (intros; apply H; lia). rewrite H by lia. done.
Qed.

Lemma sumZ_le f g n : (∀ i, (i < n)%nat → f i ≤ g i) → sumZ f n ≤ sumZ g n.
Proof.
  induction n as [|n IH]; intros H; [done|]. rewrite !sumZ_S.
  assert (f n ≤ g n) by (apply H; lia).
  assert (sumZ f n ≤ sumZ g n) by (apply IH; intros; apply H; lia). lia.
Qed.

Lemma sumZ_nonneg f n : (∀ i, (i < n)%nat → 0 ≤ f i) → 0 ≤ sumZ f n.
Proof.
  intros H. rewrite <-(sumZ_0 (λ _, 0) n) by done. by apply sumZ_le.
Qed.

Lemma sumZ_plus f g n : sumZ (λ i, f i + g i) n = sumZ f n + sumZ g n.
Proof. induction n as [|n IH]; [done|]. rewrite !sumZ_S, IH. lia. Qed.

Lemma sumZ_update f g n k :
  (k < n)%nat → (∀ i, i ≠ k → g i = f i) → sumZ g n = sumZ f n + (g k - f k).
Proof.
  revert k. induction n as [|n IH]; intros k Hk H; [lia|]. rewrite !sumZ_S.
  destruct (decide (k = n)) as [->|].
  - rewrite (sumZ_ext g f n) by (intros; apply H; lia). lia.
  - rewrite (IH k) by (auto; lia). rewrite (H n) by done. lia.
Qed.

(** ** Option predicates as booleans *)
Definition is_some {A} (o : option A) : bool :=
  match o with Some _ => true | None => false end.
Lemma is_some_true {A} (o : option A) : is_some o = true ↔ is_Some o.
Proof. destruct o; cbn; split; naive_solver. Qed.

Lemma bool_decide_cons `{EqDecision A} (k i : A) (l : list A) :
  bool_decide (k = i) || bool_decide (k ∈ l) = bool_decide (k ∈ i :: l).
Proof. rewrite <-bool_decide_or. apply bool_decide_ext. by rewrite elem_of_cons. Qed.

Lemma bool_decide_nil `{EqDecision A} (k : A) : bool_decide (k ∈ []) = false.
Proof. apply bool_decide_eq_false, not_elem_of_nil. Qed.

(** Boolean tests of the code turned into propositions. *)
Create Rewrite HintDb gobool.
#[export] Hint Rewrite @is_some_true andb_true_iff orb_true_iff negb_true_iff
  andb_false_iff orb_false_iff negb_false_iff bool_decide_eq_true
  bool_decide_eq_false Z.eqb_eq Z.eqb_neq Z.ltb_lt Z.ltb_ge Z.leb_le Z.leb_gt
  : gobool.
Ltac bools := autorewrite with gobool in *.
