(* ===== verification/Effect.v ===== *)
(** * Methods that change a state and may fail

    A method of a Go struct reads and writes the struct, returns a value or an
    error and may panic: [eff S A].  What it wrote before an error stays written.
    [only R m] says that every run of [m] that returns, with a value or an error,
    relates the states before and after by [R]; for a preorder [R] it is proved
    method by method with one rule per construct. *)

From stdpp Require Import base list.
From Stdlib Require Import ZArith Relations.
From S2P Require Import Prelude.

Definition eff (S A : Type) : Type := S → res (S * (A + err)).

#[export] Instance eff_ret S : MRet (eff S) := λ A a s, Ret (s, inl a).
#[export] Instance eff_bind S : MBind (eff S) := λ A B f m s,
  match m s with
  | Ret (s', inl a) => f a s'
  | Ret (s', inr e) => Ret (s', inr e)
  | Panic msg => Panic msg
  | Hang => Hang
  end.

Section Eff.
Context {S : Type}.

Definition skip : eff S () := mret ().
(** [return err] *)
Definition raise {A} (e : err) : eff S A := λ s, Ret (s, inr e).
(** A call of a pure function that may panic, that returns a value or an error,
    or both. *)
Definition lift {A} (r : res A) : eff S A := λ s,
  match r with Ret a => Ret (s, inl a) | Panic msg => Panic msg | Hang => Hang end.
Definition lift_or {A} (r : A + err) : eff S A := λ s, Ret (s, r).
Definition lift_res {A} (r : res (A + err)) : eff S A := λ s,
  match r with Ret a => Ret (s, a) | Panic msg => Panic msg | Hang => Hang end.
(** [if err := f(); err != nil { return err }] *)
Definition check (e : option err) : eff S () := λ s,
  Ret (s, match e with Some e => inr e | None => inl () end).
Definition gets {A} (f : S → A) : eff S A := λ s, Ret (s, inl (f s)).
Definition modify (f : S → S) : eff S () := λ s, Ret (f s, inl ()).
(** [x, err := f()] with the error looked at by the caller. *)
Definition attempt {A} (m : eff S A) : eff S (A + err) := λ s,
  match m s with
  | Ret (s', r) => Ret (s', inl r)
  | Panic msg => Panic msg
  | Hang => Hang
  end.
Fixpoint for_each {A} (l : list A) (f : A → eff S ()) : eff S () :=
  match l with
  | [] => skip
  | x :: l' => _ ← f x; for_each l' f
  end.
(** A loop that carries a value. *)
Fixpoint for_fold {A B} (l : list A) (f : B → A → eff S B) (b : B) : eff S B :=
  match l with
  | [] => mret b
  | x :: l' => b' ← f b x; for_fold l' f b'
  end.

(** ** The relation between the states before and after *)
Definition only (R : relation S) {A} (m : eff S A) : Prop := ∀ s s' r, m s = Ret (s', r) → R s s'.

Section Only.
Context (R : relation S) `{!PreOrder R}.

Lemma only_ret {A} (a : A) : only R (mret a).
Proof. by intros s s' r [= <- _]. Qed.
Lemma only_bind {A B} (m : eff S A) (f : A → eff S B) :
  only R m → (∀ a, only R (f a)) → only R (m ≫= f).
Proof.
  intros Hm Hf s s' r. unfold mbind, eff_bind. destruct (m s) as [[s1 [a|e]]| |] eqn:E; [|..|done|done].
  - intros H. etrans; [by eapply Hm|]. by eapply Hf.
  - intros [= <- _]. by eapply Hm.
Qed.
Lemma only_raise {A} e : only R (raise (A:=A) e).
Proof. by intros s s' r [= <- _]. Qed.
Lemma only_lift {A} (x : res A) : only R (lift x).
Proof. intros s s' r. unfold lift. destruct x; [|done|done]. by intros [= <- _]. Qed.
Lemma only_lift_or {A} (x : A + err) : only R (lift_or x).
Proof. by intros s s' r [= <- _]. Qed.
Lemma only_lift_res {A} (x : res (A + err)) : only R (lift_res x).
Proof. intros s s' r. unfold lift_res. destruct x; [|done|done]. by intros [= <- _]. Qed.
Lemma only_check e : only R (check e).
Proof. by intros s s' r [= <- _]. Qed.
Lemma only_gets {A} (f : S → A) : only R (gets f).
Proof. by intros s s' r [= <- _]. Qed.
Lemma only_modify f : (∀ s, R s (f s)) → only R (modify f).
Proof. by intros Hf s s' r [= <- _]. Qed.
Lemma only_attempt {A} (m : eff S A) : only R m → only R (attempt m).
Proof.
  intros Hm s s' r. unfold attempt. destruct (m s) as [[s1 x]| |] eqn:E; [|done|done].
  intros [= <- _]. by eapply Hm.
Qed.
Lemma only_for_each {A} (l : list A) f : (∀ x, only R (f x)) → only R (for_each l f).
Proof. intros Hf. induction l; [apply only_ret|]. by apply only_bind. Qed.
Lemma only_for_fold {A B} (l : list A) (f : B → A → eff S B) b :
  (∀ b x, only R (f b x)) → only R (for_fold l f b).
Proof. intros Hf. revert b. induction l; intros b; [apply only_ret|]. by apply only_bind. Qed.
End Only.

(** ** Methods that return no error *)
Definition quiet {A} (m : eff S A) : Prop := ∀ s s' e, m s ≠ Ret (s', inr e).
Lemma quiet_ret {A} (a : A) : quiet (mret a).
Proof. done. Qed.
Lemma quiet_bind {A B} (m : eff S A) (f : A → eff S B) : quiet m → (∀ a, quiet (f a)) → quiet (m ≫= f).
Proof.
  intros Hm Hf s s' e. unfold mbind, eff_bind. destruct (m s) as [[s1 [a|e1]]| |] eqn:E; [apply Hf| |done|done].
  by apply Hm in E.
Qed.
Lemma quiet_lift {A} (x : res A) : quiet (lift x).
Proof. intros s s' e. unfold lift. by destruct x. Qed.
Lemma quiet_gets {A} (f : S → A) : quiet (gets f).
Proof. done. Qed.
Lemma quiet_modify f : quiet (modify f).
Proof. done. Qed.
Lemma quiet_attempt {A} (m : eff S A) : quiet (attempt m).
Proof. intros s s' e. unfold attempt. by destruct (m s) as [[? ?]| |]. Qed.
Lemma quiet_for_each {A} (l : list A) f : (∀ x, quiet (f x)) → quiet (for_each l f).
Proof. intros Hf. induction l; [apply quiet_ret|]. by apply quiet_bind. Qed.
Lemma quiet_run {A} (m : eff S A) s s' r : quiet m → m s = Ret (s', r) → ∃ a, r = inl a.
Proof. intros Hq H. destruct r as [a|e]; [by exists a|]. by apply Hq in H. Qed.

(** ** Runs *)
Lemma bind_run {A B} (m : eff S A) (f : A → eff S B) s s1 a :
  m s = Ret (s1, inl a) → (m ≫= f) s = f a s1.
Proof. intros H. unfold mbind, eff_bind. by rewrite H. Qed.
Lemma bind_fails {A B} (m : eff S A) (f : A → eff S B) s s1 e :
  m s = Ret (s1, inr e) → (m ≫= f) s = Ret (s1, inr e).
Proof. intros H. unfold mbind, eff_bind. by rewrite H. Qed.
Lemma bind_panics {A B} (m : eff S A) (f : A → eff S B) s msg :
  m s = Panic msg → (m ≫= f) s = Panic msg.
Proof. intros H. unfold mbind, eff_bind. by rewrite H. Qed.
Lemma bind_inl {A B} (m : eff S A) (f : A → eff S B) s s' b :
  (m ≫= f) s = Ret (s', inl b) ↔ ∃ s1 a, m s = Ret (s1, inl a) ∧ f a s1 = Ret (s', inl b).
Proof.
  unfold mbind, eff_bind. destruct (m s) as [[s1 [a|e]]| |]; split; try done; intros H.
  - by exists s1, a.
  - by destruct H as (? & ? & [= <- <-] & H).
  - by destruct H as (? & ? & ? & ?).
  - by destruct H as (? & ? & ? & ?).
  - by destruct H as (? & ? & ? & ?).
Qed.
Lemma bind_cases {A B} (m : eff S A) (f : A → eff S B) s s' r :
  (m ≫= f) s = Ret (s', r) →
  (∃ s1 a, m s = Ret (s1, inl a) ∧ f a s1 = Ret (s', r)) ∨ (∃ e, m s = Ret (s', inr e) ∧ r = inr e).
Proof.
  unfold mbind, eff_bind. destruct (m s) as [[s1 [a|e]]| |]; [..|done|done].
  - intros H. left. by exists s1, a.
  - intros [= <- <-]. right. by exists e.
Qed.
Lemma attempt_run {A} (m : eff S A) s s' r : m s = Ret (s', r) → attempt m s = Ret (s', inl r).
Proof. unfold attempt. by intros ->. Qed.
(** A call whose error is only logged. *)
Lemma attempt_skip {A} (m : eff S A) s s' r :
  (_ ← attempt m; skip) s = Ret (s', r) ↔ (∃ x, m s = Ret (s', x)) ∧ r = inl ().
Proof.
  unfold mbind, eff_bind, attempt. destruct (m s) as [[s1 x]| |]; split; try done.
  - intros [= <- <-]. split; [by exists x|done].
  - by intros [[y [= <- _]] ->].
  - by intros [[y ?] _].
  - by intros [[y ?] _].
Qed.
Lemma gets_inl {A} (f : S → A) s s' a : gets f s = Ret (s', inl a) ↔ s' = s ∧ a = f s.
Proof. split; [by intros [= <- <-]|by intros [-> ->]]. Qed.
Lemma modify_inl f (s s' : S) a : modify f s = Ret (s', inl a) ↔ s' = f s.
Proof. split; [by intros [= <- _]|by intros ->; destruct a]. Qed.
Lemma check_inl e (s s' : S) a : check e s = Ret (s', inl a) ↔ s' = s ∧ e = None.
Proof. unfold check. destruct e, a; split; intros H; try done; [by destruct H|by injection H as <-|by destruct H as [-> _]]. Qed.
Lemma lift_inl {A} (x : res A) (s s' : S) a : lift x s = Ret (s', inl a) ↔ s' = s ∧ x = Ret a.
Proof. unfold lift. destruct x; split; intros H; try done; [by injection H as <- <-|by destruct H as [-> [= ->]]|by destruct H..]. Qed.
Lemma lift_res_inl {A} (x : res (A + err)) (s s' : S) a : lift_res x s = Ret (s', inl a) ↔ s' = s ∧ x = Ret (inl a).
Proof. unfold lift_res. destruct x; split; intros H; try done; [by injection H as <- ->|by destruct H as [-> [= ->]]|by destruct H..]. Qed.
Lemma lift_or_inl {A} (x : A + err) (s s' : S) a : lift_or x s = Ret (s', inl a) ↔ s' = s ∧ x = inl a.
Proof. unfold lift_or. split; intros H; [by injection H as <- ->|by destruct H as [-> ->]]. Qed.
Lemma gets_bind {A B} (g : S → A) (f : A → eff S B) s : (gets g ≫= f) s = f (g s) s.
Proof. done. Qed.
Lemma modify_bind {B} (g : S → S) (f : () → eff S B) s : (modify g ≫= f) s = f () (g s).
Proof. done. Qed.
End Eff.

(** A run that returned a value, taken apart into its steps. *)
Ltac eff_atom H :=
  lazymatch type of H with
  | gets _ _ = _ => apply gets_inl in H as [-> ->]
  | modify _ _ = _ => apply modify_inl in H as ->
  | check _ _ = _ => apply check_inl in H as [-> H]
  | lift _ _ = _ => apply lift_inl in H as [-> H]
  | lift_res _ _ = _ => apply lift_res_inl in H as [-> H]
  | lift_or _ _ = _ => apply lift_or_inl in H as [-> H]
  | _ => idtac
  end.
Ltac eff_steps H :=
  repeat lazymatch type of H with
  | (_ ≫= _) _ = Ret (_, inl _) =>
      let s := fresh "s" in let a := fresh "a" in let Ha := fresh "Ha" in
      apply bind_inl in H as (s & a & Ha & H); eff_atom Ha
  end; eff_atom H.

(** One rule per construct; the branches of a [match] or an [if] are split. *)
Ltac quiets :=
  repeat lazymatch goal with
  | |- quiet (mbind _ _) => apply quiet_bind; [|intros ?]
  | |- quiet (mret _) => apply quiet_ret
  | |- quiet skip => apply quiet_ret
  | |- quiet (lift _) => apply quiet_lift
  | |- quiet (gets _) => apply quiet_gets
  | |- quiet (modify _) => apply quiet_modify
  | |- quiet (attempt _) => apply quiet_attempt
  | |- quiet (for_each _ _) => apply quiet_for_each; intros ?
  | |- quiet (match ?x with _ => _ end) => destruct x
  end.

(** The same for [only]; a development adds its own methods to the database. *)
Create HintDb eff.
#[export] Hint Resolve only_ret only_raise only_lift only_lift_or only_lift_res only_check only_gets : eff.
Ltac only_steps :=
  repeat lazymatch goal with
  | |- only _ (mbind _ _) => apply only_bind; [apply _| |intros ?]
  | |- only _ (attempt _) => apply only_attempt
  | |- only _ (for_each _ _) => apply only_for_each; [apply _|intros ?]
  | |- only _ (for_fold _ _ _) => apply only_for_fold; [apply _|intros ? ?]
  | |- only _ (match ?x with _ => _ end) => destruct x
  | |- only _ _ => solve [eauto 3 with eff typeclass_instances]
  end.
