(* ===== verification/External.v ===== *)
(** * What the engine uses of code outside the repository

    The module [go-moi/common] (hashes, bit arrays, quorum certificates,
    participants, tesseracts), [go-moi/crypto], [go-legacy-kramaid] and
    [go-moi-identifiers] are not part of the repository.  Their types are
    either abstract or records with the fields the repository reads and
    writes; their functions are fields of the classes below, so every
    definition that calls them takes them as an argument.  The laws a theorem
    relies on are the separate classes [BitLaws] and [TesseractLaws]. *)

From stdpp Require Import base gmap strings list.
From Stdlib Require Import ZArith.
From S2P Require Import Prelude.

(** [kramaid.KramaID] and [common.ClusterID] are string types: the source
    compares them with the empty string and converts them from strings. *)
Abbreviation KramaID := string.
Abbreviation ClusterID := string.

(** [common.ConsensusMsgType]: the constants the source names, and the other
    values a message from the network may carry. *)
Inductive ConsensusMsgType : Set :=
| PREVOTE
| PRECOMMIT
| PROPOSAL
| OtherMsgType (n : Z).
#[export] Instance ConsensusMsgType_eq_dec : EqDecision ConsensusMsgType.
Proof. solve_decision. Defined.

(** [common.LockType]. *)
Inductive LockType : Set :=
| MutateLock
| ReadLock
| NoLock
| OtherLock (n : Z).
#[export] Instance LockType_eq_dec : EqDecision LockType.
Proof. solve_decision. Defined.

(** [common.Hash], [identifiers.Address] and [*common.ArrayOfBits]. *)
Class ExtTypes := {
  Hash : Type;
  #[global] Hash_eq_dec :: EqDecision Hash;
  #[global] Hash_countable :: Countable Hash;
  NilHash : Hash;
  Address : Type;
  NilAddress : Address;
  #[global] Address_eq_dec :: EqDecision Address;
  #[global] Address_countable :: Countable Address;
  Bits : Type;
  NewArrayOfBits : Z → Bits;
  SetIndex : Bits → Z → bool → Bits;
  GetIndex : Bits → Z → bool;
  GetTrueIndices : Bits → list Z;
  TrueIndicesSize : Bits → Z;
  BitsIsEmpty : Bits → bool;
  BitsCopy : Bits → Bits;
  BitsSize : Bits → Z;
  (** [GetTrueIndices] called on a nil pointer *)
  NilTrueIndices : res (list Z);
}.

(** The documented behaviour of [common.ArrayOfBits]. *)
Class BitLaws (ET : ExtTypes) : Prop := {
  bits_new_size : ∀ n, 0 ≤ n → BitsSize (NewArrayOfBits n) = n;
  bits_new_get : ∀ n i, GetIndex (NewArrayOfBits n) i = false;
  bits_set_size : ∀ b i v, BitsSize (SetIndex b i v) = BitsSize b;
  bits_set_get : ∀ b i v j, 0 ≤ i < BitsSize b →
    GetIndex (SetIndex b i v) j = if decide (i = j) then v else GetIndex b j;
  bits_get_range : ∀ b i, GetIndex b i = true → 0 ≤ i < BitsSize b;
  bits_true : ∀ b,
    GetTrueIndices b = filter (λ i, GetIndex b i = true) (seqZ 0 (BitsSize b));
  bits_true_size : ∀ b, TrueIndicesSize b = zlen (GetTrueIndices b);
  bits_empty : ∀ b, BitsIsEmpty b = true ↔ GetTrueIndices b = [];
  bits_copy_size : ∀ b, BitsSize (BitsCopy b) = BitsSize b;
  bits_copy_get : ∀ b i, GetIndex (BitsCopy b) i = GetIndex b i;
}.

Section Data.
Context `{ET : ExtTypes}.

(** [common.Qc] *)
Record Qc := {
  Qc_Type : ConsensusMsgType;
  Qc_View : Z;
  Qc_TSHash : Hash;
  Qc_Address : Address;
  Qc_SignerIndices : option Bits;
  Qc_Signature : bytes;
}.

(** [common.ViewInfo]; a nil slice is [None], in [common.Views] too. *)
Record ViewInfo := {
  VI_Addr : Address;
  VI_LastView : Z;
  VI_CurrentLock : LockType;
  VI_Qc : option (list Qc);
}.
Definition Views := option (list ViewInfo).

(** [common.DeltaGroup] *)
Record DeltaGroup := {
  BehaviouralNodes : list KramaID;
  RandomNodes : list KramaID;
}.

(** [common.Participant]: the fields the repository uses *)
Record Participant := {
  P_Height : Z;
  P_IsGenesis : bool;
  P_TesseractHash : Hash;
  P_NodeSetPosition : Z;
  P_ConsensusQuorum : Z;
  P_ExcludeFromICS : bool;
  P_ContextDelta : option DeltaGroup;
  P_AccType : Z;
  P_LockType : LockType;
  P_IsSigner : bool;
  P_ContextHash : Hash;
  P_CommitHash : Hash;
}.
End Data.

(** [crypto] and the methods of [common.Participant(s)]. *)
Class ExtOps (ET : ExtTypes) := {
  (** [crypto.Verify(data, signature, publicKey)] *)
  Verify : bytes → bytes → bytes → bool * option err;
  (** [crypto.VerifyAggregateSignature(data, signature, publicKeys)] *)
  VerifyAggregateSignature : bytes → bytes → list bytes → bool * option err;
  (** [crypto.AggregateSignatures(signatures)] *)
  CryptoAggregateSignatures : list bytes → bytes * option err;
  Participant_NewHeight : Participant → Z;
  Participant_TSHash : Participant → Hash;
  (** [common.Participants.ExcludeFromICS(addrs)], on the map it mutates *)
  Participants_ExcludeFromICS : gmap Address Participant → list Address → gmap Address Participant;
  Participant_ExcludedFromICS : Participant → bool;
  (** [common.GetHash] *)
  GetHash : bytes → Hash;
  (** [common.Interactions]; the hashes of [IxList()] in order *)
  Interactions : Type;
  IxHashes : Interactions → list Hash;
  (** [state.Transition] *)
  Transition : Type;
  NewTransition : Transition;
  MaxBehaviourContextSize : Z;
  MaxRandomContextSize : Z;
  (** [utils.ContainsKramaID] *)
  ContainsKramaID : list KramaID → KramaID → bool;
}.

(** [common.Tesseract] values (the pointed-to structs). *)
Class TesseractOps (ET : ExtTypes) := {
  Tesseract : Type;
  TsHash : Tesseract → Hash;
  TsHeights : Tesseract → gmap Address Z;
  TsCompareHash : Tesseract → Hash → bool;
  TsClusterID : Tesseract → ClusterID;
  TsAccountLocks : Tesseract → gmap Address LockType;
  TsIxListLen : Tesseract → Z;
  TsSignBytes : Tesseract → bytes + err;
  TsSetCommitQc : Tesseract → Qc → Tesseract;
  TsSetSeal : Tesseract → bytes → Tesseract;
  TsSetSealBy : Tesseract → KramaID → Tesseract;
  TsCopy : Tesseract → Tesseract;
}.

(** What the engine relies on: [CompareHash] compares with [Hash], and the
    certificate and the seal are outside the hashed part. *)
Class TesseractLaws (ET : ExtTypes) (TO : TesseractOps ET) : Prop := {
  ts_compare : ∀ t h, TsCompareHash t h = true ↔ TsHash t = h;
  ts_hash_qc : ∀ t q, TsHash (TsSetCommitQc t q) = TsHash t;
  ts_hash_seal : ∀ t s, TsHash (TsSetSeal t s) = TsHash t;
  ts_hash_seal_by : ∀ t k, TsHash (TsSetSealBy t k) = TsHash t;
  ts_hash_copy : ∀ t, TsHash (TsCopy t) = TsHash t;
}.

(** ** Facts every client of the bit array uses *)
Section BitFacts.
Context `{ET : ExtTypes} `{!BitLaws ET}.

Lemma bits_true_elem b i : i ∈ GetTrueIndices b ↔ GetIndex b i = true.
Proof.
  rewrite bits_true, list_elem_of_filter, elem_of_seqZ. split; [tauto|].
  intros H. split; [done|]. apply bits_get_range in H. lia.
Qed.

Lemma bits_true_NoDup b : NoDup (GetTrueIndices b).
Proof. rewrite bits_true. apply NoDup_filter, NoDup_seqZ. Qed.

Lemma bits_get_neg b i : i < 0 → GetIndex b i = false.
Proof.
  intros H. destruct (GetIndex b i) eqn:E; [|done].
  apply bits_get_range in E. lia.
Qed.
End BitFacts.
