(* ===== verification/Chain.v ===== *)
(** * What the engine uses of the chain

    The state manager, the lattice of tesseracts and the interaction types belong
    to other modules; the source reaches them through the interfaces
    [stateManager], [lattice] and [store].  Their answers depend on the chain state
    of the node, the abstract [World]. *)

From stdpp Require Import base gmap strings list.
From Stdlib Require Import ZArith.
From S2P Require Import Prelude External.

Section Data.
Context `{ET : ExtTypes}.

(** [common.AccountMetaInfo] *)
Record AccountMetaInfo := {
  AM_Type : Z;
  AM_Height : Z;
  AM_TesseractHash : Hash;
  AM_CommitHash : Hash;
  AM_ContextHash : Hash;
  AM_PositionInContextSet : Z;
}.

(** [common.ParticipantInfo], what an interaction says about an account. *)
Record ParticipantInfo := {
  PInfo_AccType : Z;
  PInfo_IsGenesis : bool;
  PInfo_LockType : LockType;
  PInfo_IsSigner : bool;
}.

(** [common.CommitInfo]: the fields the repository reads. *)
Record CommitInfo := {
  CI_QC : option Qc;
  CI_RandomSet : list KramaID;
  CI_RandomSetSizeWithoutDelta : Z;
  CI_Operator : KramaID;
  CI_ClusterID : ClusterID;
  CI_View : Z;
}.

(** [common.State], the entry of one account in a tesseract. *)
Record PState := {
  PS_PreviousContext : Hash;
  PS_StateHash : Hash;
  PS_Height : Z;
  PS_TransitiveLink : Hash;
  PS_LatestContext : Hash;
  PS_ContextDelta : option DeltaGroup;
}.
End Data.

(** [common.IxOpType]: the constants the source names. *)
Inductive IxOpType : Set :=
| IxParticipantCreate
| IxAssetTransfer
| IxAssetCreate
| IxAssetMint
| IxAssetBurn
| IxLogicDeploy
| IxLogicInvoke
| IxLogicEnlist
| IxOtherOp (n : Z).

(** [common.Interaction(s)].  An operation's payload is read by a method that may
    fail: the amount of a participant creation, the asset and the amount of a
    transfer, the registry key of an asset creation. *)
Class InteractionOps (ET : ExtTypes) (EX : ExtOps ET) := {
  Interaction : Type;
  IxOp : Type;
  AssetID : Type;
  IxList : Interactions → list Interaction;
  Ixs_Participants : Interactions → gmap Address ParticipantInfo;
  Ixs_Locks : Interactions → gmap Address LockType;
  Ixs_LeaderCandidateAddress : Interactions → Address;
  Ixs_Hash : Interactions → Hash + err;
  Ix_Sender : Interaction → Address;
  Ix_Nonce : Interaction → Z;
  Ix_Cost : Interaction → Z;
  Ix_Ops : Interaction → list IxOp;
  Op_Type : IxOp → IxOpType;
  Op_CreateAmount : IxOp → Z + err;
  Op_TransferPayload : IxOp → (AssetID * Z) + err;
  Op_RegistryKey : IxOp → string + err;
  Address_IsNil : Address → bool;
  KMOITokenAssetID : AssetID;
}.

(** [common.Tesseract]: what the validation reads. *)
Class TesseractView (ET : ExtTypes) (EX : ExtOps ET) (TO : TesseractOps ET) := {
  TsAddresses : Tesseract → list Address;
  TsParticipants : Tesseract → gmap Address PState;
  (** [Participants().IsExcluded(addr)] *)
  TsIsExcluded : Tesseract → Address → bool;
  TsView : Tesseract → Z;
  TsCommit : Tesseract → option CommitInfo;
  TsHeight : Tesseract → Address → Z;
  TsTransitiveLink : Tesseract → Address → Hash;
  TsTimestamp : Tesseract → Z;
  TsIxns : Tesseract → Interactions;
  TsInteractionsHash : Tesseract → Hash;
  TsReceiptsHash : Tesseract → Hash;
  TsOperator : Tesseract → KramaID;
  TsExcludedAccounts : Tesseract → list Address;
}.

(** The interfaces [stateManager], [lattice] and [store]; [GenesisView] is a
    constant of the [common] module. *)
Class Chain (ET : ExtTypes) (EX : ExtOps ET) (TO : TesseractOps ET) (IX : InteractionOps ET EX) := {
  World : Type;
  GenesisView : Z;
  StateObject : Type;
  SM_GetAccountMetaInfo : World → Address → AccountMetaInfo + err;
  SM_GetLatestContextAndPublicKeys : World → Address →
    (Hash * list KramaID * list KramaID * list bytes * list bytes) + err;
  SM_GetPublicKeys : World → list KramaID → list bytes + err;
  SM_GetContext : World → Address → Hash → (list KramaID * list KramaID) + err;
  SM_IsAccountRegistered : World → Address → bool + err;
  SM_GetLatestStateObject : World → Address → StateObject + err;
  SM_GetNonce : World → Address → Hash → Z + err;
  (** 32-byte seeds are numbers *)
  SM_GetICSSeed : World → Address → Z + err;
  SM_GetTotalIncentives : World → Z + err;
  SM_GetGuardianIncentives : World → KramaID → Z + err;
  SM_IsInitialTesseract : World → Tesseract → Address → bool + err;
  SM_IsSealValid : World → Tesseract → bool * option err;
  (** [HasSufficientFuel]: an error comes with a flag too *)
  SO_HasSufficientFuel : StateObject → Z → bool * option err;
  SO_BalanceOf : StateObject → AssetID → Z + err;
  SO_HasRegistryEntry : StateObject → string → bool;
  L_GetTesseract : World → Hash → bool → bool → Tesseract + err;
  S_HasAccMetaInfoAt : World → Address → Z → bool;
  (** [lockType > common.MutateLock] *)
  LockAboveMutate : LockType → bool;
  (** [sort.Sort(common.Addresses)] *)
  SortAddresses : list Address → list Address;
  (** [bytes.Compare(a.Bytes(), b.Bytes()) < 0] *)
  AddrLess : Address → Address → bool;
}.

(** What the engine relies on: every node of a context has its public key, and
    sorting depends on the addresses only. *)
Class ChainLaws (ET : ExtTypes) (EX : ExtOps ET) (TO : TesseractOps ET) (IX : InteractionOps ET EX)
    (CH : Chain ET EX TO IX) : Prop := {
  keys_of_ids : ∀ w ids keys, SM_GetPublicKeys w ids = inl keys → length keys = length ids;
  keys_of_context : ∀ w a h bs rs bk rk,
    SM_GetLatestContextAndPublicKeys w a = inl (h, bs, rs, bk, rk) → length bk = length bs;
  sort_perm : ∀ l, SortAddresses l ≡ₚ l;
  sort_canonical : ∀ l l', l ≡ₚ l' → SortAddresses l = SortAddresses l';
}.
