(* ===== verification/Types.v ===== *)
(** * Messages and votes: [types/consensus.go], [types/message.go]

    The wire codec ([go-polo]) is a parameter: [PoloCodec] gives the two
    directions for a type and [PoloRoundTrip] its documented law. *)

From stdpp Require Import base gmap strings list.
From Stdlib Require Import ZArith.
From S2P Require Import Prelude External.

Class PoloCodec (A : Type) := {
  Polorize : A → bytes + err;
  Depolorize : bytes → A + err;
}.
Class PoloRoundTrip (A : Type) `{PoloCodec A} : Prop :=
  depolorize_polorize : ∀ (a : A) raw, Polorize a = inl raw → Depolorize raw = inl a.

(** [errors.Wrap(err, msg)] on the error branch of a codec call. *)
Definition wrap_err {A} (msg : string) (r : A + err) : A + err :=
  match r with
  | inl a => inl a
  | inr e => inr (EWrap e msg)
  end.

(** [networkmsgs.MsgType]: the kinds the engine dispatches on. *)
Inductive MsgType : Set :=
| MSG_PREPARE
| MSG_PREPARED
| MSG_PROPOSAL
| MSG_VOTEMSG
| MSG_OTHER (n : Z).
#[export] Instance MsgType_eq_dec : EqDecision MsgType.
Proof. solve_decision. Defined.

(** [ICSResponseCode], [iota + 1]. *)
Definition SlotsFull : Z := 1.
Definition InvalidHash : Z := 2.
Definition InvalidInteractions : Z := 3.
Definition InternalError : Z := 4.
Definition NotEligible : Z := 5.
Definition Success : Z := 6.
Definition ICSResponseCode_String (rc : Z) : string :=
  if rc =? SlotsFull then "SlotsFull"%string
  else if rc =? InvalidHash then "InvalidHash"%string
  else if rc =? InvalidInteractions then "InvalidInteractions"%string
  else if rc =? InternalError then "InternalError"%string
  else if rc =? NotEligible then "NotEligible"%string
  else if rc =? Success then "Success"%string
  else "Invalid Status Code"%string.

Section Types.
Context `{ET : ExtTypes}.

(** ** Votes *)
Record Vote := {
  V_Type : ConsensusMsgType;
  V_IsQC : bool;
  V_View : Z;
  V_SignerIndex : Z;
  V_Timestamp : Z;
  V_Heights : gmap Address Z;
  V_TSHash : Hash;
  V_SignerIndices : option Bits;
  V_Signature : bytes;
}.

Record CanonicalVote := {
  CV_Type : ConsensusMsgType;
  CV_View : Z;
  CV_TSHash : Hash;
}.

Definition CanonicalVote_Bytes `{!PoloCodec CanonicalVote} (cv : CanonicalVote) : bytes + err :=
  wrap_err "failed to polorize canonical vote" (Polorize cv).

Definition canonical (v : Vote) : CanonicalVote :=
  {| CV_Type := V_Type v; CV_TSHash := V_TSHash v; CV_View := V_View v |}.

Definition Vote_SignBytes `{!PoloCodec CanonicalVote} (v : Vote) : bytes + err :=
  wrap_err "failed to polorize vote" (Polorize (canonical v)).

Definition Vote_Bytes `{!PoloCodec Vote} (v : Vote) : bytes + err :=
  wrap_err "failed to polorize vote" (Polorize v).
Definition Vote_FromBytes `{!PoloCodec Vote} (raw : bytes) : Vote + err :=
  wrap_err "failed to depolorize vote" (Depolorize raw).

(** ** The write-ahead log's records *)
Record WALMsg := {
  WM_PeerID : KramaID;
  WM_MsgType : MsgType;
  WM_Msg : bytes;
}.
Record TimedWALMessage := {
  TW_ClusterID : ClusterID;
  TW_Timestamp : Z;
  TW_Message : option WALMsg;
}.
Definition TimedWALMessage_Bytes `{!PoloCodec TimedWALMessage} (twm : TimedWALMessage) : bytes + err :=
  wrap_err "failed to polorize timed wal message" (Polorize twm).
Definition TimedWALMessage_FromBytes `{!PoloCodec TimedWALMessage} (raw : bytes) : TimedWALMessage + err :=
  wrap_err "failed to depolorize timed wal message" (Depolorize raw).

(** ** Prepare, prepared and proposal messages *)
Record Prepare := {
  Pr_View : Z;
  Pr_Ixns : list Hash;
  Pr_Ps : list Address;
}.

Record Prepared := {
  Pd_View : Z;
  Pd_Infos : Views;
  Pd_Signature : bytes;
}.

(** What [Prepared.SignBytes] polorizes, one field after the other. *)
Definition Prepared_SignBytes `{!PoloCodec (Z * Views)} (pd : Prepared) : bytes + err :=
  Polorize (Pd_View pd, Pd_Infos pd).

(** [Prepared.Sign]: the error returned and the receiver afterwards. *)
Definition Prepared_Sign `{!PoloCodec (Z * Views)} (sign : bytes → bytes * option err)
    (pd : Prepared) : option err * Prepared :=
  if negb (zlen (Pd_Signature pd) =? 0) then (Some (ENew "non nil signature"), pd)
  else match Prepared_SignBytes pd with
       | inr e => (Some e, pd)
       | inl rawMsg =>
           let '(signature, e) := sign rawMsg in
           (e, {| Pd_View := Pd_View pd; Pd_Infos := Pd_Infos pd; Pd_Signature := signature |})
       end.

Record PreparedInfo := {
  PI_View : Z;
  PI_PeerViews : list Views;
  PI_SignerIndices : option Bits;
  PI_Signature : bytes;
}.

(** A proposal points to its tesseract: the pointer is shared with
    [ViewState.ProposalTS] and [ClusterState.ts], so it is an address in a
    heap of tesseracts. *)
Record Proposal := {
  Prop_Type : ConsensusMsgType;
  Prop_PrepareQc : option PreparedInfo;
  Prop_Tesseract : option positive;
}.

Definition NewProposal (prepareQc : option PreparedInfo) (ts : option positive) : Proposal :=
  {| Prop_Type := PROPOSAL; Prop_PrepareQc := prepareQc; Prop_Tesseract := ts |}.

(** [p.PrepareQc.View] *)
Definition Proposal_View (p : Proposal) : res Z :=
  qc ← deref (Prop_PrepareQc p); Ret (PI_View qc).

(** [ConsensusMessage] and the implementations of [ConsensusPayload] that
    reach the BFT engine. *)
Inductive ConsensusPayload :=
| PayloadVote (v : Vote)
| PayloadProposal (p : Proposal)
| PayloadPrepared (p : Prepared)
| PayloadNil.
Record ConsensusMessage := {
  CM_PeerID : KramaID;
  CM_Recipient : KramaID;
  CM_Payload : ConsensusPayload;
}.

Record ICSMSG := {
  IM_Sender : KramaID;
  IM_ClusterID : ClusterID;
  IM_MsgType : MsgType;
  IM_Payload : bytes;
  IM_ReceivedFrom : KramaID;
}.
Definition NewICSMsg (sender : KramaID) (clusterID : ClusterID) (msgType : MsgType)
    (payload : bytes) : ICSMSG :=
  {| IM_Sender := sender; IM_ClusterID := clusterID; IM_MsgType := msgType;
     IM_Payload := payload; IM_ReceivedFrom := ""%string |}.

Section Raw.
Context `{!PoloCodec Vote} `{!TesseractOps ET}.
(** [Proposal.ProposalMsg().Bytes()]: [proposalBytes] of [Engine.v], which knows
    the interactions of a tesseract. *)
Context (proposalBytes : Proposal → Tesseract → bytes + err).

(** [getRawMessage]; [load] dereferences the tesseract pointer. *)
Definition getRawMessage (load : option positive → res Tesseract)
    (m : ConsensusPayload) : res (MsgType * bytes + err) :=
  match m with
  | PayloadVote v =>
      Ret match Vote_Bytes v with
          | inl raw => inl (MSG_VOTEMSG, raw)
          | inr e => inr e
          end
  | PayloadProposal p =>
      ts ← load (Prop_Tesseract p);
      if TsIxListLen ts =? 0 then Panic "interactions length is 0"
      else Ret match proposalBytes p ts with
               | inl raw => inl (MSG_PROPOSAL, raw)
               | inr e => inr e
               end
  | PayloadPrepared _ | PayloadNil => Ret (inr (ENew "invalid message type"))
  end.

Definition ConsensusMessage_ICSMsg load (c : ConsensusMessage) (clusterID : ClusterID)
    : res (ICSMSG + err) :=
  r ← getRawMessage load (CM_Payload c);
  Ret match r with
      | inr e => inr e
      | inl (msgType, msg) => inl (NewICSMsg (CM_PeerID c) clusterID msgType msg)
      end.

Definition ConsensusMessage_WALMsg load (c : ConsensusMessage) : res (WALMsg + err) :=
  r ← getRawMessage load (CM_Payload c);
  Ret match r with
      | inr e => inr e
      | inl (msgType, msg) =>
          inl {| WM_PeerID := CM_PeerID c; WM_MsgType := msgType; WM_Msg := msg |}
      end.
End Raw.

Record VoteBitSet := {
  VB_Prevotes : option Bits;
  VB_Precommits : option Bits;
}.

(** ** Safety data kept per account *)
Record SafetyData := {
  SD_Qc : list Qc;
  SD_TSHashes : list Hash;
}.

Definition SafetyData_UpdateQc (sd : SafetyData) (qc : Qc) : SafetyData :=
  let append := {| SD_Qc := SD_Qc sd ++ [qc]; SD_TSHashes := SD_TSHashes sd ++ [Qc_TSHash qc] |} in
  match last (SD_Qc sd) with
  | None => append
  | Some l =>
      if Qc_View l <? Qc_View qc
      then {| SD_Qc := [qc]; SD_TSHashes := [Qc_TSHash qc] |}
      else if (Qc_View l =? Qc_View qc) && bool_decide (Qc_Type l = PREVOTE)
      then {| SD_Qc := <[pred (length (SD_Qc sd)) := qc]> (SD_Qc sd);
              SD_TSHashes := SD_TSHashes sd |}
      else append
  end.

Definition SafetyData_LastView (sd : SafetyData) : res Z :=
  q ← go_index (SD_Qc sd) (zlen (SD_Qc sd) - 1); Ret (Qc_View q).

Definition SafetyData_Bytes `{!PoloCodec SafetyData} (sd : SafetyData) : bytes + err :=
  wrap_err "failed to polorize safety data" (Polorize sd).
Definition SafetyData_FromBytes `{!PoloCodec SafetyData} (raw : bytes) : SafetyData + err :=
  wrap_err "failed to depolorize safety data" (Depolorize raw).

(** ** Lemmas *)
Lemma SafetyData_roundtrip `{!PoloCodec SafetyData, !PoloRoundTrip SafetyData} sd raw :
  SafetyData_Bytes sd = inl raw → SafetyData_FromBytes raw = inl sd.
Proof.
  unfold SafetyData_Bytes, SafetyData_FromBytes, wrap_err.
  destruct (Polorize sd) as [b|] eqn:E; intros [= <-].
  by rewrite (depolorize_polorize sd b).
Qed.

Lemma last_go_index {A} (l : list A) x :
  last l = Some x → go_index l (zlen l - 1) = Ret x.
Proof.
  rewrite last_lookup. intros H.
  replace (zlen l - 1) with (Z.of_nat (pred (length l))).
  - by apply go_index_nat.
  - unfold zlen. destruct l; cbn in *; [done|lia].
Qed.

Lemma SafetyData_UpdateQc_last sd qc : last (SD_Qc (SafetyData_UpdateQc sd qc)) = Some qc.
Proof.
  unfold SafetyData_UpdateQc. destruct (last (SD_Qc sd)) as [l|] eqn:E; cbn.
  2: by rewrite last_snoc.
  case_match; cbn; [done|]. case_match; cbn; [|by rewrite last_snoc].
  rewrite last_lookup, length_insert, list_lookup_insert_eq; [done|].
  rewrite last_lookup in E. by apply lookup_lt_Some in E.
Qed.

(** The view an account reports is the one of the certificate stored last. *)
Lemma SafetyData_UpdateQc_LastView sd qc :
  SafetyData_LastView (SafetyData_UpdateQc sd qc) = Ret (Qc_View qc).
Proof.
  unfold SafetyData_LastView.
  by rewrite (last_go_index _ qc) by apply SafetyData_UpdateQc_last.
Qed.
End Types.

#[global] Arguments ConsensusPayload {ET}.
