(* ===== verification/Wire.v ===== *)
(** * The messages on the wire: [types/message.go], [types/proofs.go]

    Every message has [Bytes] and [FromBytes], which call the codec and wrap its
    error; they are inverse for every message if the codec is. *)

From stdpp Require Import base gmap strings list.
From Stdlib Require Import ZArith.
From S2P Require Import Prelude External Types.

(** What [Bytes] and [FromBytes] of a message say when the codec fails. *)
Class WireMessage (A : Type) := {
  wire_codec :: PoloCodec A;
  polorize_failed : string;
  depolorize_failed : string;
}.
Definition wire_Bytes `{!WireMessage A} (a : A) : bytes + err := wrap_err polorize_failed (Polorize a).
Definition wire_FromBytes `{!WireMessage A} (raw : bytes) : A + err := wrap_err depolorize_failed (Depolorize raw).

Lemma wire_Bytes_inl `{!WireMessage A} (a : A) raw : wire_Bytes a = inl raw ↔ Polorize a = inl raw.
Proof. unfold wire_Bytes. destruct (Polorize a); cbn; split; done. Qed.
Lemma wire_FromBytes_inl `{!WireMessage A} raw (a : A) : wire_FromBytes raw = inl a ↔ Depolorize raw = inl a.
Proof. unfold wire_FromBytes. destruct (Depolorize raw); cbn; split; done. Qed.
Lemma wire_roundtrip `{!WireMessage A, !PoloRoundTrip A} (a : A) raw : wire_Bytes a = inl raw → wire_FromBytes raw = inl a.
Proof. rewrite wire_Bytes_inl, wire_FromBytes_inl. apply depolorize_polorize. Qed.

Section Messages.
Context `{ET : ExtTypes}.

Instance ICSMSG_wire `{!PoloCodec ICSMSG} : WireMessage ICSMSG :=
  {| polorize_failed := "failed to polorize ics message"; depolorize_failed := "failed to depolorize ics message" |}.
Definition ICSMSG_Bytes `{!PoloCodec ICSMSG} (im : ICSMSG) : bytes + err := wire_Bytes im.
Definition ICSMSG_FromBytes `{!PoloCodec ICSMSG} (raw : bytes) : ICSMSG + err := wire_FromBytes raw.

Instance Prepare_wire `{!PoloCodec Prepare} : WireMessage Prepare :=
  {| polorize_failed := "failed to polorize prepare msg"; depolorize_failed := "failed to de polorize prepare msg" |}.
Definition Prepare_Bytes `{!PoloCodec Prepare} (pm : Prepare) : bytes + err := wire_Bytes pm.
Definition Prepare_FromBytes `{!PoloCodec Prepare} (raw : bytes) : Prepare + err := wire_FromBytes raw.

Instance Prepared_wire `{!PoloCodec Prepared} : WireMessage Prepared :=
  {| polorize_failed := "failed to polorize ics message"; depolorize_failed := "failed to depolorize ics message" |}.
Definition Prepared_Bytes `{!PoloCodec Prepared} (pd : Prepared) : bytes + err := wire_Bytes pd.
Definition Prepared_FromBytes `{!PoloCodec Prepared} (raw : bytes) : Prepared + err := wire_FromBytes raw.

(** The gossip messages. *)
Record ICSHave := {
  IH_Proposal : option Proposal;
  IH_Votes : list (option Vote);
  IH_ViewVoteBitSets : gmap Z (option VoteBitSet);
}.
Definition NewICSHave (response : gmap Z (option VoteBitSet)) (proposal : option Proposal) (votes : list (option Vote))
    : ICSHave := {| IH_Proposal := proposal; IH_Votes := votes; IH_ViewVoteBitSets := response |}.
Instance ICSHave_wire `{!PoloCodec ICSHave} : WireMessage ICSHave :=
  {| polorize_failed := "failed to polorize ics have message"; depolorize_failed := "failed to depolorize ics have message" |}.
Definition ICSHave_Bytes `{!PoloCodec ICSHave} (ih : ICSHave) : bytes + err := wire_Bytes ih.
Definition ICSHave_FromBytes `{!PoloCodec ICSHave} (raw : bytes) : ICSHave + err := wire_FromBytes raw.

Record ICSWant := { IW_ViewVoteBitSets : gmap Z (option VoteBitSet) }.
Definition NewICSWant (set : gmap Z (option VoteBitSet)) : ICSWant := {| IW_ViewVoteBitSets := set |}.
Instance ICSWant_wire `{!PoloCodec ICSWant} : WireMessage ICSWant :=
  {| polorize_failed := "failed to polorize ics want message"; depolorize_failed := "failed to depolorize ics want message" |}.
Definition ICSWant_Bytes `{!PoloCodec ICSWant} (iw : ICSWant) : bytes + err := wire_Bytes iw.
Definition ICSWant_FromBytes `{!PoloCodec ICSWant} (raw : bytes) : ICSWant + err := wire_FromBytes raw.

Record ICSGraft := { IG_Data : bytes }.
Definition NewICSGraft (data : bytes) : ICSGraft := {| IG_Data := data |}.
Instance ICSGraft_wire `{!PoloCodec ICSGraft} : WireMessage ICSGraft :=
  {| polorize_failed := "failed to polorize ics graft message"; depolorize_failed := "failed to depolorize ics graft message" |}.
Definition ICSGraft_Bytes `{!PoloCodec ICSGraft} (ig : ICSGraft) : bytes + err := wire_Bytes ig.
Definition ICSGraft_FromBytes `{!PoloCodec ICSGraft} (raw : bytes) : ICSGraft + err := wire_FromBytes raw.

Record ICSPrune := { IPr_Data : bytes }.
Definition NewICSPrune (data : bytes) : ICSPrune := {| IPr_Data := data |}.
Instance ICSPrune_wire `{!PoloCodec ICSPrune} : WireMessage ICSPrune :=
  {| polorize_failed := "failed to polorize ics prune message"; depolorize_failed := "failed to depolorize ics prune message" |}.
Definition ICSPrune_Bytes `{!PoloCodec ICSPrune} (ip : ICSPrune) : bytes + err := wire_Bytes ip.
Definition ICSPrune_FromBytes `{!PoloCodec ICSPrune} (raw : bytes) : ICSPrune + err := wire_FromBytes raw.

(** The proofs of a watch dog are only written. *)
Record ICSMetaInfo := {
  MI_ClusterID : string;
  MI_IxHash : Hash;
  MI_Operator : string;
  MI_ClusterSize : Z;
  MI_ContextDelta : gmap string (list string);
  MI_GridID : Hash;
  MI_BinaryHash : Hash;
  MI_IdentityHash : Hash;
  MI_IcsHash : Hash;
  MI_ReceiptHash : Hash;
  MI_Msgs : list bytes;
}.
Record WatchDogProofs := {
  WP_MetaData : option ICSMetaInfo;
  WP_Extra : bytes;
}.
Definition WatchDogProofs_Bytes `{!PoloCodec WatchDogProofs} (wdp : WatchDogProofs) : bytes + err :=
  wrap_err "failed to polorize watch dog proofs" (Polorize wdp).

(** Every message of the network is read back as it was written. *)
Theorem messages_roundtrip
    `{!PoloCodec ICSMSG, !PoloCodec Prepare, !PoloCodec Prepared, !PoloCodec ICSHave, !PoloCodec ICSWant}
    `{!PoloRoundTrip ICSMSG, !PoloRoundTrip Prepare, !PoloRoundTrip Prepared, !PoloRoundTrip ICSHave, !PoloRoundTrip ICSWant} :
  (∀ (m : ICSMSG) raw, ICSMSG_Bytes m = inl raw → ICSMSG_FromBytes raw = inl m) ∧
  (∀ m raw, Prepare_Bytes m = inl raw → Prepare_FromBytes raw = inl m) ∧
  (∀ m raw, Prepared_Bytes m = inl raw → Prepared_FromBytes raw = inl m) ∧
  (∀ m raw, ICSHave_Bytes m = inl raw → ICSHave_FromBytes raw = inl m) ∧
  (∀ m raw, ICSWant_Bytes m = inl raw → ICSWant_FromBytes raw = inl m).
Proof. by split_and!; intros m raw; apply wire_roundtrip. Qed.
End Messages.
