(* ===== verification/Concrete.v ===== *)
(** * A concrete instance of the external code

    The theorems hold for every instance of the classes of [External.v] and
    [Types.v].  This file gives one on which the definitions compute: hashes
    and addresses are integers, a bit array is a list of booleans, a signature
    of [data] under key [pk] is [pk ++ data] and signatures aggregate by
    concatenation.  The witnesses evaluate on it. *)

From stdpp Require Import base gmap strings list countable.
From Stdlib Require Import ZArith Lia Strings.Byte.
From S2P Require Import Prelude External Types.

Definition cbits_get (b : list bool) (i : Z) : bool :=
  if i <? 0 then false else default false (b !! Z.to_nat i).
Definition cbits_true (b : list bool) : list Z :=
  filter (λ i, cbits_get b i = true) (seqZ 0 (zlen b)).

Definition CE : ExtTypes := {|
  Hash := Z; NilHash := 0; Address := Z; NilAddress := 0; Bits := list bool;
  NewArrayOfBits n := replicate (Z.to_nat n) false;
  SetIndex b i v := if i <? 0 then b else <[Z.to_nat i := v]> b;
  GetIndex := cbits_get;
  GetTrueIndices := cbits_true;
  TrueIndicesSize b := zlen (cbits_true b);
  BitsIsEmpty b := zlen (cbits_true b) =? 0;
  BitsCopy b := b;
  BitsSize b := zlen b;
  NilTrueIndices := Panic "nil pointer dereference";
|}.

Lemma CE_bits : BitLaws CE.
Proof.
  split; cbn; unfold cbits_get, zlen.
  - intros n H. rewrite length_replicate. lia.
  - intros n i. destruct (i <? 0); [done|].
    destruct (replicate (Z.to_nat n) false !! Z.to_nat i) eqn:E; [|done].
    by apply lookup_replicate in E as [-> _].
  - intros b i v. destruct (i <? 0); [done|]. by rewrite length_insert.
  - intros b i v j H. destruct (Z.ltb_spec i 0); [lia|].
    destruct (decide (i = j)) as [->|Hne].
    + destruct (Z.ltb_spec j 0); [lia|]. by rewrite list_lookup_insert_eq by lia.
    + destruct (Z.ltb_spec j 0); [done|]. by rewrite list_lookup_insert_ne by lia.
  - intros b i. destruct (Z.ltb_spec i 0); [done|].
    destruct (b !! Z.to_nat i) eqn:E; [|done]. apply lookup_lt_Some in E. lia.
  - done.
  - done.
  - intros b. unfold cbits_true. fold (zlen b).
    destruct (filter _ (seqZ 0 (zlen b))); cbn; [done|].
    split; [intros H%Z.eqb_eq; lia|done].
  - done.
  - done.
Qed.

(** Signatures: the key followed by the data. *)
Definition csign (pk data : bytes) : bytes := pk ++ data.

Definition CX : ExtOps CE := {|
  Verify data sig pk := (bool_decide (sig = csign pk data), None);
  VerifyAggregateSignature data sig pks :=
    (bool_decide (sig = concat ((λ pk, csign pk data) <$> pks)), None);
  CryptoAggregateSignatures sigs := (concat sigs, None);
  Participant_NewHeight p := @P_Height CE p + 1;
  Participant_TSHash p := @P_TesseractHash CE p;
  Participants_ExcludeFromICS m addrs := m;
  Participant_ExcludedFromICS p := @P_ExcludeFromICS CE p;
  GetHash raw := zlen raw;
  Interactions := list Z;
  IxHashes l := l;
  Transition := unit;
  NewTransition := tt;
  MaxBehaviourContextSize := 5;
  MaxRandomContextSize := 5;
  ContainsKramaID l k := bool_decide (k ∈ l);
|}.

(** A byte per field: the view, the kind and the hash of a canonical vote. *)
Definition cbyte (n : Z) : Byte.byte :=
  default Byte.x00 (Byte.of_N (Z.to_N (n mod 256))).
Definition ctype_code (t : ConsensusMsgType) : Z :=
  match t with PREVOTE => 1 | PRECOMMIT => 2 | PROPOSAL => 3 | OtherMsgType n => 4 + Z.abs n end.

Definition CCanon : PoloCodec (@CanonicalVote CE) := {|
  Polorize cv := inl [cbyte (ctype_code (@CV_Type CE cv)); cbyte (@CV_View CE cv);
                      cbyte (@CV_TSHash CE cv)];
  Depolorize raw := inr (EExternal "not needed");
|}.

(** Any countable type has a codec: the binary digits of its number, a byte per
    digit. *)
Fixpoint pos_bytes (p : positive) : bytes :=
  match p with
  | xH => []
  | xO p' => Byte.x00 :: pos_bytes p'
  | xI p' => Byte.x01 :: pos_bytes p'
  end.
Fixpoint bytes_pos (l : bytes) : positive :=
  match l with
  | [] => xH
  | Byte.x00 :: l' => xO (bytes_pos l')
  | _ :: l' => xI (bytes_pos l')
  end.
Lemma bytes_pos_bytes p : bytes_pos (pos_bytes p) = p.
Proof. induction p as [p IH|p IH|]; cbn; by rewrite ?IH. Qed.

Definition codec_of (A : Type) `{Countable A} : PoloCodec A := {|
  Polorize a := inl (pos_bytes (encode a));
  Depolorize raw := match decode (bytes_pos raw) with
                    | Some a => inl a
                    | None => inr (EExternal "invalid encoding")
                    end;
|}.
Lemma codec_of_roundtrip (A : Type) `{Countable A} : @PoloRoundTrip A (codec_of A).
Proof.
  intros a raw [= <-]. cbn. by rewrite bytes_pos_bytes, decode_encode.
Qed.

(** The records of the engine on this instance are countable. *)
Definition msgtype_code (t : ConsensusMsgType) : Z + Z :=
  match t with
  | PREVOTE => inl 0 | PRECOMMIT => inl 1 | PROPOSAL => inl 2 | OtherMsgType n => inr n
  end.
Definition msgtype_of (c : Z + Z) : option ConsensusMsgType :=
  match c with
  | inl 0 => Some PREVOTE | inl 1 => Some PRECOMMIT | inl 2 => Some PROPOSAL
  | inl _ => None
  | inr n => Some (OtherMsgType n)
  end.
#[export] Instance msgtype_countable : Countable ConsensusMsgType.
Proof. apply (inj_countable msgtype_code msgtype_of). by intros []. Defined.

#[export] Instance byte_countable : Countable Byte.byte.
Proof. apply (inj_countable Byte.to_N Byte.of_N). apply Byte.of_to_N. Defined.

#[export] Instance cqc_eq_dec : EqDecision (@Qc CE).
Proof.
  refine (λ a b, cast_if (decide ((Qc_Type a, Qc_View a, Qc_TSHash a, Qc_Address a, Qc_SignerIndices a, Qc_Signature a)
    = (Qc_Type b, Qc_View b, Qc_TSHash b, Qc_Address b, Qc_SignerIndices b, Qc_Signature b)))).
  - abstract (destruct a, b; cbn in *; congruence).
  - abstract (intros ->; done).
Defined.
Definition cqc_tuple (q : @Qc CE) : ConsensusMsgType * Z * Z * Z * option (list bool) * list Byte.byte :=
  (@Qc_Type CE q, @Qc_View CE q, @Qc_TSHash CE q, @Qc_Address CE q, @Qc_SignerIndices CE q, @Qc_Signature CE q).
Definition cqc_of (t : ConsensusMsgType * Z * Z * Z * option (list bool) * list Byte.byte) : @Qc CE :=
  match t with
  | (ty, vw, h, a, b, s) => @Build_Qc CE ty vw h a b s
  end.
#[export] Instance cqc_countable : Countable (@Qc CE).
Proof. apply (inj_countable' cqc_tuple cqc_of). by intros []. Defined.

#[export] Instance csafety_eq_dec : EqDecision (@SafetyData CE).
Proof.
  refine (λ a b, cast_if (decide ((@SD_Qc CE a, @SD_TSHashes CE a) = (@SD_Qc CE b, @SD_TSHashes CE b)))).
  - abstract (destruct a, b; cbn in *; congruence).
  - abstract (intros ->; done).
Defined.
#[export] Instance csafety_countable : Countable (@SafetyData CE).
Proof.
  apply (inj_countable' (λ d, (@SD_Qc CE d, @SD_TSHashes CE d : list Z))
           (λ '(q, h), @Build_SafetyData CE q h)). by intros [].
Defined.

Record CTesseract := {
  ct_hash : Z;
  ct_heights : gmap Z Z;
  ct_cluster : ClusterID;
  ct_qc : option (@Qc CE);
  ct_seal : bytes;
  ct_sealer : KramaID;
}.
#[export] Instance ctesseract_eq_dec : EqDecision CTesseract.
Proof. solve_decision. Defined.
#[export] Instance ctesseract_countable : Countable CTesseract.
Proof.
  apply (inj_countable'
    (λ t, (ct_hash t, ct_heights t, ct_cluster t, ct_qc t, ct_seal t, ct_sealer t))
    (λ '(h, hs, c, q, s, k), {| ct_hash := h; ct_heights := hs; ct_cluster := c; ct_qc := q;
                                ct_seal := s; ct_sealer := k |})).
  by intros [].
Defined.
Definition ct_set_qc (t : CTesseract) (q : @Qc CE) : CTesseract :=
  {| ct_hash := ct_hash t; ct_heights := ct_heights t; ct_cluster := ct_cluster t;
     ct_qc := Some q; ct_seal := ct_seal t; ct_sealer := ct_sealer t |}.
Definition ct_set_seal (t : CTesseract) (s : bytes) : CTesseract :=
  {| ct_hash := ct_hash t; ct_heights := ct_heights t; ct_cluster := ct_cluster t;
     ct_qc := ct_qc t; ct_seal := s; ct_sealer := ct_sealer t |}.
Definition ct_set_sealer (t : CTesseract) (k : KramaID) : CTesseract :=
  {| ct_hash := ct_hash t; ct_heights := ct_heights t; ct_cluster := ct_cluster t;
     ct_qc := ct_qc t; ct_seal := ct_seal t; ct_sealer := k |}.

Definition CT : TesseractOps CE :=
  @Build_TesseractOps CE CTesseract ct_hash ct_heights (λ t h, ct_hash t =? h) ct_cluster
    (λ _, ∅) (λ _, 1) (λ t, inl [cbyte (ct_hash t)]) ct_set_qc ct_set_seal ct_set_sealer (λ t, t).

Lemma CT_laws : TesseractLaws CE CT.
Proof. split; try done. intros t h. cbn. by rewrite Z.eqb_eq. Qed.
