(* ===== verification/Validators.v ===== *)
(** * The validator set: [kbft/validatorset.go], [kbft/validator.go]

    A list of validators with lookups by address and by index.  Validators are
    shared by pointer; [GetByAddress] hands out a copy, which is a value here. *)

From stdpp Require Import base list strings.
From Stdlib Require Import ZArith Lia.
From S2P Require Import Prelude External Concrete.

Section Validators.
Context `{ET : ExtTypes} {PublicKey : Type}.

Record Validator := {
  VA_Address : Address;
  VA_KipID : KramaID;
  VA_PubKey : PublicKey;
  VA_VotingPower : Z;
}.
Record ValidatorSet := {
  Validators : list Validator;
  VS_Operator : Validator;
  ContextIndices : list Z;
  observers : list string;
  totalVotingPower : list Z;
}.
Definition NewValidatorSet (v : list Validator) (operatorIndex : Z) (vp i : list Z) (obs : list string)
    : res ValidatorSet :=
  op ← go_index v operatorIndex;
  Ret {| Validators := v; VS_Operator := op; ContextIndices := i; observers := obs; totalVotingPower := vp |}.

Fixpoint hasAddress (vals : list Validator) (addrs : Address) : bool :=
  match vals with
  | [] => false
  | val :: rest => if decide (VA_Address val = addrs) then true else hasAddress rest addrs
  end.
Definition HasAddress (valSet : ValidatorSet) (addrs : Address) : bool := hasAddress (Validators valSet) addrs.
(** The address and the validator; nil is [None], with the zero address. *)
Definition ValidatorByIndex (zero : Address) (valSet : ValidatorSet) (index : Z) : res (Address * option Validator) :=
  if (index <? 0) || (zlen (Validators valSet) <=? index) then Ret (zero, None)
  else val ← go_index (Validators valSet) index; Ret (VA_Address val, Some val).
(** [int32(idx)] *)
Fixpoint byAddress (idx : Z) (vals : list Validator) (add : Address) : Z * option Validator :=
  match vals with
  | [] => (-1, None)
  | val :: rest => if decide (VA_Address val = add) then (i32 idx, Some val) else byAddress (idx + 1) rest add
  end.
Definition GetByAddress (valSet : ValidatorSet) (add : Address) : Z * option Validator := byAddress 0 (Validators valSet) add.

Lemma byAddress_spec idx vals add :
  0 ≤ idx → idx + zlen vals < 2 ^ 31 →
  match (byAddress idx vals add).2 with
  | Some v => VA_Address v = add ∧ idx ≤ (byAddress idx vals add).1 ∧
      vals !! Z.to_nat ((byAddress idx vals add).1 - idx) = Some v ∧
      ∀ j w, (j < Z.to_nat ((byAddress idx vals add).1 - idx))%nat → vals !! j = Some w → VA_Address w ≠ add
  | None => (byAddress idx vals add).1 = -1 ∧ ∀ w, w ∈ vals → VA_Address w ≠ add
  end.
Proof.
  revert idx. induction vals as [|v vals IH]; intros idx Hi Hb; cbn [byAddress].
  { split; [done|]. by intros w Hw%elem_of_nil. }
  unfold zlen in *. cbn [length] in Hb. destruct (decide (VA_Address v = add)) as [Ha|Ha]; cbn [fst snd].
  - assert (Ei : i32 idx = idx) by (unfold i32; rewrite Z.mod_small by lia; lia). rewrite Ei, Z.sub_diag.
    split_and!; [done|lia|done|]. intros j w Hj. change (Z.to_nat 0) with 0%nat in Hj. lia.
  - specialize (IH (idx + 1) ltac:(lia) ltac:(lia)). destruct (byAddress (idx + 1) vals add) as [r [u|]]; cbn [fst snd] in *.
    + destruct IH as (Hu & Hr & Hl & Hmin). split_and!; [done|lia| |].
      * replace (Z.to_nat (r - idx)) with (S (Z.to_nat (r - (idx + 1)))) by lia. done.
      * intros [|j] w Hj Hw; [by injection Hw as <-|]. apply (Hmin j w); [lia|done].
    + destruct IH as [-> Hn]. split; [done|]. intros w [->|Hw]%elem_of_cons; [done|by apply Hn].
Qed.
Lemma hasAddress_spec vals add : hasAddress vals add = true ↔ ∃ v, v ∈ vals ∧ VA_Address v = add.
Proof.
  induction vals as [|v vals IH]; cbn; [split; [done|by intros (v & Hv%elem_of_nil & _)]|].
  case_decide as Hd.
  - split; [intros _; exists v; split; [by left|done]|done].
  - rewrite IH. split; intros (w & Hw & Ha); exists w; [split; [by right|done]|].
    apply elem_of_cons in Hw as [->|Hw]; [done|by split].
Qed.

(** The three lookups agree: in a set of fewer than 2{^31} validators
    [GetByAddress] finds a validator exactly when [HasAddress] says so, it is the
    first one with the address, and [GetByIndex] at the index returned finds it
    again. *)
Theorem validator_lookups_agree zero vs add :
  zlen (Validators vs) < 2 ^ 31 →
  match GetByAddress vs add with
  | (i, Some v) => HasAddress vs add = true ∧ VA_Address v = add ∧
      ValidatorByIndex zero vs i = Ret (add, Some v) ∧
      ∀ j w, 0 ≤ j < i → ValidatorByIndex zero vs j = Ret (VA_Address w, Some w) → VA_Address w ≠ add
  | (i, None) => i = -1 ∧ HasAddress vs add = false
  end.
Proof.
  intros Hb. pose proof (byAddress_spec 0 (Validators vs) add ltac:(done) ltac:(lia)) as H.
  unfold GetByAddress, HasAddress, ValidatorByIndex. destruct (byAddress 0 (Validators vs) add) as [i [v|]]; cbn [fst snd] in H.
  - destruct H as (Ha & Hi & Hl & Hmin). rewrite Z.sub_0_r in *. pose proof (lookup_lt_Some _ _ _ Hl) as Hlt.
    assert (Hz : ∀ j, 0 ≤ j → j ≤ i → (j <? 0) || (zlen (Validators vs) <=? j) = false).
    { intros j ? ?. unfold zlen. apply orb_false_iff. rewrite Z.ltb_ge, Z.leb_gt. lia. }
    split_and!; [|done| |].
    + apply hasAddress_spec. exists v. split; [by eapply list_elem_of_lookup_2|done].
    + rewrite Hz by lia. rewrite (proj2 (go_index_Ret _ i v)) by done. cbn. by rewrite Ha.
    + intros j w Hj Hw. rewrite Hz in Hw by lia. apply bind_Ret in Hw as (u & Hu%go_index_Ret & Hw). injection Hw as _ <-.
      apply (Hmin (Z.to_nat j) u); [lia|apply Hu].
  - destruct H as [-> Hn]. split; [done|]. destruct (hasAddress _ _) eqn:E; [|done].
    apply hasAddress_spec in E as (v & Hv & Ha). by apply Hn in Hv.
Qed.
End Validators.

Lemma validator_lookups_agree_witness :
  let v n a : @Validator CE unit :=
    {| VA_Address := (a : @Address CE); VA_KipID := "A"%string; VA_PubKey := tt; VA_VotingPower := n |} in
  let vs := {| Validators := [v 1 10; v 2 20; v 3 20]; VS_Operator := v 1 10; ContextIndices := []; observers := [];
               totalVotingPower := [] |} in
  GetByAddress vs (20 : @Address CE) = (1, Some (v 2 20)) ∧ ValidatorByIndex (0 : @Address CE) vs 1 = Ret (20 : @Address CE, Some (v 2 20)).
Proof.
  intros v vs. split; [reflexivity|].
  apply (validator_lookups_agree (0 : @Address CE) vs (20 : @Address CE)). vm_compute. reflexivity.
Defined.
