(* ===== verification/NodeSet.v ===== *)
(** * Node sets and the interaction consensus set: [types/nodeset.go]

    An [ICSCommittee] is a slice of node sets, one per participant and the
    random set last; a position may be empty (nil).  Validators are addressed
    by a flat index that runs through the non-empty sets in order.  [flat] is
    the abstract specification of that addressing; the loops of the source are
    proved to implement it. *)

From stdpp Require Import base gmap strings list.
From Stdlib Require Import ZArith Lia.
From S2P Require Import Prelude External Types.

Section NodeSet.
Context `{ET : ExtTypes}.

Record NodeInfo := {
  NI_ID : KramaID;
  NI_PublicKey : bytes;
  NI_Msg : option Prepared;
  NI_VotingPower : Z;
}.
Record NodeSet := {
  Infos : list NodeInfo;
  Responses : Bits;
  ExcludedFromICS : bool;
  RespCount : Z;
  SetSizeWithOutDelta : Z;
}.
Record ICSCommittee := {
  Sets : list (option NodeSet);
  totalNodes : Z;
  size : Z;
}.

(** ** NodeSet *)
Fixpoint newInfos (ids : list KramaID) (keys : list bytes) : res (list NodeInfo) :=
  match ids, keys with
  | [], _ => Ret []
  | _ :: _, [] => Panic "index out of range"
  | id :: ids', key :: keys' =>
      infos ← newInfos ids' keys';
      Ret ({| NI_ID := id; NI_PublicKey := key; NI_Msg := None; NI_VotingPower := 0 |} :: infos)
  end.

Definition NewNodeSet (ids : list KramaID) (keys : list bytes) (required : Z) : res NodeSet :=
  infos ← newInfos ids keys;
  Ret {| Infos := infos; Responses := NewArrayOfBits (zlen ids); ExcludedFromICS := false;
         RespCount := 0; SetSizeWithOutDelta := required |}.

Definition GetRespCount (ns : NodeSet) : Z := RespCount ns.

Definition UpdateResponse (ns : NodeSet) (index : Z) (v : bool) : NodeSet :=
  {| Infos := Infos ns; Responses := SetIndex (Responses ns) index v;
     ExcludedFromICS := ExcludedFromICS ns; RespCount := i32 (RespCount ns + 1);
     SetSizeWithOutDelta := SetSizeWithOutDelta ns |}.

Definition UpdateViewInfo (ns : NodeSet) (index : Z) (msg : option Prepared) : res NodeSet :=
  info ← go_index (Infos ns) index;
  infos ← go_update (Infos ns) index
    {| NI_ID := NI_ID info; NI_PublicKey := NI_PublicKey info; NI_Msg := msg;
       NI_VotingPower := NI_VotingPower info |};
  Ret {| Infos := infos; Responses := Responses ns; ExcludedFromICS := ExcludedFromICS ns;
         RespCount := RespCount ns; SetSizeWithOutDelta := SetSizeWithOutDelta ns |}.

Definition KramaIDs (ns : NodeSet) : list KramaID := NI_ID <$> Infos ns.

(** [for index, info := range set.Infos] *)
Definition ranged (ns : NodeSet) : list (Z * NodeInfo) :=
  imap (λ j info, (Z.of_nat j, info)) (Infos ns).

(** ** ICSCommittee *)
Definition NewICSCommittee (sz : Z) : res ICSCommittee :=
  if sz <? 0 then Panic "makeslice: len out of range"
  else Ret {| Sets := replicate (Z.to_nat sz) None; totalNodes := 0; size := sz |}.

Definition TotalNodes (c : ICSCommittee) : Z := totalNodes c.
Definition Size (c : ICSCommittee) : Z := size c.
Definition StochasticSetPosition (c : ICSCommittee) : Z := size c - 1.

Definition with_sets (c : ICSCommittee) (sets : list (option NodeSet)) : ICSCommittee :=
  {| Sets := sets; totalNodes := totalNodes c; size := size c |}.

(** [count*2/3 + 1] in [uint32]. *)
Definition quorum_of (count : Z) : Z := u32 (u32 (count * 2) / 3 + 1).

Definition ParticipantQuorum (c : ICSCommittee) (position : Z) : res Z :=
  s ← go_index (Sets c) position;
  Ret match s with
      | None => 0
      | Some ns =>
          if SetSizeWithOutDelta ns =? 0 then SetSizeWithOutDelta ns
          else quorum_of (SetSizeWithOutDelta ns)
      end.

Definition UpdateNodePreparedMsg (c : ICSCommittee) (id : KramaID) (msg : Prepared)
    : res ICSCommittee :=
  sets ← mapM_res (λ o,
    match o with
    | None => Ret None
    | Some set =>
        set' ← foldM (λ s '(index, info),
          if decide (NI_ID info = id)
          then UpdateViewInfo (UpdateResponse s index true) index (Some msg)
          else Ret s) (ranged set) set;
        Ret (Some set')
    end) (Sets c);
  Ret (with_sets c sets).

Definition ViewInfosAndSignatures (c : ICSCommittee) : res (list Views * list bytes) :=
  if totalNodes c <? 0 then Panic "makeslice: len out of range" else
  '(views, signs, _) ← foldM (λ '(views, signs, offset) o,
    match o with
    | None => Ret (views, signs, offset)
    | Some set =>
        '(views', signs') ← foldM (λ '(views, signs) '(j, info),
          if negb (GetIndex (Responses set) j) then Ret (views, signs)
          else
            msg ← deref (NI_Msg info);
            views' ← go_update views (offset + j) (Pd_Infos msg);
            Ret (views', signs ++ [Pd_Signature msg])) (ranged set) (views, signs);
        Ret (views', signs', offset + zlen (Infos set))
    end) (Sets c) (replicate (Z.to_nat (totalNodes c)) None, [], 0);
  Ret (views, signs).

Definition UpdateSetResponses (c : ICSCommittee) (position : Z) (responses : option Bits)
    : res ICSCommittee :=
  match responses with
  | None => Ret c
  | Some b =>
      o ← go_index (Sets c) position;
      ns ← deref o;
      sets ← go_update (Sets c) position
        (Some {| Infos := Infos ns; Responses := b; ExcludedFromICS := ExcludedFromICS ns;
                 RespCount := i32 (TrueIndicesSize b);
                 SetSizeWithOutDelta := SetSizeWithOutDelta ns |});
      Ret (with_sets c sets)
  end.

(** The inner loop of [UpdateValidatorResponse]: the sets afterwards and the
    key appended, if a set holds the index. *)
Fixpoint respondAt (sets : list (option NodeSet)) (index : Z)
    : res (list (option NodeSet) * option bytes) :=
  match sets with
  | [] => Ret ([], None)
  | None :: rest =>
      '(rest', k) ← respondAt rest index; Ret (None :: rest', k)
  | Some set :: rest =>
      if zlen (Infos set) <=? index
      then '(rest', k) ← respondAt rest (index - zlen (Infos set)); Ret (Some set :: rest', k)
      else info ← go_index (Infos set) index;
           Ret (Some (UpdateResponse set index true) :: rest, Some (NI_PublicKey info))
  end.

(** The keys and the error, and the committee the calls before an error have
    already changed. *)
Fixpoint UpdateValidatorResponse (c : ICSCommittee) (indices : list Z) (publicKeys : list bytes)
    : res ((list bytes + err) * ICSCommittee) :=
  match indices with
  | [] => Ret (inl publicKeys, c)
  | index :: indices' =>
      if (index <? 0) || (totalNodes c <=? index)
      then Ret (inr (ENew "invalid validator index"), c)
      else
        '(sets, k) ← respondAt (Sets c) index;
        UpdateValidatorResponse (with_sets c sets) indices'
          (publicKeys ++ match k with Some pk => [pk] | None => [] end)
  end.

(** [for j := v + 1; j < len(i.Sets)-1; j++]: the later participant sets
    that hold the same krama id; [rest] are the sets after position [v]. *)
Fixpoint slotMatches (j : Z) (sets : list (option NodeSet)) (id : KramaID) : list Z :=
  match sets with
  | [] => []
  | None :: rest => slotMatches (j + 1) rest id
  | Some set :: rest =>
      flat_map (λ kID, if decide (NI_ID kID = id) then [j] else []) (Infos set)
      ++ slotMatches (j + 1) rest id
  end.

(** The four results of [GetKramaID]; nil slots are [None]. *)
Record KramaIDResult := {
  KR_slots : option (list Z);
  KR_slotIndex : Z;
  KR_ID : KramaID;
  KR_PublicKey : bytes;
}.
Definition noKramaID : KramaIDResult :=
  {| KR_slots := None; KR_slotIndex := -1; KR_ID := ""%string; KR_PublicKey := [] |}.

Fixpoint GetKramaID_loop (v : Z) (sets : list (option NodeSet)) (index : Z) : res KramaIDResult :=
  match sets with
  | [] => Ret noKramaID
  | None :: rest => GetKramaID_loop (v + 1) rest index
  | Some set :: rest =>
      if zlen (Infos set) <=? index
      then GetKramaID_loop (v + 1) rest (index - zlen (Infos set))
      else
        info ← go_index (Infos set) index;
        Ret {| KR_slots := Some (v :: slotMatches (v + 1) (removelast rest) (NI_ID info));
               KR_slotIndex := index; KR_ID := NI_ID info; KR_PublicKey := NI_PublicKey info |}
  end.

Definition GetKramaID (c : ICSCommittee) (index : Z) : res KramaIDResult :=
  if (index <? 0) || (totalNodes c <=? index) then Ret noKramaID
  else if size c - 1 <? 0 then Panic "makeslice: cap out of range"
  else GetKramaID_loop 0 (Sets c) index.

Fixpoint GetPublicKey_loop (sets : list (option NodeSet)) (index : Z) : res (KramaID * bytes) :=
  match sets with
  | [] => Ret (""%string, [])
  | None :: rest => GetPublicKey_loop rest index
  | Some set :: rest =>
      if zlen (Infos set) <=? index
      then GetPublicKey_loop rest (index - zlen (Infos set))
      else info ← go_index (Infos set) index; Ret (NI_ID info, NI_PublicKey info)
  end.

Definition GetPublicKey (c : ICSCommittee) (index : Z) : res (KramaID * bytes) :=
  if (index <? 0) || (totalNodes c <=? index) then Ret (""%string, [])
  else GetPublicKey_loop (Sets c) index.

(** First entry of a set with the given id. *)
Fixpoint findInfo (j : Z) (infos : list NodeInfo) (id : KramaID) : option (Z * NodeInfo) :=
  match infos with
  | [] => None
  | info :: rest =>
      if decide (NI_ID info = id) then Some (j, info) else findInfo (j + 1) rest id
  end.

Fixpoint HasKramaID_loop (offset : Z) (sets : list (option NodeSet)) (id : KramaID)
    : Z * bytes * bool :=
  match sets with
  | [] => (-1, [], false)
  | None :: rest => HasKramaID_loop offset rest id
  | Some set :: rest =>
      match findInfo 0 (Infos set) id with
      | Some (j, info) => (i32 (offset + j), NI_PublicKey info, GetIndex (Responses set) j)
      | None => HasKramaID_loop (offset + zlen (Infos set)) rest id
      end
  end.

Definition HasKramaID (c : ICSCommittee) (peerID : KramaID) : Z * bytes * bool :=
  HasKramaID_loop 0 (Sets c) peerID.

Fixpoint CommitteeGetIndex_loop (i : Z) (sets : list (option NodeSet)) (id : KramaID) : Z * Z :=
  match sets with
  | [] => (-1, -1)
  | None :: rest => CommitteeGetIndex_loop (i + 1) rest id
  | Some set :: rest =>
      if ExcludedFromICS set then CommitteeGetIndex_loop (i + 1) rest id
      else match findInfo 0 (Infos set) id with
           | Some (j, _) => (i, j)
           | None => CommitteeGetIndex_loop (i + 1) rest id
           end
  end.
Definition CommitteeGetIndex (c : ICSCommittee) (peerID : KramaID) : Z * Z :=
  CommitteeGetIndex_loop 0 (Sets c) peerID.

Definition UpdateNodeSet (c : ICSCommittee) (setType : Z) (data : option NodeSet)
    : res ICSCommittee :=
  match data with
  | None => Ret c
  | Some ns =>
      sets ← go_update (Sets c) setType (Some ns);
      Ret {| Sets := sets; totalNodes := totalNodes c + zlen (Infos ns); size := size c |}
  end.

(** One step of the de-duplicating loops: the ids seen (the Go map) and the
    list built so far. *)
Definition addDistinct (acc : gset KramaID * list KramaID) (id : KramaID)
    : gset KramaID * list KramaID :=
  if decide (id ∈ acc.1) then acc else ({[id]} ∪ acc.1, acc.2 ++ [id]).

Definition nodesWhere (keep : NodeSet → Z → bool) (c : ICSCommittee) : list KramaID :=
  (foldl (λ acc o,
     match o with
     | None => acc
     | Some set =>
         if ExcludedFromICS set then acc
         else foldl (λ acc '(index, info),
                if keep set index then addDistinct acc (NI_ID info) else acc) acc (ranged set)
     end) (∅, []) (Sets c)).2.

Definition GetNodes (c : ICSCommittee) (respondedOnly : bool) : list KramaID :=
  nodesWhere (λ set index, negb (respondedOnly && negb (GetIndex (Responses set) index))) c.

Definition GetInactiveNodes (c : ICSCommittee) : list KramaID :=
  nodesWhere (λ set index, negb (GetIndex (Responses set) index)) c.

Definition GetVoteset (c : ICSCommittee) : Bits :=
  (foldl (λ '(voteSet, index) o,
     match o with
     | None => (voteSet, index)
     | Some set =>
         (foldl (λ vs j, SetIndex vs (index + j) (GetIndex (Responses set) j))
            voteSet (seqZ 0 (zlen (Infos set))),
          index + zlen (Infos set))
     end) (NewArrayOfBits (totalNodes c), 0) (Sets c)).1.

(** [for j := start; j <= end; j++] *)
Definition GetRespondedNodeCount (c : ICSCommittee) (start end_ : Z) : res Z :=
  foldM (λ count j,
    o ← go_index (Sets c) j;
    Ret match o with Some set => count + GetRespCount set | None => count end)
    (seqZ start (end_ - start + 1)) 0.

(** One iteration of [IsContextQuorum]: may the loop go on? *)
Definition setQuorumReached (o : option NodeSet) : bool :=
  match o with
  | None => true
  | Some set =>
      let responses := GetRespCount set in
      let setSize := SetSizeWithOutDelta set in
      negb ((0 <? setSize) && (responses <? setSize * 2 / 3 + 1))
  end.

Definition IsContextQuorum (c : ICSCommittee) : res bool :=
  foldM (λ ok j,
    if ok : bool then o ← go_index (Sets c) j; Ret (setQuorumReached o) else Ret false)
    (seqZ 0 (Size c - 1)) true.

Definition RandomSet (c : ICSCommittee) : res (option NodeSet) :=
  go_index (Sets c) (StochasticSetPosition c).

Definition IsRandomQuorum (c : ICSCommittee) (requiredRandomNodes : Z) : res bool :=
  o ← RandomSet c; set ← deref o; Ret (requiredRandomNodes <=? GetRespCount set).

Definition RandomSetSize (c : ICSCommittee) : res Z :=
  o ← RandomSet c; set ← deref o; Ret (zlen (Infos set)).

Definition RandomQuorumSize (c : ICSCommittee) : res Z :=
  o ← RandomSet c; set ← deref o; Ret (quorum_of (SetSizeWithOutDelta set)).

Definition RandomSetSizeWithOutDelta (c : ICSCommittee) : res Z :=
  o ← RandomSet c; set ← deref o; Ret (SetSizeWithOutDelta set).

Definition CommitteeResponses (c : ICSCommittee) : res (list (option Bits)) :=
  mapM_res (λ j,
    o ← go_index (Sets c) j;
    Ret match o with
        | Some set => if ExcludedFromICS set then None else Some (BitsCopy (Responses set))
        | None => None
        end) (seqZ 0 (size c)).

Definition ExcludeParticipantsFromICS (c : ICSCommittee) (position : Z) : res ICSCommittee :=
  o ← go_index (Sets c) position;
  match o with
  | None => Ret c
  | Some set =>
      sets ← go_update (Sets c) position
        (Some {| Infos := Infos set; Responses := Responses set; ExcludedFromICS := true;
                 RespCount := RespCount set; SetSizeWithOutDelta := SetSizeWithOutDelta set |});
      Ret (with_sets c sets)
  end.

(** The ids are collected in a Go map, whose iteration order is unspecified:
    [elements] is one such order. *)
Definition DistinctNodes (operator : KramaID) (nodeSets : list (option NodeSet))
    : list KramaID * Z * bool :=
  let '(nodes, isOperatorIncluded) :=
    foldl (λ acc o,
      match o with
      | None => acc
      | Some set =>
          foldl (λ '(nodes, inc) info,
            if decide (NI_ID info ∈ nodes) then (nodes, inc)
            else ({[NI_ID info]} ∪ nodes, inc || bool_decide (NI_ID info = operator)))
            acc (Infos set)
      end) (∅ : gset KramaID, false) nodeSets in
  (elements nodes, Z.of_nat (base.size nodes), isOperatorIncluded).
End NodeSet.
