(* ===== verification/Committee.v ===== *)
(** * The committee's addressing, quorums and responses: theorems on [NodeSet.v]

    [flat] lists the validators of a committee in the order of the flat index;
    [committee_ok] is the well-formedness every constructor of the engine
    establishes.  The loops of [types/nodeset.go] are proved to be lookups in
    [flat]. *)

From stdpp Require Import base gmap strings list.
From Stdlib Require Import ZArith Lia.
From S2P Require Import Prelude External Types NodeSet.

Section Flat.
Context `{ET : ExtTypes}.

(** Position of the set, index in the set, and the node. *)
Fixpoint flat_from (v : Z) (sets : list (option NodeSet)) : list (Z * Z * NodeInfo) :=
  match sets with
  | [] => []
  | None :: rest => flat_from (v + 1) rest
  | Some set :: rest =>
      imap (λ j info, (v, Z.of_nat j, info)) (Infos set) ++ flat_from (v + 1) rest
  end.
Definition flat (c : ICSCommittee) : list (Z * Z * NodeInfo) := flat_from 0 (Sets c).

(** The sets whose vote counters a validator at position [p] moves. *)
Definition slots_from (v : Z) (sets : list (option NodeSet)) (p : Z) (id : KramaID) : list Z :=
  p :: slotMatches (p + 1) (removelast (drop (Z.to_nat (p + 1 - v)) sets)) id.

Definition result_of (v : Z) (sets : list (option NodeSet)) (o : option (Z * Z * NodeInfo))
    : KramaIDResult :=
  match o with
  | None => noKramaID
  | Some (p, j, info) =>
      {| KR_slots := Some (slots_from v sets p (NI_ID info)); KR_slotIndex := j;
         KR_ID := NI_ID info; KR_PublicKey := NI_PublicKey info |}
  end.

Record committee_ok (c : ICSCommittee) : Prop := {
  co_total : totalNodes c = zlen (flat c);
  co_size : size c = zlen (Sets c);
  co_pos : 1 ≤ size c;
  co_bound : totalNodes c < 2 ^ 31;
  co_bits : ∀ set, Some set ∈ Sets c → BitsSize (Responses set) = zlen (Infos set);
}.

Lemma flat_from_pos v sets p j info :
  (p, j, info) ∈ flat_from v sets → v ≤ p < v + zlen sets.
Proof.
  revert v. induction sets as [|[set|] rest IH]; intros v; cbn -[zlen].
  - set_solver.
  - rewrite elem_of_app, elem_of_lookup_imap. unfold zlen in *. cbn.
    intros [(k & y & [= -> -> ->] & _)|H%IH]; lia.
  - intros H%IH. unfold zlen in *. cbn. lia.
Qed.

Lemma lookup_flat_head v set rest (i : nat) :
  flat_from v (Some set :: rest) !! i =
  if decide (i < length (Infos set))%nat
  then (λ info, (v, Z.of_nat i, info)) <$> Infos set !! i
  else flat_from (v + 1) rest !! (i - length (Infos set))%nat.
Proof.
  cbn. case_decide as H.
  - rewrite lookup_app_l by (by rewrite length_imap). by rewrite list_lookup_imap.
  - rewrite lookup_app_r by (rewrite length_imap; lia). by rewrite length_imap.
Qed.

Lemma result_of_shift v s rest o :
  (∀ p j info, o = Some (p, j, info) → v + 1 ≤ p) →
  result_of v (s :: rest) o = result_of (v + 1) rest o.
Proof.
  destruct o as [[[p j] info]|]; [|done]. intros H. specialize (H p j info eq_refl).
  unfold result_of, slots_from.
  replace (Z.to_nat (p + 1 - v)) with (S (Z.to_nat (p + 1 - (v + 1)))) by lia. done.
Qed.

Lemma result_of_shift_lookup v s rest (i : nat) :
  result_of v (s :: rest) (flat_from (v + 1) rest !! i)
  = result_of (v + 1) rest (flat_from (v + 1) rest !! i).
Proof.
  apply result_of_shift. intros p j info H%list_elem_of_lookup_2%flat_from_pos. lia.
Qed.

Lemma GetKramaID_loop_flat v sets index :
  0 ≤ index →
  GetKramaID_loop v sets index = Ret (result_of v sets (flat_from v sets !! Z.to_nat index)).
Proof.
  revert v index. induction sets as [|[set|] rest IH]; intros v index Hi.
  - done.
  - rewrite lookup_flat_head. cbn [GetKramaID_loop].
    destruct (Z.leb_spec (zlen (Infos set)) index) as [Hle|Hlt]; unfold zlen in *.
    + rewrite decide_False by lia. rewrite IH by lia.
      rewrite result_of_shift_lookup.
      by replace (Z.to_nat (index - Z.of_nat (length (Infos set))))
        with (Z.to_nat index - length (Infos set))%nat by lia.
    + rewrite decide_True by lia.
      destruct (go_index_lt (Infos set) index) as (info & -> & Hl);
        [unfold zlen; lia|].
      rewrite Hl. cbn. unfold slots_from.
      replace (Z.to_nat (v + 1 - v)) with 1%nat by lia.
      rewrite Z2Nat.id by lia. done.
  - cbn [GetKramaID_loop flat_from]. rewrite IH by lia. by rewrite result_of_shift_lookup.
Qed.

(** The abstract committee: the slots, id and key at a flat index. *)
Definition lookup_spec (c : ICSCommittee) (index : Z) : KramaIDResult :=
  if index <? 0 then noKramaID else result_of 0 (Sets c) (flat c !! Z.to_nat index).

Lemma GetKramaID_spec c index :
  committee_ok c → GetKramaID c index = Ret (lookup_spec c index).
Proof.
  intros Hok. unfold GetKramaID, lookup_spec.
  destruct (Z.ltb_spec index 0) as [|H0]; [done|]. cbn.
  destruct (Z.leb_spec (totalNodes c) index) as [Hle|Hlt].
  - rewrite (co_total c Hok) in Hle. rewrite lookup_ge_None_2; [done|].
    unfold zlen in Hle. lia.
  - destruct (Z.ltb_spec (size c - 1) 0); [pose proof (co_pos c Hok); lia|].
    by apply GetKramaID_loop_flat.
Qed.

Lemma GetPublicKey_loop_flat v sets index :
  0 ≤ index →
  GetPublicKey_loop sets index =
  Ret match flat_from v sets !! Z.to_nat index with
      | Some (_, _, info) => (NI_ID info, NI_PublicKey info)
      | None => (""%string, [])
      end.
Proof.
  revert v index. induction sets as [|[set|] rest IH]; intros v index Hi; [done| |].
  - rewrite lookup_flat_head. cbn [GetPublicKey_loop].
    destruct (Z.leb_spec (zlen (Infos set)) index) as [Hle|Hlt]; unfold zlen in *.
    + rewrite decide_False by lia. rewrite (IH (v + 1)) by lia.
      by replace (Z.to_nat (index - Z.of_nat (length (Infos set))))
        with (Z.to_nat index - length (Infos set))%nat by lia.
    + rewrite decide_True by lia.
      destruct (go_index_lt (Infos set) index) as (info & -> & Hl); [unfold zlen; lia|].
      by rewrite Hl.
  - cbn. by apply (IH (v + 1)).
Qed.

(** ** The first validator with a given id *)
Lemma findInfo_Some j infos id k info :
  findInfo j infos id = Some (k, info) →
  j ≤ k ∧ infos !! Z.to_nat (k - j) = Some info ∧ NI_ID info = id ∧
  (k - j < zlen infos).
Proof.
  revert j. induction infos as [|x infos IH]; intros j; cbn -[zlen]; [done|].
  case_decide as Hd.
  - intros [= -> ->]. rewrite Z.sub_diag. unfold zlen. cbn. repeat split; try done; lia.
  - intros (H1 & H2 & H3 & H4)%IH. unfold zlen in *. cbn.
    replace (Z.to_nat (k - j)) with (S (Z.to_nat (k - (j + 1)))) by lia.
    cbn. repeat split; try done; lia.
Qed.

Lemma findInfo_None j infos id :
  findInfo j infos id = None ↔ id ∉ NI_ID <$> infos.
Proof.
  revert j. induction infos as [|x infos IH]; intros j; cbn.
  - split; [set_solver|done].
  - rewrite not_elem_of_cons. case_decide; [split; [done|naive_solver]|].
    rewrite IH. naive_solver.
Qed.

Definition flat_ids (c : ICSCommittee) : list KramaID := (λ x, NI_ID x.2) <$> flat c.

Lemma flat_from_ids v sets :
  (λ x, NI_ID x.2) <$> flat_from v sets =
  concat ((λ o, match o with Some set => NI_ID <$> Infos set | None => [] end) <$> sets).
Proof.
  revert v. induction sets as [|[set|] rest IH]; intros v; cbn; [done| |by rewrite IH].
  rewrite fmap_app, IH. f_equal.
  apply list_eq. intros i. rewrite !list_lookup_fmap, list_lookup_imap.
  by destruct (Infos set !! i).
Qed.

Lemma flat_from_ids_shift v w sets :
  (λ x, NI_ID x.2) <$> flat_from v sets = (λ x, NI_ID x.2) <$> flat_from w sets.
Proof. by rewrite !flat_from_ids. Qed.

Lemma flat_from_length v w sets : length (flat_from v sets) = length (flat_from w sets).
Proof.
  rewrite <-(length_fmap (λ x, NI_ID x.2) (flat_from v sets)).
  rewrite <-(length_fmap (λ x, NI_ID x.2) (flat_from w sets)).
  by rewrite (flat_from_ids_shift v w).
Qed.

Lemma flat_from_cons_length v w set rest :
  zlen (flat_from v (Some set :: rest)) = zlen (Infos set) + zlen (flat_from w rest).
Proof.
  unfold zlen. cbn. rewrite length_app, length_imap, (flat_from_length (v + 1) w). lia.
Qed.

Lemma not_elem_of_infos_flat v set rest id :
  id ∉ NI_ID <$> Infos set → id ∉ (λ x, NI_ID x.2) <$> flat_from v rest →
  id ∉ (λ x, NI_ID x.2) <$> flat_from v (Some set :: rest).
Proof. rewrite !flat_from_ids. cbn. set_solver. Qed.

(** What [HasKramaID] found at flat index [i]: the node at position [p], [j]. *)
Definition found_at (offset : Z) (sets : list (option NodeSet)) (id : KramaID)
    (i : Z) (pk : bytes) (responded : bool) : Prop :=
  offset ≤ i ∧ ∃ p j info set,
    (∀ v, flat_from v sets !! Z.to_nat (i - offset) = Some (v + p, j, info)) ∧
    NI_ID info = id ∧ NI_PublicKey info = pk ∧
    sets !! Z.to_nat p = Some (Some set) ∧ 0 ≤ p ∧
    responded = GetIndex (Responses set) j.

Lemma found_at_head offset set rest id j info :
  0 ≤ offset → findInfo 0 (Infos set) id = Some (j, info) →
  found_at offset (Some set :: rest) id (offset + j) (NI_PublicKey info)
    (GetIndex (Responses set) j).
Proof.
  intros H0 (Hj & Hl & Hid & Hlen)%findInfo_Some. rewrite Z.sub_0_r in *.
  split; [lia|]. exists 0, j, info, set. split; [|naive_solver].
  intros v. replace (offset + j - offset) with j by lia. unfold zlen in Hlen. cbn.
  rewrite lookup_app_l by (rewrite length_imap; lia).
  rewrite list_lookup_imap, Hl. cbn. by rewrite Z.add_0_r, Z2Nat.id by lia.
Qed.

Lemma found_at_skip offset set rest id i pk r :
  found_at (offset + zlen (Infos set)) rest id i pk r →
  found_at offset (Some set :: rest) id i pk r.
Proof.
  intros (Hi & p & j & info & set' & Hf & ? & ? & Hs & Hp & ?). unfold zlen in *.
  split; [lia|]. exists (p + 1), j, info, set'. split.
  - intros v. cbn. rewrite lookup_app_r, length_imap by (rewrite length_imap; lia).
    replace (Z.to_nat (i - offset) - length (Infos set))%nat
      with (Z.to_nat (i - (offset + Z.of_nat (length (Infos set))))) by lia.
    rewrite Hf. do 3 f_equal. lia.
  - replace (Z.to_nat (p + 1)) with (S (Z.to_nat p)) by lia. cbn.
    repeat split; try done; lia.
Qed.

Lemma found_at_nil offset rest id i pk r :
  found_at offset rest id i pk r → found_at offset (None :: rest) id i pk r.
Proof.
  intros (Hi & p & j & info & set' & Hf & ? & ? & Hs & Hp & ?).
  split; [done|]. exists (p + 1), j, info, set'. split.
  - intros v. cbn. rewrite Hf. do 3 f_equal. lia.
  - replace (Z.to_nat (p + 1)) with (S (Z.to_nat p)) by lia. cbn.
    repeat split; try done; lia.
Qed.

Lemma HasKramaID_loop_spec offset sets id :
  0 ≤ offset → offset + zlen (flat_from 0 sets) < 2 ^ 31 →
  match HasKramaID_loop offset sets id with
  | (i, pk, responded) =>
      (i = -1 ∧ id ∉ (λ x, NI_ID x.2) <$> flat_from 0 sets) ∨
      found_at offset sets id i pk responded
  end.
Proof.
  revert offset. induction sets as [|[set|] rest IH]; intros offset H0 Hb.
  - left. set_solver.
  - rewrite (flat_from_cons_length 0 0) in Hb. cbn [HasKramaID_loop].
    destruct (findInfo 0 (Infos set) id) as [[j info]|] eqn:E.
    + right. pose proof (findInfo_Some _ _ _ _ _ E) as (? & _ & _ & ?).
      unfold zlen in *. rewrite i32_small by lia. by apply found_at_head.
    + specialize (IH (offset + zlen (Infos set))).
      destruct (HasKramaID_loop _ rest id) as [[i pk] r].
      destruct IH as [[-> Hn]|Hf]; [unfold zlen; lia|lia| |].
      * left. split; [done|]. apply findInfo_None in E.
        by apply not_elem_of_infos_flat.
      * right. by apply found_at_skip.
  - unfold zlen in *. cbn in *. rewrite (flat_from_length _ 0) in Hb. specialize (IH offset H0 Hb).
    destruct (HasKramaID_loop offset rest id) as [[i pk] r].
    destruct IH as [[-> Hn]|Hf]; [left|right; by apply found_at_nil].
    split; [done|]. by rewrite (flat_from_ids_shift _ 0).
Qed.
End Flat.

(** ** Who has responded *)
Section Responded.
Context `{ET : ExtTypes} `{!BitLaws ET}.

(** The response bits in the order of the flat index. *)
Definition bits_list (set : NodeSet) : list bool :=
  imap (λ j _, GetIndex (Responses set) (Z.of_nat j)) (Infos set).
Definition resp_list (sets : list (option NodeSet)) : list bool :=
  concat ((λ o, match o with Some set => bits_list set | None => [] end) <$> sets).
Definition responded (c : ICSCommittee) (i : Z) : bool :=
  if i <? 0 then false else default false (resp_list (Sets c) !! Z.to_nat i).

(** The part of the committee that responses do not change. *)
Definition identity_of (sets : list (option NodeSet)) : list (option (list (KramaID * bytes))) :=
  (λ o : option NodeSet,
     (λ set, (λ info, (NI_ID info, NI_PublicKey info)) <$> Infos set) <$> o) <$> sets.

Lemma length_bits_list set : length (bits_list set) = length (Infos set).
Proof. apply length_imap. Qed.

Lemma resp_list_Some set rest : resp_list (Some set :: rest) = bits_list set ++ resp_list rest.
Proof. done. Qed.

Lemma resp_list_length v sets : length (resp_list sets) = length (flat_from v sets).
Proof.
  revert v. induction sets as [|[set|] rest IH]; intros v; [done| |by apply IH].
  rewrite resp_list_Some. cbn [flat_from].
  by rewrite !length_app, length_bits_list, length_imap, (IH (v + 1)).
Qed.

Lemma resp_list_flat sets p j info set (i : nat) :
  (∀ v, flat_from v sets !! i = Some (v + p, j, info)) →
  0 ≤ p → sets !! Z.to_nat p = Some (Some set) →
  resp_list sets !! i = Some (GetIndex (Responses set) j).
Proof.
  revert i p. induction sets as [|o rest IH]; intros i p Hf Hp Hs; [done|].
  destruct (decide (p = 0)) as [->|Hne].
  - change (Some o = Some (Some set)) in Hs. simplify_eq. specialize (Hf 0). rewrite lookup_flat_head in Hf.
    case_decide as Hd.
    + apply fmap_Some in Hf as (info' & Hl & Heq). simplify_eq. rewrite resp_list_Some.
      rewrite lookup_app_l by (by rewrite length_bits_list).
      unfold bits_list. by rewrite list_lookup_imap, Hl.
    + apply list_elem_of_lookup_2, flat_from_pos in Hf. lia.
  - replace (Z.to_nat p) with (S (Z.to_nat (p - 1))) in Hs by lia. cbn in Hs.
    destruct o as [set0|]; [rewrite resp_list_Some|].
    + assert (Hge : (length (Infos set0) ≤ i)%nat).
      { specialize (Hf 0). rewrite lookup_flat_head in Hf. case_decide; [|lia].
        apply fmap_Some in Hf as (? & _ & [= ? _ _]). lia. }
      rewrite lookup_app_r by (by rewrite length_bits_list).
      rewrite length_bits_list. apply (IH _ (p - 1)); [|lia|done].
      intros v. specialize (Hf (v - 1)). rewrite lookup_flat_head in Hf.
      rewrite decide_False in Hf by lia. replace (v - 1 + 1) with v in Hf by lia.
      rewrite Hf. do 3 f_equal. lia.
    + apply (IH _ (p - 1)); [|lia|done]. intros v. specialize (Hf (v - 1)). cbn in Hf.
      replace (v - 1 + 1) with v in Hf by lia. rewrite Hf. do 3 f_equal. lia.
Qed.

(** The entry of [flat], seen from the set that holds it. *)
Lemma flat_lookup_set v sets p j info (i : nat) :
  flat_from v sets !! i = Some (p, j, info) →
  ∃ set, v ≤ p ∧ sets !! Z.to_nat (p - v) = Some (Some set) ∧ 0 ≤ j ∧
    Infos set !! Z.to_nat j = Some info ∧
    resp_list sets !! i = Some (GetIndex (Responses set) j).
Proof.
  revert v i. induction sets as [|[set|] rest IH]; intros v i H; [done| |].
  - rewrite resp_list_Some. rewrite lookup_flat_head in H. case_decide as Hd.
    + apply fmap_Some in H as (info' & Hl & Heq). simplify_eq. exists set.
      rewrite Z.sub_diag, Nat2Z.id. split_and!; try done; [lia|].
      rewrite lookup_app_l by (by rewrite length_bits_list).
      unfold bits_list. by rewrite list_lookup_imap, Hl.
    + apply IH in H as (set' & Hle & Hs & Hj & Hi & Hr). exists set'.
      replace (Z.to_nat (p - v)) with (S (Z.to_nat (p - (v + 1)))) by lia.
      rewrite lookup_app_r, length_bits_list by (rewrite length_bits_list; lia).
      split_and!; try done. lia.
  - apply IH in H as (set' & Hle & Hs & Hj & Hi & Hr). exists set'.
    replace (Z.to_nat (p - v)) with (S (Z.to_nat (p - (v + 1)))) by lia.
    split_and!; try done. lia.
Qed.

(** *** GetVoteset *)
Lemma voteset_inner (f : Z → bool) index n b i :
  0 ≤ index → index + Z.of_nat n ≤ BitsSize b →
  let b' := foldl (λ vs j, SetIndex vs (index + j) (f j)) b (seqZ 0 (Z.of_nat n)) in
  BitsSize b' = BitsSize b ∧
  GetIndex b' i = if decide (index ≤ i < index + Z.of_nat n) then f (i - index) else GetIndex b i.
Proof.
  intros H0. induction n as [|n IH]; intros Hn; cbn zeta.
  - cbn. split; [done|]. by rewrite decide_False by lia.
  - rewrite seqZ_S, foldl_app. cbn.
    destruct IH as [IHs IHg]; [lia|]. cbn zeta in *.
    set (b' := foldl _ b _) in *. rewrite bits_set_size. split; [done|].
    rewrite bits_set_get by lia. rewrite IHg.
    repeat case_decide; try lia; try done. f_equal. lia.
Qed.

Lemma voteset_outer sets index b i :
  0 ≤ index → index + zlen (resp_list sets) ≤ BitsSize b →
  GetIndex (foldl (λ '(voteSet, index) o,
     match o with
     | None => (voteSet, index)
     | Some set =>
         (foldl (λ vs j, SetIndex vs (index + j) (GetIndex (Responses set) j))
            voteSet (seqZ 0 (zlen (Infos set))),
          index + zlen (Infos set))
     end) (b, index) sets).1 i =
  if decide (index ≤ i < index + zlen (resp_list sets))
  then default false (resp_list sets !! Z.to_nat (i - index)) else GetIndex b i.
Proof.
  revert index b. induction sets as [|[set|] rest IH]; intros index b H0 Hb.
  - unfold zlen. cbn. by rewrite decide_False by lia.
  - cbn [foldl]. rewrite resp_list_Some in *. unfold zlen in *.
    rewrite length_app, length_bits_list in *.
    destruct (voteset_inner (λ j, GetIndex (Responses set) j) index (length (Infos set)) b i)
      as [Hs Hg]; [done|lia|]. cbn zeta in *.
    rewrite IH by (rewrite ?Hs; lia). rewrite Hg. repeat case_decide; try lia; try done.
    + rewrite lookup_app_l by (rewrite length_bits_list; lia).
      unfold bits_list. rewrite list_lookup_imap.
      destruct (lookup_lt_is_Some_2 (Infos set) (Z.to_nat (i - index))) as [x Hx]; [lia|].
      rewrite Hx. cbn. rewrite Z2Nat.id by lia. done.
    + rewrite lookup_app_r by (rewrite length_bits_list; lia). rewrite length_bits_list.
      do 2 f_equal. lia.
  - cbn. by apply IH.
Qed.

Lemma GetVoteset_responded c i :
  committee_ok c → GetIndex (GetVoteset c) i = responded c i.
Proof.
  intros Hok. pose proof (co_total c Hok) as Ht. unfold flat in Ht.
  assert (Hn : BitsSize (NewArrayOfBits (totalNodes c)) = totalNodes c).
  { apply bits_new_size. rewrite Ht. unfold zlen. lia. }
  unfold GetVoteset. rewrite voteset_outer; [|done|].
  2: { rewrite Hn, Ht. unfold zlen. rewrite (resp_list_length 0). lia. }
  rewrite Z.sub_0_r. unfold responded. destruct (Z.ltb_spec i 0).
  - rewrite decide_False by lia. by rewrite bits_new_get.
  - case_decide; [done|]. rewrite bits_new_get, lookup_ge_None_2; [done|].
    unfold zlen in *. lia.
Qed.
End Responded.

(** ** Recording responses *)
Section Respond.
Context `{ET : ExtTypes} `{!BitLaws ET}.

Fixpoint count_true (l : list bool) : Z :=
  match l with
  | [] => 0
  | b :: l' => (if b then 1 else 0) + count_true l'
  end.

Lemma count_true_insert l (i : nat) :
  l !! i = Some false → count_true (<[i := true]> l) = count_true l + 1.
Proof.
  revert i. induction l as [|b l IH]; intros [|i] H; [done|done| |].
  - cbn in H. simplify_eq. cbn. lia.
  - change (<[S i := true]> (b :: l)) with (b :: <[i := true]> l).
    cbn [count_true]. rewrite (IH i H). lia.
Qed.

Lemma count_true_bound l : 0 ≤ count_true l ≤ zlen l.
Proof. unfold zlen. induction l as [|[] l IH]; cbn; lia. Qed.

(** The response counter of every set is the number of its true bits. *)
Definition counted (sets : list (option NodeSet)) : Prop :=
  ∀ set, Some set ∈ sets → RespCount set = count_true (bits_list set).

Definition bits_sized (sets : list (option NodeSet)) : Prop :=
  ∀ set, Some set ∈ sets → BitsSize (Responses set) = zlen (Infos set) ∧ zlen (Infos set) < 2 ^ 31.

Lemma bits_sized_cons o rest : bits_sized (o :: rest) → bits_sized rest.
Proof. intros H set Hin. apply H. set_solver. Qed.

Lemma counted_cons o rest :
  counted (o :: rest) ↔
  (∀ set, o = Some set → RespCount set = count_true (bits_list set)) ∧ counted rest.
Proof.
  split.
  - intros H. split; intros set Hs; apply H; set_solver.
  - intros [H1 H2] set [Heq|Hs]%elem_of_cons; [by apply H1|by apply H2].
Qed.

(** [UpdateResponse(index, true)] on one set. *)
Lemma UpdateResponse_bits set (i : nat) :
  BitsSize (Responses set) = zlen (Infos set) → (i < length (Infos set))%nat →
  bits_list (UpdateResponse set (Z.of_nat i) true) = <[i := true]> (bits_list set).
Proof.
  intros Hs Hi. apply list_eq. intros k. unfold bits_list. cbn.
  rewrite list_lookup_insert, !list_lookup_imap, length_imap.
  destruct (Infos set !! k) as [x|] eqn:Hk; cbn.
  - rewrite bits_set_get by (unfold zlen in Hs; lia).
    repeat case_decide; try lia; done.
  - apply lookup_ge_None in Hk. rewrite decide_False by lia. done.
Qed.

Lemma UpdateResponse_counted set (i : nat) :
  BitsSize (Responses set) = zlen (Infos set) → zlen (Infos set) < 2 ^ 31 →
  bits_list set !! i = Some false → RespCount set = count_true (bits_list set) →
  RespCount (UpdateResponse set (Z.of_nat i) true)
  = count_true (bits_list (UpdateResponse set (Z.of_nat i) true)).
Proof.
  intros Hs Hb Hl Hc. pose proof (lookup_lt_Some _ _ _ Hl) as Hlt.
  rewrite length_bits_list in Hlt. rewrite UpdateResponse_bits by done.
  pose proof (count_true_bound (<[i := true]> (bits_list set))) as Hcb.
  rewrite (count_true_insert _ _ Hl) in *. cbn. rewrite Hc. apply i32_small.
  unfold zlen in *. rewrite length_insert, length_bits_list in Hcb. lia.
Qed.

(** What the inner loop of [UpdateValidatorResponse] does to the sets. *)
Record respond_effect (sets sets' : list (option NodeSet)) (i : nat) : Prop := {
  re_flat : ∀ v, flat_from v sets' = flat_from v sets;
  re_resp : resp_list sets' = <[i := true]> (resp_list sets);
  re_len : length sets' = length sets;
  re_sized : bits_sized sets → bits_sized sets';
  re_counted : resp_list sets !! i = Some false → counted sets → counted sets';
}.

Lemma respondAt_spec sets (i : nat) v :
  bits_sized sets →
  ∃ sets', respondAt sets (Z.of_nat i)
    = Ret (sets', (λ x, NI_PublicKey x.2) <$> flat_from v sets !! i)
    ∧ respond_effect sets sets' i.
Proof.
  revert i v. induction sets as [|[set|] rest IH]; intros i v Hs.
  - exists []. split; [done|]. split; try done. 
  - rewrite lookup_flat_head. cbn [respondAt].
    pose proof (IH (i - length (Infos set))%nat (v + 1) (bits_sized_cons _ _ Hs)) as IHi.
    destruct (Hs set) as [Hsz Hb]; [set_solver|].
    destruct (Z.leb_spec (zlen (Infos set)) (Z.of_nat i)) as [Hle|Hle]; unfold zlen in Hle.
    + rewrite decide_False by lia. destruct IHi as (rest' & He & Hre).
      replace (Z.of_nat i - zlen (Infos set)) with (Z.of_nat (i - length (Infos set)))
        by (unfold zlen; lia).
      rewrite He. cbn. eexists; split; [done|].
      destruct Hre as [Hf Hr Hl Hz Hc]. split.
      * intros w. cbn. by rewrite Hf.
      * rewrite !resp_list_Some, Hr, insert_app_r_alt by (rewrite length_bits_list; lia).
        by rewrite length_bits_list.
      * cbn. by rewrite Hl.
      * intros Hz' s [[= ->]|Hin]%elem_of_cons; [done|].
        apply Hz; [by eapply bits_sized_cons|done].
      * intros Hlk Hcn. rewrite resp_list_Some, lookup_app_r, length_bits_list in Hlk
          by (rewrite length_bits_list; lia).
        apply counted_cons in Hcn as [? ?]. apply counted_cons. auto.
    + rewrite decide_True by lia.
      destruct (lookup_lt_is_Some_2 (Infos set) i) as [info Hinfo]; [lia|].
      rewrite (go_index_nat _ _ _ Hinfo). cbn. rewrite Hinfo. cbn.
      eexists; split; [done|]. split.
      * done.
      * rewrite !resp_list_Some, UpdateResponse_bits by (done || lia).
        by rewrite insert_app_l by (rewrite length_bits_list; lia).
      * done.
      * intros Hz' s [[= ->]|Hin]%elem_of_cons; cbn.
        -- by rewrite bits_set_size.
        -- apply Hz'. set_solver.
      * rewrite resp_list_Some, lookup_app_l by (rewrite length_bits_list; lia).
        rewrite !counted_cons. intros Hlk [Hc1 Hc2]. split; [|done].
        intros s [= <-]. apply UpdateResponse_counted; auto.
  - cbn [respondAt]. destruct (IH i (v + 1) (bits_sized_cons _ _ Hs)) as (rest' & He & Hre).
    rewrite He. cbn. eexists; split; [done|].
    destruct Hre as [Hf Hr Hl Hz Hc]. split.
    + intros w. cbn. by rewrite Hf.
    + done.
    + cbn. by rewrite Hl.
    + intros Hz' s [[=]|Hin]%elem_of_cons. apply Hz; [by eapply bits_sized_cons|done].
    + rewrite !counted_cons. intros Hlk [_ ?]. split; [done|]. by apply Hc.
Qed.
End Respond.

(** ** Theorems *)
Section Theorems.
Context `{ET : ExtTypes} `{!BitLaws ET}.

Lemma infos_flat_length v sets set :
  Some set ∈ sets → zlen (Infos set) ≤ zlen (flat_from v sets).
Proof.
  revert v. induction sets as [|[s|] rest IH]; intros v Hin; [set_solver| |].
  - rewrite (flat_from_cons_length v v). unfold zlen in *.
    apply elem_of_cons in Hin as [[= ->]|Hin]; [lia|]. specialize (IH v Hin). lia.
  - apply elem_of_cons in Hin as [[=]|Hin]. by apply IH.
Qed.

Lemma committee_bits_sized c : committee_ok c → bits_sized (Sets c).
Proof.
  intros Hok set Hin. split; [by apply (co_bits c Hok)|].
  pose proof (infos_flat_length 0 _ _ Hin). pose proof (co_total c Hok).
  pose proof (co_bound c Hok). unfold flat in *. lia.
Qed.

Lemma committee_ok_with_sets c sets :
  committee_ok c → (∀ v, flat_from v sets = flat_from v (Sets c)) →
  length sets = length (Sets c) → bits_sized sets → committee_ok (with_sets c sets).
Proof.
  intros [Ht Hs Hp Hb Hz] Hf Hl Hbs. split; cbn; unfold flat; cbn.
  - by rewrite Hf.
  - rewrite Hs. unfold zlen. by rewrite Hl.
  - done.
  - done.
  - intros set Hin. by apply Hbs.
Qed.

Lemma responded_insert c sets (i : nat) k :
  resp_list sets = <[i := true]> (resp_list (Sets c)) → (i < length (resp_list (Sets c)))%nat →
  responded (with_sets c sets) k = responded c k || bool_decide (k = Z.of_nat i).
Proof.
  intros Hr Hi. unfold responded. cbn [Sets with_sets]. rewrite Hr.
  destruct (Z.ltb_spec k 0); [symmetry; apply bool_decide_eq_false; lia|].
  rewrite list_lookup_insert. case_decide as Hd.
  - rewrite bool_decide_eq_true_2 by lia. by rewrite orb_true_r.
  - rewrite bool_decide_eq_false_2 by lia. by rewrite orb_false_r.
Qed.

Lemma responded_lookup c (i : nat) :
  (i < length (resp_list (Sets c)))%nat → responded c (Z.of_nat i) = false →
  resp_list (Sets c) !! i = Some false.
Proof.
  intros [b Hb]%lookup_lt_is_Some_2. unfold responded.
  destruct (Z.ltb_spec (Z.of_nat i) 0); [lia|]. rewrite Nat2Z.id, Hb. cbn. by intros ->.
Qed.

Lemma lookup_spec_key c i :
  0 ≤ i < zlen (flat c) →
  (λ x, NI_PublicKey x.2) <$> flat c !! Z.to_nat i = Some (KR_PublicKey (lookup_spec c i)).
Proof.
  intros H. unfold lookup_spec. destruct (Z.ltb_spec i 0); [lia|].
  destruct (lookup_lt_is_Some_2 (flat c) (Z.to_nat i)) as [[[p j] info] Hx];
    [unfold zlen in H; lia|]. by rewrite Hx.
Qed.

(** The state one accepted index leaves behind. *)
Lemma respond_step c i :
  committee_ok c → 0 ≤ i < totalNodes c →
  ∃ sets, respondAt (Sets c) i = Ret (sets, Some (KR_PublicKey (lookup_spec c i))) ∧
    committee_ok (with_sets c sets) ∧ flat (with_sets c sets) = flat c ∧
    (∀ k, responded (with_sets c sets) k = responded c k || bool_decide (k = i)) ∧
    (responded c i = false → counted (Sets c) → counted sets).
Proof.
  intros Hok Hi. pose proof (committee_bits_sized c Hok) as Hbs.
  destruct (respondAt_spec (Sets c) (Z.to_nat i) 0 Hbs) as (sets & He & [Hf Hr Hl Hz Hc]).
  rewrite Z2Nat.id in He by lia. rewrite (co_total c Hok) in Hi.
  assert (Hlt : (Z.to_nat i < length (resp_list (Sets c)))%nat).
  { rewrite (resp_list_length 0). unfold zlen, flat in Hi. lia. }
  exists sets. split; [|split; [|split; [|split]]].
  - rewrite He. do 2 f_equal. by apply lookup_spec_key.
  - apply committee_ok_with_sets; auto.
  - apply Hf.
  - intros k. rewrite (responded_insert c sets _ k Hr Hlt). do 2 f_equal.
    rewrite Z2Nat.id by lia. done.
  - intros Hresp. apply Hc. apply responded_lookup; [done|]. by rewrite Z2Nat.id by lia.
Qed.

Lemma lookup_spec_same c sets i :
  flat (with_sets c sets) = flat c →
  KR_PublicKey (lookup_spec (with_sets c sets) i) = KR_PublicKey (lookup_spec c i).
Proof.
  intros H. unfold lookup_spec. rewrite H. destruct (i <? 0); [done|].
  by destruct (flat c !! Z.to_nat i) as [[[p j] info]|].
Qed.

Lemma UpdateValidatorResponse_acc indices c acc :
  committee_ok c → Forall (λ i, 0 ≤ i < totalNodes c) indices →
  ∃ c', UpdateValidatorResponse c indices acc =
    Ret (inl (acc ++ ((λ i, KR_PublicKey (lookup_spec c i)) <$> indices)), c') ∧
    committee_ok c' ∧ flat c' = flat c ∧ totalNodes c' = totalNodes c ∧
    (∀ k, responded c' k = responded c k || bool_decide (k ∈ indices)) ∧
    (NoDup indices → (∀ i, i ∈ indices → responded c i = false) →
     counted (Sets c) → counted (Sets c')).
Proof.
  revert c acc. induction indices as [|i indices IH]; intros c acc Hok Hall; cbn.
  - exists c. rewrite app_nil_r. split; [done|]. split_and!; try done.
    intros k. by rewrite bool_decide_nil, orb_false_r.
  - apply Forall_cons in Hall as [Hi Hall].
    destruct (Z.ltb_spec i 0); [lia|]. destruct (Z.leb_spec (totalNodes c) i); [lia|]. cbn.
    destruct (respond_step c i Hok Hi) as (sets & He & Hok' & Hf & Hr & Hc).
    rewrite He. cbn.
    destruct (IH (with_sets c sets) (acc ++ [KR_PublicKey (lookup_spec c i)]) Hok' Hall)
      as (c' & Hu & Hok'' & Hf' & Ht & Hr' & Hc').
    exists c'. rewrite Hu. split_and!.
    + rewrite <-app_assoc. cbn. do 4 f_equal.
      f_equal. apply list_fmap_ext. intros k y _. by apply lookup_spec_same.
    + done.
    + by rewrite Hf'.
    + done.
    + intros k. by rewrite Hr', Hr, <-orb_assoc, bool_decide_cons.
    + intros Hnd Hn Hcn. apply NoDup_cons in Hnd as [Hni Hnd]. apply Hc'; [done| |].
      * intros j Hj. rewrite Hr, (Hn j) by (by apply elem_of_cons; right).
        apply bool_decide_eq_false. by intros ->.
      * apply Hc; [apply Hn, elem_of_cons; by left|done].
Qed.

(** The flat index addresses the concatenation of the non-empty sets: on a
    well-formed committee [GetKramaID] and [GetPublicKey] return, for every
    index whatsoever, the entry of that list (the empty result outside it),
    and neither call panics. *)
Theorem committee_lookup_refines_flat c i :
  committee_ok c →
  GetKramaID c i = Ret (lookup_spec c i) ∧
  GetPublicKey c i = Ret (KR_ID (lookup_spec c i), KR_PublicKey (lookup_spec c i)).
Proof.
  intros Hok. split; [by apply GetKramaID_spec|].
  unfold GetPublicKey, lookup_spec. destruct (Z.ltb_spec i 0); [done|]. cbn.
  destruct (Z.leb_spec (totalNodes c) i) as [Hle|].
  - rewrite (co_total c Hok) in Hle. rewrite lookup_ge_None_2; [done|].
    unfold zlen in Hle. lia.
  - rewrite (GetPublicKey_loop_flat 0) by done. unfold flat.
    by destruct (flat_from 0 (Sets c) !! Z.to_nat i) as [[[p j] info]|].
Qed.

(** [HasKramaID] and [GetKramaID] are inverse: the index found for an id
    addresses a node with that id and key, and the third result is the
    response bit [GetByIndex] will look at; the index is -1 exactly for ids
    outside the committee. *)
Theorem HasKramaID_GetKramaID c id i pk r :
  committee_ok c → HasKramaID c id = (i, pk, r) →
  (i = -1 ↔ id ∉ flat_ids c) ∧
  (i ≠ -1 →
     ∃ k, GetKramaID c i = Ret k ∧ KR_ID k = id ∧ KR_PublicKey k = pk ∧
          is_Some (KR_slots k) ∧ r = responded c i).
Proof.
  intros Hok Hh. pose proof (co_total c Hok) as Ht. pose proof (co_bound c Hok) as Hb.
  pose proof (HasKramaID_loop_spec 0 (Sets c) id) as Hs.
  unfold HasKramaID in Hh. rewrite Hh in Hs. unfold flat in Ht.
  destruct Hs as [[-> Hn]|(Hi & p & j & info & set & Hf & Hid & Hpk & Hset & Hp & Hr)];
    [done|lia| |].
  - split; [by split|done].
  - rewrite Z.sub_0_r in Hf.
    assert (Hin : id ∈ flat_ids c).
    { unfold flat_ids, flat. apply list_elem_of_fmap. exists (0 + p, j, info).
      split; [done|]. by eapply list_elem_of_lookup_2. }
    split; [split; [lia|done]|]. intros _.
    exists (lookup_spec c i). split; [by apply GetKramaID_spec|].
    unfold lookup_spec, responded, flat. destruct (Z.ltb_spec i 0); [lia|].
    rewrite Hf. cbn. split_and!; try done.
    by rewrite (resp_list_flat (Sets c) p j info set (Z.to_nat i) Hf Hp Hset).
Qed.

(** [UpdateValidatorResponse] on indices of the committee returns their
    public keys in order and marks exactly them as responded, leaving the
    identities alone; if they are distinct and had not responded before, the
    response counters stay equal to the number of true bits. *)
Theorem UpdateValidatorResponse_records c indices :
  committee_ok c → Forall (λ i, 0 ≤ i < totalNodes c) indices →
  ∃ c', UpdateValidatorResponse c indices [] =
    Ret (inl ((λ i, KR_PublicKey (lookup_spec c i)) <$> indices), c') ∧
    committee_ok c' ∧ flat c' = flat c ∧
    (∀ k, responded c' k = responded c k || bool_decide (k ∈ indices)) ∧
    (NoDup indices → (∀ i, i ∈ indices → responded c i = false) →
     counted (Sets c) → counted (Sets c')).
Proof.
  intros Hok Hall.
  destruct (UpdateValidatorResponse_acc indices c [] Hok Hall)
    as (c' & Hu & ? & ? & _ & ? & ?).
  by exists c'.
Qed.

(** A committee accepts no signer set with an index outside it: the call
    fails with the code's error at the first such index, after having
    recorded the responses before it. *)
Theorem UpdateValidatorResponse_rejects c good bad rest :
  committee_ok c → Forall (λ i, 0 ≤ i < totalNodes c) good →
  bad < 0 ∨ totalNodes c ≤ bad →
  ∃ c', UpdateValidatorResponse c (good ++ bad :: rest) [] =
    Ret (inr (ENew "invalid validator index"), c') ∧
    (∀ k, responded c' k = responded c k || bool_decide (k ∈ good)).
Proof.
  intros Hok Hall Hbad. generalize (@nil bytes) as acc. revert c Hok Hall Hbad.
  induction good as [|i good IH]; intros c Hok Hall Hbad acc; cbn.
  - destruct (Z.ltb_spec bad 0), (Z.leb_spec (totalNodes c) bad); cbn;
      try lia; exists c; (split; [done|]); intros k;
      by rewrite bool_decide_nil, orb_false_r.
  - apply Forall_cons in Hall as [Hi Hall].
    destruct (Z.ltb_spec i 0); [lia|]. destruct (Z.leb_spec (totalNodes c) i); [lia|]. cbn.
    destruct (respond_step c i Hok Hi) as (sets & He & Hok' & Hf & Hr & _).
    rewrite He. cbn.
    destruct (IH (with_sets c sets) Hok' Hall Hbad (acc ++ [KR_PublicKey (lookup_spec c i)]))
      as (c' & Hu & Hr').
    exists c'. split; [done|]. intros k. by rewrite Hr', Hr, <-orb_assoc, bool_decide_cons.
Qed.

(** The quorum of a set of [n] nodes is [2n/3 + 1]; it never exceeds [n],
    and two quorums of one set share more than a third of it.  The [uint32]
    arithmetic is exact below [2^31] nodes. *)
Theorem quorum_of_bounds n :
  0 < n < 2 ^ 31 →
  quorum_of n = n * 2 / 3 + 1 ∧ quorum_of n ≤ n ∧ n < 3 * (2 * quorum_of n - n).
Proof.
  intros H. unfold quorum_of. rewrite (u32_small (n * 2)) by lia.
  pose proof (Z.div_mod (n * 2) 3 ltac:(lia)).
  pose proof (Z.mod_pos_bound (n * 2) 3 ltac:(lia)).
  rewrite u32_small by lia. split; [done|lia].
Qed.

Definition set_len (o : option NodeSet) : Z :=
  match o with Some set => zlen (Infos set) | None => 0 end.

Lemma flat_insert_length v sets (p : nat) o ns :
  sets !! p = Some o →
  zlen (flat_from v (<[p := Some ns]> sets))
  = zlen (flat_from v sets) - set_len o + zlen (Infos ns).
Proof.
  revert v p. induction sets as [|o' rest IH]; intros v [|p] H; [done|done| |].
  - cbn in H. simplify_eq.
    change (<[0%nat := Some ns]> (o :: rest)) with (Some ns :: rest).
    rewrite (flat_from_cons_length v (v + 1)). destruct o as [set|]; cbn [set_len].
    + rewrite (flat_from_cons_length v (v + 1)). lia.
    + cbn [flat_from]. lia.
  - change (<[S p := Some ns]> (o' :: rest)) with (o' :: <[p := Some ns]> rest).
    cbn in H. destruct o' as [set|].
    + rewrite !(flat_from_cons_length v (v + 1)), (IH (v + 1) p H). lia.
    + cbn [flat_from]. by apply IH.
Qed.

(** Installing a node set: the call succeeds at every position of the
    committee, and the result is well formed exactly when the position held
    no validators before, because [totalNodes] only ever grows. *)
Theorem UpdateNodeSet_well_formed c p o ns :
  committee_ok c → Sets c !! p = Some o →
  BitsSize (Responses ns) = zlen (Infos ns) → totalNodes c + zlen (Infos ns) < 2 ^ 31 →
  ∃ c', UpdateNodeSet c (Z.of_nat p) (Some ns) = Ret c' ∧
    totalNodes c' = zlen (flat c') + set_len o ∧
    (committee_ok c' ↔ set_len o = 0).
Proof.
  intros [Ht Hs Hp Hb Hz] Ho Hbits Hbound. eexists. split.
  { cbn. unfold go_update. rewrite (go_index_nat _ _ _ Ho). cbn. by rewrite Nat2Z.id. }
  unfold flat in *. cbn. rewrite (flat_insert_length 0 _ _ _ _ Ho).
  split; [lia|]. split.
  - intros [Ht' _ _ _ _]. unfold flat in Ht'. cbn in Ht'.
    rewrite (flat_insert_length 0 _ _ _ _ Ho) in Ht'. lia.
  - intros H0. split; unfold flat; cbn; try done.
    + rewrite (flat_insert_length 0 _ _ _ _ Ho). lia.
    + rewrite Hs. unfold zlen. by rewrite length_insert.
    + intros set (k & Hk)%list_elem_of_lookup. rewrite list_lookup_insert in Hk.
      case_decide; [by simplify_eq|]. apply Hz. by eapply list_elem_of_lookup_2.
Qed.
End Theorems.
