(* ===== verification/Cluster.v ===== *)
(** * Cluster state: [types/ics.go]

    The state of one interaction consensus set on one node.  The pointer to the
    vote set ([voteSet]) is kept by the components that hold both, since the
    vote set points back to the cluster state.  Go iterates over maps in an
    unspecified order: a loop over [Participants] runs over [map_to_list] here,
    and its result is proved not to depend on the order. *)

From stdpp Require Import base gmap strings list fin_maps.
From Stdlib Require Import ZArith Lia.
From S2P Require Import Prelude External Types NodeSet Committee.

Section Cluster.
Context `{ET : ExtTypes} `{!ExtOps ET}.

Record ClusterState := {
  selfID : KramaID;
  committee : ICSCommittee;
  ixns : Interactions;
  CS_ClusterID : ClusterID;
  operator : KramaID;
  dirty : gmap Hash bytes;
  ts : option positive;
  ICSReqTime : Z;
  ICSRespCount : Z;
  operatorIncluded : bool;
  Participants : gmap Address Participant;
  SuccessMsg : option ICSMSG;
  CS_Transition : Transition;
  quorum : option (list Z);
  localViewInfo : list ViewInfo;
  highestViewInfo : list ViewInfo;
  preparedQc : option PreparedInfo;
  view : Z;
  TrustedPeers : list KramaID;
}.

(** Field updates of the shared record. *)
Definition set_committee (c : ICSCommittee) (cs : ClusterState) : ClusterState :=
  {| selfID := selfID cs; committee := c; ixns := ixns cs; CS_ClusterID := CS_ClusterID cs;
     operator := operator cs; dirty := dirty cs; ts := ts cs; ICSReqTime := ICSReqTime cs;
     ICSRespCount := ICSRespCount cs; operatorIncluded := operatorIncluded cs;
     Participants := Participants cs; SuccessMsg := SuccessMsg cs;
     CS_Transition := CS_Transition cs; quorum := quorum cs;
     localViewInfo := localViewInfo cs; highestViewInfo := highestViewInfo cs;
     preparedQc := preparedQc cs; view := view cs; TrustedPeers := TrustedPeers cs |}.
Definition set_quorum (q : list Z) (cs : ClusterState) : ClusterState :=
  {| selfID := selfID cs; committee := committee cs; ixns := ixns cs;
     CS_ClusterID := CS_ClusterID cs; operator := operator cs; dirty := dirty cs; ts := ts cs;
     ICSReqTime := ICSReqTime cs; ICSRespCount := ICSRespCount cs;
     operatorIncluded := operatorIncluded cs; Participants := Participants cs;
     SuccessMsg := SuccessMsg cs; CS_Transition := CS_Transition cs; quorum := Some q;
     localViewInfo := localViewInfo cs; highestViewInfo := highestViewInfo cs;
     preparedQc := preparedQc cs; view := view cs; TrustedPeers := TrustedPeers cs |}.
Definition set_participants (ps : gmap Address Participant) (cs : ClusterState) : ClusterState :=
  {| selfID := selfID cs; committee := committee cs; ixns := ixns cs;
     CS_ClusterID := CS_ClusterID cs; operator := operator cs; dirty := dirty cs; ts := ts cs;
     ICSReqTime := ICSReqTime cs; ICSRespCount := ICSRespCount cs;
     operatorIncluded := operatorIncluded cs; Participants := ps;
     SuccessMsg := SuccessMsg cs; CS_Transition := CS_Transition cs; quorum := quorum cs;
     localViewInfo := localViewInfo cs; highestViewInfo := highestViewInfo cs;
     preparedQc := preparedQc cs; view := view cs; TrustedPeers := TrustedPeers cs |}.

Definition SetPrepareQc (prepareQc : option PreparedInfo) (cs : ClusterState) : ClusterState :=
  {| selfID := selfID cs; committee := committee cs; ixns := ixns cs;
     CS_ClusterID := CS_ClusterID cs; operator := operator cs; dirty := dirty cs; ts := ts cs;
     ICSReqTime := ICSReqTime cs; ICSRespCount := ICSRespCount cs;
     operatorIncluded := operatorIncluded cs; Participants := Participants cs;
     SuccessMsg := SuccessMsg cs; CS_Transition := CS_Transition cs; quorum := quorum cs;
     localViewInfo := localViewInfo cs; highestViewInfo := highestViewInfo cs;
     preparedQc := prepareQc; view := view cs; TrustedPeers := TrustedPeers cs |}.
Definition SetTesseract (t : option positive) (cs : ClusterState) : ClusterState :=
  {| selfID := selfID cs; committee := committee cs; ixns := ixns cs;
     CS_ClusterID := CS_ClusterID cs; operator := operator cs; dirty := dirty cs; ts := t;
     ICSReqTime := ICSReqTime cs; ICSRespCount := ICSRespCount cs;
     operatorIncluded := operatorIncluded cs; Participants := Participants cs;
     SuccessMsg := SuccessMsg cs; CS_Transition := CS_Transition cs; quorum := quorum cs;
     localViewInfo := localViewInfo cs; highestViewInfo := highestViewInfo cs;
     preparedQc := preparedQc cs; view := view cs; TrustedPeers := TrustedPeers cs |}.
Definition AddDirty (key : Hash) (data : bytes) (cs : ClusterState) : ClusterState :=
  {| selfID := selfID cs; committee := committee cs; ixns := ixns cs;
     CS_ClusterID := CS_ClusterID cs; operator := operator cs;
     dirty := <[key := data]> (dirty cs); ts := ts cs;
     ICSReqTime := ICSReqTime cs; ICSRespCount := ICSRespCount cs;
     operatorIncluded := operatorIncluded cs; Participants := Participants cs;
     SuccessMsg := SuccessMsg cs; CS_Transition := CS_Transition cs; quorum := quorum cs;
     localViewInfo := localViewInfo cs; highestViewInfo := highestViewInfo cs;
     preparedQc := preparedQc cs; view := view cs; TrustedPeers := TrustedPeers cs |}.

Definition SetStateTransition (st : Transition) (cs : ClusterState) : ClusterState :=
  {| selfID := selfID cs; committee := committee cs; ixns := ixns cs;
     CS_ClusterID := CS_ClusterID cs; operator := operator cs; dirty := dirty cs; ts := ts cs;
     ICSReqTime := ICSReqTime cs; ICSRespCount := ICSRespCount cs;
     operatorIncluded := operatorIncluded cs; Participants := Participants cs;
     SuccessMsg := SuccessMsg cs; CS_Transition := st; quorum := quorum cs;
     localViewInfo := localViewInfo cs; highestViewInfo := highestViewInfo cs;
     preparedQc := preparedQc cs; view := view cs; TrustedPeers := TrustedPeers cs |}.
(** [cs.HighestViewInfo()\[i\] = ...], the slice afterwards. *)
Definition set_highest (vs : list ViewInfo) (cs : ClusterState) : ClusterState :=
  {| selfID := selfID cs; committee := committee cs; ixns := ixns cs;
     CS_ClusterID := CS_ClusterID cs; operator := operator cs; dirty := dirty cs; ts := ts cs;
     ICSReqTime := ICSReqTime cs; ICSRespCount := ICSRespCount cs;
     operatorIncluded := operatorIncluded cs; Participants := Participants cs;
     SuccessMsg := SuccessMsg cs; CS_Transition := CS_Transition cs; quorum := quorum cs;
     localViewInfo := localViewInfo cs; highestViewInfo := vs; preparedQc := preparedQc cs;
     view := view cs; TrustedPeers := TrustedPeers cs |}.
(** [cs.TrustedPeers = ...] *)
Definition set_trusted (ids : list KramaID) (cs : ClusterState) : ClusterState :=
  {| selfID := selfID cs; committee := committee cs; ixns := ixns cs;
     CS_ClusterID := CS_ClusterID cs; operator := operator cs; dirty := dirty cs; ts := ts cs;
     ICSReqTime := ICSReqTime cs; ICSRespCount := ICSRespCount cs;
     operatorIncluded := operatorIncluded cs; Participants := Participants cs;
     SuccessMsg := SuccessMsg cs; CS_Transition := CS_Transition cs; quorum := quorum cs;
     localViewInfo := localViewInfo cs; highestViewInfo := highestViewInfo cs;
     preparedQc := preparedQc cs; view := view cs; TrustedPeers := ids |}.

(** [common.ExecutionContext] *)
Record ExecutionContext := {
  EC_CtxDelta : gmap Address DeltaGroup;
  EC_Cluster : ClusterID;
  EC_Time : Z;
}.

(** [viewInfos.Copy()] is a fresh slice with the same entries. *)
Definition NewICS (ixs : Interactions) (clusterID : ClusterID) (op : KramaID) (reqTime : Z)
    (self : KramaID) (c : ICSCommittee) (participants : gmap Address Participant)
    (viewInfos : list ViewInfo) (currentView : Z) : ClusterState :=
  {| selfID := self; committee := c; ixns := ixs; CS_ClusterID := clusterID; operator := op;
     dirty := ∅; ts := None; ICSReqTime := reqTime; ICSRespCount := 0;
     operatorIncluded := false; Participants := participants; SuccessMsg := None;
     CS_Transition := NewTransition; quorum := None; localViewInfo := viewInfos;
     highestViewInfo := viewInfos; preparedQc := None; view := currentView;
     TrustedPeers := [] |}.

Definition IxnHash (cs : ClusterState) : res Hash := go_index (IxHashes (ixns cs)) 0.

Definition ParticipantHeight (cs : ClusterState) (addr : Address) : Z :=
  match Participants cs !! addr with Some ps => P_Height ps | None => 0 end.
Definition ParticipantTSHash (cs : ClusterState) (addr : Address) : Hash :=
  match Participants cs !! addr with Some ps => Participant_TSHash ps | None => NilHash end.
Definition CurrentView (cs : ClusterState) : Z := view cs.
Definition ClusterSize (cs : ClusterState) : Z := TotalNodes (committee cs).
Definition GetNodeSet (cs : ClusterState) (position : Z) : res (option NodeSet) :=
  go_index (Sets (committee cs)) position.
Definition ClusterUpdateNodeSet (cs : ClusterState) (position : Z) (data : option NodeSet)
    : res ClusterState :=
  c ← UpdateNodeSet (committee cs) position data; Ret (set_committee c cs).
Definition UpdateNodeSetResponses (cs : ClusterState) (position : Z) (responses : option Bits)
    : res ClusterState :=
  c ← UpdateSetResponses (committee cs) position responses; Ret (set_committee c cs).
Definition Operator (cs : ClusterState) : KramaID := operator cs.
Definition SelfKramaID (cs : ClusterState) : KramaID := selfID cs.
Definition PrepareQc (cs : ClusterState) : option PreparedInfo := preparedQc cs.

Definition ClusterExcludeParticipants (cs : ClusterState) (addrs : list Address)
    : res ClusterState :=
  let ps := Participants_ExcludeFromICS (Participants cs) addrs in
  c ← foldM (λ c '(_, info),
        if Participant_ExcludedFromICS info
        then ExcludeParticipantsFromICS c (P_NodeSetPosition info) else Ret c)
      (map_to_list ps) (committee cs);
  Ret (set_committee c (set_participants ps cs)).

Definition NewHeights (cs : ClusterState) : gmap Address Z :=
  Participant_NewHeight <$> Participants cs.

Definition GetBehaviouralContextDelta (cs : ClusterState) (position : Z) (newPeer : KramaID)
    : res (KramaID * KramaID) :=
  o ← go_index (Sets (committee cs)) position;
  set ← deref o;
  if existsb (λ info, bool_decide (newPeer = NI_ID info)) (Infos set)
  then Ret (""%string, ""%string)
  else if MaxBehaviourContextSize <=? zlen (Infos set)
  then first ← go_index (Infos set) 0; Ret (newPeer, NI_ID first)
  else Ret (newPeer, ""%string).

(** The loops collecting [requiredCount] peers; the test for the count comes
    after each candidate, whether it was taken or not. *)
Fixpoint collectPeers (requiredCount : Z) (candidates : list (bool * KramaID))
    (added : list KramaID) : list KramaID :=
  match candidates with
  | [] => added
  | (take, id) :: rest =>
      let added' := if take then added ++ [id] else added in
      if zlen added' =? requiredCount then added' else collectPeers requiredCount rest added'
  end.

Definition GetRandomContextDelta (cs : ClusterState) (position requiredCount : Z)
    (skipPeers : list KramaID) : res (list KramaID * list KramaID) :=
  if requiredCount <? 0 then Panic "makeslice: cap out of range" else
  o ← go_index (Sets (committee cs)) position;
  replacedPeers ←
    match o with
    | None => Ret []
    | Some set =>
        let count := zlen (Infos set) + requiredCount - MaxRandomContextSize in
        if 0 <? count then go_slice (KramaIDs set) 0 count else Ret []
    end;
  if negb (zlen (TrustedPeers cs) =? 0)
  then Ret (collectPeers requiredCount
             ((λ p, (negb (ContainsKramaID skipPeers p), p)) <$> TrustedPeers cs) [],
            replacedPeers)
  else
    r ← RandomSet (committee cs);
    set ← deref r;
    Ret (collectPeers requiredCount
           ((λ '(index, info),
               (GetIndex (Responses set) index && negb (ContainsKramaID skipPeers (NI_ID info)),
                NI_ID info)) <$> ranged set) [],
         replacedPeers).

Definition ClusterIsContextQuorum (cs : ClusterState) : res bool := IsContextQuorum (committee cs).

Definition ClusterIsRandomQuorum (cs : ClusterState) : res bool :=
  o ← RandomSet (committee cs);
  set ← deref o;
  q ← RandomQuorumSize (committee cs);
  Ret (q <=? GetRespCount set).

Definition ClusterHasKramaID (cs : ClusterState) (id : KramaID) : Z * bytes * bool :=
  HasKramaID (committee cs) id.

(** [slots == nil || !Sets[slots\[0\]].Responses.GetIndex(slotIndex)] *)
Definition GetByIndex (cs : ClusterState) (index : Z) : res (KramaID * bytes) :=
  k ← GetKramaID (committee cs) index;
  match KR_slots k with
  | None => Ret (""%string, [])
  | Some slots =>
      s0 ← go_index slots 0;
      o ← go_index (Sets (committee cs)) s0;
      set ← deref o;
      if negb (GetIndex (Responses set) (KR_slotIndex k)) then Ret (""%string, [])
      else Ret (KR_ID k, KR_PublicKey k)
  end.

Definition GetICSVoteset (cs : ClusterState) : Bits := GetVoteset (committee cs).

Definition GetRandomNodes (cs : ClusterState) : res (list KramaID) :=
  o ← RandomSet (committee cs); set ← deref o; Ret (KramaIDs set).

(** One iteration of the loop of [GetQuorum]. *)
Definition fillQuorum (q : list Z) (entry : Address * Participant) : res (list Z) :=
  if P_ExcludeFromICS entry.2 then Ret q
  else go_update q (P_NodeSetPosition entry.2) (P_ConsensusQuorum entry.2).

(** The quorum is computed once and cached. *)
Definition GetQuorum (cs : ClusterState) : res (list Z * ClusterState) :=
  match quorum cs with
  | Some q => Ret (q, cs)
  | None =>
      q ← foldM fillQuorum (map_to_list (Participants cs))
            (replicate (S (base.size (Participants cs))) 0);
      r ← RandomQuorumSize (committee cs);
      q' ← go_update q (zlen q - 1) r;
      Ret (q', set_quorum q' cs)
  end.

Definition ContextDelta (cs : ClusterState) : gmap Address DeltaGroup :=
  omap (λ ps, if P_ExcludeFromICS ps then None else P_ContextDelta ps) (Participants cs).

Definition ClusterExecutionContext (cs : ClusterState) : ExecutionContext :=
  {| EC_CtxDelta := ContextDelta cs; EC_Cluster := CS_ClusterID cs; EC_Time := ICSReqTime cs |}.

Definition IncrementICSRespCount (count : Z) (cs : ClusterState) : ClusterState :=
  {| selfID := selfID cs; committee := committee cs; ixns := ixns cs;
     CS_ClusterID := CS_ClusterID cs; operator := operator cs; dirty := dirty cs; ts := ts cs;
     ICSReqTime := ICSReqTime cs; ICSRespCount := ICSRespCount cs + count;
     operatorIncluded := operatorIncluded cs; Participants := Participants cs;
     SuccessMsg := SuccessMsg cs; CS_Transition := CS_Transition cs; quorum := quorum cs;
     localViewInfo := localViewInfo cs; highestViewInfo := highestViewInfo cs;
     preparedQc := preparedQc cs; view := view cs; TrustedPeers := TrustedPeers cs |}.
End Cluster.

(** ** Facts about cluster states *)
Section ClusterFacts.
Context `{ET : ExtTypes} `{!ExtOps ET} `{!BitLaws ET}.

(** [GetByIndex] returns the validator at a flat index if it has responded. *)
Lemma GetByIndex_spec cs i :
  committee_ok (committee cs) →
  GetByIndex cs i =
  Ret (if responded (committee cs) i
       then (KR_ID (lookup_spec (committee cs) i), KR_PublicKey (lookup_spec (committee cs) i))
       else (""%string, [])).
Proof.
  intros Hok. unfold GetByIndex. rewrite GetKramaID_spec by done. cbn.
  unfold lookup_spec, responded. destruct (Z.ltb_spec i 0); [done|].
  destruct (flat (committee cs) !! Z.to_nat i) as [[[p j] info]|] eqn:E; cbn.
  - destruct (flat_lookup_set 0 _ _ _ _ _ E) as (set & Hp & Hs & Hj & _ & Hr).
    rewrite Z.sub_0_r in Hs. unfold slots_from.
    change (Z.to_nat 0) with O. cbn [lookup list_lookup mbind res_bind].
    rewrite (proj2 (go_index_Ret (Sets (committee cs)) p (Some set))) by done.
    cbn. rewrite Hr. cbn. by destruct (GetIndex (Responses set) j).
  - apply lookup_ge_None in E. unfold flat in E.
    rewrite lookup_ge_None_2; [done|]. by rewrite (resp_list_length 0).
Qed.

(** *** The quorum vector *)
Definition positions_ok (ps : gmap Address Participant) : Prop :=
  (∀ a p, ps !! a = Some p → 0 ≤ P_NodeSetPosition p < Z.of_nat (base.size ps)) ∧
  (∀ a b p q, ps !! a = Some p → ps !! b = Some q →
     P_NodeSetPosition p = P_NodeSetPosition q → a = b).

(** The vector the loop builds from a list of entries. *)
Definition place (q : list Z) (e : Address * Participant) : list Z :=
  if P_ExcludeFromICS e.2 then q
  else <[Z.to_nat (P_NodeSetPosition e.2) := P_ConsensusQuorum e.2]> q.
Definition quorum_vector (l : list (Address * Participant)) (q : list Z) : list Z :=
  foldl place q l.

Lemma length_place q e : length (place q e) = length q.
Proof. unfold place. case_match; [done|]. apply length_insert. Qed.

Lemma fillQuorum_fold l q :
  (∀ e, e ∈ l → 0 ≤ P_NodeSetPosition e.2 < zlen q) →
  foldM fillQuorum l q = Ret (quorum_vector l q) ∧ length (quorum_vector l q) = length q.
Proof.
  revert q. induction l as [|e l IH]; intros q H; [done|].
  assert (Hstep : fillQuorum q e = Ret (place q e)).
  { unfold fillQuorum, place. case_match; [done|].
    apply go_update_Ret. assert (0 ≤ P_NodeSetPosition e.2 < zlen q) by (apply H; set_solver).
    unfold zlen in *. split_and!; [lia|lia|done]. }
  cbn [foldM]. rewrite Hstep. cbn [mbind res_bind].
  destruct (IH (place q e)) as [H1 H2].
  { intros e' He'. unfold zlen. rewrite length_place. apply H. set_solver. }
  split; [apply H1|]. etrans; [apply H2|apply length_place].
Qed.

Lemma quorum_vector_lookup l q (k : nat) :
  NoDup (P_NodeSetPosition ∘ snd <$> l) →
  (∀ e, e ∈ l → 0 ≤ P_NodeSetPosition e.2 < zlen q) →
  quorum_vector l q !! k =
  match filter (λ e, P_NodeSetPosition e.2 = Z.of_nat k ∧ P_ExcludeFromICS e.2 = false) l with
  | e :: _ => Some (P_ConsensusQuorum e.2)
  | [] => q !! k
  end.
Proof.
  revert q. induction l as [|e l IH]; intros q Hnd Hr; [done|].
  rewrite fmap_cons in Hnd. apply NoDup_cons in Hnd as [Hni Hnd].
  assert (He : 0 ≤ P_NodeSetPosition e.2 < zlen q) by (apply Hr; set_solver).
  change (quorum_vector (e :: l) q) with (quorum_vector l (place q e)).
  rewrite IH; [|done|].
  2: { intros e' He'. unfold zlen. rewrite length_place. apply Hr. set_solver. }
  rewrite filter_cons. unfold place. unfold zlen in He.
  destruct (P_ExcludeFromICS e.2) eqn:Ex.
  - rewrite decide_False by naive_solver. done.
  - rewrite list_lookup_insert. case_decide as Hk; [|case_decide as Hk'; [|done]].
    + rewrite decide_True by (split; [lia|done]).
      destruct (filter _ l) as [|e' l'] eqn:El; [done|].
      assert (Hin : e' ∈ filter (λ e, P_NodeSetPosition e.2 = Z.of_nat k
                       ∧ P_ExcludeFromICS e.2 = false) l) by (rewrite El; set_solver).
      apply list_elem_of_filter in Hin as [[Hk' _] Hin]. exfalso. apply Hni.
      apply list_elem_of_fmap. exists e'. cbn. split; [lia|done].
    + exfalso. lia.
Qed.

Lemma positions_ok_list ps :
  positions_ok ps →
  NoDup (P_NodeSetPosition ∘ snd <$> map_to_list ps) ∧
  (∀ e, e ∈ map_to_list ps →
     0 ≤ P_NodeSetPosition e.2 < zlen (replicate (S (base.size ps)) 0)).
Proof.
  intros [Hr Hinj]. split.
  - apply NoDup_fmap_2_strong; [|apply NoDup_map_to_list].
    intros [a p] [b q] Ha%elem_of_map_to_list Hb%elem_of_map_to_list Heq. cbn in Heq.
    pose proof (Hinj a b p q Ha Hb Heq). by simplify_eq.
  - intros [a p] H%elem_of_map_to_list. apply Hr in H. unfold zlen.
    rewrite length_replicate. cbn. lia.
Qed.

(** The abstract quorum: the participant at a position, or nobody. *)
Definition quorum_at (cs : ClusterState) (r : Z) (k : nat) (x : Z) : Prop :=
  if decide (k = base.size (Participants cs)) then x = r
  else (∃ a p, Participants cs !! a = Some p ∧ P_NodeSetPosition p = Z.of_nat k ∧
               P_ExcludeFromICS p = false ∧ x = P_ConsensusQuorum p) ∨
       (x = 0 ∧ ∀ a p, Participants cs !! a = Some p → P_NodeSetPosition p = Z.of_nat k →
               P_ExcludeFromICS p = true).

Lemma quorum_vector_at ps (k : nat) x :
  positions_ok ps → (k < base.size ps)%nat →
  quorum_vector (map_to_list ps) (replicate (S (base.size ps)) 0) !! k = Some x →
  (∃ a p, ps !! a = Some p ∧ P_NodeSetPosition p = Z.of_nat k ∧
          P_ExcludeFromICS p = false ∧ x = P_ConsensusQuorum p) ∨
  (x = 0 ∧ ∀ a p, ps !! a = Some p → P_NodeSetPosition p = Z.of_nat k →
          P_ExcludeFromICS p = true).
Proof.
  intros Hok Hk. destruct (positions_ok_list ps Hok) as [Hnd Hr].
  rewrite quorum_vector_lookup by done.
  destruct (filter _ (map_to_list ps)) as [|[a p] l] eqn:E; intros Hx.
  - right. apply lookup_replicate in Hx as [-> _]. split; [done|].
    intros a p Hl Hp. destruct (P_ExcludeFromICS p) eqn:Ex; [done|].
    assert ((a, p) ∈ (filter (λ e : Address * Participant, P_NodeSetPosition e.2 = Z.of_nat k
                       ∧ P_ExcludeFromICS e.2 = false) (map_to_list ps))) as Hin.
    { apply list_elem_of_filter. split; [done|]. by apply elem_of_map_to_list. }
    rewrite E in Hin. by apply elem_of_nil in Hin.
  - left. simplify_eq/=.
    assert ((a, p) ∈ (filter (λ e : Address * Participant, P_NodeSetPosition e.2 = Z.of_nat k
                       ∧ P_ExcludeFromICS e.2 = false) (map_to_list ps))) as Hin
      by (rewrite E; set_solver).
    apply list_elem_of_filter in Hin as [[? ?] Hin%elem_of_map_to_list]. eauto 10.
Qed.
Lemma GetQuorum_computed cs r :
  positions_ok (Participants cs) → quorum cs = None → RandomQuorumSize (committee cs) = Ret r →
  let n := base.size (Participants cs) in
  let q := quorum_vector (map_to_list (Participants cs)) (replicate (S n) 0) in
  length q = S n ∧ GetQuorum cs = Ret (<[n := r]> q, set_quorum (<[n := r]> q) cs).
Proof.
  intros Hok Hq Hr n q. destruct (positions_ok_list _ Hok) as [_ Hp].
  destruct (fillQuorum_fold _ _ Hp) as [Hf Hl]. rewrite length_replicate in Hl.
  split; [done|]. unfold GetQuorum. rewrite Hq, Hf, Hr. cbn [mbind res_bind].
  fold n q in Hl |- *.
  assert (Hu : go_update q (zlen q - 1) r = Ret (<[n := r]> q)).
  { apply go_update_Ret. unfold zlen. rewrite Hl. split_and!; [lia|lia|]. f_equal. lia. }
  rewrite Hu. done.
Qed.

(** The quorum vector: when the participants' node-set positions are
    distinct and in range and the random set exists, [GetQuorum] succeeds with
    one entry per participant and the random quorum last; each entry is the
    quorum of the participant placed there, or 0 if that participant is
    excluded or the position is free.  The specification determines the
    vector, so Go's map iteration order cannot be observed, and a second call
    returns the cached vector and changes nothing. *)
Theorem GetQuorum_spec cs r :
  positions_ok (Participants cs) → quorum cs = None → RandomQuorumSize (committee cs) = Ret r →
  ∃ q, GetQuorum cs = Ret (q, set_quorum q cs) ∧
    length q = S (base.size (Participants cs)) ∧
    (∀ k x, q !! k = Some x → quorum_at cs r k x) ∧
    GetQuorum (set_quorum q cs) = Ret (q, set_quorum q cs).
Proof.
  intros Hok Hq Hr. destruct (GetQuorum_computed cs r Hok Hq Hr) as [Hl He]. cbn zeta in *.
  eexists. split; [exact He|]. split; [by rewrite length_insert|]. split; [|done].
  intros k x Hx. unfold quorum_at. rewrite list_lookup_insert in Hx.
  case_decide as Hk; [|case_decide as Hk'].
  - destruct Hk as [<- _]. rewrite decide_True by done. congruence.
  - exfalso. apply Hk. lia.
  - apply lookup_lt_Some in Hx as Hlt. apply (quorum_vector_at _ k x Hok); [lia|done].
Qed.

(** The specification leaves one value per position. *)
Lemma quorum_at_unique cs r k x y :
  positions_ok (Participants cs) → quorum_at cs r k x → quorum_at cs r k y → x = y.
Proof.
  intros [_ Hinj]. unfold quorum_at. case_decide; [congruence|].
  intros [(a & p & Ha & Hpa & Hxa & ->)|[-> Hna]] [(b & q & Hb & Hpb & Hxb & ->)|[-> Hnb]]; [|exfalso..|done].
  - assert (a = b) as -> by (eapply Hinj; [done..|congruence]). naive_solver.
  - specialize (Hnb a p Ha Hpa). congruence.
  - specialize (Hna b q Hb Hpb). congruence.
Qed.

(** Whatever the participants, a cached quorum is what every later call
    returns, and the cluster state is not touched again: the thresholds of a
    vote cannot change between two votes. *)
Theorem GetQuorum_stable cs q cs' :
  GetQuorum cs = Ret (q, cs') →
  quorum cs' = Some q ∧ GetQuorum cs' = Ret (q, cs') ∧ committee cs' = committee cs.
Proof.
  unfold GetQuorum. destruct (quorum cs) as [q0|] eqn:E; intros H; res_inv.
  - by rewrite E.
  - done.
Qed.
End ClusterFacts.
