(* ===== verification/ClusterInfo.v ===== *)
(** * What a cluster reports: the rest of [types/ics.go]

    The metadata of a cluster and the account summaries.  Nothing in the
    repository calls these operations.  The fields [BinaryHash], [IdentityHash]
    and [ICSHash] of a cluster are never assigned, and are zero here. *)

From stdpp Require Import base gmap strings list fin_maps.
From Stdlib Require Import ZArith Lia.
From S2P Require Import Prelude Effect External Chain Types Wire NodeSet Committee Cluster.

Section Info.
Context `{ET : ExtTypes} `{EX : !ExtOps ET}.

Definition IncludeOperator (cs : ClusterState) : ClusterState :=
  {| selfID := selfID cs; committee := committee cs; ixns := ixns cs; CS_ClusterID := CS_ClusterID cs;
     operator := operator cs; dirty := dirty cs; ts := ts cs; ICSReqTime := ICSReqTime cs;
     ICSRespCount := ICSRespCount cs; operatorIncluded := true;
     Participants := Participants cs; SuccessMsg := SuccessMsg cs;
     CS_Transition := CS_Transition cs; quorum := quorum cs;
     localViewInfo := localViewInfo cs; highestViewInfo := highestViewInfo cs;
     preparedQc := preparedQc cs; view := view cs; TrustedPeers := TrustedPeers cs |}.
Definition SetSuccessMsg (msg : option ICSMSG) (cs : ClusterState) : ClusterState :=
  {| selfID := selfID cs; committee := committee cs; ixns := ixns cs; CS_ClusterID := CS_ClusterID cs;
     operator := operator cs; dirty := dirty cs; ts := ts cs; ICSReqTime := ICSReqTime cs;
     ICSRespCount := ICSRespCount cs; operatorIncluded := operatorIncluded cs;
     Participants := Participants cs; SuccessMsg := msg;
     CS_Transition := CS_Transition cs; quorum := quorum cs;
     localViewInfo := localViewInfo cs; highestViewInfo := highestViewInfo cs;
     preparedQc := preparedQc cs; view := view cs; TrustedPeers := TrustedPeers cs |}.

(** ** The metadata of a cluster *)
Fixpoint encodeMessages `{!PoloCodec (option ICSMSG)} (msgs : list (option ICSMSG)) : list bytes + err :=
  match msgs with
  | [] => inl []
  | v :: rest =>
      match Polorize v with
      | inr e => inr e
      | inl rawData => match encodeMessages rest with inl raws => inl (rawData :: raws) | inr e => inr e end
      end
  end.

Definition GetMetaData `{!PoloCodec (option ICSMSG)} (cs : ClusterState) (msgs : list (option ICSMSG))
    : res (ICSMetaInfo + err) :=
  ixHash ← IxnHash cs;
  Ret match encodeMessages (SuccessMsg cs :: msgs) with
      | inr e => inr e
      | inl raws =>
          inl {| MI_ClusterID := CS_ClusterID cs; MI_IxHash := ixHash; MI_Operator := operator cs;
                 MI_ClusterSize := TotalNodes (committee cs); MI_ContextDelta := ∅; MI_GridID := NilHash;
                 MI_BinaryHash := NilHash; MI_IdentityHash := NilHash; MI_IcsHash := NilHash;
                 MI_ReceiptHash := NilHash; MI_Msgs := raws |}
      end.

(** ** Account summaries *)
Record AccountInfo := {
  AI_AccType : Z;
  AI_Address : Address;
  AI_IsGenesis : bool;
  AI_ContextHash : Hash;
  AI_TesseractHash : Hash;
  AI_Height : Z;
  AI_Mode : string;
}.
Definition AccountInfos := gmap Address (option AccountInfo).
Definition GetLatestHash (a : AccountInfos) (addr : Address) : res Hash :=
  match a !! addr with Some v => v ← deref v; Ret (AI_TesseractHash v) | None => Ret NilHash end.
Definition GetHeight (a : AccountInfos) (addr : Address) : res Z :=
  match a !! addr with Some v => v ← deref v; Ret (AI_Height v) | None => Ret 0 end.
(** a missing entry of the map is a nil pointer *)
Definition IsGenesis (a : AccountInfos) (addr : Address) : res bool :=
  v ← deref (default None (a !! addr)); Ret (AI_IsGenesis v).
Definition AccountInfos_Address (a : AccountInfos) : list Address := (map_to_list a).*1.

(** [GenerateClusterID]: [rand.Read] of 32 bytes, and [base58.Encode] *)
Definition GenerateClusterID (randHash : bytes + err) (base58 : bytes → string) : ClusterID + err :=
  match randHash with inl b => inl (base58 b) | inr e => inr e end.

(** ** Facts *)
Lemma encodeMessages_spec `{!PoloCodec (option ICSMSG)} `{!PoloRoundTrip (option ICSMSG)} msgs raws :
  encodeMessages msgs = inl raws → Forall2 (λ m raw, Depolorize raw = inl m) msgs raws.
Proof.
  revert raws. induction msgs as [|v msgs IH]; intros raws H; cbn in H; [injection H as <-; constructor|].
  destruct (Polorize v) as [raw|] eqn:E; [|done]. destruct (encodeMessages msgs); [|done].
  injection H as <-. constructor; [by apply depolorize_polorize|by apply IH].
Qed.

(** The metadata of a cluster names its first interaction and its operator, and
    carries its success message and then the messages given, each of which can be
    read back; a cluster without interactions panics. *)
Theorem GetMetaData_spec `{!PoloCodec (option ICSMSG)} `{!PoloRoundTrip (option ICSMSG)} cs msgs :
  match IxHashes (ixns cs) with
  | [] => ∃ why, GetMetaData cs msgs = Panic why
  | h :: _ => ∀ m, GetMetaData cs msgs = Ret (inl m) →
      MI_IxHash m = h ∧ MI_Operator m = operator cs ∧ MI_ClusterSize m = TotalNodes (committee cs) ∧
      Forall2 (λ v raw, Depolorize raw = inl v) (SuccessMsg cs :: msgs) (MI_Msgs m)
  end.
Proof.
  unfold GetMetaData, IxnHash. destruct (IxHashes (ixns cs)) as [|h l]; [by eexists|].
  intros m. change (go_index (h :: l) 0) with (Ret h). cbn [mbind res_bind].
  destruct (encodeMessages (SuccessMsg cs :: msgs)) as [raws|] eqn:E; [|by intros [=]].
  intros [= <-]. cbn. split_and!; try done. by apply encodeMessages_spec.
Qed.

(** A summary that has no entry of an account answers the empty hash and height,
    but asking whether it is in the genesis panics. *)
Theorem account_infos_missing a addr :
  a !! addr = None →
  GetLatestHash a addr = Ret NilHash ∧ GetHeight a addr = Ret 0 ∧ (∃ why, IsGenesis a addr = Panic why) ∧
  addr ∉ AccountInfos_Address a.
Proof.
  intros H. unfold GetLatestHash, GetHeight, IsGenesis. rewrite H. split_and!; [done|done|by eexists|].
  unfold AccountInfos_Address. intros Hin. apply list_elem_of_fmap in Hin as ([k v] & -> & Hin).
  apply elem_of_map_to_list in Hin. pose proof (eq_trans (eq_sym Hin) H). done.
Qed.

End Info.
