(* ===== verification/Validation.v ===== *)
(** * What a node checks before it accepts: [krama_engine.go], [ics.go]

    Interactions, certificates, tesseracts and the committees they are checked
    against.  None of these functions changes the engine; they read the chain
    state. *)

From stdpp Require Import base gmap strings list fin_maps.
From Stdlib Require Import ZArith Lia.
From S2P Require Import Prelude External Chain Types NodeSet Cluster.

(** [errors.Wrap(err, msg)] of [github.com/pkg/errors]: nil stays nil. *)
Definition wrap_nil (msg : string) (e : option err) : option err :=
  match e with Some e => Some (EWrap e msg) | None => None end.

Section Validation.
Context `{ET : ExtTypes} `{EX : !ExtOps ET} `{TO : !TesseractOps ET} `{IX : !InteractionOps ET EX}.
Context `{TV : !TesseractView ET EX TO} `{CH : !Chain ET EX TO IX} `{!PoloCodec CanonicalVote}.
(** [AggregatedSignatureVerifier] *)
Context (signatureVerifier : bytes → bytes → list bytes → bool * option err).
Context (w : World).

(** ** Interactions *)
Definition hasBalance (sender : Address) (asset : AssetID) (amount : Z) : option err :=
  match SM_GetLatestStateObject w sender with
  | inr e => Some e
  | inl stateObject =>
      match SO_BalanceOf stateObject asset with
      | inl bal => if bal <? amount then Some (ENew "invalid balance") else None
      | inr _ => Some (ENew "invalid balance")
      end
  end.

(** The loop over the operations; a mint, burn or logic operation returns from
    the function. *)
Fixpoint checkOps (sender : Address) (ops : list IxOp) : option err :=
  match ops with
  | [] => None
  | op :: rest =>
      match Op_Type op with
      | IxParticipantCreate =>
          match Op_CreateAmount op with
          | inr e => Some e
          | inl amount =>
              match hasBalance sender KMOITokenAssetID amount with
              | Some e => Some e
              | None => checkOps sender rest
              end
          end
      | IxAssetTransfer =>
          match Op_TransferPayload op with
          | inr e => Some e
          | inl (asset, amount) =>
              match hasBalance sender asset amount with
              | Some e => Some e
              | None => checkOps sender rest
              end
          end
      | IxAssetCreate =>
          match Op_RegistryKey op with
          | inr e => Some e
          | inl assetID =>
              match SM_GetLatestStateObject w sender with
              | inr e => Some e
              | inl stateObject =>
                  if SO_HasRegistryEntry stateObject assetID
                  then Some (ENew "asset already found") else checkOps sender rest
              end
          end
      | IxAssetMint | IxAssetBurn | IxLogicDeploy | IxLogicInvoke | IxLogicEnlist => None
      | IxOtherOp _ => Some (ECommon "ErrInvalidInteractionType")
      end
  end.

Definition isIxValid (ix : Interaction) : option err :=
  if Address_IsNil (Ix_Sender ix) then Some (ECommon "ErrInvalidAddress")
  else
    match SM_IsAccountRegistered w (Ix_Sender ix) with
    | inl true =>
        match SM_GetLatestStateObject w (Ix_Sender ix) with
        | inr e => Some e
        | inl senderObject =>
            if negb (SO_HasSufficientFuel senderObject (Ix_Cost ix)).1
            then Some (ECommon "ErrInsufficientFunds")
            else checkOps (Ix_Sender ix) (Ix_Ops ix)
        end
    | _ => Some (ECommon "ErrAccountNotFound")
    end.

Definition validateInteractions (ixs : Interactions) : option err :=
  firstErr (λ ix,
    match SM_GetNonce w (Ix_Sender ix) NilHash with
    | inr e => Some e
    | inl latestNonce =>
        if Ix_Nonce ix <? latestNonce then Some (ECommon "ErrInvalidNonce") else isIxValid ix
    end) (IxList ixs).

(** ** Transitions *)
Definition verifyTransition (ts : Tesseract) (addr : Address) : option err :=
  match SM_IsInitialTesseract w ts addr with
  | inr e => Some (EWrap e "Sarga account not found")
  | inl true => None
  | inl false =>
      if match TsAccountLocks ts !! addr with Some l => LockAboveMutate l | None => false end
      then None
      else
        match L_GetTesseract w (TsTransitiveLink ts addr) false false with
        | inr _ => Some (ECommon "ErrPreviousTesseractNotFound")
        | inl parent =>
            if negb (TsHeight parent addr =? u64 (TsHeight ts addr - 1))
            then Some (ECommon "ErrInvalidHeight")
            else if TsTimestamp ts <? TsTimestamp parent then Some (ECommon "ErrInvalidBlockTime")
            else None
        end
  end.
Definition verifyTransitions (addr : Address) (ts : Tesseract) (allParticipants : bool)
    : option err :=
  if TsView ts =? GenesisView then None
  else firstErr (verifyTransition ts) (if allParticipants then TsAddresses ts else [addr]).

(** ** Certificates *)
Definition bumpCounter (votesCounter : list Z) (index : Z) : res (list Z) :=
  x ← go_index votesCounter index; go_update votesCounter index (u32 (x + 1)).
Definition countSigner (ics : ICSCommittee) (acc : list bytes * list Z) (valIndex : Z)
    : res (list bytes * list Z) :=
  k ← GetKramaID ics (i32 valIndex);
  match KR_slots k with
  | None => Ret acc
  | Some nodeSetIndices =>
      votesCounter ← foldM bumpCounter nodeSetIndices acc.2;
      Ret (acc.1 ++ [KR_PublicKey k], votesCounter)
  end.

(** [for index, addr := range addrs]: is every counted participant's quorum reached? *)
Fixpoint quorumsReached (ics : ICSCommittee) (excluded : Address → bool) (votesCounter : list Z)
    (index : Z) (addrs : list Address) : res bool :=
  match addrs with
  | [] => Ret true
  | addr :: rest =>
      if excluded addr then quorumsReached ics excluded votesCounter (index + 1) rest
      else
        x ← go_index votesCounter index;
        q ← ParticipantQuorum ics index;
        if x <? q then Ret false
        else quorumsReached ics excluded votesCounter (index + 1) rest
  end.

Definition verifyQc (addrs : list Address) (excluded : Address → bool) (view : Z)
    (ics : ICSCommittee) (qc : Qc) : res (bool * option err) :=
  signers ← match Qc_SignerIndices qc with Some b => Ret (GetTrueIndices b) | None => NilTrueIndices end;
  '(publicKeys, votesCounter) ←
    foldM (countSigner ics) signers ([], replicate (S (length addrs)) 0);
  reached ← quorumsReached ics excluded votesCounter 0 addrs;
  if negb reached then Ret (false, Some (ECommon "ErrContextQuorumFailed"))
  else
    x ← go_index votesCounter (zlen addrs);
    q ← RandomQuorumSize ics;
    if x <? q then Ret (false, Some (ECommon "ErrRandomQuorumFailed"))
    else
      match CanonicalVote_Bytes {| CV_Type := Qc_Type qc; CV_View := view; CV_TSHash := Qc_TSHash qc |} with
      | inr e => Ret (false, Some e)
      | inl rawData =>
          match signatureVerifier rawData (Qc_Signature qc) publicKeys with
          | (_, Some e) => Ret (false, Some e)
          | (verified, None) => Ret (verified, None)
          end
      end.

Definition verifySignatures (ts : Tesseract) (ics : ICSCommittee) : res (bool * option err) :=
  info ← deref (TsCommit ts);
  qc ← deref (CI_QC info);
  verifyQc (TsAddresses ts) (TsIsExcluded ts) (TsView ts) ics qc.

Definition ValidateTesseract (addr : Address) (ts : Tesseract) (ics : ICSCommittee)
    (allParticipants : bool) : res (option err) :=
  if S_HasAccMetaInfoAt w addr (TsHeight ts addr) then Ret (Some (ECommon "ErrAlreadyKnown"))
  else if negb (SM_IsSealValid w ts).1 then Ret (Some (ECommon "ErrInvalidSeal"))
  else
    match verifyTransitions addr ts allParticipants with
    | Some e => Ret (Some e)
    | None =>
        '(verified, e) ← verifySignatures ts ics;
        if negb verified || is_some e then Ret (wrap_nil "failed to verify signatures" e)
        else Ret None
    end.

(** ** Committees *)

(** [Engine.NodeSet]; no ids give a nil set and a nil error. *)
Definition makeNodeSet (ids : list KramaID) (setSizeWithoutDelta : Z) : res (option NodeSet + err) :=
  match ids with
  | [] => Ret (inl None)
  | _ =>
      match SM_GetPublicKeys w ids with
      | inr e => Ret (inr e)
      | inl publicKeys => ns ← NewNodeSet ids publicKeys setSizeWithoutDelta; Ret (inl (Some ns))
      end
  end.

(** One of the two sets of [fetchParticipantContextByHash]. *)
Definition contextSet (ids : list KramaID) : res (option NodeSet + err) :=
  match ids with
  | [] => Ret (inl None)
  | _ =>
      match SM_GetPublicKeys w ids with
      | inr _ => Ret (inr (ECommon "ErrPublicKeyNotFound"))
      | inl publicKeys => ns ← NewNodeSet ids publicKeys (u32 (zlen ids)); Ret (inl (Some ns))
      end
  end.
Definition fetchParticipantContextByHash (addr : Address) (hash : Hash)
    : res (option NodeSet * option NodeSet + err) :=
  match SM_GetContext w addr hash with
  | inr e => Ret (inr e)
  | inl (behaviouralContext, randomContext) =>
      let! behaviouralSet := contextSet behaviouralContext in
      let! randomSet := contextSet randomContext in
      Ret (inl (behaviouralSet, randomSet))
  end.

Definition previousContext (ts : Tesseract) (addr : Address) : Hash :=
  match TsParticipants ts !! addr with Some p => PS_PreviousContext p | None => NilHash end.

(** One account of the tesseract. *)
Definition placeContext (ts : Tesseract) (ics : ICSCommittee) (entry : Z * Address) : res (ICSCommittee + err) :=
  let '(index, addr) := entry in
  if decide (previousContext ts addr = NilHash) then Ret (inl ics)
  else
    let! '(behaviourSet, _) := fetchParticipantContextByHash addr (previousContext ts addr) in
    match behaviourSet with
    | None => Ret (inl ics)
    | Some _ => c ← UpdateNodeSet ics index behaviourSet; Ret (inl c)
    end.
Definition GetICSCommittee (ts : Tesseract) (info : option CommitInfo) : res (ICSCommittee + err) :=
  let addrs := TsAddresses ts in
  ics ← NewICSCommittee (zlen addrs + 1);
  let! ics := efold (placeContext ts) (imap (λ i addr, (Z.of_nat i, addr)) addrs) ics in
  info ← deref info;
  let! randomSet := makeNodeSet (CI_RandomSet info) (CI_RandomSetSizeWithoutDelta info) in
  c ← UpdateNodeSet ics (StochasticSetPosition ics) randomSet; Ret (inl c).

(** ** The participants and the committee of a new cluster *)
Definition newParticipant (addr : Address) (info : ParticipantInfo) : Participant + err :=
  if negb (PInfo_IsGenesis info) then
    match SM_GetAccountMetaInfo w addr with
    | inr e => inr e
    | inl accInfo =>
        inl {| P_Height := AM_Height accInfo; P_IsGenesis := PInfo_IsGenesis info;
               P_TesseractHash := AM_TesseractHash accInfo; P_NodeSetPosition := 0;
               P_ConsensusQuorum := 0; P_ExcludeFromICS := false; P_ContextDelta := None;
               P_AccType := AM_Type accInfo; P_LockType := PInfo_LockType info;
               P_IsSigner := PInfo_IsSigner info; P_ContextHash := NilHash;
               P_CommitHash := AM_CommitHash accInfo |}
    end
  else
    inl {| P_Height := 0; P_IsGenesis := PInfo_IsGenesis info; P_TesseractHash := NilHash;
           P_NodeSetPosition := 0; P_ConsensusQuorum := 0; P_ExcludeFromICS := false;
           P_ContextDelta := None; P_AccType := PInfo_AccType info;
           P_LockType := PInfo_LockType info; P_IsSigner := false; P_ContextHash := NilHash;
           P_CommitHash := NilHash |}.
Definition with_position (p : Participant) (position : Z) : Participant :=
  {| P_Height := P_Height p; P_IsGenesis := P_IsGenesis p; P_TesseractHash := P_TesseractHash p;
     P_NodeSetPosition := position; P_ConsensusQuorum := P_ConsensusQuorum p;
     P_ExcludeFromICS := P_ExcludeFromICS p; P_ContextDelta := P_ContextDelta p;
     P_AccType := P_AccType p; P_LockType := P_LockType p; P_IsSigner := P_IsSigner p;
     P_ContextHash := P_ContextHash p; P_CommitHash := P_CommitHash p |}.
Definition with_context (p : Participant) (contextHash : Hash) (quorum : Z) : Participant :=
  {| P_Height := P_Height p; P_IsGenesis := P_IsGenesis p; P_TesseractHash := P_TesseractHash p;
     P_NodeSetPosition := P_NodeSetPosition p; P_ConsensusQuorum := quorum;
     P_ExcludeFromICS := P_ExcludeFromICS p; P_ContextDelta := P_ContextDelta p;
     P_AccType := P_AccType p; P_LockType := P_LockType p; P_IsSigner := P_IsSigner p;
     P_ContextHash := contextHash; P_CommitHash := P_CommitHash p |}.

Fixpoint newParticipants (ps : list (Address * ParticipantInfo)) : list (Address * Participant) + err :=
  match ps with
  | [] => inl []
  | (addr, info) :: rest =>
      match newParticipant addr info with
      | inr e => inr e
      | inl p => match newParticipants rest with inr e => inr e | inl l => inl ((addr, p) :: l) end
      end
  end.

(** One iteration of the second loop. *)
Definition placeParticipant (acc : gmap Address Participant * ICSCommittee) (entry : Z * Address)
    : res (gmap Address Participant * ICSCommittee + err) :=
  let '(participants, committee) := acc in
  let '(position, addr) := entry in
  p0 ← deref (participants !! addr);
  let p := with_position p0 position in
  if P_IsGenesis p then Ret (inl (<[addr := p]> participants, committee))
  else
    match SM_GetLatestContextAndPublicKeys w addr with
    | inr e => Ret (inr e)
    | inl (contextHash, bSet, _, bPublicKeys, _) =>
        ns ← NewNodeSet bSet bPublicKeys (u32 (zlen bSet));
        c ← UpdateNodeSet committee position (Some ns);
        q ← ParticipantQuorum c position;
        Ret (inl (<[addr := with_context p contextHash q]> participants, c))
    end.

(** Go walks the map [ps] in some order; [fetchFrom] is the function for one. *)
Definition fetchFrom (ps : list (Address * ParticipantInfo))
    : res (gmap Address Participant * ICSCommittee + err) :=
  match newParticipants ps with
  | inr e => Ret (inr e)
  | inl l =>
      let addrs := SortAddresses l.*1 in
      committee ← NewICSCommittee (zlen addrs + 1);
      efold placeParticipant (imap (λ i addr, (Z.of_nat i, addr)) addrs)
        (list_to_map l, committee)
  end.
Definition fetchParticipantsAndCommittee (ps : gmap Address ParticipantInfo)
    : res (gmap Address Participant * ICSCommittee + err) := fetchFrom (map_to_list ps).

(** ** After execution *)
Definition areStateHashesValid (ts : Tesseract) (stateHash : Address → Hash) : bool :=
  forallb (λ '(addr, p), bool_decide (stateHash addr = PS_StateHash p)) (map_to_list (TsParticipants ts)).
Definition isReceiptsHashValid (ts : Tesseract) (receiptsHash : Hash + err) : bool :=
  match receiptsHash with
  | inr _ => false
  | inl h => bool_decide (TsReceiptsHash ts = h)
  end.
End Validation.
