(* ===== verification/VoteSet.v ===== *)
(** * Vote sets: [types/voteset.go] and [types/votetesseract.go]

    A [VoteSet] collects the votes of one view and type; the votes for one
    tesseract are tallied in a [tesseractVoteSet] per hash.  A validator moves
    the counter of every node set that lists it.  The vote set points to the
    cluster state, whose quorum is computed on the first use, so the operations
    take the cluster state and return it. *)

From stdpp Require Import base gmap strings list.
From Stdlib Require Import ZArith Lia.
From S2P Require Import Prelude External Types NodeSet Cluster.

Section VoteSet.
Context `{ET : ExtTypes} `{!ExtOps ET} `{!PoloCodec CanonicalVote}.

(** ** The votes for one tesseract *)
Record tesseractVoteSet := {
  peermaj23 : bool;
  bitarray : Bits;
  TV_votes : list (option Vote);
  TV_sum : list Z;
  TV_votingPowerSum : list Z;
}.

Definition newTesseractVoteSet (size : Z) (peermaj : bool) (valcount : Z) : tesseractVoteSet :=
  {| peermaj23 := peermaj; bitarray := NewArrayOfBits valcount;
     TV_votes := replicate (Z.to_nat valcount) None;
     TV_sum := replicate (Z.to_nat size) 0;
     TV_votingPowerSum := replicate (Z.to_nat size) 0 |}.

Definition getByIndex (tv : option tesseractVoteSet) (index : Z) : res (option Vote) :=
  match tv with
  | None => Ret None
  | Some tv => go_index (TV_votes tv) index
  end.

(** [sum\[index\] += 1; votingPowerSum\[index\] += power] for each index. *)
Definition bumpSum (vp : Z) (acc : list Z * list Z) (index : Z) : res (list Z * list Z) :=
  x ← go_index acc.1 index;
  sum ← go_update acc.1 index (u32 (x + 1));
  y ← go_index acc.2 index;
  vps ← go_update acc.2 index (i32 (y + vp));
  Ret (sum, vps).

Definition tv_addVerifiedVote (tv : tesseractVoteSet) (valIndex : Z) (sumIndexs : list Z)
    (vote : Vote) (votingpower : Z) : res tesseractVoteSet :=
  existing ← getByIndex (Some tv) valIndex;
  match existing with
  | Some _ => Ret tv
  | None =>
      votes ← go_update (TV_votes tv) valIndex (Some vote);
      '(sum, vps) ← foldM (bumpSum votingpower) sumIndexs (TV_sum tv, TV_votingPowerSum tv);
      Ret {| peermaj23 := peermaj23 tv; bitarray := SetIndex (bitarray tv) valIndex true;
             TV_votes := votes; TV_sum := sum; TV_votingPowerSum := vps |}
  end.

Definition AggregateSignatures (tv : tesseractVoteSet) : res (bytes * option err) :=
  sigs ← mapM_res (λ index,
    o ← go_index (TV_votes tv) index; v ← deref o; Ret (V_Signature v))
    (GetTrueIndices (bitarray tv));
  Ret (CryptoAggregateSignatures sigs).

(** ** The vote set *)
Record VoteSet := {
  VS_heights : gmap Address Z;
  VS_view : Z;
  votetype : ConsensusMsgType;
  VS_sum : list Z;
  VS_votingPowerSum : list Z;
  VS_votes : list (option Vote);
  votesBitArray : Bits;
  votesByTesseract : gmap Hash tesseractVoteSet;
  maj23TsHash : option Hash;
  maj23VoteSet : option Bits;
  maj23aggSignature : bytes;
}.

Definition NewVoteSet (heights : gmap Address Z) (view : Z) (voteType : ConsensusMsgType)
    (validatorSet : ClusterState) : VoteSet :=
  let n := ClusterSize validatorSet in
  let m := S (base.size heights) in
  {| VS_heights := heights; VS_view := view; votetype := voteType;
     VS_sum := replicate m 0; VS_votingPowerSum := replicate m 0;
     VS_votes := replicate (Z.to_nat n) None; votesBitArray := NewArrayOfBits n;
     votesByTesseract := ∅; maj23TsHash := None; maj23VoteSet := None;
     maj23aggSignature := [] |}.

(** Field updates. *)
Definition set_votes (vs : VoteSet) (votes : list (option Vote)) (bits : Bits) : VoteSet :=
  {| VS_heights := VS_heights vs; VS_view := VS_view vs; votetype := votetype vs;
     VS_sum := VS_sum vs; VS_votingPowerSum := VS_votingPowerSum vs; VS_votes := votes;
     votesBitArray := bits; votesByTesseract := votesByTesseract vs;
     maj23TsHash := maj23TsHash vs; maj23VoteSet := maj23VoteSet vs;
     maj23aggSignature := maj23aggSignature vs |}.
Definition set_sums (vs : VoteSet) (sums : list Z * list Z) : VoteSet :=
  {| VS_heights := VS_heights vs; VS_view := VS_view vs; votetype := votetype vs;
     VS_sum := sums.1; VS_votingPowerSum := sums.2; VS_votes := VS_votes vs;
     votesBitArray := votesBitArray vs; votesByTesseract := votesByTesseract vs;
     maj23TsHash := maj23TsHash vs; maj23VoteSet := maj23VoteSet vs;
     maj23aggSignature := maj23aggSignature vs |}.
Definition set_tesseract (vs : VoteSet) (h : Hash) (tv : tesseractVoteSet) : VoteSet :=
  {| VS_heights := VS_heights vs; VS_view := VS_view vs; votetype := votetype vs;
     VS_sum := VS_sum vs; VS_votingPowerSum := VS_votingPowerSum vs; VS_votes := VS_votes vs;
     votesBitArray := votesBitArray vs; votesByTesseract := <[h := tv]> (votesByTesseract vs);
     maj23TsHash := maj23TsHash vs; maj23VoteSet := maj23VoteSet vs;
     maj23aggSignature := maj23aggSignature vs |}.
Definition set_majority (vs : VoteSet) (h : Hash) (bits : Bits) (aggSig : bytes)
    (votes : list (option Vote)) : VoteSet :=
  {| VS_heights := VS_heights vs; VS_view := VS_view vs; votetype := votetype vs;
     VS_sum := VS_sum vs; VS_votingPowerSum := VS_votingPowerSum vs; VS_votes := votes;
     votesBitArray := votesBitArray vs; votesByTesseract := votesByTesseract vs;
     maj23TsHash := Some h; maj23VoteSet := Some bits; maj23aggSignature := aggSig |}.

Definition getVote (vs : VoteSet) (valIndex : Z) (tsHash : Hash) : res (option Vote) :=
  existing ← go_index (VS_votes vs) valIndex;
  match existing with
  | Some e => if decide (V_TSHash e = tsHash) then Ret (Some e)
              else getByIndex (votesByTesseract vs !! tsHash) valIndex
  | None => getByIndex (votesByTesseract vs !! tsHash) valIndex
  end.

(** The methods that accept a nil receiver take an [option VoteSet]. *)
Definition HasMajority (vs : option VoteSet) : bool :=
  match vs with None => false | Some vs => is_some (maj23TsHash vs) end.

Fixpoint sumsReach (index : Z) (sums : list Z) (cs : ClusterState) : res (bool * ClusterState) :=
  match sums with
  | [] => Ret (true, cs)
  | sumVal :: rest =>
      '(q, cs') ← GetQuorum cs;
      x ← go_index q index;
      if sumVal <? x then Ret (false, cs') else sumsReach (index + 1) rest cs'
  end.

Definition HasMajorityAny (vs : option VoteSet) (cs : ClusterState) : res (bool * ClusterState) :=
  match vs with None => Ret (false, cs) | Some vs => sumsReach 0 (VS_sum vs) cs end.

Definition SuperMajority (vs : option VoteSet) : Hash * bool :=
  match vs with
  | None => (NilHash, false)
  | Some vs => match maj23TsHash vs with Some h => (h, true) | None => (NilHash, false) end
  end.

Definition AreVoteHeightsEqual (voteHeights systemHeights : gmap Address Z) : bool :=
  if negb (Z.of_nat (base.size voteHeights) =? Z.of_nat (base.size systemHeights)) then false
  else forallb (λ '(voteAddress, voteHeight),
         match systemHeights !! voteAddress with
         | Some systemHeight => voteHeight =? systemHeight
         | None => false
         end) (map_to_list voteHeights).

Fixpoint areGreater (oldValues newValues : list Z) : res bool :=
  match oldValues, newValues with
  | [], _ => Ret true
  | _ :: _, [] => Panic "index out of range"
  | value :: old, new :: rest => if value <? new then Ret false else areGreater old rest
  end.

Definition getSumIndex (cs : ClusterState) (valIndex : Z) : res (list Z + err) :=
  k ← GetKramaID (committee cs) valIndex;
  Ret match KR_slots k with
      | None => inr (ENew "invalid validator index")
      | Some slots => inl slots
      end.

Definition updateSum (vs : VoteSet) (cs : ClusterState) (valIndex vp : Z) : res VoteSet :=
  r ← getSumIndex cs valIndex;
  match r with
  | inr _ => Ret vs
  | inl indexes =>
      sums ← foldM (bumpSum vp) indexes (VS_sum vs, VS_votingPowerSum vs);
      Ret (set_sums vs sums)
  end.

(** [vs.votes\[valIndex\] = vote; vs.votesBitArray.SetIndex(valIndex, true)] *)
Definition placeVote (vs : VoteSet) (valIndex : Z) (vote : Vote) : res VoteSet :=
  votes ← go_update (VS_votes vs) valIndex (Some vote);
  Ret (set_votes vs votes (SetIndex (votesBitArray vs) valIndex true)).

(** The loop that copies the tesseract's votes over the vote set's. *)
Definition mergeVotes (tvotes votes : list (option Vote)) : res (list (option Vote)) :=
  foldM (λ votes '(i, vote),
    match vote with
    | Some v => go_update votes (Z.of_nat i) (Some v)
    | None => Ret votes
    end) (imap pair tvotes) votes.

(** The first quorum reached is recorded. *)
Definition noteMajority (vs : VoteSet) (tv : tesseractVoteSet) (vote : Vote)
    (quorum : list Z) (isQc : bool) : res VoteSet :=
  match maj23TsHash vs with
  | Some _ => Ret vs
  | None =>
      reached ← areGreater (TV_sum tv) quorum;
      if reached : bool then
        aggSig ← (if isQc then Ret (V_Signature vote)
                  else '(sig, _) ← AggregateSignatures tv; Ret sig);
        votes ← mergeVotes (TV_votes tv) (VS_votes vs);
        Ret (set_majority vs (V_TSHash vote) (BitsCopy (bitarray tv)) aggSig votes)
      else Ret vs
  end.

(** From the lookup of the tesseract's votes on. *)
Definition trackVote (vs : VoteSet) (cs : ClusterState) (vote : Vote) (votePower valIndex : Z)
    (sumIndex : list Z) (isQc : bool) (conflicting : option Vote)
    : res (bool * option Vote * VoteSet * ClusterState) :=
  let found := votesByTesseract vs !! V_TSHash vote in
  let turnedDown :=
    match conflicting, found with
    | Some _, Some tv => negb (peermaj23 tv)
    | Some _, None => true
    | None, _ => false
    end in
  if turnedDown then Ret (false, conflicting, vs, cs)
  else
    let tv := default (newTesseractVoteSet (zlen (VS_sum vs)) false (ClusterSize cs)) found in
    '(quorum, cs') ← GetQuorum cs;
    tv' ← tv_addVerifiedVote tv valIndex sumIndex vote votePower;
    vs' ← noteMajority (set_tesseract vs (V_TSHash vote) tv') tv' vote quorum isQc;
    Ret (true, conflicting, vs', cs').

Definition vs_addVerifiedVote (vs : VoteSet) (cs : ClusterState) (vote : Vote)
    (votePower valIndex : Z) (sumIndex : list Z) (isQc : bool)
    : res (bool * option Vote * VoteSet * ClusterState) :=
  existing ← go_index (VS_votes vs) valIndex;
  match existing with
  | Some existingVote =>
      if decide (V_TSHash existingVote = V_TSHash vote)
      then Ret (true, Some existingVote, vs, cs)
      else
        vs' ← (if decide (maj23TsHash vs = Some (V_TSHash vote))
               then placeVote vs valIndex vote else Ret vs);
        trackVote vs' cs vote votePower valIndex sumIndex isQc (Some existingVote)
  | None =>
      vs1 ← placeVote vs valIndex vote;
      vs2 ← updateSum vs1 cs valIndex votePower;
      trackVote vs2 cs vote votePower valIndex sumIndex isQc None
  end.

Definition AddVote (vs : VoteSet) (cs : ClusterState) (vote : option Vote)
    : res (bool * option err * VoteSet * ClusterState) :=
  let fail e := Ret (false, Some e, vs, cs) in
  match vote with
  | None => fail (ENew "invalid vote")
  | Some v =>
      if V_SignerIndex v <? 0 then fail (ENew "invalid validator details ")
      else if negb (AreVoteHeightsEqual (V_Heights v) (VS_heights vs))
              || negb (V_View v =? VS_view vs) || negb (bool_decide (V_Type v = votetype vs))
      then fail (ENew "invalid view and height details")
      else
        '(valKramaID, publicKey) ← GetByIndex cs (V_SignerIndex v);
        if String.eqb valKramaID "" then fail (ENew "invalid validator")
        else
          existing ← getVote vs (V_SignerIndex v) (V_TSHash v);
          match existing with
          | Some e =>
              if bool_decide (V_Signature e = V_Signature v) then Ret (false, None, vs, cs)
              else fail (ENew "vote for validator with different signature already exists")
          | None =>
              match Vote_SignBytes v with
              | inr e => fail e
              | inl rawData =>
                  match Verify rawData (V_Signature v) publicKey with
                  | (_, Some e) => fail e
                  | (false, None) => fail (ECommon "ErrSignatureVerificationFailed")
                  | (true, None) =>
                      r ← getSumIndex cs (V_SignerIndex v);
                      match r with
                      | inr e => fail e
                      | inl sumIndex =>
                          '(added, conflicting, vs', cs') ←
                            vs_addVerifiedVote vs cs v 1 (V_SignerIndex v) sumIndex false;
                          match conflicting with
                          | Some _ => Ret (added, Some (ECommon "ErrConflictingVote"), vs', cs')
                          | None =>
                              if added : bool then Ret (true, None, vs', cs')
                              else Panic "expected to add non-conflicting vote"
                          end
                      end
                  end
              end
          end
  end.

(** The first loop of [AddQc]: keys and counters of the signers. *)
Definition addSigner (cs : ClusterState) (acc : list (bytes * list Z) + err) (valIndex : Z)
    : res (list (bytes * list Z) + err) :=
  match acc with
  | inr e => Ret (inr e)
  | inl l =>
      k ← GetKramaID (committee cs) (i32 valIndex);
      if String.eqb (KR_ID k) "" then Ret (inr (ECommon "ErrPublicKeyNotFound"))
      else Ret (inl (l ++ [(KR_PublicKey k, default [] (KR_slots k))]))
  end.
Definition signersOf (cs : ClusterState) (signedVals : list Z)
    : res (list (bytes * list Z) + err) :=
  foldM (addSigner cs) signedVals (inl []).

(** One iteration of the second loop; a refused vote is only logged. *)
Definition addQcVote (v : Vote) (acc : VoteSet * ClusterState) (signer : Z * list Z)
    : res (VoteSet * ClusterState) :=
  '(_, _, vs', cs') ← vs_addVerifiedVote acc.1 acc.2 v 1 (i32 signer.1) signer.2 true;
  Ret (vs', cs').

Definition signerIndices (v : Vote) : res (list Z) :=
  match V_SignerIndices v with
  | Some b => Ret (GetTrueIndices b)
  | None => NilTrueIndices
  end.

Definition AddQc (vs : VoteSet) (cs : ClusterState) (vote : option Vote)
    : res (bool * option err * VoteSet * ClusterState) :=
  let fail e := Ret (false, Some e, vs, cs) in
  match vote with
  | None => fail (ENew "invalid vote")
  | Some v =>
      if V_SignerIndex v <? 0 then fail (ENew "invalid validator details ")
      else if match maj23TsHash vs with
              | Some h => negb (bool_decide (h = V_TSHash v)) | None => false end
      then fail (ECommon "ErrConflictingVote")
      else
        signedVals ← signerIndices v;
        r ← signersOf cs signedVals;
        match r with
        | inr e => fail e
        | inl signers =>
            match Vote_SignBytes v with
            | inr e => fail e
            | inl rawVote =>
                match VerifyAggregateSignature rawVote (V_Signature v) (fst <$> signers) with
                | (false, e) => Ret (false, e, vs, cs)
                | (true, Some e) => fail e
                | (true, None) =>
                    '(vs', cs') ← foldM (addQcVote v)
                      (zip signedVals (snd <$> signers)) (vs, cs);
                    Ret (true, None, vs', cs')
                end
            end
        end
  end.

Definition getVoteByIndex (vs : VoteSet) (index : Z) : res (option Vote + err) :=
  if (index <? 0) || (zlen (VS_votes vs) <=? index)
  then Ret (inr (ENew "index out of bound"))
  else v ← go_index (VS_votes vs) index; Ret (inl v).

Definition GetVoteBits (vs : VoteSet) : Bits := BitsCopy (votesBitArray vs).

(** The bit array is the vote set's own, not a copy: this is its value at the call.
    Who keeps the reference sees later votes in it: the certificate the engine
    sends does ([Outbound] and [on_wire] in [Kbft.v]); the one it stores is encoded
    and the one it seals with is copied with the tesseract before the next event. *)
Definition GetQC (vs : VoteSet) : Bits * bytes := (votesBitArray vs, maj23aggSignature vs).

Record ViewVoteSet := {
  VVS_Prevotes : VoteSet;
  VVS_Precommits : VoteSet;
}.

Definition ViewVoteBitSet (rvs : ViewVoteSet) : option VoteBitSet :=
  if BitsIsEmpty (GetVoteBits (VVS_Prevotes rvs)) then None
  else Some {| VB_Prevotes := Some (GetVoteBits (VVS_Prevotes rvs));
               VB_Precommits :=
                 if BitsIsEmpty (GetVoteBits (VVS_Precommits rvs)) then None
                 else Some (GetVoteBits (VVS_Precommits rvs)) |}.
End VoteSet.
