(* ===== verification/Tally.v ===== *)
(** * Counting votes per node set

    The weight of a validator at a position of the committee is how often
    [GetKramaID] lists that position among its slots; the tally of a group of
    validators is the sum of their weights.  The counters the vote set keeps in
    [uint32] are proved to be tallies in [VoteSetFacts.v]; here are the counting
    arguments, quorum intersection among them. *)

From stdpp Require Import base gmap strings list.
From Stdlib Require Import ZArith Lia.
From S2P Require Import Prelude External Types NodeSet Committee VoteSet.

Section Tally.
Context `{ET : ExtTypes}.

Fixpoint occurs (p : Z) (l : list Z) : Z :=
  match l with
  | [] => 0
  | x :: l' => (if decide (x = p) then 1 else 0) + occurs p l'
  end.

Lemma occurs_nonneg p l : 0 ≤ occurs p l.
Proof. induction l as [|x l IH]; cbn; [done|]. case_decide; lia. Qed.

(** The counters a validator moves, and by how much. *)
Definition slots_at (c : ICSCommittee) (i : nat) : list Z :=
  default [] (KR_slots (lookup_spec c (Z.of_nat i))).
Definition weight (c : ICSCommittee) (p : Z) (i : nat) : Z := occurs p (slots_at c i).
Definition nodes (c : ICSCommittee) : nat := Z.to_nat (totalNodes c).
Definition tally (c : ICSCommittee) (p : Z) (member : nat → bool) : Z :=
  sumZ (λ i, if member i then weight c p i else 0) (nodes c).

Lemma tally_ext c p f g : (∀ i, (i < nodes c)%nat → f i = g i) → tally c p f = tally c p g.
Proof. intros H. apply sumZ_ext. intros i Hi. by rewrite H. Qed.

Lemma tally_none c p : tally c p (λ _, false) = 0.
Proof. by apply sumZ_0. Qed.

Lemma tally_nonneg c p f : 0 ≤ tally c p f.
Proof. apply sumZ_nonneg. intros i _. case_match; [apply occurs_nonneg|done]. Qed.

Lemma tally_mono c p f g :
  (∀ i, (i < nodes c)%nat → f i = true → g i = true) → tally c p f ≤ tally c p g.
Proof.
  intros H. apply sumZ_le. intros i Hi. specialize (H i Hi). pose proof (occurs_nonneg p (slots_at c i)).
  unfold weight. destruct (f i), (g i); try lia.
Qed.

Lemma tally_le_total c p f : tally c p f ≤ tally c p (λ _, true).
Proof. by apply tally_mono. Qed.

Lemma tally_set c p f (i : nat) :
  (i < nodes c)%nat →
  tally c p (λ k, f k || bool_decide (k = i))
  = tally c p f + (if f i then 0 else weight c p i).
Proof.
  intros Hi. unfold tally.
  rewrite (sumZ_update (λ k, if f k then weight c p k else 0) _ (nodes c) i Hi).
  - rewrite bool_decide_eq_true_2, orb_true_r by done. destruct (f i); lia.
  - intros k Hk. rewrite bool_decide_eq_false_2 by done. by rewrite orb_false_r.
Qed.

Lemma tally_inclusion_exclusion c p f g :
  tally c p f + tally c p g
  = tally c p (λ i, f i || g i) + tally c p (λ i, f i && g i).
Proof.
  unfold tally. rewrite <-!sumZ_plus. apply sumZ_ext. intros i _.
  destruct (f i), (g i); cbn; lia.
Qed.

(** Two groups that each reach [x] overlap in [2x] minus the whole set. *)
Lemma tally_overlap c p f g x :
  x ≤ tally c p f → x ≤ tally c p g →
  2 * x - tally c p (λ _, true) ≤ tally c p (λ i, f i && g i).
Proof.
  intros Hf Hg. pose proof (tally_inclusion_exclusion c p f g).
  pose proof (tally_le_total c p (λ i, f i || g i)). lia.
Qed.

Lemma occurs_le_length p l : occurs p l ≤ zlen l.
Proof. unfold zlen. induction l as [|x l IH]; cbn; [done|]. case_decide; lia. Qed.

(** A bound that can be computed, for every position at once. *)
Lemma tally_le_slots c p f : tally c p f ≤ sumZ (λ i, zlen (slots_at c i)) (nodes c).
Proof.
  apply sumZ_le. intros i _. pose proof (occurs_le_length p (slots_at c i)).
  unfold weight, zlen in *. case_match; lia.
Qed.

(** A group of positive tally has a member. *)
Lemma tally_pos_member c p f :
  0 < tally c p f → ∃ i, (i < nodes c)%nat ∧ f i = true ∧ p ∈ slots_at c i.
Proof.
  unfold tally. induction (nodes c) as [|n IH]; [done|]. rewrite sumZ_S.
  destruct (f n) eqn:E.
  - intros H. destruct (decide (p ∈ slots_at c n)) as [Hin|Hni]; [exists n; split_and!; (lia || done)|].
    assert (Hw : weight c p n = 0).
    { unfold weight. clear -Hni. induction (slots_at c n) as [|x l IHl]; [done|].
      cbn. apply not_elem_of_cons in Hni as [? ?]. rewrite decide_False by done.
      by rewrite IHl. }
    destruct IH as (i & ? & ? & ?); [lia|]. exists i; split_and!; (lia || done).
  - intros H. destruct IH as (i & ? & ? & ?); [lia|]. exists i; split_and!; (lia || done).
Qed.

Lemma slotMatches_range j sets id p :
  p ∈ slotMatches j sets id → j ≤ p < j + zlen sets.
Proof.
  unfold zlen. revert j. induction sets as [|[set|] rest IH]; intros j; cbn.
  - intros H. by apply elem_of_nil in H.
  - intros [H|H%IH]%elem_of_app; [|lia].
    apply list_elem_of_In, in_flat_map in H as (info & _ & H).
    case_decide; [|done]. destruct H as [<-|[]]. lia.
  - intros H%IH. lia.
Qed.

Lemma length_removelast {A} (l : list A) : length (removelast l) = pred (length l).
Proof.
  induction l as [|x [|y l] IH]; [done|done|].
  change (S (length (removelast (y :: l))) = length (y :: l)). rewrite IH. cbn. lia.
Qed.

(** Every slot is a position of the committee. *)
Lemma slots_at_range c i p :
  committee_ok c → p ∈ slots_at c i → 0 ≤ p < size c.
Proof.
  intros Hok. unfold slots_at, lookup_spec. destruct (Z.ltb_spec (Z.of_nat i) 0); [lia|].
  destruct (flat c !! Z.to_nat (Z.of_nat i)) as [[[p0 j] info]|] eqn:E; cbn -[removelast].
  - apply list_elem_of_lookup_2, flat_from_pos in E. rewrite (co_size c Hok).
    unfold slots_from. intros [->|Hr%slotMatches_range]%elem_of_cons; [lia|].
    unfold zlen in *. rewrite length_removelast, length_drop in Hr. lia.
  - intros Hn. by apply elem_of_nil in Hn.
Qed.

(** ** [uint32] counters that hold a function of the position *)
Definition sums_are (m : nat) (f : Z → Z) (s : list Z) : Prop :=
  s = (λ k, u32 (f (Z.of_nat k))) <$> seq 0 m.

Lemma sums_are_length m f s : sums_are m f s → length s = m.
Proof. intros ->. by rewrite length_fmap, length_seq. Qed.

Lemma sums_are_ext m f g s :
  (∀ k, (k < m)%nat → f (Z.of_nat k) = g (Z.of_nat k)) → sums_are m f s → sums_are m g s.
Proof.
  intros H ->. apply list_fmap_ext. intros i k [-> Hk]%lookup_seq. f_equal. by apply H.
Qed.

Lemma sums_are_zero m f : (∀ k, f k = 0) → sums_are m f (replicate m 0).
Proof.
  intros H. apply list_eq. intros k. rewrite list_lookup_fmap.
  destruct (decide (k < m)%nat) as [Hk|Hk].
  - rewrite lookup_replicate_2, lookup_seq_lt by done. cbn. by rewrite H.
  - rewrite !lookup_ge_None_2; rewrite ?length_replicate, ?length_seq; try done; lia.
Qed.

Lemma sums_are_lookup m f s k :
  sums_are m f s → (k < m)%nat → s !! k = Some (u32 (f (Z.of_nat k))).
Proof. intros -> Hk. by rewrite list_lookup_fmap, lookup_seq_lt. Qed.

Lemma sums_are_bump m f s (i : nat) :
  sums_are m f s → (i < m)%nat →
  sums_are m (λ p, f p + (if decide (Z.of_nat i = p) then 1 else 0))
    (<[i := u32 (u32 (f (Z.of_nat i)) + 1)]> s).
Proof.
  intros -> Hi. apply list_eq. intros k.
  rewrite list_lookup_insert, length_fmap, length_seq, !list_lookup_fmap.
  destruct (decide (k < m)%nat) as [Hk|Hk].
  - rewrite lookup_seq_lt by done. cbn. case_decide as H.
    + destruct H as [-> _]. rewrite decide_True by done. by rewrite u32_add_l.
    + rewrite decide_False by lia. by rewrite Z.add_0_r.
  - rewrite decide_False by lia. rewrite lookup_ge_None_2; [done|]. rewrite length_seq. lia.
Qed.

Lemma bumpSum_fold m vp idxs f s vps :
  sums_are m f s → length vps = m → (∀ p, p ∈ idxs → 0 ≤ p < Z.of_nat m) →
  ∃ s' vps', foldM (bumpSum vp) idxs (s, vps) = Ret (s', vps') ∧
    sums_are m (λ p, f p + occurs p idxs) s' ∧ length vps' = m.
Proof.
  revert f s vps. induction idxs as [|i idxs IH]; intros f s vps Hs Hl Hr.
  - exists s, vps. split; [done|]. split; [|done].
    revert Hs. apply sums_are_ext. intros k _. cbn. lia.
  - assert (Hi : 0 ≤ i < Z.of_nat m) by (apply Hr; set_solver).
    pose proof (sums_are_length _ _ _ Hs) as Hsl.
    destruct (lookup_lt_is_Some_2 vps (Z.to_nat i)) as [y Hy]; [lia|].
    assert (Hx : go_index s i = Ret (u32 (f i))).
    { apply go_index_Ret. split; [lia|]. rewrite (sums_are_lookup m f) by (done || lia).
      by rewrite Z2Nat.id by lia. }
    assert (Hy' : go_index vps i = Ret y) by (apply go_index_Ret; split; [lia|done]).
    assert (Hstep : bumpSum vp (s, vps) i =
      Ret (<[Z.to_nat i := u32 (u32 (f i) + 1)]> s, <[Z.to_nat i := i32 (y + vp)]> vps)).
    { unfold bumpSum, go_update. cbn [fst snd]. rewrite Hx, Hy'. done. }
    cbn [foldM]. rewrite Hstep. cbn [mbind res_bind].
    pose proof (sums_are_bump m f s (Z.to_nat i) Hs ltac:(lia)) as Hb.
    rewrite !Z2Nat.id in Hb by lia.
    destruct (IH _ _ (<[Z.to_nat i := i32 (y + vp)]> vps) Hb) as (s' & vps' & He & Hs' & Hl').
    + by rewrite length_insert.
    + intros p Hp. apply Hr. set_solver.
    + exists s', vps'. split; [exact He|]. split; [|done].
      revert Hs'. apply sums_are_ext. intros k _. cbn. lia.
Qed.
End Tally.
