(* ===== verification/VoteSetFacts.v ===== *)
(** * Vote sets: invariant and correctness

    [vs_ok] is the invariant of a vote set over a fixed committee [c] and
    quorum vector [q]: every counter is the tally of the validators that voted,
    a validator is counted for one tesseract at most, every stored vote is
    authentic, and the recorded majority is exactly the first quorum reached.
    Every operation returns (no index panics) and preserves it. *)

From stdpp Require Import base gmap strings list.
From Stdlib Require Import ZArith Lia.
From S2P Require Import Prelude External Types NodeSet Committee Cluster VoteSet Tally.

(** The validators with a vote. *)
Definition voted `{ET : ExtTypes} (votes : list (option Vote)) (i : nat) : bool :=
  match votes !! i with Some (Some _) => true | _ => false end.

Lemma voted_insert `{ET : ExtTypes} votes (i k : nat) v :
  (i < length votes)%nat →
  voted (<[i := Some v]> votes) k = voted votes k || bool_decide (k = i).
Proof.
  intros Hi. unfold voted. rewrite list_lookup_insert. case_decide as H.
  - destruct H as [-> _]. by rewrite bool_decide_eq_true_2, orb_true_r.
  - rewrite bool_decide_eq_false_2; [by rewrite orb_false_r|]. intros ->. naive_solver.
Qed.

Lemma voted_true `{ET : ExtTypes} votes (i : nat) :
  voted votes i = true ↔ ∃ v, votes !! i = Some (Some v).
Proof. unfold voted. destruct (votes !! i) as [[v|]|]; naive_solver. Qed.

Lemma voted_replicate `{ET : ExtTypes} n (i : nat) : voted (replicate n None) i = false.
Proof.
  unfold voted. destruct (replicate n None !! i) as [[v|]|] eqn:E; try done.
  by apply lookup_replicate in E as [? _].
Qed.

(** What every theorem about a vote set assumes of its committee [c] and quorum
    vector [q]: the committee is well formed, there is a threshold per position,
    and the counters cannot wrap. *)
Record env_ok `{ET : ExtTypes} (c : ICSCommittee) (q : list Z) : Prop := {
  env_committee : committee_ok c;
  env_quorum : zlen q = size c;
  env_weights : ∀ p, tally c p (λ _, true) < 2 ^ 32;
}.

Section Invariant.
Context `{ET : ExtTypes} `{!ExtOps ET} `{!BitLaws ET} `{!PoloCodec CanonicalVote}.
(** The committee, the thresholds, the view and type the set is for, and the
    votes that were ever sent. *)
Context (c : ICSCommittee) (q : list Z) (vw : Z) (vt : ConsensusMsgType) (sent : Vote → Prop).

Definition positions : nat := Z.to_nat (size c).
Definition key_at (i : Z) : bytes := KR_PublicKey (lookup_spec c i).

(** The cluster state the vote set points to. *)
Definition cluster_ok (cs : ClusterState) : Prop :=
  committee cs = c ∧ ∃ cs', GetQuorum cs = Ret (q, cs').

(** A vote counted for validator [i]: it was sent, for this view and type, and
    its signature was checked under the key of [i], or it is an aggregate checked under keys [i]'s among them. *)
Definition authentic (i : Z) (v : Vote) : Prop :=
  sent v ∧ V_View v = vw ∧ V_Type v = vt ∧ ∃ raw, Vote_SignBytes v = inl raw ∧
    ((V_SignerIndex v = i ∧ Verify raw (V_Signature v) (key_at i) = (true, None)) ∨
     (∃ signed, signerIndices v = Ret signed ∧ i ∈ i32 <$> signed ∧
        VerifyAggregateSignature raw (V_Signature v) ((λ k, key_at (i32 k)) <$> signed)
        = (true, None))).

Record tv_ok (h : Hash) (tv : tesseractVoteSet) : Prop := {
  to_peer : peermaj23 tv = false;
  to_len : length (TV_votes tv) = nodes c;
  to_size : BitsSize (bitarray tv) = totalNodes c;
  to_bits : ∀ i : nat, GetIndex (bitarray tv) (Z.of_nat i) = voted (TV_votes tv) i;
  to_sums : sums_are positions (λ p, tally c p (voted (TV_votes tv))) (TV_sum tv);
  to_vps : length (TV_votingPowerSum tv) = positions;
  to_auth : ∀ (i : nat) v, TV_votes tv !! i = Some (Some v) →
              V_TSHash v = h ∧ authentic (Z.of_nat i) v;
}.

(** Validator [i] is counted for [h]. *)
Definition counted_for (vs : VoteSet) (h : Hash) (i : nat) : bool :=
  match votesByTesseract vs !! h with
  | Some tv => voted (TV_votes tv) i
  | None => false
  end.

(** The members of [b] carry every position over its threshold. *)
Definition reaches (member : nat → bool) : Prop :=
  ∀ k x, q !! k = Some x → x ≤ tally c (Z.of_nat k) member.

(** The certificate recorded with a majority for [h]: an aggregate of the
    signers' signatures, or the signature of a checked certificate. *)
Definition cert_ok (h : Hash) (b : Bits) (sig : bytes) : Prop :=
  (∃ sigs, sig = (CryptoAggregateSignatures sigs).1 ∧
     Forall2 (λ i s, ∃ v, V_Signature v = s ∧ V_TSHash v = h ∧ authentic i v)
       (GetTrueIndices b) sigs) ∨
  (∃ v, V_TSHash v = h ∧ V_Signature v = sig ∧ ∃ i, authentic i v).

Definition maj_ok (vs : VoteSet) : Prop :=
  match maj23TsHash vs with
  | Some h => ∃ b, maj23VoteSet vs = Some b ∧
      (∀ i : nat, GetIndex b (Z.of_nat i) = true → counted_for vs h i = true) ∧
      reaches (λ i, GetIndex b (Z.of_nat i)) ∧ cert_ok h b (maj23aggSignature vs)
  | None => maj23VoteSet vs = None ∧ ∀ h, ¬ reaches (counted_for vs h)
  end.

Record vs_core (vs : VoteSet) : Prop := {
  vo_view : VS_view vs = vw;
  vo_type : votetype vs = vt;
  vo_len : length (VS_votes vs) = nodes c;
  vo_size : BitsSize (votesBitArray vs) = totalNodes c;
  vo_bits : ∀ i : nat, GetIndex (votesBitArray vs) (Z.of_nat i) = voted (VS_votes vs) i;
  vo_sums : sums_are positions (λ p, tally c p (voted (VS_votes vs))) (VS_sum vs);
  vo_vps : length (VS_votingPowerSum vs) = positions;
  vo_tvs : ∀ h tv, votesByTesseract vs !! h = Some tv → tv_ok h tv;
  vo_auth : ∀ (i : nat) v, VS_votes vs !! i = Some (Some v) → authentic (Z.of_nat i) v;
  vo_voted : ∀ i, voted (VS_votes vs) i = true ↔ ∃ h, counted_for vs h i = true;
  vo_once : ∀ h h' i, counted_for vs h i = true → counted_for vs h' i = true → h = h';
}.

Definition vs_ok (vs : VoteSet) : Prop := vs_core vs ∧ maj_ok vs.

Context (Henv : env_ok c q).

Lemma positions_pos : (0 < positions)%nat.
Proof. pose proof (co_pos c (env_committee _ _ Henv)). unfold positions. lia. Qed.

Lemma length_q : length q = positions.
Proof. pose proof (env_quorum _ _ Henv). unfold zlen, positions in *. lia. Qed.

Lemma nodes_total : Z.of_nat (nodes c) = totalNodes c.
Proof.
  unfold nodes. pose proof (co_total c (env_committee _ _ Henv)).
  unfold zlen in *. lia.
Qed.

Lemma tally_u32 p f : u32 (tally c p f) = tally c p f.
Proof.
  apply u32_small. pose proof (tally_nonneg c p f). pose proof (tally_le_total c p f).
  pose proof (env_weights _ _ Henv p). lia.
Qed.

Lemma cluster_ok_quorum cs :
  cluster_ok cs → ∃ cs', GetQuorum cs = Ret (q, cs') ∧ cluster_ok cs'.
Proof.
  intros [Hc [cs' Hq]]. exists cs'. split; [done|]. split.
  - revert Hq. unfold GetQuorum. case_match; intros; res_inv; done.
  - exists cs'. revert Hq. unfold GetQuorum.
    destruct (quorum cs) eqn:E; intros; res_inv; [by rewrite E|done].
Qed.

Lemma slots_at_positions i p : p ∈ slots_at c i → 0 ≤ p < Z.of_nat positions.
Proof.
  intros H%slots_at_range; [|apply (env_committee _ _ Henv)].
  unfold positions. lia.
Qed.

(** ** Comparing the counters with the thresholds *)
Lemma areGreater_spec old new :
  (length old ≤ length new)%nat →
  ∃ b : bool, areGreater old new = Ret b ∧
    (b = true ↔ ∀ k x y, old !! k = Some x → new !! k = Some y → y ≤ x).
Proof.
  revert new. induction old as [|x old IH]; intros [|y new] Hl; cbn in Hl; try lia.
  1,2: exists true; split; [done|]; split; [|done]; intros _ k ? ?; by rewrite lookup_nil.
  destruct (IH new) as (b & He & Hb); [lia|]. cbn [areGreater].
  destruct (Z.ltb_spec x y) as [Hlt|Hge].
  - exists false. split; [done|]. split; [done|]. intros H. specialize (H O x y eq_refl eq_refl). lia.
  - exists b. split; [done|]. rewrite Hb. split; intros H.
    + intros [|k] x' y' Hx Hy; cbn in *; [by simplify_eq|]. by eapply H.
    + intros k x' y' Hx Hy. by apply (H (S k)).
Qed.

Lemma areGreater_reaches f s :
  sums_are positions (λ p, tally c p f) s →
  ∃ b : bool, areGreater s q = Ret b ∧ (b = true ↔ reaches f).
Proof.
  intros Hs. pose proof (sums_are_length _ _ _ Hs) as Hl.
  destruct (areGreater_spec s q) as (b & He & Hb); [rewrite Hl, length_q; lia|].
  exists b. split; [done|]. rewrite Hb. unfold reaches. split.
  - intros H k x Hx. pose proof (lookup_lt_Some _ _ _ Hx) as Hk. rewrite length_q in Hk.
    specialize (H k _ x (sums_are_lookup _ _ _ _ Hs Hk) Hx). cbn beta in H.
    by rewrite tally_u32 in H.
  - intros H k x y Hx Hy. pose proof (lookup_lt_Some _ _ _ Hy) as Hk. rewrite length_q in Hk.
    rewrite (sums_are_lookup _ _ _ _ Hs Hk) in Hx. cbn beta in Hx.
    rewrite tally_u32 in Hx. simplify_eq. by apply H.
Qed.

Lemma reaches_ext f g :
  (∀ i, (i < nodes c)%nat → f i = g i) → reaches f → reaches g.
Proof. intros H Hr k x Hx. rewrite <-(tally_ext c _ f g H). by apply Hr. Qed.

Lemma reaches_mono f g :
  (∀ i, (i < nodes c)%nat → f i = true → g i = true) → reaches f → reaches g.
Proof. intros H Hr k x Hx. etrans; [by apply Hr|]. by apply tally_mono. Qed.

(** ** The votes of one tesseract *)
Lemma newTesseractVoteSet_ok h :
  tv_ok h (newTesseractVoteSet (Z.of_nat positions) false (totalNodes c)).
Proof.
  pose proof nodes_total. unfold newTesseractVoteSet. split; cbn; try done.
  - by rewrite length_replicate.
  - apply bits_new_size. lia.
  - intros i. by rewrite bits_new_get, voted_replicate.
  - rewrite Nat2Z.id. apply sums_are_zero. intros p.
    rewrite (tally_ext c p _ (λ _, false)); [apply tally_none|].
    intros i _. apply voted_replicate.
  - by rewrite Nat2Z.id, length_replicate.
  - intros i v Hv. by apply lookup_replicate in Hv as [? _].
Qed.

Lemma tv_add_ok h tv (i : nat) v :
  tv_ok h tv → (i < nodes c)%nat → V_TSHash v = h → authentic (Z.of_nat i) v →
  ∃ tv', tv_addVerifiedVote tv (Z.of_nat i) (slots_at c i) v 1 = Ret tv' ∧ tv_ok h tv' ∧
    (∀ k, voted (TV_votes tv') k = voted (TV_votes tv) k || bool_decide (k = i)).
Proof.
  intros [Hp Hlen Hsz Hb Hs Hv Ha] Hi Hh Hau. unfold tv_addVerifiedVote.
  destruct (lookup_lt_is_Some_2 (TV_votes tv) i) as [o Ho]; [lia|].
  cbn [getByIndex]. rewrite (go_index_nat _ _ _ Ho). cbn [mbind res_bind].
  destruct o as [w|].
  { exists tv. split; [done|]. split; [done|]. intros k. destruct (decide (k = i)) as [->|Hk].
    - unfold voted. rewrite Ho. done.
    - by rewrite bool_decide_eq_false_2, orb_false_r. }
  unfold go_update. rewrite (go_index_nat _ _ _ Ho). cbn [mbind res_bind].
  rewrite Nat2Z.id.
  destruct (bumpSum_fold positions 1 (slots_at c i) _ _ _ Hs Hv (slots_at_positions i))
    as (s' & vps' & He & Hs' & Hv').
  rewrite He. cbn [mbind res_bind]. eexists. split; [done|].
  assert (Hvo : ∀ k, voted (<[i := Some v]> (TV_votes tv)) k
                     = voted (TV_votes tv) k || bool_decide (k = i)).
  { intros k. apply voted_insert. lia. }
  split; [|done]. pose proof nodes_total as Hn. split; cbn; try done.
  - by rewrite length_insert.
  - by rewrite bits_set_size.
  - intros k. rewrite bits_set_get, Hvo, Hb by lia. case_decide as Hk.
    + by rewrite bool_decide_eq_true_2, orb_true_r by lia.
    + by rewrite bool_decide_eq_false_2, orb_false_r by lia.
  - revert Hs'. apply sums_are_ext. intros p _.
    rewrite (tally_ext c _ _ _ (λ k _, Hvo k)), tally_set by done.
    assert (voted (TV_votes tv) i = false) as -> by (unfold voted; by rewrite Ho). done.
  - intros k w Hw. rewrite list_lookup_insert in Hw. case_decide as Hk; [|by apply Ha].
    destruct Hk as [-> _]. by simplify_eq.
Qed.

Lemma AggregateSignatures_ok h tv :
  tv_ok h tv →
  ∃ sigs, AggregateSignatures tv = Ret (CryptoAggregateSignatures sigs) ∧
    Forall2 (λ i s, ∃ v, V_Signature v = s ∧ V_TSHash v = h ∧ authentic i v)
      (GetTrueIndices (bitarray tv)) sigs.
Proof.
  intros Htv. unfold AggregateSignatures.
  destruct (mapM_res_Forall2
    (λ i s, ∃ v, V_Signature v = s ∧ V_TSHash v = h ∧ authentic i v)
    (λ index, o ← go_index (TV_votes tv) index; v ← deref o; Ret (V_Signature v))
    (GetTrueIndices (bitarray tv))) as (sigs & He & Hf).
  - intros i Hi%bits_true_elem. assert (Hi0 : 0 ≤ i) by (apply bits_get_range in Hi; lia).
    rewrite <-(Z2Nat.id i), (to_bits _ _ Htv) in Hi by done.
    apply voted_true in Hi as [v Hv]. destruct (to_auth _ _ Htv _ _ Hv) as [Hh Ha].
    rewrite Z2Nat.id in Ha by done. exists (V_Signature v).
    rewrite (proj2 (go_index_Ret _ i (Some v))) by done. split; [done|]. by exists v.
  - exists sigs. by rewrite He.
Qed.

Lemma GetTrueIndices_copy b : GetTrueIndices (BitsCopy b) = GetTrueIndices b.
Proof.
  rewrite !bits_true, bits_copy_size. apply list_filter_iff. intros i. by rewrite bits_copy_get.
Qed.

(** *** Recording the majority *)
Lemma mergeVotes_ok tvotes votes :
  (length tvotes ≤ length votes)%nat →
  ∃ votes', mergeVotes tvotes votes = Ret votes' ∧ length votes' = length votes ∧
    ∀ k, votes' !! k = match tvotes !! k with
                       | Some (Some w) => Some (Some w) | _ => votes !! k end.
Proof.
  unfold mergeVotes. induction tvotes as [|o tvotes IH] using rev_ind; intros Hl.
  - by exists votes.
  - rewrite length_app in Hl. cbn in Hl. destruct IH as (votes1 & He & Hl1 & H1); [lia|].
    rewrite imap_app, foldM_app, He. cbn [mbind res_bind imap foldM].
    rewrite Nat.add_0_r. destruct o as [w|].
    + assert (Hu : go_update votes1 (Z.of_nat (length tvotes)) (Some w)
                   = Ret (<[length tvotes := Some w]> votes1)).
      { apply go_update_Ret. rewrite Nat2Z.id. split_and!; [lia|lia|done]. }
      cbn [compose]. rewrite ?Nat.add_0_r, Hu. cbn [mbind res_bind]. eexists. split; [done|].
      rewrite length_insert. split; [done|]. intros k. rewrite list_lookup_insert.
      case_decide as Hk.
      * destruct Hk as [<- _]. by rewrite lookup_app_r, Nat.sub_diag by lia.
      * rewrite H1. destruct (decide (k < length tvotes)%nat).
        -- by rewrite lookup_app_l by lia.
        -- rewrite (lookup_ge_None_2 (tvotes ++ _)); [|rewrite length_app; cbn; lia].
           by rewrite lookup_ge_None_2 by lia.
    + exists votes1. split; [done|]. split; [done|]. intros k. rewrite H1.
      destruct (decide (k < length tvotes)%nat).
      * by rewrite lookup_app_l by lia.
      * rewrite (lookup_ge_None_2 tvotes), lookup_app_r by lia.
        by destruct (k - length tvotes)%nat.
Qed.

Lemma counted_voted vs h tv (i : nat) :
  vs_core vs → votesByTesseract vs !! h = Some tv → voted (TV_votes tv) i = true →
  voted (VS_votes vs) i = true.
Proof.
  intros Hc Hl Hv. apply (vo_voted _ Hc). exists h. unfold counted_for. by rewrite Hl.
Qed.

(** Copying the counted votes over the vote set's keeps the invariant. *)
Lemma set_majority_core vs h tv sig votes' :
  vs_core vs → votesByTesseract vs !! h = Some tv → length votes' = length (VS_votes vs) →
  (∀ k, votes' !! k = match TV_votes tv !! k with
                      | Some (Some w) => Some (Some w) | _ => VS_votes vs !! k end) →
  vs_core (set_majority vs h (BitsCopy (bitarray tv)) sig votes').
Proof.
  intros Hc Hl Hlen Hk.
  assert (Hvo : ∀ k, voted votes' k = voted (VS_votes vs) k).
  { intros k. destruct (voted (TV_votes tv) k) eqn:E.
    - rewrite (counted_voted vs h tv k Hc Hl E). apply voted_true in E as [w Hw].
      unfold voted. by rewrite Hk, Hw.
    - unfold voted in *. rewrite Hk. by destruct (TV_votes tv !! k) as [[w|]|]. }
  destruct Hc as [? ? ? ? Hb Hs ? Ht Ha Hv Ho]. split; cbn; try done.
  - by rewrite Hlen.
  - intros i. by rewrite Hvo.
  - revert Hs. apply sums_are_ext. intros p _. by apply tally_ext.
  - intros i v. rewrite Hk. destruct (TV_votes tv !! i) as [[w|]|] eqn:E; [|by apply Ha..].
    intros [= <-]. by destruct (to_auth _ _ (Ht h tv Hl) _ _ E).
  - intros i. rewrite Hvo. apply Hv.
Qed.

(** [noteMajority] after [tv] has been stored for [vote]'s tesseract: the
    majority is recorded if and only if [tv] now reaches the quorum. *)
Lemma noteMajority_ok vs tv v isQc :
  vs_core vs → votesByTesseract vs !! V_TSHash v = Some tv →
  (∃ i, authentic i v) →
  match maj23TsHash vs with
  | Some _ => maj_ok vs
  | None => maj23VoteSet vs = None ∧
            ∀ h, h ≠ V_TSHash v → ¬ reaches (counted_for vs h)
  end →
  ∃ vs', noteMajority vs tv v q isQc = Ret vs' ∧ vs_ok vs' ∧
    votesByTesseract vs' = votesByTesseract vs ∧
    (VS_heights vs', VS_view vs', votetype vs') = (VS_heights vs, VS_view vs, votetype vs) ∧
    (is_Some (maj23TsHash vs) → vs' = vs).
Proof.
  intros Hc Hl Hex Hm. unfold noteMajority.
  pose proof (vo_tvs _ Hc _ _ Hl) as Htv.
  destruct (maj23TsHash vs) as [h0|] eqn:Em; [by exists vs; split_and!|].
  destruct Hm as [Hvn Hno].
  destruct (areGreater_reaches _ _ (to_sums _ _ Htv)) as (b & -> & Hb). cbn [mbind res_bind].
  assert (Hcf : ∀ k, counted_for vs (V_TSHash v) k = voted (TV_votes tv) k)
    by (intros k; unfold counted_for; by rewrite Hl).
  destruct b.
  - destruct (AggregateSignatures_ok _ _ Htv) as (sigs & He & Hf).
    destruct (mergeVotes_ok (TV_votes tv) (VS_votes vs)) as (votes' & Hme & Hml & Hmk).
    { rewrite (to_len _ _ Htv), (vo_len _ Hc). done. }
    assert (Hcert : ∃ sig, (if isQc then Ret (V_Signature v)
               else '(sig, _) ← AggregateSignatures tv; Ret sig) = Ret sig ∧
               cert_ok (V_TSHash v) (BitsCopy (bitarray tv)) sig).
    { destruct isQc.
      - exists (V_Signature v). split; [done|]. right. by exists v.
      - exists (CryptoAggregateSignatures sigs).1. rewrite He. split.
        + cbn. by destruct (CryptoAggregateSignatures sigs).
        + left. exists sigs. by rewrite GetTrueIndices_copy. }
    destruct Hcert as (sig & -> & Hcert). cbn [mbind res_bind]. rewrite Hme. cbn [mbind res_bind].
    eexists. split; [done|]. split; [split; [by apply set_majority_core|]|split_and!; try done].
    + unfold maj_ok. cbn. exists (BitsCopy (bitarray tv)). split; [done|]. split_and!; [| |done].
      * intros i. rewrite bits_copy_get, (to_bits _ _ Htv). intros Hi. rewrite <-Hcf in Hi. done.
      * apply (reaches_ext (voted (TV_votes tv))); [|by apply Hb].
        intros i _. by rewrite bits_copy_get, (to_bits _ _ Htv).
  - exists vs. split_and!; try done. split; [done|]. unfold maj_ok. rewrite Em. split; [done|].
    intros h. destruct (decide (h = V_TSHash v)) as [->|Hne]; [|by apply Hno].
    intros Hr. enough (false = true) by done. apply Hb. revert Hr. apply reaches_ext.
    intros k _. apply Hcf.
Qed.

(** *** Adding a vote *)
Definition header (vs : VoteSet) : gmap Address Z * Z * ConsensusMsgType :=
  (VS_heights vs, VS_view vs, votetype vs).

Lemma KR_slots_some cs (i : nat) :
  committee cs = c → (i < nodes c)%nat →
  getSumIndex cs (Z.of_nat i) = Ret (inl (slots_at c i)).
Proof.
  intros Hcs Hi. unfold getSumIndex. rewrite Hcs, GetKramaID_spec by apply (env_committee _ _ Henv).
  unfold slots_at, lookup_spec. cbn [mbind res_bind].
  destruct (Z.ltb_spec (Z.of_nat i) 0); [lia|]. rewrite Nat2Z.id.
  pose proof nodes_total as Hn. rewrite (co_total c (env_committee _ _ Henv)) in Hn.
  destruct (lookup_lt_is_Some_2 (flat c) i) as [[[p j] info] ->]; [unfold zlen in Hn; lia|done].
Qed.

Lemma placeVote_Ret vs (i : nat) v :
  (i < length (VS_votes vs))%nat →
  placeVote vs (Z.of_nat i) v =
  Ret (set_votes vs (<[i := Some v]> (VS_votes vs)) (SetIndex (votesBitArray vs) (Z.of_nat i) true)).
Proof.
  intros Hi. unfold placeVote, go_update. destruct (lookup_lt_is_Some_2 _ _ Hi) as [o Ho].
  rewrite (go_index_nat _ _ _ Ho). cbn. by rewrite Nat2Z.id.
Qed.

Lemma placed_bits vs (i k : nat) v :
  vs_core vs → (i < nodes c)%nat →
  GetIndex (SetIndex (votesBitArray vs) (Z.of_nat i) true) (Z.of_nat k)
  = voted (<[i := Some v]> (VS_votes vs)) k.
Proof.
  intros Hc Hi. pose proof nodes_total. rewrite voted_insert by (rewrite (vo_len _ Hc); lia).
  rewrite bits_set_get by (rewrite (vo_size _ Hc); lia). rewrite (vo_bits _ Hc).
  case_decide.
  - by rewrite bool_decide_eq_true_2, orb_true_r by lia.
  - by rewrite bool_decide_eq_false_2, orb_false_r by lia.
Qed.

(** Replacing the vote of a validator that has one. *)
Lemma replace_core vs (i : nat) v :
  vs_core vs → (i < nodes c)%nat → voted (VS_votes vs) i = true → authentic (Z.of_nat i) v →
  vs_core (set_votes vs (<[i := Some v]> (VS_votes vs))
             (SetIndex (votesBitArray vs) (Z.of_nat i) true)).
Proof.
  intros Hc Hi Hvi Hau. pose proof (placed_bits vs i) as Hpb.
  assert (Hvo : ∀ k, voted (<[i := Some v]> (VS_votes vs)) k = voted (VS_votes vs) k).
  { intros k. rewrite voted_insert by (rewrite (vo_len _ Hc); lia).
    destruct (decide (k = i)) as [->|Hk]; [by rewrite Hvi|].
    by rewrite bool_decide_eq_false_2, orb_false_r. }
  specialize (λ k, Hpb k v Hc Hi).
  destruct Hc as [? ? ? ? Hb Hs ? Ht Ha Hv Ho]. split; cbn; try done.
  - by rewrite length_insert.
  - by rewrite bits_set_size.
  - revert Hs. apply sums_are_ext. intros p _. by apply tally_ext.
  - intros k w. rewrite list_lookup_insert. case_decide as Hk; [|by apply Ha].
    destruct Hk as [-> _]. by intros [= <-].
  - intros k. rewrite Hvo. apply Hv.
Qed.

Lemma counted_for_set vs h tv h' k :
  counted_for (set_tesseract vs h tv) h' k =
  if decide (h = h') then voted (TV_votes tv) k else counted_for vs h' k.
Proof.
  unfold counted_for. cbn. rewrite lookup_insert. by case_decide.
Qed.

(** The state after a first vote of validator [i] has been placed and counted. *)
Lemma fresh_core vs (i : nat) v tv' s' vps' :
  vs_core vs → (i < nodes c)%nat → voted (VS_votes vs) i = false → authentic (Z.of_nat i) v →
  tv_ok (V_TSHash v) tv' →
  (∀ k, voted (TV_votes tv') k = counted_for vs (V_TSHash v) k || bool_decide (k = i)) →
  sums_are positions (λ p, tally c p (voted (VS_votes vs)) + occurs p (slots_at c i)) s' →
  length vps' = positions →
  let vs3 := set_tesseract (set_sums (set_votes vs (<[i := Some v]> (VS_votes vs))
               (SetIndex (votesBitArray vs) (Z.of_nat i) true)) (s', vps')) (V_TSHash v) tv' in
  vs_core vs3 ∧
  (∀ h k, counted_for vs3 h k
          = counted_for vs h k || bool_decide (h = V_TSHash v ∧ k = i)).
Proof.
  intros Hc Hi Hvi Hau Htv' Hk Hs' Hv' vs3.
  assert (Hcf : ∀ h k, counted_for vs3 h k
            = counted_for vs h k || bool_decide (h = V_TSHash v ∧ k = i)).
  { intros h k. unfold vs3. rewrite counted_for_set. case_decide as Hd.
    - subst h. rewrite Hk. f_equal. apply bool_decide_ext. naive_solver.
    - rewrite (bool_decide_eq_false_2 (h = _ ∧ _)) by naive_solver. by rewrite orb_false_r. }
  split; [|done]. pose proof (λ k, placed_bits vs i k v Hc Hi) as Hpb.
  assert (Hvo : ∀ k, voted (<[i := Some v]> (VS_votes vs)) k
                     = voted (VS_votes vs) k || bool_decide (k = i)).
  { intros k. apply voted_insert. by rewrite (vo_len _ Hc). }
  assert (Hni : ∀ h, counted_for vs h i = false).
  { intros h. destruct (counted_for vs h i) eqn:E; [|done].
    assert (voted (VS_votes vs) i = true) by (apply (vo_voted _ Hc); eauto). congruence. }
  destruct Hc as [? ? ? ? Hb Hs ? Ht Ha Hv Ho]. split; cbn; try done.
  - by rewrite length_insert.
  - by rewrite bits_set_size.
  - revert Hs'. apply sums_are_ext. intros p _.
    by rewrite (tally_ext c _ _ _ (λ k _, Hvo k)), tally_set, Hvi.
  - intros h tv. rewrite lookup_insert. case_decide as Hd; [|by apply Ht].
    intros [= <-]. by subst h.
  - intros k w. rewrite list_lookup_insert. case_decide as Hd; [|by apply Ha].
    destruct Hd as [-> _]. by intros [= <-].
  - intros k. rewrite Hvo, orb_true_iff, Hv. setoid_rewrite Hcf. setoid_rewrite orb_true_iff.
    setoid_rewrite bool_decide_eq_true. naive_solver.
  - intros h h' k. rewrite !Hcf, !orb_true_iff, !bool_decide_eq_true.
    intros [H1|[-> Hki]] [H2|[-> Hki']]; [by eapply Ho|congruence..].
Qed.

(** What adding a vote for validator [i] does to the set. *)
Definition add_outcome (vs : VoteSet) (i : nat) (v : Vote) (added : bool)
    (conflicting : option Vote) (vs' : VoteSet) : Prop :=
  match VS_votes vs !! i with
  | Some (Some e) =>
      conflicting = Some e ∧ added = bool_decide (V_TSHash e = V_TSHash v) ∧
      ∀ h k, counted_for vs' h k = counted_for vs h k
  | _ =>
      conflicting = None ∧ added = true ∧
      ∀ h k, counted_for vs' h k
             = counted_for vs h k || bool_decide (h = V_TSHash v ∧ k = i)
  end.

(** A recorded majority and its certificate stay. *)
Definition maj_kept (vs vs' : VoteSet) : Prop :=
  is_Some (maj23TsHash vs) →
  maj23TsHash vs' = maj23TsHash vs ∧ maj23VoteSet vs' = maj23VoteSet vs ∧
  maj23aggSignature vs' = maj23aggSignature vs.

Lemma maj_ok_mono vs vs' h tv :
  maj_ok vs → votesByTesseract vs' = <[h := tv]> (votesByTesseract vs) →
  (∀ h' k, counted_for vs h' k = true → counted_for vs' h' k = true) →
  maj23TsHash vs' = maj23TsHash vs → maj23VoteSet vs' = maj23VoteSet vs →
  maj23aggSignature vs' = maj23aggSignature vs →
  match maj23TsHash vs' with
  | Some _ => maj_ok vs'
  | None => maj23VoteSet vs' = None ∧ ∀ h', h' ≠ h → ¬ reaches (counted_for vs' h')
  end.
Proof.
  unfold maj_ok. intros Hm Hb Hmono Eh Ev Es. rewrite Eh, Ev, Es.
  destruct (maj23TsHash vs) as [h0|].
  - destruct Hm as (b & ? & ? & ? & ?). exists b. split_and!; try done. auto.
  - destruct Hm as [? Hn]. split; [done|]. intros h' Hne Hr. apply (Hn h').
    revert Hr. apply reaches_ext. intros k _. unfold counted_for.
    by rewrite Hb, lookup_insert_ne.
Qed.

Lemma vs_add_fresh vs cs v (i : nat) isQc :
  vs_ok vs → cluster_ok cs → (i < nodes c)%nat → authentic (Z.of_nat i) v →
  VS_votes vs !! i = Some None →
  ∃ vs' cs', vs_addVerifiedVote vs cs v 1 (Z.of_nat i) (slots_at c i) isQc
             = Ret (true, None, vs', cs') ∧
    vs_ok vs' ∧ cluster_ok cs' ∧ header vs' = header vs ∧ maj_kept vs vs' ∧
    ∀ h k, counted_for vs' h k
           = counted_for vs h k || bool_decide (h = V_TSHash v ∧ k = i).
Proof.
  intros [Hc Hm] Hcs Hi Hau Hfr. pose proof (vo_len _ Hc) as Hlen.
  assert (Hvi : voted (VS_votes vs) i = false) by (unfold voted; by rewrite Hfr).
  unfold vs_addVerifiedVote. rewrite (go_index_nat _ _ _ Hfr). cbn [mbind res_bind].
  rewrite placeVote_Ret by lia. cbn [mbind res_bind]. unfold updateSum.
  rewrite (KR_slots_some cs i) by (done || apply Hcs). cbn [mbind res_bind].
  destruct (bumpSum_fold positions 1 (slots_at c i) _ _ _ (vo_sums _ Hc) (vo_vps _ Hc)
              (slots_at_positions i)) as (s' & vps' & He & Hs' & Hv').
  cbn [VS_sum VS_votingPowerSum set_votes]. rewrite He. cbn [mbind res_bind].
  unfold trackVote. cbn [votesByTesseract set_sums set_votes].
  destruct (cluster_ok_quorum cs Hcs) as (cs' & -> & Hcs'). cbn [mbind res_bind VS_sum set_sums].
  set (tv := default _ (votesByTesseract vs !! V_TSHash v)).
  assert (Htv : tv_ok (V_TSHash v) tv).
  { unfold tv. destruct (votesByTesseract vs !! V_TSHash v) as [tv0|] eqn:E; cbn.
    - by apply (vo_tvs _ Hc).
    - unfold zlen, ClusterSize, TotalNodes. rewrite (sums_are_length _ _ _ Hs').
      rewrite (proj1 Hcs). apply newTesseractVoteSet_ok. }
  assert (Htc : ∀ k, voted (TV_votes tv) k = counted_for vs (V_TSHash v) k).
  { intros k. unfold tv, counted_for. destruct (votesByTesseract vs !! V_TSHash v); [done|].
    apply voted_replicate. }
  destruct (tv_add_ok _ _ _ _ Htv Hi eq_refl Hau) as (tv' & -> & Htv' & Hk).
  cbn [mbind res_bind]. setoid_rewrite Htc in Hk.
  destruct (fresh_core vs i v tv' s' vps' Hc Hi Hvi Hau Htv' Hk Hs' Hv') as [Hc3 Hcf].
  set (vs3 := set_tesseract _ _ _) in *.
  destruct (noteMajority_ok vs3 tv' v isQc) as (vs4 & -> & Hok & Hbt & Hh & Hkeep).
  - done.
  - by apply lookup_insert_eq.
  - eauto.
  - eapply (maj_ok_mono vs); try done. intros h' k Hcv. by rewrite Hcf, Hcv.
  - cbn [mbind res_bind]. exists vs4, cs'. split_and!; try done.
    + intros Hs. by rewrite (Hkeep Hs).
    + intros h k. unfold counted_for at 1. rewrite Hbt. apply Hcf.
Qed.

(** A validator whose vote is in the set is not counted again. *)
Lemma vs_add_seen vs cs v (i : nat) slots isQc e :
  vs_ok vs → (i < nodes c)%nat → authentic (Z.of_nat i) v → VS_votes vs !! i = Some (Some e) →
  ∃ vs', vs_addVerifiedVote vs cs v 1 (Z.of_nat i) slots isQc
         = Ret (bool_decide (V_TSHash e = V_TSHash v), Some e, vs', cs) ∧
    vs_ok vs' ∧ header vs' = header vs ∧ maj_kept vs vs' ∧
    (∀ h k, counted_for vs' h k = counted_for vs h k).
Proof.
  intros [Hc Hm] Hi Hau He. pose proof (vo_len _ Hc) as Hlen.
  assert (Hvi : voted (VS_votes vs) i = true) by (apply voted_true; eauto).
  unfold vs_addVerifiedVote. rewrite (go_index_nat _ _ _ He). cbn [mbind res_bind].
  destruct (decide (V_TSHash e = V_TSHash v)) as [Heq|Hne].
  { rewrite bool_decide_eq_true_2 by done. exists vs. by split_and!. }
  rewrite bool_decide_eq_false_2 by done.
  set (vs1 := set_votes vs (<[i := Some v]> (VS_votes vs))
                (SetIndex (votesBitArray vs) (Z.of_nat i) true)).
  assert (Hok1 : vs_ok vs1) by (split; [by apply replace_core|apply Hm]).
  assert (Htr : ∀ w, vs_ok w → votesByTesseract w = votesByTesseract vs →
    trackVote w cs v 1 (Z.of_nat i) slots isQc (Some e) = Ret (false, Some e, w, cs)).
  { intros w [Hw _] _. unfold trackVote.
    destruct (votesByTesseract w !! V_TSHash v) as [tv|] eqn:E; [|done].
    by rewrite (to_peer _ _ (vo_tvs _ Hw _ _ E)). }
  case_decide as Hmaj.
  - rewrite placeVote_Ret by lia. cbn [mbind res_bind]. fold vs1.
    rewrite Htr by done. exists vs1. by split_and!.
  - cbn [mbind res_bind]. rewrite Htr by done. exists vs. by split_and!.
Qed.

Lemma vs_add_ok vs cs v (i : nat) isQc :
  vs_ok vs → cluster_ok cs → (i < nodes c)%nat → authentic (Z.of_nat i) v →
  ∃ added conf vs' cs', vs_addVerifiedVote vs cs v 1 (Z.of_nat i) (slots_at c i) isQc
             = Ret (added, conf, vs', cs') ∧
    vs_ok vs' ∧ cluster_ok cs' ∧ header vs' = header vs ∧ maj_kept vs vs' ∧
    add_outcome vs i v added conf vs'.
Proof.
  intros Hok Hcs Hi Hau. unfold add_outcome.
  destruct (lookup_lt_is_Some_2 (VS_votes vs) i) as [[e|] Ho].
  - by rewrite (vo_len _ (proj1 Hok)).
  - destruct (vs_add_seen vs cs v i (slots_at c i) isQc e Hok Hi Hau Ho)
      as (vs' & He & ? & ? & ? & ?).
    exists (bool_decide (V_TSHash e = V_TSHash v)), (Some e), vs', cs. rewrite Ho. by split_and!.
  - destruct (vs_add_fresh vs cs v i isQc Hok Hcs Hi Hau Ho) as (vs' & cs' & He & ? & ? & ? & ? & ?).
    exists true, None, vs', cs'. rewrite Ho. by split_and!.
Qed.

Lemma NewVoteSet_ok heights cs :
  committee cs = c → Z.of_nat (S (base.size heights)) = size c →
  (∃ x, x ∈ q ∧ 0 < x) →
  vs_ok (NewVoteSet heights vw vt cs).
Proof.
  intros Hcs Hh (x & Hx & Hpos). unfold NewVoteSet, ClusterSize, TotalNodes. rewrite Hcs.
  pose proof nodes_total as Hn.
  assert (Hp : positions = S (base.size heights)) by (unfold positions; lia).
  split; [split|]; cbn -[replicate]; try done.
  - by rewrite length_replicate.
  - apply bits_new_size. lia.
  - intros i. by rewrite bits_new_get, voted_replicate.
  - rewrite <-Hp. apply sums_are_zero. intros p.
    rewrite (tally_ext c p _ (λ _, false)); [apply tally_none|]. intros i _. apply voted_replicate.
  - by rewrite length_replicate, Hp.
  - intros i v Hv. by apply lookup_replicate in Hv as [? _].
  - intros i. rewrite voted_replicate. split; [done|]. intros [h Hh']. done.
  - split; [done|]. intros h Hr.
    apply list_elem_of_lookup in Hx as [k Hk]. specialize (Hr k x Hk).
    change (tally c (Z.of_nat k) (λ _, false)) with (tally c (Z.of_nat k) (λ _, false)) in Hr.
    rewrite (tally_ext c _ _ (λ _, false)), tally_none in Hr by done. lia.
Qed.

(** ** Certificates *)
Definition signer_at (k : Z) : bytes * list Z :=
  (key_at (i32 k), slots_at c (Z.to_nat (i32 k))).

Lemma lookup_id_range i : KR_ID (lookup_spec c i) ≠ ""%string → 0 ≤ i < totalNodes c.
Proof.
  unfold lookup_spec. destruct (Z.ltb_spec i 0); [done|].
  rewrite (co_total c (env_committee _ _ Henv)).
  destruct (flat c !! Z.to_nat i) as [[[p j] info]|] eqn:E; [|done].
  apply lookup_lt_Some in E. unfold zlen. lia.
Qed.

Lemma lookup_slots i :
  0 ≤ i → default [] (KR_slots (lookup_spec c i)) = slots_at c (Z.to_nat i).
Proof. intros H. unfold slots_at. by rewrite Z2Nat.id. Qed.

Lemma signersOf_spec cs signed :
  committee cs = c →
  ∃ r, signersOf cs signed = Ret r ∧
    ((r = inr (ECommon "ErrPublicKeyNotFound") ∧
      ∃ k, k ∈ signed ∧ KR_ID (lookup_spec c (i32 k)) = ""%string) ∨
     (r = inl (signer_at <$> signed) ∧
      ∀ k, k ∈ signed → KR_ID (lookup_spec c (i32 k)) ≠ ""%string)).
Proof.
  intros Hcs. unfold signersOf.
  assert (Herr : ∀ l e, foldM (addSigner cs) l (inr e) = Ret (inr e)).
  { induction l as [|x l IH]; intros e; [done|]. apply IH. }
  assert (Hgen : ∀ l acc, ∃ r, foldM (addSigner cs) l (inl acc) = Ret r ∧
    ((r = inr (ECommon "ErrPublicKeyNotFound") ∧
      ∃ k, k ∈ l ∧ KR_ID (lookup_spec c (i32 k)) = ""%string) ∨
     (r = inl (acc ++ (signer_at <$> l)) ∧
      ∀ k, k ∈ l → KR_ID (lookup_spec c (i32 k)) ≠ ""%string))).
  { induction l as [|x l IH]; intros acc.
    - exists (inl acc). split; [done|]. right. rewrite app_nil_r. split; [done|]. intros k Hk.
      by apply elem_of_nil in Hk.
    - cbn [foldM addSigner].
      rewrite Hcs, GetKramaID_spec by apply (env_committee _ _ Henv).
      cbn [mbind res_bind]. destruct (String.eqb_spec (KR_ID (lookup_spec c (i32 x))) "") as [He|Hne].
      + cbn [mbind res_bind]. rewrite Herr. eexists. split; [done|]. left. split; [done|].
        exists x. split; [set_solver|done].
      + cbn [mbind res_bind]. pose proof (lookup_id_range _ Hne) as Hx.
        rewrite lookup_slots by lia.
        destruct (IH (acc ++ [signer_at x])) as (r & Hr & Hcase). exists r. split; [exact Hr|].
        destruct Hcase as [[-> (k & ? & ?)]|[-> Hall]]; [left|right].
        * split; [done|]. exists k. split; [set_solver|done].
        * split; [by rewrite <-app_assoc|]. intros k [->|Hk]%elem_of_cons; [done|by apply Hall]. }
  destruct (Hgen signed []) as (r & Hr & Hcase). exists r. by split.
Qed.

(** One iteration of the second loop of [AddQc]. *)
Lemma addQcVote_ok vs cs v k :
  vs_ok vs → cluster_ok cs → 0 ≤ i32 k < totalNodes c → authentic (i32 k) v →
  ∃ vs' cs', addQcVote v (vs, cs) (k, slots_at c (Z.to_nat (i32 k))) = Ret (vs', cs') ∧
    vs_ok vs' ∧ cluster_ok cs' ∧ header vs' = header vs ∧ maj_kept vs vs' ∧
    ∃ added conf, add_outcome vs (Z.to_nat (i32 k)) v added conf vs'.
Proof.
  intros Hok Hcs Hk Hau. pose proof nodes_total.
  destruct (vs_add_ok vs cs v (Z.to_nat (i32 k)) true) as (a & o & vs' & cs' & He & ? & ? & ? & ? & ?);
    [done|done|lia|by rewrite Z2Nat.id by lia|].
  rewrite Z2Nat.id in He by lia. exists vs', cs'.
  unfold addQcVote. cbn [fst snd]. rewrite He. split_and!; try done. by exists a, o.
Qed.

Lemma maj_kept_trans a b d : maj_kept a b → maj_kept b d → maj_kept a d.
Proof.
  intros H1 H2 Hs. destruct (H1 Hs) as (E1 & E2 & E3). rewrite <-E1 in Hs.
  destruct (H2 Hs) as (F1 & F2 & F3). split_and!; congruence.
Qed.

(** The validator is counted for the tesseract, or was for another one. *)
Lemma add_outcome_mono vs i v added conf vs' h k :
  add_outcome vs i v added conf vs' → counted_for vs h k = true → counted_for vs' h k = true.
Proof.
  unfold add_outcome. intros Ho Hc. destruct (VS_votes vs !! i) as [[e|]|];
    destruct Ho as (_ & _ & ->); by rewrite ?Hc.
Qed.

Lemma add_outcome_other vs i v added conf vs' h k :
  add_outcome vs i v added conf vs' → h ≠ V_TSHash v → counted_for vs' h k = counted_for vs h k.
Proof.
  unfold add_outcome. intros Ho Hne. destruct (VS_votes vs !! i) as [[e|]|];
    destruct Ho as (_ & _ & ->); [done|..];
    by rewrite bool_decide_eq_false_2, orb_false_r by naive_solver.
Qed.

(** After adding [v] for [i], the validator is counted for some tesseract. *)
Lemma add_outcome_counted vs i v added conf vs' :
  vs_ok vs → add_outcome vs i v added conf vs' →
  ∃ h, counted_for vs' h i = true ∧ (h = V_TSHash v ∨ counted_for vs h i = true).
Proof.
  intros Hok Ho. destruct (voted (VS_votes vs) i) eqn:Ev.
  - apply (vo_voted _ (proj1 Hok)) in Ev as [h Hh]. exists h.
    split; [by eapply add_outcome_mono|by right].
  - exists (V_TSHash v). split; [|by left]. unfold voted in Ev. revert Ho. unfold add_outcome.
    destruct (VS_votes vs !! _) as [[e|]|]; [done|..];
      intros (_ & _ & ->); rewrite bool_decide_eq_true_2 by done; by rewrite orb_true_r.
Qed.

Lemma addQc_loop v signed vs cs :
  vs_ok vs → cluster_ok cs →
  (∀ k, k ∈ signed → 0 ≤ i32 k < totalNodes c ∧ authentic (i32 k) v) →
  ∃ vs' cs', foldM (addQcVote v) (zip signed (snd <$> (signer_at <$> signed))) (vs, cs)
             = Ret (vs', cs') ∧
    vs_ok vs' ∧ cluster_ok cs' ∧ header vs' = header vs ∧ maj_kept vs vs' ∧
    (∀ h k, counted_for vs h k = true → counted_for vs' h k = true) ∧
    (∀ h k, h ≠ V_TSHash v → counted_for vs' h k = counted_for vs h k) ∧
    ∀ k, k ∈ signed → ∃ h, counted_for vs' h (Z.to_nat (i32 k)) = true ∧
      (h = V_TSHash v ∨ counted_for vs h (Z.to_nat (i32 k)) = true).
Proof.
  revert vs cs. induction signed as [|x signed IH]; intros vs cs Hok Hcs Hall.
  - exists vs, cs. split_and!; try done. intros k Hk. by apply elem_of_nil in Hk.
  - destruct (Hall x) as [Hx Hax]; [set_solver|].
    destruct (addQcVote_ok vs cs v x Hok Hcs Hx Hax)
      as (vs1 & cs1 & He & Hok1 & Hcs1 & Hh1 & Hm1 & a & o & Ho).
    destruct (IH vs1 cs1 Hok1 Hcs1)
      as (vs' & cs' & Hf & Hok' & Hcs' & Hh' & Hm' & Hmono & Hother & Hcnt);
      [intros; apply Hall; set_solver|].
    exists vs', cs'. cbn [fmap list_fmap zip zip_with foldM signer_at snd]. rewrite He.
    cbn [mbind res_bind].
    assert (H1 : ∀ h k, counted_for vs h k = true → counted_for vs1 h k = true)
      by (intros h k; eapply add_outcome_mono; done).
    assert (H2 : ∀ h k, h ≠ V_TSHash v → counted_for vs1 h k = counted_for vs h k)
      by (intros h k; eapply add_outcome_other; done).
    split_and!; try done; [congruence|by eapply maj_kept_trans|by eauto| |].
    { intros h k Hne. by rewrite Hother, H2. }
    intros k [->|Hk]%elem_of_cons.
    + destruct (add_outcome_counted _ _ _ _ _ _ Hok Ho) as (h & Hh & Hor). exists h. auto.
    + destruct (Hcnt k Hk) as (h & Hh & Hor). exists h. split; [done|].
      destruct (decide (h = V_TSHash v)) as [->|Hne]; [by left|right].
      rewrite <-H2 by done. by destruct Hor.
Qed.

(** ** The two entry points return and preserve the invariant *)
Definition step_ok (vs vs' : VoteSet) (cs' : ClusterState) : Prop :=
  vs_ok vs' ∧ cluster_ok cs' ∧ header vs' = header vs ∧ maj_kept vs vs' ∧
  (∀ h k, counted_for vs h k = true → counted_for vs' h k = true).

Lemma step_ok_refl vs cs : vs_ok vs → cluster_ok cs → step_ok vs vs cs.
Proof. intros ??. by split_and!. Qed.

Lemma step_ok_trans a b d cs cs' : step_ok a b cs → step_ok b d cs' → step_ok a d cs'.
Proof.
  intros (? & ? & ? & ? & ?) (? & ? & ? & ? & ?). split_and!; try done;
    [congruence|by eapply maj_kept_trans|by eauto].
Qed.

(** The vote a set already holds for a validator and a tesseract. *)
Definition held (vs : VoteSet) (i : nat) (h : Hash) : option Vote :=
  match VS_votes vs !! i with
  | Some (Some e) => if decide (V_TSHash e = h) then Some e
                     else mjoin ((λ tv, mjoin (TV_votes tv !! i)) <$> votesByTesseract vs !! h)
  | _ => mjoin ((λ tv, mjoin (TV_votes tv !! i)) <$> votesByTesseract vs !! h)
  end.

Lemma getVote_held vs (i : nat) h :
  vs_ok vs → (i < nodes c)%nat → getVote vs (Z.of_nat i) h = Ret (held vs i h).
Proof.
  intros [Hc _] Hi. unfold getVote, held.
  assert (Hg : getByIndex (votesByTesseract vs !! h) (Z.of_nat i)
    = Ret (mjoin ((λ tv, mjoin (TV_votes tv !! i)) <$> votesByTesseract vs !! h))).
  { destruct (votesByTesseract vs !! h) as [tv|] eqn:E; [|done]. cbn.
    destruct (lookup_lt_is_Some_2 (TV_votes tv) i) as [o Ho];
      [by rewrite (to_len _ _ (vo_tvs _ Hc _ _ E))|].
    rewrite (go_index_nat _ _ _ Ho), Ho. by destruct o. }
  destruct (lookup_lt_is_Some_2 (VS_votes vs) i) as [[e|] Ho]; [by rewrite (vo_len _ Hc)|..];
    rewrite (go_index_nat _ _ _ Ho), Ho; cbn [mbind res_bind]; [|done].
  by case_decide.
Qed.

Lemma held_counted vs (i : nat) h :
  vs_ok vs → held vs i h = None → counted_for vs h i = false.
Proof.
  intros _ Hh. unfold counted_for. destruct (votesByTesseract vs !! h) as [tv|] eqn:E; [|done].
  unfold held in Hh. rewrite E in Hh. cbn in Hh. unfold voted.
  destruct (VS_votes vs !! i) as [[e|]|]; [case_decide; [done|]|..];
    by destruct (TV_votes tv !! i) as [[w|]|].
Qed.

(** A vote [AddVote] looks at: from a responded validator of the committee
    and for this set's heights, view and type. *)
Record admissible (vs : VoteSet) (v : Vote) : Prop := {
  ad_index : 0 ≤ V_SignerIndex v < totalNodes c;
  ad_heights : AreVoteHeightsEqual (V_Heights v) (VS_heights vs) = true;
  ad_view : V_View v = VS_view vs;
  ad_type : V_Type v = votetype vs;
  ad_responded : responded c (V_SignerIndex v) = true;
  ad_id : KR_ID (lookup_spec c (V_SignerIndex v)) ≠ ""%string;
}.

(** Every other vote is refused without effect. *)
Lemma AddVote_inadmissible vs cs v :
  cluster_ok cs → ¬ admissible vs v → ∃ e, AddVote vs cs (Some v) = Ret (false, Some e, vs, cs).
Proof.
  intros [Hcs _] Hn. unfold AddVote. destruct (Z.ltb_spec (V_SignerIndex v) 0); [by eexists|].
  destruct (AreVoteHeightsEqual (V_Heights v) (VS_heights vs)) eqn:Eh; [|by eexists]. cbn [negb orb].
  destruct (Z.eqb_spec (V_View v) (VS_view vs)); [|by eexists]. cbn [negb orb].
  case_bool_decide; [|by eexists]. cbn [negb orb].
  rewrite GetByIndex_spec by (rewrite Hcs; apply (env_committee _ _ Henv)). rewrite Hcs.
  cbn [mbind res_bind].
  destruct (responded c (V_SignerIndex v)) eqn:Er; [|by eexists].
  destruct (String.eqb_spec (KR_ID (lookup_spec c (V_SignerIndex v))) "") as [|Hid]; [by eexists|].
  destruct Hn. split; try done. by apply lookup_id_range.
Qed.

(** What the code answers to an admissible vote: [ok] is the verdict of the
    signature check. *)
Definition vote_answer (vs : VoteSet) (v : Vote) (ok : bool) : bool * option err :=
  let i := Z.to_nat (V_SignerIndex v) in
  match held vs i (V_TSHash v) with
  | Some w => if decide (V_Signature w = V_Signature v) then (false, None)
              else (false, Some (ENew "vote for validator with different signature already exists"))
  | None =>
      if ok then
        if voted (VS_votes vs) i then (false, Some (ECommon "ErrConflictingVote"))
        else (true, None)
      else (false, Some (ECommon "ErrSignatureVerificationFailed"))
  end.

Lemma AddVote_checked vs cs v raw :
  vs_ok vs → cluster_ok cs → sent v → admissible vs v → Vote_SignBytes v = inl raw →
  held vs (Z.to_nat (V_SignerIndex v)) (V_TSHash v) = None →
  Verify raw (V_Signature v) (key_at (V_SignerIndex v)) = (true, None) →
  ∃ vs' cs', AddVote vs cs (Some v)
    = Ret (vote_answer vs v true, vs', cs') ∧ step_ok vs vs' cs' ∧
    ∀ h k, counted_for vs' h k = counted_for vs h k ||
      (vote_answer vs v true).1 &&
      bool_decide (h = V_TSHash v ∧ k = Z.to_nat (V_SignerIndex v)).
Proof.
  intros Hok Hcs Hsent [Hi Hh Hv Ht Hr Hid] Hraw Hheld Hver. pose proof nodes_total.
  destruct (vs_add_ok vs cs v (Z.to_nat (V_SignerIndex v)) false)
    as (a & o & vs' & cs' & He & Hok' & Hcs' & Hhd & Hmk & Ho); [done|done|lia| |].
  { rewrite Z2Nat.id by lia. destruct (proj1 Hok). split_and!; [done|congruence..|].
    exists raw. split; [done|]. by left. }
  exists vs', cs'. unfold AddVote. destruct (Z.ltb_spec (V_SignerIndex v) 0); [lia|].
  rewrite Hh, Hv, Z.eqb_refl, Ht, bool_decide_eq_true_2 by done. cbn [negb orb].
  rewrite GetByIndex_spec by (rewrite (proj1 Hcs); apply (env_committee _ _ Henv)).
  rewrite (proj1 Hcs), Hr. cbn [mbind res_bind].
  destruct (String.eqb_spec (KR_ID (lookup_spec c (V_SignerIndex v))) ""); [done|].
  pose proof (getVote_held vs (Z.to_nat (V_SignerIndex v)) (V_TSHash v) Hok ltac:(lia)) as Hg.
  pose proof (KR_slots_some cs (Z.to_nat (V_SignerIndex v)) (proj1 Hcs) ltac:(lia)) as Hs.
  rewrite Z2Nat.id in Hg, Hs, He by lia. rewrite Hg, Hheld. cbn [mbind res_bind].
  rewrite Hraw. fold (key_at (V_SignerIndex v)). rewrite Hver, Hs. cbn [mbind res_bind].
  rewrite He. cbn [mbind res_bind].
  assert (Hans : vote_answer vs v true = (a, if o then Some (ECommon "ErrConflictingVote") else None)
    ∧ ∀ h k, counted_for vs' h k = counted_for vs h k ||
        a && bool_decide (h = V_TSHash v ∧ k = Z.to_nat (V_SignerIndex v))).
  { unfold vote_answer. rewrite Hheld. unfold add_outcome in Ho. unfold voted, held in *.
    destruct (VS_votes vs !! Z.to_nat (V_SignerIndex v)) as [[e|]|];
      destruct Ho as (-> & -> & Hcf); [|split; [done|]; intros h k; by rewrite Hcf..].
    destruct (decide (V_TSHash e = V_TSHash v)) as [|Hne]; [done|].
    rewrite bool_decide_eq_false_2 by done. split; [done|]. intros h k.
    by rewrite Hcf, orb_false_r. }
  destruct Hans as [Hans Hcf]. rewrite Hans. split_and!; try done.
  - unfold vote_answer in Hans. rewrite Hheld in Hans.
    destruct (voted _ _); injection Hans as <- Hoe; by destruct o.
  - split_and!; try done. intros h k Hc. by rewrite Hcf, Hc.
Qed.

(** The branches of [AddVote] before and at the signature check. *)
Lemma AddVote_unfold vs cs v :
  vs_ok vs → cluster_ok cs → admissible vs v →
  held vs (Z.to_nat (V_SignerIndex v)) (V_TSHash v) ≠ None ∨
  (∀ raw, Vote_SignBytes v = inl raw →
     Verify raw (V_Signature v) (key_at (V_SignerIndex v)) ≠ (true, None)) →
  ∃ r, AddVote vs cs (Some v) = Ret (false, r, vs, cs) ∧
    (∀ raw, Vote_SignBytes v = inl raw →
       Verify raw (V_Signature v) (key_at (V_SignerIndex v)) = (false, None) ∨
       held vs (Z.to_nat (V_SignerIndex v)) (V_TSHash v) ≠ None →
       (false, r) = vote_answer vs v false).
Proof.
  intros Hok Hcs [Hi Hh Hv Ht Hr Hid] Hcase. pose proof nodes_total.
  unfold AddVote. destruct (Z.ltb_spec (V_SignerIndex v) 0); [lia|].
  rewrite Hh, Hv, Z.eqb_refl, Ht, bool_decide_eq_true_2 by done. cbn [negb orb].
  rewrite GetByIndex_spec by (rewrite (proj1 Hcs); apply (env_committee _ _ Henv)).
  rewrite (proj1 Hcs), Hr. cbn [mbind res_bind].
  destruct (String.eqb_spec (KR_ID (lookup_spec c (V_SignerIndex v))) ""); [done|].
  pose proof (getVote_held vs (Z.to_nat (V_SignerIndex v)) (V_TSHash v) Hok ltac:(lia)) as Hg.
  rewrite Z2Nat.id in Hg by lia. rewrite Hg. cbn [mbind res_bind]. unfold vote_answer.
  destruct (held vs _ _) as [w|].
  { destruct (decide (V_Signature w = V_Signature v)) as [E|E].
    - rewrite bool_decide_eq_true_2 by done. by eexists.
    - rewrite bool_decide_eq_false_2 by done. by eexists. }
  destruct Hcase as [|Hcase]; [done|].
  destruct (Vote_SignBytes v) as [raw|e]; [|by eexists].
  specialize (Hcase raw eq_refl). fold (key_at (V_SignerIndex v)).
  destruct (Verify raw (V_Signature v) (key_at (V_SignerIndex v))) as [[] [e|]] eqn:E; [|done|..];
    (eexists; split; [done|]; intros raw' [= <-]; rewrite E; by intros [|]).
Qed.

(** [AddVote] returns for every vote, and counts nobody when it refuses. *)
Lemma AddVote_ok vs cs o :
  vs_ok vs → cluster_ok cs → (∀ v, o = Some v → sent v) →
  ∃ added e vs' cs', AddVote vs cs o = Ret (added, e, vs', cs') ∧ step_ok vs vs' cs' ∧
    (added = true → e = None ∧ ∃ v, o = Some v ∧ admissible vs v ∧ authentic (V_SignerIndex v) v ∧
       counted_for vs' (V_TSHash v) (Z.to_nat (V_SignerIndex v)) = true) ∧
    (added = false → ∀ h k, counted_for vs' h k = counted_for vs h k).
Proof.
  intros Hok Hcs Hsent. destruct o as [v|].
  2: { exists false, (Some (ENew "invalid vote")), vs, cs. split; [done|].
       split; [by apply step_ok_refl|done]. }
  assert (Hdec : admissible vs v ∨ ¬ admissible vs v).
  { destruct (decide (0 ≤ V_SignerIndex v < totalNodes c ∧
      AreVoteHeightsEqual (V_Heights v) (VS_heights vs) = true ∧ V_View v = VS_view vs ∧
      V_Type v = votetype vs ∧ responded c (V_SignerIndex v) = true ∧
      KR_ID (lookup_spec c (V_SignerIndex v)) ≠ ""%string)) as [(?&?&?&?&?&?)|Hn]; [by left|right].
    intros [? ? ? ? ? ?]. tauto. }
  destruct Hdec as [Had|Hn].
  2: { destruct (AddVote_inadmissible vs cs v Hcs Hn) as [e He].
       exists false, (Some e), vs, cs. split; [done|]. split; [by apply step_ok_refl|done]. }
  destruct (held vs (Z.to_nat (V_SignerIndex v)) (V_TSHash v)) as [w|] eqn:Eh.
  { destruct (AddVote_unfold vs cs v Hok Hcs Had) as (r & He & _); [left; by rewrite Eh|].
    exists false, r, vs, cs. split; [done|]. split; [by apply step_ok_refl|done]. }
  destruct (Vote_SignBytes v) as [raw|e] eqn:Er.
  2: { destruct (AddVote_unfold vs cs v Hok Hcs Had) as (r & He & _); [right; by rewrite Er|].
       exists false, r, vs, cs. split; [done|]. split; [by apply step_ok_refl|done]. }
  destruct (Verify raw (V_Signature v) (key_at (V_SignerIndex v))) as [b eo] eqn:Ev.
  destruct (decide ((b, eo) = (true, None))) as [Heq|Hne].
  - rewrite Heq in Ev.
    destruct (AddVote_checked vs cs v raw Hok Hcs (Hsent v eq_refl) Had Er Eh Ev) as (vs' & cs' & He & Hs & Hcf).
    destruct (vote_answer vs v true) as [a e] eqn:Ea.
    exists a, e, vs', cs'. split; [done|]. split; [done|].
    split; [|intros -> h k; by rewrite Hcf, orb_false_r]. intros ->.
    split; [unfold vote_answer in Ea; repeat case_match; by simplify_eq|]. exists v. split_and!; try done.
    + destruct Had, (proj1 Hok). split_and!; [by apply Hsent|congruence..|]. exists raw. split; [done|]. by left.
    + rewrite Hcf, (bool_decide_eq_true_2 (_ ∧ _)) by done. cbn. by rewrite orb_true_r.
  - destruct (AddVote_unfold vs cs v Hok Hcs Had) as (r & He & _).
    { right. intros raw' Hr'. rewrite Er in Hr'. injection Hr' as <-. by rewrite Ev. }
    exists false, r, vs, cs. split; [done|]. split; [by apply step_ok_refl|done].
Qed.

Lemma authentic_qc v raw signed k :
  sent v → V_View v = vw → V_Type v = vt → Vote_SignBytes v = inl raw → signerIndices v = Ret signed → k ∈ signed →
  VerifyAggregateSignature raw (V_Signature v) ((λ k, key_at (i32 k)) <$> signed) = (true, None) →
  authentic (i32 k) v.
Proof.
  intros ? ? ? Hr Hs Hk Hv. split_and!; [done..|]. exists raw. split; [done|]. right. exists signed. split_and!; try done.
  apply list_elem_of_fmap. eauto.
Qed.

(** What accepting a certificate does. *)
Definition qc_accepted (vs : VoteSet) (v : Vote) (signed : list Z) (vs' : VoteSet) : Prop :=
  (∀ h, maj23TsHash vs = Some h → h = V_TSHash v) ∧
  (∀ h k, h ≠ V_TSHash v → counted_for vs' h k = counted_for vs h k) ∧
  ∀ k, k ∈ signed → 0 ≤ i32 k < totalNodes c ∧ authentic (i32 k) v ∧
    ∃ h, counted_for vs' h (Z.to_nat (i32 k)) = true ∧
      (h = V_TSHash v ∨ counted_for vs h (Z.to_nat (i32 k)) = true).

(** The conditions under which [AddQc] accepts. *)
Record qc_valid (vs : VoteSet) (v : Vote) (signed : list Z) (raw : bytes) : Prop := {
  qv_index : 0 ≤ V_SignerIndex v;
  qv_maj : ∀ h, maj23TsHash vs = Some h → h = V_TSHash v;
  qv_signed : signerIndices v = Ret signed;
  qv_known : ∀ k, k ∈ signed → KR_ID (lookup_spec c (i32 k)) ≠ ""%string;
  qv_raw : Vote_SignBytes v = inl raw;
  qv_sig : VerifyAggregateSignature raw (V_Signature v) ((λ k, key_at (i32 k)) <$> signed)
           = (true, None);
}.

Lemma AddQc_accepts vs cs v signed raw :
  vs_ok vs → cluster_ok cs → sent v → V_View v = vw → V_Type v = vt → qc_valid vs v signed raw →
  ∃ vs' cs', AddQc vs cs (Some v) = Ret (true, None, vs', cs') ∧ step_ok vs vs' cs' ∧
    qc_accepted vs v signed vs'.
Proof.
  intros Hok Hcs Hsent Hvw Hvt [Hi Hm Hsig Hknown Hraw Hver]. unfold AddQc.
  destruct (Z.ltb_spec (V_SignerIndex v) 0); [lia|].
  assert (Em : match maj23TsHash vs with
            | Some h => negb (bool_decide (h = V_TSHash v)) | None => false end = false).
  { destruct (maj23TsHash vs) as [h|]; [|done]. by rewrite bool_decide_eq_true_2 by auto. }
  rewrite Em, Hsig. cbn [mbind res_bind].
  destruct (signersOf_spec cs signed (proj1 Hcs)) as (r & -> & Hr). cbn [mbind res_bind].
  destruct Hr as [[-> (k & Hk & Hid)]|[-> Hall]]; [by destruct (Hknown k Hk)|].
  assert (Hk : fst <$> (signer_at <$> signed) = (λ k, key_at (i32 k)) <$> signed)
    by (rewrite <-list_fmap_compose; done).
  rewrite Hraw, Hk, Hver.
  assert (Hau : ∀ k, k ∈ signed → 0 ≤ i32 k < totalNodes c ∧ authentic (i32 k) v).
  { intros k Hin. split; [by apply lookup_id_range, Hall|]. by eapply authentic_qc. }
  destruct (addQc_loop v signed vs cs Hok Hcs Hau)
    as (vs' & cs' & He & ? & ? & ? & ? & ? & ? & Hcnt).
  rewrite He. cbn [mbind res_bind]. exists vs', cs'. split; [done|].
  split; [by split_and!|]. split; [done|]. split; [done|].
  intros k Hin. destruct (Hau k Hin). split_and!; try done; [lia|lia|]. by apply Hcnt.
Qed.

Lemma AddQc_refuses vs cs v signed :
  cluster_ok cs → signerIndices v = Ret signed → (∀ raw, ¬ qc_valid vs v signed raw) →
  ∃ e, AddQc vs cs (Some v) = Ret (false, e, vs, cs).
Proof.
  intros Hcs Hsig Hn. unfold AddQc.
  destruct (Z.ltb_spec (V_SignerIndex v) 0); [by eexists|].
  destruct (match maj23TsHash vs with
            | Some h => negb (bool_decide (h = V_TSHash v)) | None => false end) eqn:Em;
    [by eexists|].
  rewrite Hsig. cbn [mbind res_bind].
  destruct (signersOf_spec cs signed (proj1 Hcs)) as (r & -> & Hr). cbn [mbind res_bind].
  destruct Hr as [[-> _]|[-> Hall]]; [by eexists|].
  destruct (Vote_SignBytes v) as [raw|e] eqn:Er; [|by eexists].
  assert (Hk : fst <$> (signer_at <$> signed) = (λ k, key_at (i32 k)) <$> signed)
    by (rewrite <-list_fmap_compose; done).
  rewrite Hk. destruct (VerifyAggregateSignature _ _ _) as [[] [e|]] eqn:Ev; [by eexists| |by eexists..].
  destruct (Hn raw). split; try done.
  intros h Hh. rewrite Hh in Em. by apply negb_false_iff, bool_decide_eq_true in Em.
Qed.

Lemma qc_valid_dec vs v signed :
  signerIndices v = Ret signed →
  (∃ raw, qc_valid vs v signed raw) ∨ ∀ raw, ¬ qc_valid vs v signed raw.
Proof.
  intros Hsig.
  destruct (decide (0 ≤ V_SignerIndex v ∧
    Forall (λ k, KR_ID (lookup_spec c (i32 k)) ≠ ""%string) signed)) as [[Hi Hk]|Hn].
  2: { right. intros raw Hv. apply Hn. split; [apply Hv|].
       apply Forall_forall. by apply (qv_known _ _ _ _ Hv). }
  rewrite Forall_forall in Hk.
  destruct (decide (maj23TsHash vs = None ∨ maj23TsHash vs = Some (V_TSHash v))) as [Hm|Hn].
  2: { right. intros raw Hv. destruct (maj23TsHash vs) as [h|] eqn:E; [|naive_solver].
       pose proof (qv_maj _ _ _ _ Hv h E). naive_solver. }
  destruct (Vote_SignBytes v) as [raw|e] eqn:Er.
  2: { right. intros raw Hv. pose proof (qv_raw _ _ _ _ Hv). congruence. }
  destruct (decide (VerifyAggregateSignature raw (V_Signature v) ((λ k, key_at (i32 k)) <$> signed)
                    = (true, None))) as [Hs|Hn].
  - left. exists raw. split; try done. intros h Hh. rewrite Hh in Hm. naive_solver.
  - right. intros raw' Hv. pose proof (qv_raw _ _ _ _ Hv). pose proof (qv_sig _ _ _ _ Hv).
    congruence.
Qed.

(** [AddQc] returns for every vote that carries signer indices. *)
Lemma AddQc_ok vs cs v signed :
  vs_ok vs → cluster_ok cs → sent v → V_View v = vw → V_Type v = vt → signerIndices v = Ret signed →
  ∃ added e vs' cs', AddQc vs cs (Some v) = Ret (added, e, vs', cs') ∧ step_ok vs vs' cs'.
Proof.
  intros Hok Hcs Hsent Hvw Hvt Hsig. destruct (qc_valid_dec vs v signed Hsig) as [[raw Hv]|Hn].
  - destruct (AddQc_accepts vs cs v signed raw Hok Hcs Hsent Hvw Hvt Hv) as (vs' & cs' & He & Hs & _).
    by exists true, None, vs', cs'.
  - destruct (AddQc_refuses vs cs v signed Hcs Hsig Hn) as [e He].
    exists false, e, vs, cs. split; [done|by apply step_ok_refl].
Qed.
End Invariant.

(** More sent votes do not invalidate a vote set. *)
Section Monotone.
Context `{ET : ExtTypes} `{!ExtOps ET} `{!PoloCodec CanonicalVote}.
Context (c : ICSCommittee) (q : list Z) (vw : Z) (vt : ConsensusMsgType).
Context (s s' : Vote → Prop) (Hs : ∀ v, s v → s' v).

Lemma authentic_mono i v : authentic c vw vt s i v → authentic c vw vt s' i v.
Proof using Hs. intros [H1 H2]. split; [by apply Hs|done]. Qed.

Lemma tv_ok_mono h tv : tv_ok c vw vt s h tv → tv_ok c vw vt s' h tv.
Proof using Hs.
  intros [? ? ? ? ? ? Ha]. split; try done.
  intros i v Hv. destruct (Ha i v Hv). split; [done|by apply authentic_mono].
Qed.

Lemma vs_ok_mono vs : vs_ok c q vw vt s vs → vs_ok c q vw vt s' vs.
Proof using Hs.
  intros [Hc Hm]. split.
  - destruct Hc as [? ? ? ? ? ? ? Ht Ha ? ?]. split; try done.
    + intros h tv Hl. by apply tv_ok_mono, Ht.
    + intros i v Hv. by apply authentic_mono, Ha.
  - unfold maj_ok in *. destruct (maj23TsHash vs) as [h|]; [|done].
    destruct Hm as (b & ? & ? & ? & Hcert). exists b. split_and!; try done.
    destruct Hcert as [(sigs & ? & Hf)|(v & ? & ? & i & Hi)].
    + left. exists sigs. split; [done|]. eapply Forall2_impl; [exact Hf|].
      intros i x (v & ? & ? & Hv). exists v. split_and!; try done. by apply authentic_mono.
    + right. exists v. split_and!; try done. exists i. by apply authentic_mono.
Qed.
End Monotone.

(** ** Histories of a vote set *)
Section Runs.
Context `{ET : ExtTypes} `{!ExtOps ET} `{!BitLaws ET} `{!PoloCodec CanonicalVote}.

(** The calls a vote set receives: votes, and votes that are certificates. *)
Inductive vs_op :=
| OpVote (v : option Vote)
| OpQc (v : Vote).

Definition vs_step (acc : VoteSet * ClusterState) (op : vs_op) : res (VoteSet * ClusterState) :=
  '(_, _, vs, cs) ← match op with
                    | OpVote v => AddVote acc.1 acc.2 v
                    | OpQc v => AddQc acc.1 acc.2 (Some v)
                    end;
  Ret (vs, cs).
Definition vs_run (ops : list vs_op) (acc : VoteSet * ClusterState) : res (VoteSet * ClusterState) :=
  foldM vs_step ops acc.

(** A certificate for this view and type (the height vote set looks the vote
    set up under them) whose signer bitmap can be read; a nil bitmap is the
    bit-array library's business. *)
Definition fitting (vw : Z) (vt : ConsensusMsgType) (op : vs_op) : Prop :=
  match op with
  | OpVote _ => True
  | OpQc v => V_View v = vw ∧ V_Type v = vt ∧ ∃ l, signerIndices v = Ret l
  end.

Definition op_votes (op : vs_op) : list Vote :=
  match op with OpVote (Some v) | OpQc v => [v] | OpVote None => [] end.
(** The votes of a history. *)
Definition sent_in (ops : list vs_op) (v : Vote) : Prop := ∃ op, op ∈ ops ∧ v ∈ op_votes op.

Lemma vs_step_ok c q vw vt sent vs cs op :
  env_ok c q → vs_ok c q vw vt sent vs → cluster_ok c q cs →
  fitting vw vt op → (∀ v, v ∈ op_votes op → sent v) →
  ∃ vs' cs', vs_step (vs, cs) op = Ret (vs', cs') ∧ step_ok c q vw vt sent vs vs' cs'.
Proof.
  intros He Hok Hcs Hr Hsent. unfold vs_step. destruct op as [o|v]; cbn [fst snd].
  - destruct (AddVote_ok c q vw vt sent He vs cs o Hok Hcs) as (a & e & vs' & cs' & -> & Hs & _).
    { intros v ->. apply Hsent. set_solver. }
    by eauto.
  - destruct Hr as (? & ? & l & Hl).
    destruct (AddQc_ok c q vw vt sent He vs cs v l) as (a & e & vs' & cs' & -> & Hs);
      try done; [apply Hsent; set_solver|]. by eauto.
Qed.

Lemma vs_run_ok c q vw vt sent ops vs cs :
  env_ok c q → vs_ok c q vw vt sent vs → cluster_ok c q cs →
  Forall (fitting vw vt) ops → (∀ v, sent_in ops v → sent v) →
  ∃ vs' cs', vs_run ops (vs, cs) = Ret (vs', cs') ∧ step_ok c q vw vt sent vs vs' cs'.
Proof.
  intros He. revert vs cs. induction ops as [|op ops IH]; intros vs cs Hok Hcs Hr Hs.
  - exists vs, cs. split; [done|by apply step_ok_refl].
  - apply Forall_cons in Hr as [Hop Hr]. unfold vs_run in *. cbn [foldM].
    destruct (vs_step_ok c q vw vt sent vs cs op He Hok Hcs Hop) as (vs1 & cs1 & -> & H1).
    { intros v Hv. apply Hs. exists op. split; [by apply list_elem_of_here|done]. }
    destruct (IH vs1 cs1) as (vs' & cs' & Hrun & H2); [apply H1|apply H1|done| |].
    { intros v (op' & ? & ?). apply Hs. exists op'. split; [by apply list_elem_of_further|done]. }
    exists vs', cs'. split; [exact Hrun|]. by eapply step_ok_trans.
Qed.

(** A vote set as [NewVoteSet] makes it for a committee that is set up. *)
Record started (c : ICSCommittee) (q : list Z) (heights : gmap Address Z) (cs : ClusterState)
    : Prop := {
  st_env : env_ok c q;
  st_cluster : cluster_ok c q cs;
  st_heights : Z.of_nat (S (base.size heights)) = size c;
  st_threshold : ∃ x, x ∈ q ∧ 0 < x;
}.

Lemma started_run c q heights vw vt (sent : Vote → Prop) cs ops :
  started c q heights cs → Forall (fitting vw vt) ops → (∀ v, sent_in ops v → sent v) →
  ∃ vs cs', vs_run ops (NewVoteSet heights vw vt cs, cs) = Ret (vs, cs') ∧
    vs_ok c q vw vt sent vs ∧ cluster_ok c q cs'.
Proof.
  intros [He Hcs Hh Ht] Hf Hs.
  destruct (vs_run_ok c q vw vt sent ops (NewVoteSet heights vw vt cs) cs)
    as (vs & cs' & Hr & Hok & Hcs' & _);
    [done|apply NewVoteSet_ok; try done; apply Hcs|done|done|done|].
  by exists vs, cs'.
Qed.

(** The state a given history leads to. *)
Lemma run_state c q heights vw vt (sent : Vote → Prop) cs0 ops vs cs :
  started c q heights cs0 → Forall (fitting vw vt) ops → (∀ v, sent_in ops v → sent v) →
  vs_run ops (NewVoteSet heights vw vt cs0, cs0) = Ret (vs, cs) →
  vs_ok c q vw vt sent vs ∧ cluster_ok c q cs.
Proof.
  intros Hst Hf Hs Hr. destruct (started_run c q heights vw vt sent cs0 ops Hst Hf Hs)
    as (vs' & cs' & Hr' & Hok & Hcs). rewrite Hr in Hr'. by injection Hr' as <- <-.
Qed.

(** What a recorded majority for [h] means: members that reach every
    threshold, each with an authentic vote for [h]. *)
Definition majority_for (c : ICSCommittee) (q : list Z) (vw : Z) (vt : ConsensusMsgType)
    (sent : Vote → Prop) (h : Hash) (b : Bits) : Prop :=
  reaches c q (λ i, GetIndex b (Z.of_nat i)) ∧
  ∀ i : nat, GetIndex b (Z.of_nat i) = true →
    ∃ v, V_TSHash v = h ∧ authentic c vw vt sent (Z.of_nat i) v.

Lemma SuperMajority_majority c q vw vt sent vs h :
  vs_ok c q vw vt sent vs → SuperMajority (Some vs) = (h, true) →
  ∃ b, maj23VoteSet vs = Some b ∧ majority_for c q vw vt sent h b.
Proof.
  intros [Hc Hm] Hs. unfold SuperMajority in Hs. unfold maj_ok in Hm.
  destruct (maj23TsHash vs) as [h'|]; [|done]. injection Hs as ->.
  destruct Hm as (b & Hb & Hin & Hr & _). exists b. split; [done|]. split; [done|].
  intros i Hi%Hin. unfold counted_for in Hi.
  destruct (votesByTesseract vs !! h) as [tv|] eqn:E; [|done].
  apply voted_true in Hi as [v Hv]. exists v.
  by apply (to_auth _ _ _ _ _ _ (vo_tvs _ _ _ _ _ Hc _ _ E)).
Qed.

(** Quorum intersection: two majorities share more than the validators that
    voted for both tesseracts can weigh. *)
Lemma majority_for_agree c q vw vt (s1 s2 sent : Vote → Prop) h1 h2 b1 b2 (faulty : nat → bool) k x :
  majority_for c q vw vt s1 h1 b1 → majority_for c q vw vt s2 h2 b2 →
  (∀ v, s1 v → sent v) → (∀ v, s2 v → sent v) →
  (∀ (i : nat) v1 v2, authentic c vw vt sent (Z.of_nat i) v1 → authentic c vw vt sent (Z.of_nat i) v2 →
     V_TSHash v1 ≠ V_TSHash v2 → faulty i = true) →
  q !! k = Some x →
  tally c (Z.of_nat k) faulty < 2 * x - tally c (Z.of_nat k) (λ _, true) →
  h1 = h2.
Proof.
  intros [Hr1 Ha1] [Hr2 Ha2] Hs1 Hs2 Hby Hk Hlt.
  destruct (decide (h1 = h2)) as [|Hne]; [done|exfalso].
  pose proof (tally_overlap c (Z.of_nat k) _ _ x (Hr1 k x Hk) (Hr2 k x Hk)) as Ho. cbn beta in Ho.
  enough (tally c (Z.of_nat k) (λ i, GetIndex b1 (Z.of_nat i) && GetIndex b2 (Z.of_nat i))
          ≤ tally c (Z.of_nat k) faulty) by lia.
  apply tally_mono. intros i _ [Hi1 Hi2]%andb_true_iff.
  destruct (Ha1 i Hi1) as (w1 & <- & Hw1). destruct (Ha2 i Hi2) as (w2 & <- & Hw2).
  by apply (Hby i w1 w2); [eapply authentic_mono; [exact Hs1|]|eapply authentic_mono; [exact Hs2|]|].
Qed.
End Runs.
