(* ===== verification/ValidationSpec.v ===== *)
(** * What the checks guarantee: the theorems on [Validation.v]

    A certificate is accepted exactly when its signers reach every quorum and the
    aggregate signature verifies under their keys; the committee and thresholds
    of a new cluster meet what the theorems of the vote sets and the BFT engine
    assume.  Two theorems state where the code accepts more than it means to. *)

From stdpp Require Import base gmap strings list fin_maps.
From Stdlib Require Import ZArith Lia.
From S2P Require Import Prelude External Chain Types NodeSet Committee Cluster Validation VoteSet Tally VoteSetFacts.

Section Certificates.
Context `{ET : ExtTypes} `{EX : !ExtOps ET} `{TO : !TesseractOps ET} `{IX : !InteractionOps ET EX}.
Context `{TV : !TesseractView ET EX TO} `{CH : !Chain ET EX TO IX} `{!PoloCodec CanonicalVote}.
Context `{!BitLaws ET}.
Context (signatureVerifier : bytes → bytes → list bytes → bool * option err).

(** ** Counting signers *)
Lemma count_slots m f s idxs :
  sums_are m f s → (∀ p, p ∈ idxs → 0 ≤ p < Z.of_nat m) →
  ∃ s', foldM bumpCounter idxs s = Ret s' ∧
    sums_are m (λ p, f p + occurs p idxs) s'.
Proof.
  revert f s. induction idxs as [|i idxs IH]; intros f s Hs Hr.
  - exists s. split; [done|]. revert Hs. apply sums_are_ext. intros k _. cbn. lia.
  - assert (Hi : 0 ≤ i < Z.of_nat m) by (apply Hr; set_solver).
    pose proof (sums_are_length _ _ _ Hs) as Hsl.
    assert (Hx : go_index s i = Ret (u32 (f i))).
    { apply go_index_Ret. split; [lia|]. rewrite (sums_are_lookup m f) by (done || lia).
      by rewrite Z2Nat.id by lia. }
    assert (Hstep : bumpCounter s i = Ret (<[Z.to_nat i := u32 (u32 (f i) + 1)]> s)).
    { unfold bumpCounter, go_update. rewrite Hx. done. }
    cbn [foldM]. rewrite Hstep. cbn [mbind res_bind].
    pose proof (sums_are_bump m f s (Z.to_nat i) Hs ltac:(lia)) as Hb. rewrite !Z2Nat.id in Hb by lia.
    destruct (IH _ _ Hb) as (s' & He & Hs'); [intros p Hp; apply Hr; set_solver|].
    exists s'. split; [exact He|]. revert Hs'. apply sums_are_ext. intros k _. cbn. lia.
Qed.

Section Committee.
Context (c : ICSCommittee) (Hok : committee_ok c).

(** The members of the committee among the signers, in order. *)
Definition known_signers (l : list Z) : list Z := filter (λ i, i < totalNodes c) l.

Lemma total_nodes : Z.of_nat (nodes c) = totalNodes c.
Proof. unfold nodes. pose proof (co_total c Hok). unfold zlen in *. lia. Qed.

Lemma lookup_spec_slots i :
  0 ≤ i → KR_slots (lookup_spec c i) = if i <? totalNodes c then Some (slots_at c (Z.to_nat i)) else None.
Proof.
  intros H. unfold slots_at. rewrite Z2Nat.id by done. unfold lookup_spec.
  destruct (Z.ltb_spec i 0); [lia|]. pose proof (co_total c Hok) as Ht. unfold zlen in Ht.
  destruct (Z.ltb_spec i (totalNodes c)).
  - destruct (lookup_lt_is_Some_2 (flat c) (Z.to_nat i)) as [[[p j] info] ->]; [lia|done].
  - rewrite lookup_ge_None_2 by lia. done.
Qed.

Lemma countSigner_step acc i :
  0 ≤ i < 2 ^ 31 →
  countSigner c acc i
  = if i <? totalNodes c
    then counters ← foldM bumpCounter (slots_at c (Z.to_nat i)) acc.2; Ret (acc.1 ++ [key_at c i], counters)
    else Ret acc.
Proof.
  intros Hi. unfold countSigner. rewrite i32_small, GetKramaID_spec by (done || lia).
  cbn [mbind res_bind]. rewrite lookup_spec_slots by lia. by destruct (i <? totalNodes c).
Qed.

Lemma countSigner_fold l m member keys counters :
  Z.to_nat (size c) = m → NoDup l → (∀ i, i ∈ l → 0 ≤ i < 2 ^ 31 ∧ member (Z.to_nat i) = false) →
  sums_are m (λ p, tally c p member) counters →
  ∃ counters', foldM (countSigner c) l (keys, counters)
      = Ret (keys ++ (key_at c <$> known_signers l), counters') ∧
    sums_are m (λ p, tally c p (λ k, member k || bool_decide (Z.of_nat k ∈ l))) counters'.
Proof.
  intros Hm. revert member keys counters. induction l as [|i l IH]; intros member keys counters Hnd Hl Hs.
  - exists counters. rewrite app_nil_r. split; [done|]. revert Hs. apply sums_are_ext. intros k _.
    apply tally_ext. intros j _. rewrite bool_decide_eq_false_2 by set_solver. by rewrite orb_false_r.
  - apply NoDup_cons in Hnd as [Hni Hnd]. destruct (Hl i ltac:(set_solver)) as [Hi Hmem].
    cbn [foldM]. rewrite countSigner_step by done. unfold known_signers. rewrite filter_cons. pose proof total_nodes as Hn. destruct (Z.ltb_spec i (totalNodes c)).
    + rewrite decide_True by done. cbn [fst snd].
      destruct (count_slots m _ counters (slots_at c (Z.to_nat i)) Hs) as (s' & He & Hs').
      { intros p Hp%slots_at_range; [|done]. lia. }
      rewrite He. cbn [mbind res_bind].
      destruct (IH (λ k, member k || bool_decide (k = Z.to_nat i)) (keys ++ [key_at c i]) s' Hnd)
        as (s2 & He2 & Hs2).
      * intros j Hj. destruct (Hl j ltac:(set_solver)) as [? Hj']. split; [lia|]. rewrite Hj'.
        apply bool_decide_eq_false_2. intros ?. assert (j = i) by lia. by subst.
      * revert Hs'. apply sums_are_ext. intros p _. rewrite tally_set by lia. rewrite Hmem. done.
      * exists s2. split; [rewrite He2; by rewrite <-app_assoc|].
        revert Hs2. apply sums_are_ext. intros p _. apply tally_ext. intros k _.
        rewrite <-orb_assoc. f_equal. rewrite <-bool_decide_or. apply bool_decide_ext.
        rewrite elem_of_cons. assert (k = Z.to_nat i ↔ Z.of_nat k = i) by lia. tauto.
    + rewrite decide_False by lia. cbn [mbind res_bind].
      destruct (IH member keys counters Hnd) as (s2 & He2 & Hs2); [|done|].
      { intros j Hj. apply Hl. set_solver. }
      exists s2. split; [exact He2|]. revert Hs2. apply sums_are_ext. intros p _. apply tally_ext.
      intros k Hk. f_equal. apply bool_decide_ext. rewrite elem_of_cons.
      assert (Z.of_nat k ≠ i) by lia. tauto.
Qed.
(** ** The quorums *)
Lemma ParticipantQuorum_Ret (k : nat) :
  Z.of_nat k < size c → ∃ q, ParticipantQuorum c (Z.of_nat k) = Ret q.
Proof.
  intros Hk. pose proof (co_size c Hok) as Hs. unfold zlen in Hs.
  destruct (lookup_lt_is_Some_2 (Sets c) k) as [o Ho]; [lia|].
  unfold ParticipantQuorum. rewrite (go_index_nat _ _ _ Ho). by eexists.
Qed.

Lemma quorumsReached_spec excluded counters f (i : nat) addrs :
  (∀ k, (k < i + length addrs)%nat → go_index counters (Z.of_nat k) = Ret (f (Z.of_nat k))) →
  Z.of_nat (i + length addrs) < size c →
  ∃ b, quorumsReached c excluded counters (Z.of_nat i) addrs = Ret b ∧
    (b = true ↔ ∀ (k : nat) addr q, addrs !! k = Some addr → excluded addr = false →
       ParticipantQuorum c (Z.of_nat (i + k)) = Ret q → q ≤ f (Z.of_nat (i + k))).
Proof.
  revert i. induction addrs as [|addr rest IH]; intros i Hc Hs; cbn [quorumsReached].
  - exists true. split; [done|]. split; [|done]. intros _ k addr q Hk. done.
  - cbn [length] in *. replace (Z.of_nat i + 1) with (Z.of_nat (S i)) by lia.
    destruct (IH (S i)) as (b & He & Hb); [intros k Hk; apply Hc; lia|lia|].
    assert (Hcons : (∀ (k : nat) a q, (addr :: rest) !! k = Some a → excluded a = false →
                ParticipantQuorum c (Z.of_nat (i + k)) = Ret q → q ≤ f (Z.of_nat (i + k))) ↔
              (∀ q, excluded addr = false → ParticipantQuorum c (Z.of_nat i) = Ret q → q ≤ f (Z.of_nat i)) ∧
              b = true).
    { rewrite Hb. split.
      - intros H. split.
        + intros q Hx Hq. specialize (H 0%nat addr q eq_refl Hx). rewrite Nat.add_0_r in H. by apply H.
        + intros k a q Hk Hx Hq. specialize (H (S k) a q Hk Hx). rewrite Nat.add_succ_r in H. by apply H.
      - intros [H0 H1] [|k] a q Hk Hx Hq.
        + rewrite Nat.add_0_r in *. injection Hk as ->. by apply H0.
        + rewrite Nat.add_succ_r in *. by eapply H1. }
    destruct (ParticipantQuorum_Ret i) as [q Hq]; [lia|].
    destruct (excluded addr) eqn:Hx.
    + exists b. split; [exact He|]. rewrite Hcons. naive_solver.
    + rewrite Hc, Hq by lia. cbn [mbind res_bind]. destruct (Z.ltb_spec (f (Z.of_nat i)) q).
      * exists false. split; [done|]. rewrite Hcons. split; [done|]. intros [H0 _].
        specialize (H0 q eq_refl Hq). lia.
      * exists b. split; [exact He|]. rewrite Hcons. split; [|tauto]. intros ->. split; [|done].
        intros q' _ Hq'. rewrite Hq in Hq'. injection Hq' as <-. lia.
Qed.

(** The signers [member] reach the threshold of every counted participant and
    of the random set. *)
Record certified (addrs : list Address) (excluded : Address → bool) (member : nat → bool) : Prop := {
  cert_contexts : ∀ (k : nat) addr q, addrs !! k = Some addr → excluded addr = false →
    ParticipantQuorum c (Z.of_nat k) = Ret q → q ≤ tally c (Z.of_nat k) member;
  cert_random : ∀ q, RandomQuorumSize c = Ret q → q ≤ tally c (zlen addrs) member;
}.

Lemma signers_counted (b : Bits) (addrs : list Address) :
  size c = zlen addrs + 1 → (∀ p, tally c p (λ _, true) < 2 ^ 32) → BitsSize b ≤ 2 ^ 31 →
  ∃ counters, foldM (countSigner c) (GetTrueIndices b) ([], replicate (S (length addrs)) 0)
      = Ret (key_at c <$> known_signers (GetTrueIndices b), counters) ∧
    ∀ k, (k < S (length addrs))%nat →
      go_index counters (Z.of_nat k) = Ret (tally c (Z.of_nat k) (λ i, GetIndex b (Z.of_nat i))).
Proof.
  intros Hsz Hw Hb. unfold zlen in Hsz.
  destruct (countSigner_fold (GetTrueIndices b) (S (length addrs)) (λ _, false) []
              (replicate (S (length addrs)) 0)) as (counters & He & Hs); [lia|apply bits_true_NoDup| | |].
  - intros i Hi%bits_true_elem%bits_get_range. split; [lia|done].
  - apply sums_are_zero. intros k. apply tally_none.
  - exists counters. split; [exact He|]. intros k Hk. apply go_index_Ret.
    split; [lia|]. rewrite Nat2Z.id, (sums_are_lookup _ _ _ _ Hs Hk). f_equal. rewrite u32_small.
    + apply tally_ext. intros i _. cbn. apply eq_true_iff_eq. rewrite bool_decide_eq_true. apply bits_true_elem.
    + pose proof (tally_le_total c (Z.of_nat k) (λ j, false || bool_decide (Z.of_nat j ∈ GetTrueIndices b))).
      split; [apply tally_nonneg|]. specialize (Hw (Z.of_nat k)). lia.
Qed.
End Committee.

(** C8. A certificate is accepted exactly when it proves a quorum: over a
    well-formed committee [verifyQc] never panics, and it answers true exactly
    when the committee members among the signers reach the quorum of every
    participant that is not excluded and of the random set, and the signature
    verifies for the vote the certificate is for under the keys of exactly these
    members, in order.  Indices that no member has are ignored. *)
Theorem verifyQc_accepts c addrs excluded view qc b rs :
  committee_ok c → size c = zlen addrs + 1 → RandomSet c = Ret (Some rs) →
  (∀ p, tally c p (λ _, true) < 2 ^ 32) →
  Qc_SignerIndices qc = Some b → BitsSize b ≤ 2 ^ 31 →
  ∃ ok e, verifyQc signatureVerifier addrs excluded view c qc = Ret (ok, e) ∧
    (ok = true ↔
       certified c addrs excluded (λ i, GetIndex b (Z.of_nat i)) ∧
       ∃ raw, CanonicalVote_Bytes {| CV_Type := Qc_Type qc; CV_View := view; CV_TSHash := Qc_TSHash qc |}
                = inl raw ∧
         signatureVerifier raw (Qc_Signature qc) (key_at c <$> known_signers c (GetTrueIndices b))
           = (true, None)) ∧
    (ok = true → e = None).
Proof.
  intros Hok Hsz Hrs Hw Hb Hbs. unfold verifyQc. rewrite Hb. cbn [mbind res_bind].
  destruct (signers_counted c Hok b addrs Hsz Hw Hbs) as (counters & -> & Hc). cbn [mbind res_bind].
  destruct (quorumsReached_spec c Hok excluded counters
              (λ k, tally c k (λ i, GetIndex b (Z.of_nat i))) 0 addrs) as (r & Hr & Hq).
  { intros k Hk. apply Hc. lia. }
  { unfold zlen in Hsz. lia. }
  change (Z.of_nat 0) with 0 in Hr. rewrite Hr. cbn [mbind res_bind].
  assert (Hrq : RandomQuorumSize c = Ret (quorum_of (SetSizeWithOutDelta rs)))
    by (unfold RandomQuorumSize; by rewrite Hrs).
  destruct r; cbn [negb].
  2: { eexists false, _. split; [done|]. split; [|done]. split; [done|]. intros [[Hcx _] _].
       enough (false = true) by done. apply Hq. intros k addr q. apply Hcx. }
  unfold zlen. rewrite Hc, Hrq by lia. cbn [mbind res_bind]. fold (zlen addrs).
  destruct (Z.ltb_spec (tally c (zlen addrs) (λ i, GetIndex b (Z.of_nat i))) (quorum_of (SetSizeWithOutDelta rs))).
  - eexists false, _. split; [done|]. split; [|done]. split; [done|]. intros [[_ Hcr] _].
    specialize (Hcr _ Hrq). lia.
  - assert (Hcert : certified c addrs excluded (λ i, GetIndex b (Z.of_nat i))).
    { split; [by apply Hq|]. intros q Hq'. rewrite Hrq in Hq'. injection Hq' as <-. lia. }
    destruct (CanonicalVote_Bytes _) as [raw|e].
    + destruct (signatureVerifier raw _ _) as [v [e|]] eqn:Ev.
      * eexists false, _. split; [done|]. split; [|done]. split; [done|].
        intros (_ & raw' & [= <-] & Hv). congruence.
      * eexists v, None. split; [done|]. split; [|done]. split.
        -- intros ->. split; [done|]. by exists raw.
        -- intros (_ & raw' & [= <-] & Hv). congruence.
    + eexists false, _. split; [done|]. split; [|done]. split; [done|]. by intros (_ & raw' & ? & _).
Qed.

(** C34. The verdict of the signature verifier is not used: a tesseract is accepted
    exactly when it is new, its seal is valid, its transitions are, and the
    verifier gave some answer without an error, be it true or false. *)
Theorem ValidateTesseract_ignores_verdict w addr ts c all :
  ValidateTesseract signatureVerifier w addr ts c all = Ret None ↔
  S_HasAccMetaInfoAt w addr (TsHeight ts addr) = false ∧ (SM_IsSealValid w ts).1 = true ∧
  verifyTransitions w addr ts all = None ∧
  ∃ verdict, verifySignatures signatureVerifier ts c = Ret (verdict, None).
Proof.
  unfold ValidateTesseract. destruct (S_HasAccMetaInfoAt _ _ _); [naive_solver|].
  destruct (SM_IsSealValid w ts).1; cbn; [|naive_solver].
  destruct (verifyTransitions w addr ts all); [naive_solver|].
  destruct (verifySignatures signatureVerifier ts c) as [[v e]| |]; cbn; [|naive_solver..].
  destruct v, e; cbn; naive_solver.
Qed.
End Certificates.

(** ** Interactions *)
Section Interactions.
Context `{ET : ExtTypes} `{EX : !ExtOps ET} `{TO : !TesseractOps ET} `{IX : !InteractionOps ET EX}.
Context `{CH : !Chain ET EX TO IX}.
Context (w : World).

(** The operations the loop gets to: those before the first mint, burn or logic
    operation. *)
Definition ends_loop (op : IxOp) : bool :=
  match Op_Type op with
  | IxAssetMint | IxAssetBurn | IxLogicDeploy | IxLogicInvoke | IxLogicEnlist => true
  | _ => false
  end.
Fixpoint checked_ops (ops : list IxOp) : list IxOp :=
  match ops with
  | [] => []
  | op :: rest => if ends_loop op then [] else op :: checked_ops rest
  end.

(** The sender can pay the amount. *)
Definition can_pay (sender : Address) (asset : AssetID) (amount : Z) : Prop :=
  ∃ o bal, SM_GetLatestStateObject w sender = inl o ∧ SO_BalanceOf o asset = inl bal ∧ amount ≤ bal.
Definition op_ok (sender : Address) (op : IxOp) : Prop :=
  match Op_Type op with
  | IxParticipantCreate => ∃ amount, Op_CreateAmount op = inl amount ∧ can_pay sender KMOITokenAssetID amount
  | IxAssetTransfer => ∃ asset amount, Op_TransferPayload op = inl (asset, amount) ∧ can_pay sender asset amount
  | IxAssetCreate => ∃ key o, Op_RegistryKey op = inl key ∧ SM_GetLatestStateObject w sender = inl o ∧
      SO_HasRegistryEntry o key = false
  | IxOtherOp _ => False
  | _ => True
  end.

Lemma hasBalance_None sender asset amount :
  hasBalance w sender asset amount = None ↔ can_pay sender asset amount.
Proof.
  unfold hasBalance, can_pay. destruct (SM_GetLatestStateObject w sender) as [o|e]; [|naive_solver].
  destruct (SO_BalanceOf o asset) as [bal|e] eqn:E.
  2: { split; [done|]. intros (? & ? & [= <-] & ? & _). congruence. }
  destruct (Z.ltb_spec bal amount); split; try done.
  - intros (? & ? & [= <-] & Hb & ?). rewrite E in Hb. injection Hb as <-. lia.
  - intros _. exists o, bal. split_and!; (done || lia).
Qed.

Lemma checkOps_None sender ops :
  checkOps w sender ops = None ↔ Forall (op_ok sender) (checked_ops ops).
Proof.
  induction ops as [|op rest IH]; cbn; [by split|]. unfold ends_loop.
  destruct (Op_Type op) eqn:Et; cbn; rewrite ?Forall_cons, ?Forall_nil; try (by split);
    set (P := Forall _ (checked_ops rest)) in *; clearbody P; unfold op_ok; rewrite ?Et.
  - destruct (Op_CreateAmount op) as [x|e]; [|naive_solver].
    pose proof (hasBalance_None sender KMOITokenAssetID x). destruct (hasBalance _ _ _ _); naive_solver.
  - destruct (Op_TransferPayload op) as [[a x]|e]; [|naive_solver].
    pose proof (hasBalance_None sender a x). destruct (hasBalance _ _ _ _); naive_solver.
  - destruct (Op_RegistryKey op) as [key|e]; [|naive_solver].
    destruct (SM_GetLatestStateObject w sender) as [o|e]; [|naive_solver].
    destruct (SO_HasRegistryEntry o key) eqn:E.
    + split; [done|]. intros [(? & ? & [= <-] & [= <-] & ?) _]. congruence.
    + rewrite IH. split; [|intros [_ H]; exact H]. intros H. split; [by exists key, o|exact H].
  - naive_solver.
Qed.

(** C33. What is validated of interactions: they pass exactly when each has a nonce
    that is not stale, a registered sender that can pay the fuel, and every
    operation before the first mint, burn or logic operation is allowed; the
    operations behind it are not looked at. *)
Theorem validateInteractions_spec ixs :
  validateInteractions w ixs = None ↔
  ∀ ix, ix ∈ IxList ixs →
    (∃ n, SM_GetNonce w (Ix_Sender ix) NilHash = inl n ∧ n ≤ Ix_Nonce ix) ∧
    Address_IsNil (Ix_Sender ix) = false ∧ SM_IsAccountRegistered w (Ix_Sender ix) = inl true ∧
    (∃ o, SM_GetLatestStateObject w (Ix_Sender ix) = inl o ∧ (SO_HasSufficientFuel o (Ix_Cost ix)).1 = true) ∧
    Forall (op_ok (Ix_Sender ix)) (checked_ops (Ix_Ops ix)).
Proof.
  unfold validateInteractions. rewrite firstErr_None. apply forall_proper. intros ix.
  apply forall_proper. intros _. rewrite <-checkOps_None. unfold isIxValid.
  destruct (SM_GetNonce w (Ix_Sender ix) NilHash) as [n|e].
  2: { split; [done|]. intros ((? & ? & _) & _). congruence. }
  destruct (Z.ltb_spec (Ix_Nonce ix) n); [split; [done|]; intros ((? & [= <-] & ?) & _); lia|].
  destruct (Address_IsNil (Ix_Sender ix)); [split; [done|]; intros (_ & ? & _); congruence|].
  destruct (SM_IsAccountRegistered w (Ix_Sender ix)) as [[|]|e];
    [|split; [done|]; intros (_ & _ & ? & _); congruence..].
  destruct (SM_GetLatestStateObject w (Ix_Sender ix)) as [o|e].
  2: { split; [done|]. intros (_ & _ & _ & (? & ? & _) & _). congruence. }
  destruct (SO_HasSufficientFuel o (Ix_Cost ix)).1 eqn:Ef; cbn.
  { split; [|by intros (_ & _ & _ & _ & ?)]. intros ?. split_and!; try done; by eexists. }
  split; [done|]. intros (_ & _ & _ & (? & [= <-] & ?) & _). congruence.
Qed.
End Interactions.
