(* ===== verification/ClusterStart.v ===== *)
(** * The committee and the thresholds of a new cluster

    What [fetchParticipantsAndCommittee] builds from the chain state is proved to
    be a well-formed committee with a participant per position, so that the
    cluster state made from it satisfies [started], the assumption of the
    theorems on vote sets and on the BFT engine. *)

From stdpp Require Import base gmap strings list fin_maps.
From Stdlib Require Import ZArith Lia.
From S2P Require Import Prelude External Chain Types NodeSet Committee Cluster Validation VoteSet Tally VoteSetFacts ValidationSpec.

(** ** Node sets *)
Section NodeSets.
Context `{ET : ExtTypes} `{!BitLaws ET}.

Lemma newInfos_Ret ids keys :
  length keys = length ids → ∃ infos, newInfos ids keys = Ret infos ∧ length infos = length ids.
Proof.
  revert keys. induction ids as [|id ids IH]; intros [|key keys] H; try done; [by exists []|].
  destruct (IH keys) as (infos & He & Hl); [by injection H|]. cbn. rewrite He. cbn.
  eexists. split; [done|]. cbn. by rewrite Hl.
Qed.

Lemma NewNodeSet_Ret ids keys required :
  length keys = length ids →
  ∃ ns, NewNodeSet ids keys required = Ret ns ∧ zlen (Infos ns) = zlen ids ∧
    BitsSize (Responses ns) = zlen (Infos ns) ∧ SetSizeWithOutDelta ns = required.
Proof.
  intros H. destruct (newInfos_Ret ids keys H) as (infos & He & Hl). unfold NewNodeSet. rewrite He.
  eexists. split; [done|]. cbn. unfold zlen. rewrite Hl, bits_new_size by lia. done.
Qed.

(** A committee under construction: positions from [k] on are still empty. *)
Record filling (c : ICSCommittee) (n k : nat) : Prop := {
  fl_size : size c = Z.of_nat n;
  fl_len : length (Sets c) = n;
  fl_empty : ∀ i, (k ≤ i < n)%nat → Sets c !! i = Some None;
  fl_total : totalNodes c = zlen (flat c);
  fl_bits : ∀ set, Some set ∈ Sets c → BitsSize (Responses set) = zlen (Infos set);
}.

Lemma filling_ok c n k : filling c n k → (0 < n)%nat → totalNodes c < 2 ^ 31 → committee_ok c.
Proof. intros [Hs Hl _ Ht Hb] Hn H31. split; [done|unfold zlen; lia|lia|done|done]. Qed.

Lemma filling_skip c n k : filling c n k → filling c n (S k).
Proof. intros [Hs Hl He Ht Hb]. split; try done. intros i Hi. apply He. lia. Qed.

Lemma flat_from_nones v n : flat_from v (replicate n None) = [].
Proof. revert v. induction n as [|n IH]; intros v; [done|]. cbn. apply IH. Qed.

Lemma NewICSCommittee_filling (n : nat) : ∃ c, NewICSCommittee (Z.of_nat n) = Ret c ∧ filling c n 0 ∧ totalNodes c = 0.
Proof.
  unfold NewICSCommittee. destruct (Z.ltb_spec (Z.of_nat n) 0); [lia|]. eexists. split; [done|].
  split; [|done]. rewrite Nat2Z.id. split; cbn; try done.
  - by rewrite length_replicate.
  - intros i Hi. rewrite lookup_replicate_2 by lia. done.
  - unfold flat. cbn. by rewrite flat_from_nones.
  - intros set Hin. apply elem_of_replicate in Hin as [? _]. done.
Qed.

Lemma UpdateNodeSet_filling c n k ns :
  filling c n k → (k < n)%nat → BitsSize (Responses ns) = zlen (Infos ns) →
  ∃ c', UpdateNodeSet c (Z.of_nat k) (Some ns) = Ret c' ∧ filling c' n (S k) ∧
    Sets c' = <[k := Some ns]> (Sets c) ∧ totalNodes c' = totalNodes c + zlen (Infos ns).
Proof.
  intros [Hs Hl He Ht Hb] Hk Hbits. pose proof (He k ltac:(lia)) as Ho. eexists. split.
  { cbn. unfold go_update. rewrite (go_index_nat _ _ _ Ho). cbn. by rewrite Nat2Z.id. }
  split; [|done]. split; cbn; try done.
  - by rewrite length_insert.
  - intros i Hi. rewrite list_lookup_insert_ne by lia. apply He. lia.
  - unfold flat in *. cbn. rewrite (flat_insert_length 0 _ _ _ _ Ho). cbn. lia.
  - intros set (i & Hi)%list_elem_of_lookup. rewrite list_lookup_insert in Hi.
    case_decide; [by simplify_eq|]. apply Hb. by eapply list_elem_of_lookup_2.
Qed.

(** ** Weights

    A validator moves the counter of a position at most once per node. *)
Lemma slotMatches_length j sets id : (length (slotMatches j sets id) ≤ length (flat_from j sets))%nat.
Proof.
  revert j. induction sets as [|[set|] rest IH]; intros j; cbn; [done| |apply IH].
  rewrite !length_app, length_imap. specialize (IH (j + 1)).
  enough (length (flat_map (λ k, if decide (NI_ID k = id) then [j] else []) (Infos set)) ≤ length (Infos set))%nat
    by lia.
  induction (Infos set) as [|k l IHl]; cbn; [done|]. rewrite length_app. case_decide; cbn; lia.
Qed.

Lemma flat_from_app_length v w l1 l2 :
  length (flat_from v (l1 ++ l2)) = (length (flat_from v l1) + length (flat_from w l2))%nat.
Proof.
  revert v. induction l1 as [|[set|] l1 IH]; intros v; cbn.
  - apply flat_from_length.
  - rewrite !length_app, IH. lia.
  - apply IH.
Qed.
Lemma flat_from_removelast_length v l : (length (flat_from v (removelast l)) ≤ length (flat_from v l))%nat.
Proof.
  destruct (decide (l = [])) as [->|Hne]; [done|].
  rewrite (app_removelast_last None Hne) at 2. rewrite (flat_from_app_length v v). lia.
Qed.

Lemma slots_at_length c i : committee_ok c → zlen (slots_at c i) ≤ 1 + totalNodes c.
Proof.
  intros Hok. unfold slots_at, lookup_spec. destruct (Z.ltb_spec (Z.of_nat i) 0); [lia|].
  rewrite (co_total c Hok). unfold flat.
  destruct (flat_from 0 (Sets c) !! Z.to_nat (Z.of_nat i)) as [[[p j] info]|]; cbn -[removelast]; unfold zlen; [|cbn; lia].
  unfold slots_from. cbn [length].
  pose proof (slotMatches_length (p + 1) (removelast (drop (Z.to_nat (p + 1 - 0)) (Sets c))) (NI_ID info)) as H1.
  pose proof (flat_from_removelast_length (p + 1) (drop (Z.to_nat (p + 1 - 0)) (Sets c))) as H2.
  pose proof (flat_from_app_length 0 (p + 1) (take (Z.to_nat (p + 1 - 0)) (Sets c))
                (drop (Z.to_nat (p + 1 - 0)) (Sets c))) as H3.
  rewrite take_drop in H3. lia.
Qed.

Lemma sumZ_bound f n B : (∀ i, (i < n)%nat → f i ≤ B) → 0 ≤ B → sumZ f n ≤ Z.of_nat n * B.
Proof.
  intros H HB. induction n as [|n IH]; [cbn; lia|]. rewrite sumZ_S.
  specialize (IH ltac:(intros; apply H; lia)). specialize (H n ltac:(lia)). lia.
Qed.

Lemma weights_small c p : committee_ok c → totalNodes c < 2 ^ 16 → tally c p (λ _, true) < 2 ^ 32.
Proof.
  intros Hok H16. pose proof (tally_le_slots c p (λ _, true)) as H1.
  assert (H0 : 0 ≤ totalNodes c) by (rewrite (co_total c Hok); unfold zlen; lia).
  assert (H2 : sumZ (λ i, zlen (slots_at c i)) (nodes c) ≤ Z.of_nat (nodes c) * (1 + totalNodes c)).
  { apply sumZ_bound; [|lia]. intros i _. by apply slots_at_length. }
  unfold nodes in *. rewrite Z2Nat.id in H2 by lia. nia.
Qed.
End NodeSets.

(** ** The participants *)
Section Fetch.
Context `{ET : ExtTypes} `{EX : !ExtOps ET} `{TO : !TesseractOps ET} `{IX : !InteractionOps ET EX}.
Context `{CH : !Chain ET EX TO IX} `{!ChainLaws ET EX TO IX CH} `{!BitLaws ET}.
Context (w : World).

Definition made (e : Address * ParticipantInfo) (e' : Address * Participant) : Prop :=
  e'.1 = e.1 ∧ newParticipant w e.1 e.2 = inl e'.2.

Lemma newParticipants_inl l l' : newParticipants w l = inl l' ↔ Forall2 made l l'.
Proof.
  revert l'. induction l as [|[a info] l IH]; intros l'; cbn.
  - split; [by intros [= <-]|]. intros H. by inversion H.
  - destruct (newParticipant w a info) as [p|e] eqn:Ep.
    + destruct (newParticipants w l) as [r|e].
      * split.
        -- intros [= <-]. constructor; [by split|]. by apply IH.
        -- intros H. inversion H as [|? [a' p'] ? l2 [Ha Hp] H2]; subst. cbn in *. subst a'.
           apply IH in H2. rewrite Ep in Hp. congruence.
      * split; [done|]. intros H. inversion H as [|? ? ? ? _ H2]; subst. by apply IH in H2.
    + split; [done|]. intros H. inversion H as [|? ? ? ? [_ Hp] _]; subst. cbn in Hp. congruence.
Qed.

Lemma newParticipants_keys l l' : newParticipants w l = inl l' → l'.*1 = l.*1.
Proof. rewrite newParticipants_inl. induction 1 as [|e e' l l' [H _] _ IH]; cbn; congruence. Qed.

(** What a new participant looks like before it is placed. *)
Lemma newParticipant_fresh a info p :
  newParticipant w a info = inl p →
  P_ExcludeFromICS p = false ∧ P_ConsensusQuorum p = 0 ∧ P_IsGenesis p = PInfo_IsGenesis info.
Proof.
  unfold newParticipant. destruct (PInfo_IsGenesis info); cbn; [by intros [= <-]|].
  destruct (SM_GetAccountMetaInfo w a); [|done]. by intros [= <-].
Qed.

(** The loop after [k] positions. *)
Record placed (addrs : list Address) (k : nat) (acc : gmap Address Participant * ICSCommittee) : Prop := {
  pl_fill : filling acc.2 (S (length addrs)) k;
  pl_dom : ∀ a, is_Some (acc.1 !! a) ↔ a ∈ addrs;
  pl_incl : ∀ a p, acc.1 !! a = Some p → P_ExcludeFromICS p = false;
  pl_todo : ∀ i a p, addrs !! i = Some a → (k ≤ i)%nat → acc.1 !! a = Some p → P_ConsensusQuorum p = 0;
  pl_done : ∀ i a, addrs !! i = Some a → (i < k)%nat →
    ∃ p, acc.1 !! a = Some p ∧ P_NodeSetPosition p = Z.of_nat i ∧
      if P_IsGenesis p then P_ConsensusQuorum p = 0 ∧ Sets acc.2 !! i = Some None
      else ParticipantQuorum acc.2 (Z.of_nat i) = Ret (P_ConsensusQuorum p);
}.

Lemma ParticipantQuorum_sets c c' (i : nat) :
  Sets c' !! i = Sets c !! i → ParticipantQuorum c' (Z.of_nat i) = ParticipantQuorum c (Z.of_nat i).
Proof.
  intros H. unfold ParticipantQuorum, go_index. destruct (Z.ltb_spec (Z.of_nat i) 0); [lia|].
  rewrite Nat2Z.id. by rewrite H.
Qed.

(** Writing the entry of position [k] keeps what the loop established before. *)
Lemma placed_step addrs k acc p c a p0 :
  NoDup addrs → placed addrs k acc → addrs !! k = Some a → acc.1 !! a = Some p0 →
  P_ExcludeFromICS p = false → P_NodeSetPosition p = Z.of_nat k →
  filling c (S (length addrs)) (S k) → (∀ i, i ≠ k → Sets c !! i = Sets acc.2 !! i) →
  (if P_IsGenesis p then P_ConsensusQuorum p = 0 ∧ Sets c !! k = Some None
   else ParticipantQuorum c (Z.of_nat k) = Ret (P_ConsensusQuorum p)) →
  placed addrs (S k) (<[a := p]> acc.1, c).
Proof.
  intros Hnd [Hf Hd Hx Ht Hdone] Ha Hp0 Hex Hpos Hfc Hsame Hq. split; cbn.
  - done.
  - intros b. rewrite lookup_insert_is_Some. rewrite Hd. split; [|destruct (decide (a = b)); tauto].
    intros [<-|[_ ?]]; [by eapply list_elem_of_lookup_2|done].
  - intros b q. rewrite lookup_insert. case_decide; [by intros [= <-]|apply Hx].
  - intros i b q Hi Hk. rewrite lookup_insert_ne; [apply (Ht i b q Hi); lia|].
    intros ->. pose proof (NoDup_lookup _ _ _ _ Hnd Hi Ha). lia.
  - intros i b Hi Hk. destruct (decide (i = k)) as [->|Hne].
    + rewrite Hi in Ha. injection Ha as ->. exists p. by rewrite lookup_insert_eq.
    + destruct (Hdone i b Hi ltac:(lia)) as (q & Hq' & Hqp & Hqq). exists q.
      rewrite lookup_insert_ne.
      2: { intros ->. pose proof (NoDup_lookup _ _ _ _ Hnd Hi Ha). lia. }
      split; [done|]. split; [done|]. destruct (P_IsGenesis q).
      * by rewrite Hsame.
      * rewrite <-Hqq. apply ParticipantQuorum_sets. by apply Hsame.
Qed.

Lemma placeParticipant_placed addrs k acc a :
  NoDup addrs → placed addrs k acc → addrs !! k = Some a →
  ∃ r, placeParticipant w acc (Z.of_nat k, a) = Ret r ∧ ∀ acc', r = inl acc' → placed addrs (S k) acc'.
Proof.
  intros Hnd Hpl Ha. pose proof Hpl as [Hf Hd Hx Ht Hdone].
  destruct (proj2 (Hd a)) as [p0 Hp0]; [by eapply list_elem_of_lookup_2|].
  apply lookup_lt_Some in Ha as Hk.
  unfold placeParticipant. destruct acc as [m c]. cbn [fst snd] in *. rewrite Hp0. cbn [deref mbind res_bind].
  set (p := with_position p0 (Z.of_nat k)). destruct (P_IsGenesis p) eqn:Eg.
  - eexists. split; [done|]. intros acc' [= <-].
    eapply (placed_step addrs k (m, c)); try done; [exact (Hx a p0 Hp0)|by apply filling_skip|].
    rewrite Eg. split; [by apply (Ht k a p0)|]. apply (fl_empty _ _ _ Hf). lia.
  - destruct (SM_GetLatestContextAndPublicKeys w a) as [[[[[h bs] rs] bk] rk]|e] eqn:Ec; [|by exists (inr e)].
    destruct (NewNodeSet_Ret bs bk (u32 (zlen bs))) as (ns & Hns & _ & Hbits & _).
    { exact (keys_of_context _ _ _ _ _ _ _ Ec). }
    rewrite Hns. cbn [mbind res_bind].
    destruct (UpdateNodeSet_filling c _ k ns Hf ltac:(lia) Hbits) as (c' & Hc' & Hf' & Hs' & _).
    rewrite Hc'. cbn [mbind res_bind].
    destruct (lookup_lt_is_Some_2 (Sets c') k) as [o Ho].
    { rewrite (fl_len _ _ _ Hf'). lia. }
    unfold ParticipantQuorum at 1. rewrite (go_index_nat _ _ _ Ho). cbn [mbind res_bind].
    eexists. split; [done|]. intros acc' [= <-].
    eapply (placed_step addrs k (m, c)); try done; [exact (Hx a p0 Hp0)| |].
    + intros i Hi. rewrite Hs'. by apply list_lookup_insert_ne.
    + cbn. cbn in Eg. rewrite Eg. unfold ParticipantQuorum. by rewrite (go_index_nat _ _ _ Ho).
Qed.

Lemma placed_start l l' :
  newParticipants w l = inl l' → NoDup l.*1 →
  ∃ c, NewICSCommittee (zlen (SortAddresses l'.*1) + 1) = Ret c ∧
    placed (SortAddresses l'.*1) 0 (list_to_map l', c) ∧ NoDup (SortAddresses l'.*1).
Proof.
  intros Hl Hnd. pose proof (newParticipants_keys _ _ Hl) as Hk. rewrite <-Hk in Hnd.
  assert (Hperm := sort_perm l'.*1).
  destruct (NewICSCommittee_filling (S (length (SortAddresses l'.*1)))) as (c & Hc & Hf & _).
  exists c. split; [rewrite <-Hc; f_equal; unfold zlen; lia|]. split; [|by rewrite Hperm].
  assert (Hfresh : ∀ a p, (list_to_map l' : gmap Address Participant) !! a = Some p →
            P_ExcludeFromICS p = false ∧ P_ConsensusQuorum p = 0).
  { intros a p Hp%elem_of_list_to_map_2. apply newParticipants_inl in Hl.
    apply list_elem_of_lookup in Hp as [i Hi].
    destruct (Forall2_lookup_r _ _ _ _ _ Hl Hi) as ([a0 info] & _ & _ & Hn). cbn in Hn.
    apply newParticipant_fresh in Hn. naive_solver. }
  split; cbn; try done.
  - intros a. rewrite Hperm. rewrite <-not_eq_None_Some, <-not_elem_of_list_to_map.
    destruct (decide (a ∈ l'.*1)); tauto.
  - intros a p Hp. by apply Hfresh in Hp as [? _].
  - intros i a p _ _ Hp. by apply Hfresh in Hp as [_ ?].
  - intros i a _ Hi. lia.
Qed.

Lemma fetch_placed ps :
  ∃ r, fetchParticipantsAndCommittee w ps = Ret r ∧
    ∀ acc, r = inl acc → ∃ addrs, NoDup addrs ∧ addrs ≡ₚ (map_to_list ps).*1 ∧ placed addrs (length addrs) acc.
Proof.
  unfold fetchParticipantsAndCommittee, fetchFrom.
  destruct (newParticipants w (map_to_list ps)) as [l|e] eqn:El; [|by exists (inr e)].
  destruct (placed_start _ _ El (NoDup_fst_map_to_list ps)) as (c & -> & Hpl & Hnd). cbn [mbind res_bind].
  destruct (efold_range (λ k, placed (SortAddresses l.*1) k) (placeParticipant w) (SortAddresses l.*1) 0
              (list_to_map l, c) Hpl) as (r & Hr & Hn).
  { intros i a acc Ha Hacc. by apply placeParticipant_placed. }
  exists r. split; [exact Hr|]. intros acc ->. exists (SortAddresses l.*1). split; [done|].
  split; [|by apply Hn]. rewrite sort_perm. by rewrite (newParticipants_keys _ _ El).
Qed.

Lemma newParticipants_perm l1 l2 r1 :
  l1 ≡ₚ l2 → newParticipants w l1 = inl r1 → ∃ r2, newParticipants w l2 = inl r2 ∧ r1 ≡ₚ r2.
Proof.
  intros Hp. setoid_rewrite newParticipants_inl. revert r1.
  induction Hp as [|x l1 l2 _ IH|x y l|l1 l2 l3 _ IH1 _ IH2]; intros r1 H.
  - exists r1. by split.
  - inversion H as [|? y ? r Hx Hr]; subst. destruct (IH r Hr) as (r2 & ? & ?).
    exists (y :: r2). split; [by constructor|by constructor].
  - inversion H as [|? a ? r Hx Hr]; subst. inversion Hr as [|? b ? r' Hy Hr']; subst.
    exists (b :: a :: r'). split; [constructor; [done|by constructor]|]. constructor.
  - destruct (IH1 r1 H) as (r2 & H2 & ?). destruct (IH2 r2 H2) as (r3 & ? & ?).
    exists r3. split; [done|]. by etrans.
Qed.

Lemma fetchFrom_perm l1 l2 acc :
  l1 ≡ₚ l2 → NoDup l1.*1 → fetchFrom w l1 = Ret (inl acc) → fetchFrom w l2 = Ret (inl acc).
Proof.
  intros Hp Hnd. unfold fetchFrom. destruct (newParticipants w l1) as [r1|e] eqn:E1; [|done].
  destruct (newParticipants_perm _ _ _ Hp E1) as (r2 & -> & Hr).
  rewrite (sort_canonical r1.*1 r2.*1) by (by rewrite Hr).
  by rewrite (list_to_map_proper r1 r2) by (rewrite ?(newParticipants_keys _ _ E1); done).
Qed.

(** C25. The participants and the committee of a new cluster do not depend on the
    order in which Go walks the participants' map: whatever the order, the
    function succeeds in the same cases and with the same result, so all
    validators build the same committee from the same chain state. *)
Theorem fetch_order_irrelevant ps l acc :
  l ≡ₚ map_to_list ps →
  fetchFrom w l = Ret (inl acc) ↔ fetchParticipantsAndCommittee w ps = Ret (inl acc).
Proof.
  intros Hp. split; apply fetchFrom_perm; try done.
  - rewrite Hp. apply NoDup_fst_map_to_list.
  - apply NoDup_fst_map_to_list.
Qed.

(** ** The cluster state *)
Lemma quorum_of_pos n : 0 < quorum_of n.
Proof.
  unfold quorum_of. assert (H : 0 ≤ u32 (n * 2) < 2 ^ 32) by (apply Z.mod_pos_bound; lia).
  assert (0 ≤ u32 (n * 2) / 3) by (apply Z.div_pos; lia).
  assert (u32 (n * 2) / 3 < 2 ^ 31) by (apply Z.div_lt_upper_bound; lia).
  rewrite u32_small by lia. lia.
Qed.

Lemma placed_positions addrs m c :
  NoDup addrs → placed addrs (length addrs) (m, c) → positions_ok m ∧ base.size m = length addrs.
Proof.
  intros Hnd Hpl. pose proof Hpl as [_ Hd _ _ Hdone]. cbn in *.
  assert (Hsz : base.size m = length addrs).
  { rewrite <-size_dom. rewrite <-(size_list_to_set (C := gset Address) addrs) by done. f_equal.
    apply set_eq. intros a. rewrite elem_of_dom, elem_of_list_to_set. apply Hd. }
  assert (Hat : ∀ a p, m !! a = Some p → ∃ i, addrs !! i = Some a ∧ P_NodeSetPosition p = Z.of_nat i).
  { intros a p Hp. assert (Ha : a ∈ addrs) by (apply Hd; by eexists).
    apply list_elem_of_lookup in Ha as [i Hi]. exists i. split; [done|].
    destruct (Hdone i a Hi) as (q & Hq & Hqp & _); [by apply lookup_lt_Some in Hi|]. congruence. }
  split; [|done]. split.
  - intros a p Hp. destruct (Hat a p Hp) as (i & Hi & ->). apply lookup_lt_Some in Hi. lia.
  - intros a b p q Hp Hq Heq. destruct (Hat a p Hp) as (i & Hi & Hpi). destruct (Hat b q Hq) as (j & Hj & Hqj).
    assert (i = j) by lia. subst j. congruence.
Qed.

(** C13. Every cluster the engine starts meets the assumptions of the vote-set and
    BFT theorems: the participants and the committee that
    [fetchParticipantsAndCommittee] reads from the chain, with a random set
    installed last, give a cluster state whose committee is well formed, whose
    counters cannot wrap (fewer than 65536 nodes) and whose thresholds are the
    quorum of each participant's context at its position and of the random set. *)
Theorem cluster_starts ps m c ids keys required ixs id op t self vis vw :
  fetchParticipantsAndCommittee w ps = Ret (inl (m, c)) →
  length keys = length ids → totalNodes c + zlen ids < 2 ^ 16 →
  ∃ ns cs q, NewNodeSet ids keys required = Ret ns ∧
    ClusterUpdateNodeSet (NewICS ixs id op t self c m vis vw) (StochasticSetPosition c) (Some ns) = Ret cs ∧
    started (committee cs) q (NewHeights cs) cs ∧
    q !! base.size m = Some (quorum_of required) ∧
    (∀ a p, m !! a = Some p → q !! Z.to_nat (P_NodeSetPosition p) = Some (P_ConsensusQuorum p)) ∧
    (∀ a p, m !! a = Some p → P_IsGenesis p = false →
       ParticipantQuorum (committee cs) (P_NodeSetPosition p) = Ret (P_ConsensusQuorum p)).
Proof.
  intros Hfetch Hkeys Hbound. destruct (fetch_placed ps) as (r & Hr & Hn). rewrite Hfetch in Hr.
  injection Hr as <-. destruct (Hn _ eq_refl) as (addrs & Hnd & _ & Hpl). clear Hn.
  destruct (placed_positions _ _ _ Hnd Hpl) as [Hpos Hsz]. pose proof Hpl as [Hf Hd Hx _ Hdone]. cbn [fst snd] in *.
  destruct (NewNodeSet_Ret ids keys required Hkeys) as (ns & Hns & Hlen & Hbits & Hreq).
  destruct (UpdateNodeSet_filling c _ (length addrs) ns Hf ltac:(lia) Hbits) as (c' & Hc' & Hf' & Hs' & Ht').
  set (cs0 := NewICS ixs id op t self c m vis vw).
  exists ns, (set_committee c' cs0). 
  assert (Hsp : StochasticSetPosition c = Z.of_nat (length addrs)).
  { unfold StochasticSetPosition. rewrite (fl_size _ _ _ Hf). lia. }
  assert (Hlook : Sets c' !! length addrs = Some (Some ns)).
  { rewrite Hs'. apply list_lookup_insert_eq. rewrite (fl_len _ _ _ Hf). lia. }
  assert (Hrq : RandomQuorumSize c' = Ret (quorum_of required)).
  { unfold RandomQuorumSize, RandomSet, StochasticSetPosition. rewrite (fl_size _ _ _ Hf').
    replace (Z.of_nat (S (length addrs)) - 1) with (Z.of_nat (length addrs)) by lia.
    rewrite (go_index_nat _ _ _ Hlook). cbn. by rewrite Hreq. }
  destruct (GetQuorum_computed (set_committee c' cs0) (quorum_of required) Hpos eq_refl Hrq) as [Hql Hq].
  cbn zeta in Hql, Hq. set (q := quorum_vector _ _) in *. cbn [Participants set_committee cs0 NewICS] in Hql, Hq.
  assert (Hok : committee_ok c').
  { eapply filling_ok; [exact Hf'|lia|lia]. }
  exists (<[base.size m := quorum_of required]> q). split; [exact Hns|].
  split.
  { unfold ClusterUpdateNodeSet. change (committee cs0) with c. rewrite Hsp, Hc'. done. }
  split; [|split; [|split]].
  - split.
    + split; [exact Hok| |].
      * unfold zlen. cbn [committee set_committee]. rewrite length_insert, Hql. rewrite (fl_size _ _ _ Hf'). lia.
      * intros p. apply weights_small; [exact Hok|]. cbn. lia.
    + split; [done|]. eexists. exact Hq.
    + cbn. unfold NewHeights. rewrite map_size_fmap. cbn. rewrite (fl_size _ _ _ Hf'). lia.
    + exists (quorum_of required). split; [|apply quorum_of_pos].
      apply (list_elem_of_lookup_2 _ (base.size m)). apply list_lookup_insert_eq. lia.
  - apply list_lookup_insert_eq. lia.
  - intros a p Hp. pose proof Hpos as [Hrange Hinj]. specialize (Hrange a p Hp).
    rewrite list_lookup_insert_ne by lia.
    destruct (lookup_lt_is_Some_2 q (Z.to_nat (P_NodeSetPosition p))) as [x Hq']; [lia|].
    rewrite Hq'. f_equal.
    destruct (quorum_vector_at m (Z.to_nat (P_NodeSetPosition p)) x Hpos ltac:(lia) Hq')
      as [(b & p' & Hb & Hpb & _ & ->)|[_ Hall]].
    + assert (b = a) by (apply (Hinj b a p' p Hb Hp); lia). congruence.
    + specialize (Hall a p Hp ltac:(lia)). by rewrite (Hx a p Hp) in Hall.
  - intros a p Hp Hg. destruct (proj1 (list_elem_of_lookup addrs a)) as [i Hi]; [apply Hd; by eexists|].
    apply lookup_lt_Some in Hi as Hlt. destruct (Hdone i a Hi Hlt) as (p' & Hp' & Hpp & Hq').
    rewrite Hp in Hp'. injection Hp' as <-. rewrite Hg in Hq'. rewrite Hpp, <-Hq'.
    apply ParticipantQuorum_sets. cbn [committee set_committee]. rewrite Hs'. apply list_lookup_insert_ne. lia.
Qed.
End Fetch.

(** ** The committee of a tesseract *)
Section TesseractCommittee.
Context `{ET : ExtTypes} `{EX : !ExtOps ET} `{TO : !TesseractOps ET} `{IX : !InteractionOps ET EX}.
Context `{TV : !TesseractView ET EX TO} `{CH : !Chain ET EX TO IX} `{!ChainLaws ET EX TO IX CH} `{!BitLaws ET}.
Context `{!PoloCodec CanonicalVote}.
Context (signatureVerifier : bytes → bytes → list bytes → bool * option err).
Context (w : World).

Definition set_fits (o : option NodeSet) : Prop :=
  match o with Some ns => BitsSize (Responses ns) = zlen (Infos ns) | None => True end.

Lemma contextSet_Ret ids : ∃ r, contextSet w ids = Ret r ∧ ∀ o, r = inl o → set_fits o.
Proof.
  unfold contextSet. destruct ids as [|id ids]; [eexists; split; [done|by intros o [= <-]]|].
  destruct (SM_GetPublicKeys w (id :: ids)) as [keys|e] eqn:E; [|by eexists].
  destruct (NewNodeSet_Ret (id :: ids) keys (u32 (zlen (id :: ids)))) as (ns & -> & _ & Hb & _).
  { exact (keys_of_ids _ _ _ E). }
  eexists. split; [done|]. by intros o [= <-].
Qed.

Lemma makeNodeSet_Ret ids n :
  ∃ r, makeNodeSet w ids n = Ret r ∧ ∀ o, r = inl o → set_fits o ∧ (is_Some o ↔ ids ≠ []).
Proof.
  unfold makeNodeSet. destruct ids as [|id ids].
  { eexists. split; [done|]. intros o [= <-]. split; [done|]. split; [by intros []|done]. }
  destruct (SM_GetPublicKeys w (id :: ids)) as [keys|e] eqn:E; [|by eexists].
  destruct (NewNodeSet_Ret (id :: ids) keys n) as (ns & -> & _ & Hb & _).
  { exact (keys_of_ids _ _ _ E). }
  eexists. split; [done|]. intros o [= <-]. split; [done|]. split; [done|by eexists].
Qed.

Lemma UpdateNodeSet_fits c n k o :
  filling c n k → (k < n)%nat → set_fits o →
  ∃ c', UpdateNodeSet c (Z.of_nat k) o = Ret c' ∧ filling c' n (S k) ∧ Sets c' !! k = Some o.
Proof.
  intros Hf Hk. destruct o as [ns|]; intros Ho.
  - destruct (UpdateNodeSet_filling c n k ns Hf Hk Ho) as (c' & He & Hf' & Hs & _).
    exists c'. split; [done|]. split; [done|]. rewrite Hs. apply list_lookup_insert_eq.
    by rewrite (fl_len _ _ _ Hf).
  - exists c. split; [done|]. split; [by apply filling_skip|]. apply (fl_empty _ _ _ Hf). lia.
Qed.

(** The committee of a tesseract: a position per account and the random set last. *)
Lemma GetICSCommittee_filling ts info :
  ∃ r, GetICSCommittee w ts (Some info) = Ret r ∧
    ∀ c, r = inl c → filling c (S (length (TsAddresses ts))) (S (length (TsAddresses ts))) ∧
      ∃ o, Sets c !! length (TsAddresses ts) = Some o ∧ (is_Some o ↔ CI_RandomSet info ≠ []).
Proof.
  unfold GetICSCommittee. set (addrs := TsAddresses ts).
  destruct (NewICSCommittee_filling (S (length addrs))) as (c0 & Hc0 & Hf0 & _).
  replace (zlen addrs + 1) with (Z.of_nat (S (length addrs))) by (unfold zlen; lia).
  rewrite Hc0. cbn [mbind res_bind].
  match goal with |- context [efold ?f _ _] =>
    destruct (efold_range (λ k c, filling c (S (length addrs)) k) f addrs 0 c0 Hf0) as (r & Hr & Hn) end.
  { intros i a c Ha Hf. apply lookup_lt_Some in Ha. cbn. unfold placeContext. case_decide.
    - eexists. split; [done|]. intros c' [= <-]. by apply filling_skip.
    - unfold fetchParticipantContextByHash.
      destruct (SM_GetContext w a (previousContext ts a)) as [[bc rc]|e]; [|by exists (inr e)].
      destruct (contextSet_Ret bc) as ([o|e] & -> & Ho); cbn; [|by exists (inr e)].
      destruct (contextSet_Ret rc) as ([o'|e] & -> & _); cbn; [|by exists (inr e)].
      destruct (UpdateNodeSet_fits c _ i o Hf ltac:(lia) (Ho o eq_refl)) as (c' & He & Hf' & _).
      destruct o as [ns|]; [rewrite He|injection He as <-]; (eexists; split; [done|]; by intros c'' [= <-]). }
  change (λ i addr, (Z.of_nat i, addr)) with (λ i (addr : Address), (Z.of_nat (0 + i), addr)).
  rewrite Hr. destruct r as [c1|e]; cbn [ebind]; [|by exists (inr e)]. cbn [deref mbind res_bind].
  specialize (Hn c1 eq_refl). destruct (makeNodeSet_Ret (CI_RandomSet info) (CI_RandomSetSizeWithoutDelta info))
    as ([o|e] & -> & Ho); cbn [ebind]; [|by exists (inr e)].
  destruct (Ho o eq_refl) as [Hfit Hsome].
  assert (Hsp : StochasticSetPosition c1 = Z.of_nat (length addrs)).
  { unfold StochasticSetPosition. rewrite (fl_size _ _ _ Hn). lia. }
  rewrite Hsp. destruct (UpdateNodeSet_fits c1 _ (length addrs) o Hn ltac:(lia) Hfit) as (c' & -> & Hf' & Hl).
  eexists. split; [done|]. intros c [= <-]. split; [exact Hf'|]. by exists o.
Qed.

Lemma GetICSCommittee_ok ts info c :
  GetICSCommittee w ts (Some info) = Ret (inl c) → totalNodes c < 2 ^ 31 →
  committee_ok c ∧ size c = zlen (TsAddresses ts) + 1.
Proof.
  intros H Hb. destruct (GetICSCommittee_filling ts info) as (r & Hr & Hn). rewrite H in Hr.
  injection Hr as <-. destruct (Hn c eq_refl) as [Hf _]. split; [|rewrite (fl_size _ _ _ Hf); unfold zlen; lia].
  eapply filling_ok; [exact Hf|lia|exact Hb].
Qed.

(** A tesseract without a random set crashes the validator that checks it:
    its committee is built with an empty last position, and once the quorums of
    the participants are reached the check of the random quorum dereferences it. *)
Theorem empty_random_set_panics ts info c qc b excluded view :
  GetICSCommittee w ts (Some info) = Ret (inl c) → CI_RandomSet info = [] →
  totalNodes c < 2 ^ 16 → Qc_SignerIndices qc = Some b → BitsSize b ≤ 2 ^ 31 →
  (∀ (k : nat) addr q, TsAddresses ts !! k = Some addr → excluded addr = false →
     ParticipantQuorum c (Z.of_nat k) = Ret q →
     q ≤ tally c (Z.of_nat k) (λ i, GetIndex b (Z.of_nat i))) →
  verifyQc signatureVerifier (TsAddresses ts) excluded view c qc = Panic "nil pointer dereference".
Proof.
  intros H Hrs H16 Hb Hbs Hq. destruct (GetICSCommittee_ok ts info c H ltac:(lia)) as [Hok Hsz].
  destruct (GetICSCommittee_filling ts info) as (r & Hr & Hn). rewrite H in Hr. injection Hr as <-.
  destruct (Hn c eq_refl) as (Hf & o & Ho & Hsome).
  assert (o = None) as -> by (destruct o; [exfalso; by apply Hsome|done]).
  unfold verifyQc. rewrite Hb. cbn [mbind res_bind].
  destruct (signers_counted c Hok b (TsAddresses ts) Hsz (λ p, weights_small c p Hok H16) Hbs)
    as (counters & -> & Hc). cbn [mbind res_bind].
  destruct (quorumsReached_spec c Hok excluded counters
              (λ k, tally c k (λ i, GetIndex b (Z.of_nat i))) 0 (TsAddresses ts)) as (r & Hr & Hqr).
  { intros k Hk. apply Hc. lia. }
  { rewrite Hsz. unfold zlen. lia. }
  change (Z.of_nat 0) with 0 in Hr. rewrite Hr. cbn [mbind res_bind].
  rewrite (proj2 Hqr Hq). cbn [negb]. unfold zlen. rewrite Hc by lia. cbn [mbind res_bind].
  unfold RandomQuorumSize, RandomSet, StochasticSetPosition. rewrite (fl_size _ _ _ Hf).
  replace (Z.of_nat (S (length (TsAddresses ts))) - 1) with (Z.of_nat (length (TsAddresses ts))) by lia.
  by rewrite (go_index_nat _ _ _ Ho).
Qed.
End TesseractCommittee.
