(* ===== verification/RawContext.v ===== *)
(** * The committee of a tesseract received with its contexts: [ics.go]

    A node that does not have the chain state of a tesseract rebuilds the committee
    from the raw context objects that came with it, and drops the objects it
    used.  On contexts that agree with the chain state this is [GetICSCommittee]. *)

From stdpp Require Import base gmap strings list fin_maps.
From Stdlib Require Import ZArith Lia.
From S2P Require Import Prelude Effect External Chain Types NodeSet Committee Cluster Validation.

(** [state.MetaContextObject], [state.ContextObject] and [Hash.String()]. *)
Class RawContexts (ET : ExtTypes) := {
  Hash_String : Hash → string;
  (** the behavioural and the random context of a meta object *)
  MetaContext_FromBytes : bytes → (Hash * Hash) + err;
  ContextObject_Ids : bytes → list KramaID + err;
}.

Section RawContext.
Context `{ET : ExtTypes} `{EX : !ExtOps ET} `{TO : !TesseractOps ET} `{IX : !InteractionOps ET EX}.
Context `{TV : !TesseractView ET EX TO} `{CH : !Chain ET EX TO IX} `{RC : !RawContexts ET}.
Context (w : World).

Definition NodeSetFromRawContextObject (raw : bytes) : res (option NodeSet + err) :=
  match ContextObject_Ids raw with
  | inr e => Ret (inr e)
  | inl ids => makeNodeSet w ids (u32 (zlen ids))
  end.

(** [rawContext\[hash.String()\]]; a missing entry is nil. *)
Definition rawAt (rawContext : gmap string bytes) (hash : Hash) : bytes :=
  default [] (rawContext !! Hash_String hash).

(** One account: the committee so far and the hashes to drop. *)
Definition placeRaw (rawContext : gmap string bytes) (ts : Tesseract)
    (acc : ICSCommittee * list Hash) (entry : Z * Address) : res (ICSCommittee * list Hash + err) :=
  let '(ics, contextHashes) := acc in
  let '(position, addr) := entry in
  if decide (previousContext ts addr = NilHash) then Ret (inl acc)
  else
    match MetaContext_FromBytes (rawAt rawContext (previousContext ts addr)) with
    | inr e => Ret (inr e)
    | inl (behavioural, random) =>
        let! ics := match rawContext !! Hash_String behavioural with
                    | None => Ret (inl ics)
                    | Some rawBytes =>
                        let! nodeSet := NodeSetFromRawContextObject rawBytes in
                        c ← UpdateNodeSet ics position nodeSet; Ret (inl c)
                    end in
        Ret (inl (ics, contextHashes ++ [previousContext ts addr; behavioural; random]))
    end.

Definition dropHashes (rawContext : gmap string bytes) (hashes : list Hash) : gmap string bytes :=
  foldl (λ m h, delete (Hash_String h) m) rawContext hashes.

(** The map is the caller's: what is deleted stays deleted when the random set
    fails. *)
Definition GetICSCommitteeFromRawContext (ts : Tesseract) (info : option CommitInfo)
    : eff (gmap string bytes) ICSCommittee :=
  let addrs := TsAddresses ts in
  ics ← lift (NewICSCommittee (zlen addrs + 1));
  rawContext ← gets id;
  '(ics, contextHashes) ← lift_res (efold (placeRaw rawContext ts)
      (imap (λ i addr, (Z.of_nat i, addr)) addrs) (ics, []));
  _ ← modify (λ m, dropHashes m contextHashes);
  info ← lift (deref info);
  randomSet ← lift_res (makeNodeSet w (CI_RandomSet info) (CI_RandomSetSizeWithoutDelta info));
  lift (UpdateNodeSet ics (StochasticSetPosition ics) randomSet).

(** ** Agreement with the chain state *)
(** The context of an account that came with the tesseract is the one the state
    has, and the state knows the keys of its random nodes. *)
Definition context_agrees (rawContext : gmap string bytes) (ts : Tesseract) (addr : Address) : Prop :=
  previousContext ts addr ≠ NilHash →
  ∃ bh rh raw ids rnd o,
    MetaContext_FromBytes (rawAt rawContext (previousContext ts addr)) = inl (bh, rh) ∧
    rawContext !! Hash_String bh = Some raw ∧ ContextObject_Ids raw = inl ids ∧
    SM_GetContext w addr (previousContext ts addr) = inl (ids, rnd) ∧ contextSet w rnd = Ret (inl o).

(** The two ways of making a set differ in the error only. *)
Lemma contextSet_makeNodeSet ids :
  (∀ o, contextSet w ids = Ret (inl o) ↔ makeNodeSet w ids (u32 (zlen ids)) = Ret (inl o)) ∧
  (contextSet w ids = Ret (inr (ECommon "ErrPublicKeyNotFound")) ↔
   ∃ e, makeNodeSet w ids (u32 (zlen ids)) = Ret (inr e)).
Proof.
  unfold contextSet, makeNodeSet. destruct ids as [|i ids]; [split; [done|]; split; [done|by intros [e [=]]]|].
  destruct (SM_GetPublicKeys w (i :: ids)) as [ks|e].
  - split; [done|]. destruct (NewNodeSet _ _ _); cbn; split; try done; by intros [e [=]].
  - split; [done|]. split; [by exists e|done].
Qed.

(** The hashes of one account that are dropped. *)
Definition usedHashes (rawContext : gmap string bytes) (ts : Tesseract) (addr : Address) : list Hash :=
  if decide (previousContext ts addr = NilHash) then []
  else match MetaContext_FromBytes (rawAt rawContext (previousContext ts addr)) with
       | inl (bh, rh) => [previousContext ts addr; bh; rh]
       | inr _ => []
       end.

Lemma placeRaw_step raw ts c hs i addr c' hs' :
  context_agrees raw ts addr →
  placeRaw raw ts (c, hs) (i, addr) = Ret (inl (c', hs')) ↔
  placeContext w ts c (i, addr) = Ret (inl c') ∧ hs' = hs ++ usedHashes raw ts addr.
Proof.
  intros Ha. unfold placeRaw, placeContext, usedHashes. destruct (decide (previousContext ts addr = NilHash)) as [|Hne].
  { rewrite app_nil_r. split; [by intros [= <- <-]|by intros [[= <-] ->]]. }
  destruct (Ha Hne) as (bh & rh & rb & ids & rnd & o & -> & -> & Hids & Hctx & Hrnd).
  unfold NodeSetFromRawContextObject, fetchParticipantContextByHash. rewrite Hids, Hctx.
  destruct (contextSet_makeNodeSet ids) as [Hok Hbad].
  rewrite !ebind_inl. split.
  - intros (c1 & Hc1 & Hr). injection Hr as <- <-. split; [|done].
    apply ebind_inl in Hc1 as (ns & Hns & Hc1). apply Hok in Hns. exists (ns, o). rewrite Hns, Hrnd. split; [done|].
    destruct ns; [exact Hc1|]. by injection Hc1 as <-.
  - intros [([bs o'] & Hf & Hc1) ->]. apply ebind_inl in Hf as (bs' & Hbs & Hf).
    rewrite Hrnd in Hf. cbn in Hf. injection Hf as <- <-. apply Hok in Hbs.
    exists c'. split; [|done]. rewrite ebind_inl. exists bs'. split; [exact Hbs|]. destruct bs'; [exact Hc1|exact Hc1].
Qed.

Lemma placeRaw_fold raw ts l c hs c' hs' :
  (∀ p, p ∈ l → context_agrees raw ts p.2) →
  efold (placeRaw raw ts) l (c, hs) = Ret (inl (c', hs')) ↔
  efold (placeContext w ts) l c = Ret (inl c') ∧ hs' = hs ++ (l.*2 ≫= usedHashes raw ts).
Proof.
  revert c hs. induction l as [|[i addr] l IH]; intros c hs Hl.
  { cbn. rewrite app_nil_r. split; [by intros [= <- <-]|by intros [[= <-] ->]]. }
  assert (Haddr : context_agrees raw ts addr) by (apply (Hl (i, addr)); left).
  cbn [efold]. rewrite !ebind_inl. split.
  - intros ([c1 h1] & Hs & Hr). apply placeRaw_step in Hs as [Hs ->]; [|done].
    apply IH in Hr as [Hr ->]; [|intros; apply Hl; by right]. split; [by exists c1|]. cbn. by rewrite app_assoc.
  - intros [(c1 & Hs & Hr) ->]. exists (c1, hs ++ usedHashes raw ts addr). split; [by apply placeRaw_step|].
    apply IH; [intros; apply Hl; by right|]. split; [done|]. cbn. by rewrite app_assoc.
Qed.

(** C26. A committee rebuilt from the contexts that came with a tesseract is the one
    the chain state gives: when every account's raw context agrees with the state,
    [GetICSCommitteeFromRawContext] succeeds exactly when [GetICSCommittee] does,
    with the same committee, and the map afterwards has lost exactly the contexts
    it used. *)
Theorem raw_committee_agrees ts info raw c raw' :
  (∀ addr, addr ∈ TsAddresses ts → context_agrees raw ts addr) →
  GetICSCommitteeFromRawContext ts info raw = Ret (raw', inl c) ↔
  GetICSCommittee w ts info = Ret (inl c) ∧ raw' = dropHashes raw (TsAddresses ts ≫= usedHashes raw ts).
Proof.
  intros Ha. unfold GetICSCommitteeFromRawContext, GetICSCommittee.
  set (l := imap (λ i addr, (Z.of_nat i, addr)) (TsAddresses ts)).
  assert (Hl2 : l.*2 = TsAddresses ts) by (unfold l; rewrite fmap_imap; transitivity (id <$> TsAddresses ts); [apply imap_const|apply list_fmap_id]).
  assert (Hl : ∀ p, p ∈ l → context_agrees raw ts p.2).
  { intros p Hp. apply Ha. rewrite <-Hl2. by apply list_elem_of_fmap_2. }
  destruct (NewICSCommittee (zlen (TsAddresses ts) + 1)) as [c0| |]; [|by split; [|intros []]..].
  cbn [mbind res_bind]. split.
  - intros H. apply bind_inl in H as (s1 & c1 & H1 & H). apply lift_inl in H1 as [-> H1]. injection H1 as <-.
    rewrite gets_bind in H. apply bind_inl in H as (s1 & [ics hs] & H1 & H). apply lift_res_inl in H1 as [-> H1].
    apply placeRaw_fold in H1 as [H1 ->]; [|done]. rewrite modify_bind in H. cbn [id] in H.
    apply bind_inl in H as (s1 & i0 & H2 & H). apply lift_inl in H2 as [-> H2].
    apply bind_inl in H as (s1 & rs & H3 & H). apply lift_res_inl in H3 as [-> H3]. apply lift_inl in H as [-> H].
    rewrite Hl2. split; [|done]. rewrite H1. cbn [ebind]. rewrite H2. cbn. rewrite H3. cbn. by rewrite H.
  - intros [H ->]. apply ebind_inl in H as (ics & H1 & H).
    destruct info as [i0|]; [|done]. cbn in H. apply ebind_inl in H as (rs & H3 & H).
    destruct (UpdateNodeSet ics _ rs) as [c2| |] eqn:Hu; [|done..]. injection H as ->.
    assert (Hr : efold (placeRaw raw ts) l (c0, []) = Ret (inl (ics, l.*2 ≫= usedHashes raw ts))) by (by apply placeRaw_fold).
    unfold mbind, eff_bind, lift, gets, lift_res, modify. cbn [id]. rewrite Hr. cbn [deref]. rewrite H3, Hu, Hl2. done.
Qed.
End RawContext.
