(* ===== verification/Scenario.v ===== *)
(** * A small cluster on which the definitions compute

    Two node sets of four validators, one participant account and the random
    set, everybody responded, on the instance of [Concrete.v].  The witnesses of
    the vote-set and engine theorems run on it. *)

From stdpp Require Import base gmap strings list.
From Stdlib Require Import ZArith Lia Strings.Byte.
From S2P Require Import Prelude External Types NodeSet Committee Cluster VoteSet Tally VoteSetFacts Concrete.

#[local] Existing Instances CE CX CE_bits CCanon.

Definition w_key (n : Z) : bytes := [cbyte (100 + n)].
Definition w_info (id : KramaID) (n : Z) : NodeInfo :=
  {| NI_ID := id; NI_PublicKey := w_key n; NI_Msg := None; NI_VotingPower := 0 |}.
Definition w_set (infos : list NodeInfo) : NodeSet :=
  {| Infos := infos; Responses := replicate (length infos) true; ExcludedFromICS := false;
     RespCount := zlen infos; SetSizeWithOutDelta := zlen infos |}.
Definition w_set0 : NodeSet := w_set [w_info "A" 0; w_info "B" 1; w_info "C" 2; w_info "D" 3].
Definition w_set1 : NodeSet := w_set [w_info "E" 4; w_info "F" 5; w_info "G" 6; w_info "H" 7].
Definition w_committee : ICSCommittee :=
  {| Sets := [Some w_set0; Some w_set1]; totalNodes := 8; size := 2 |}.
Definition w_heights : gmap Z Z := {[ 10 := 5 ]}.
Definition w_participant : Participant :=
  {| P_Height := 4; P_IsGenesis := false; P_TesseractHash := 0; P_NodeSetPosition := 0;
     P_ConsensusQuorum := 3; P_ExcludeFromICS := false; P_ContextDelta := None;
     P_AccType := 0; P_LockType := MutateLock; P_IsSigner := true; P_ContextHash := 0; P_CommitHash := 0 |}.
Definition w_cs : ClusterState :=
  NewICS [1] "cluster" "A" 0 "A" w_committee {[ (10 : Address) := w_participant ]} [] 1.
Definition w_quorum : list Z := [3; 3].

Lemma w_started : started w_committee w_quorum w_heights w_cs.
Proof.
  split; [split|split| |].
  - split; try done. intros set Hs. apply list_elem_of_In in Hs as [[= <-]|[[= <-]|[]]]; done.
  - done.
  - intros p. eapply Z.le_lt_trans; [apply tally_le_slots|]. vm_compute. done.
  - done.
  - eexists. vm_compute. reflexivity.
  - done.
  - exists 3. split; [set_solver|done].
Defined.

(** A signed vote of validator [n] for tesseract [h] in view [vw]. *)
Definition w_sign (ty : ConsensusMsgType) (vw h n : Z) : bytes :=
  csign (w_key n) [cbyte (ctype_code ty); cbyte vw; cbyte h].
Definition w_vote (ty : ConsensusMsgType) (vw h n : Z) : Vote :=
  {| V_Type := ty; V_IsQC := false; V_View := vw; V_SignerIndex := n; V_Timestamp := 0;
     V_Heights := w_heights; V_TSHash := h; V_SignerIndices := None;
     V_Signature := w_sign ty vw h n |}.
(** A certificate with the signatures of [signers]. *)
Definition w_qc (ty : ConsensusMsgType) (vw h : Z) (signers : list Z) : Vote :=
  {| V_Type := ty; V_IsQC := true; V_View := vw; V_SignerIndex := 0; V_Timestamp := 0;
     V_Heights := w_heights; V_TSHash := h;
     V_SignerIndices := Some ((λ i, bool_decide (i ∈ signers)) <$> seqZ 0 8);
     V_Signature := concat (w_sign ty vw h <$> signers) |}.

Definition w_ballot (ty : ConsensusMsgType) (vw h : Z) (signers : list Z) : list vs_op :=
  (λ n, OpVote (Some (w_vote ty vw h n))) <$> signers.

Lemma w_ballot_fitting ty vw h signers : Forall (fitting vw ty) (w_ballot ty vw h signers).
Proof. apply Forall_fmap. by apply Forall_true. Defined.

(** ** Witnesses of the committee's and the cluster's theorems *)
Lemma w_committee_ok : committee_ok w_committee.
Proof. exact (env_committee _ _ (st_env _ _ _ _ w_started)). Defined.

Lemma committee_lookup_refines_flat_witness :
  GetKramaID w_committee 6 = Ret (lookup_spec w_committee 6) ∧
  KR_ID (lookup_spec w_committee 6) = "G"%string ∧
  GetPublicKey w_committee 9 = Ret (""%string, []).
Proof.
  pose proof (committee_lookup_refines_flat w_committee 6 w_committee_ok) as [H1 _].
  pose proof (committee_lookup_refines_flat w_committee 9 w_committee_ok) as [_ H2].
  split; [exact H1|]. split; [reflexivity|exact H2].
Defined.

Lemma HasKramaID_GetKramaID_witness :
  ∃ k, GetKramaID w_committee 5 = Ret k ∧ KR_ID k = "F"%string ∧ KR_PublicKey k = w_key 5.
Proof.
  destruct (HasKramaID_GetKramaID w_committee "F" 5 (w_key 5) true w_committee_ok) as [_ H].
  - vm_compute. reflexivity.
  - destruct H as (k & ? & ? & ? & _); [discriminate|]. exists k. split_and!; assumption.
Defined.

(** The committee before anybody responded. *)
Definition w_silent (set : NodeSet) : NodeSet :=
  {| Infos := Infos set; Responses := replicate (length (Infos set)) false;
     ExcludedFromICS := false; RespCount := 0; SetSizeWithOutDelta := SetSizeWithOutDelta set |}.
Definition w_fresh : ICSCommittee :=
  {| Sets := [Some (w_silent w_set0); None; Some (w_silent w_set1)]; totalNodes := 8; size := 3 |}.
Lemma w_fresh_ok : committee_ok w_fresh.
Proof.
  split; try done. intros set Hs.
  apply list_elem_of_In in Hs as [[= <-]|[Hs|[[= <-]|[]]]]; done.
Defined.

Lemma UpdateValidatorResponse_records_witness :
  ∃ c', UpdateValidatorResponse w_fresh [5; 0] [] = Ret (inl [w_key 5; w_key 0], c') ∧
    committee_ok c' ∧ counted (Sets c').
Proof.
  destruct (UpdateValidatorResponse_records w_fresh [5; 0] w_fresh_ok)
    as (c' & He & Hok & _ & _ & Hc).
  - repeat constructor; cbn; lia.
  - exists c'. split; [exact He|]. split; [exact Hok|]. apply Hc.
    + apply NoDup_cons. split; [|apply NoDup_singleton]. intros H%list_elem_of_singleton. discriminate H.
    + intros i Hi. apply list_elem_of_In in Hi as [<-|[<-|[]]]; reflexivity.
    + intros set Hs. apply list_elem_of_In in Hs as [[= <-]|[Hs|[[= <-]|[]]]]; done.
Defined.

Lemma UpdateValidatorResponse_rejects_witness :
  ∃ c', UpdateValidatorResponse w_fresh [3; 8; 1] [] =
    Ret (inr (ENew "invalid validator index"), c') ∧ responded c' 3 = true ∧ responded c' 1 = false.
Proof.
  destruct (UpdateValidatorResponse_rejects w_fresh [3] 8 [1] w_fresh_ok) as (c' & He & Hr).
  - repeat constructor; cbn; lia.
  - right. cbn. lia.
  - exists c'. split; [exact He|]. rewrite !Hr. split; reflexivity.
Defined.

Lemma quorum_of_bounds_witness : quorum_of 7 = 5 ∧ quorum_of 7 ≤ 7.
Proof. destruct (quorum_of_bounds 7) as (H1 & H2 & _); [lia|]. split; [exact H1|exact H2]. Defined.

Lemma UpdateNodeSet_well_formed_witness :
  ∃ c', UpdateNodeSet w_fresh 1 (Some w_set0) = Ret c' ∧ committee_ok c'.
Proof.
  destruct (UpdateNodeSet_well_formed w_fresh 1 None w_set0 w_fresh_ok) as (c' & He & _ & Hok).
  - reflexivity.
  - reflexivity.
  - reflexivity.
  - exists c'. split; [exact He|]. apply Hok. reflexivity.
Defined.

Lemma GetQuorum_spec_witness :
  ∃ q, GetQuorum w_cs = Ret (q, set_quorum q w_cs) ∧ q !! 0%nat = Some 3 ∧ q !! 1%nat = Some 3.
Proof.
  destruct (GetQuorum_spec w_cs 3) as (q & He & _ & _ & _).
  - split; intros a; cbn.
    + intros p Hp. rewrite lookup_singleton in Hp. case_decide; [|done]. injection Hp as <-.
      vm_compute. split; [discriminate|reflexivity].
    + intros b p p' Hp Hp' _. rewrite lookup_singleton in Hp, Hp'. repeat case_decide; congruence.
  - reflexivity.
  - reflexivity.
  - exists q. split; [exact He|]. apply (Ret_seen (λ x, x.1) _ _ [3; 3]) in He; [|vm_compute; reflexivity].
    cbn in He. subst q. split; reflexivity.
Defined.

Lemma GetQuorum_stable_witness :
  GetQuorum (set_quorum [3; 3] w_cs) = Ret ([3; 3], set_quorum [3; 3] w_cs).
Proof. apply (GetQuorum_stable w_cs [3; 3] (set_quorum [3; 3] w_cs)). vm_compute. reflexivity. Defined.
