(* ===== verification/ConcreteChain.v ===== *)
(** * A concrete chain for the witnesses of the engine's theorems

    Two accounts with a context of four validators each; an interaction is a
    number, its operations are read off a table.  Signatures are those of
    [Concrete.v]. *)

From Stdlib Require Import Strings.String.
From stdpp Require Import base gmap strings list sorting pretty countable.
From Stdlib Require Import ZArith Lia Strings.Byte.
From S2P Require Import Prelude Effect External Chain Types Concrete NodeSet Committee Cluster Validation VoteSet Tally VoteSetFacts ValidationSpec ClusterStart RawContext Scenario.

#[local] Existing Instances CE CX CE_bits CCanon CT.

(** Interaction 1 transfers 5 units, interaction 2 mints and then transfers a
    million, both from account 10. *)
Definition CIX : InteractionOps CE CX := {|
  Interaction := Z; IxOp := IxOpType * Z; AssetID := Z;
  IxList l := (l : list Z);
  Ixs_Participants _ := {[ (10 : @Address CE) := {| PInfo_AccType := 0; PInfo_IsGenesis := false;
    PInfo_LockType := MutateLock; PInfo_IsSigner := true |} ]};
  Ixs_Locks _ := {[ (10 : @Address CE) := MutateLock ]};
  Ixs_LeaderCandidateAddress _ := 10;
  Ixs_Hash l := inl (zlen l);
  Ix_Sender _ := 10; Ix_Nonce _ := 1; Ix_Cost _ := 1;
  Ix_Ops i := if i =? 2 then [(IxAssetMint, 1); (IxAssetTransfer, 1000000)] else [(IxAssetTransfer, 5)];
  Op_Type := fst;
  Op_CreateAmount op := inl op.2;
  Op_TransferPayload op := inl (1, op.2);
  Op_RegistryKey _ := inl ""%string;
  Address_IsNil a := (a : Z) =? 0;
  KMOITokenAssetID := 1;
|}.

Definition CTV : TesseractView CE CX CT := @Build_TesseractView CE CX CT
  (λ t, (map_to_list (ct_heights t)).*1)
  (λ t, (λ _, @Build_PState CE 1 0 1 0 1 None) <$> ct_heights t)
  (λ _ _, false) (λ _, 1)
  (λ t, Some (@Build_CommitInfo CE (ct_qc t) ["E"; "F"; "G"; "H"]%string 4 "A" "c1" 1))
  (λ t a, default 0 (ct_heights t !! a)) (λ _ _, 0) (λ _, 0) (λ _, [1]) (λ _, 1) (λ _, 1)
  (λ _, "A"%string) (λ _, []).

(** The chain state: the context of every account. *)
Definition c_keys (ids : list KramaID) : list bytes := list_byte_of_string <$> ids.
Definition c_sort : list Z → list Z := merge_sort Z.le.
Definition CCH : Chain CE CX CT CIX := @Build_Chain CE CX CT CIX
  (gmap Z (list KramaID)) 0 Z
  (λ w a, match w !! a with
          | Some _ => inl (@Build_AccountMetaInfo CE 0 4 0 0 1 1)
          | None => inr (ECommon "ErrAccountNotFound") end)
  (λ w a, match w !! a with
          | Some ids => inl (1, ids, [], c_keys ids, [])
          | None => inr (ECommon "ErrAccountNotFound") end)
  (λ _ ids, inl (c_keys ids))
  (λ w a _, match w !! a with
            | Some ids => inl (ids, [])
            | None => inr (ECommon "ErrAccountNotFound") end)
  (λ w a, inl (is_some (w !! a)))
  (λ w _, inl 100)
  (λ w _ _, inl 1)
  (λ _ a, inl (a : Z)) (λ _, inl 100) (λ _ _, inl 10)
  (λ w _ _, inl true)
  (λ w _, (true, None))
  (λ o cost, (cost <=? o, None))
  (λ o _, inl o)
  (λ o _, false)
  (λ w _ _ _, inr (ECommon "ErrKeyNotFound"))
  (λ w _ _, false)
  (λ l, bool_decide (l ≠ MutateLock))
  c_sort (λ a b, (a : Z) <? b).

Lemma CCH_laws : ChainLaws CE CX CT CIX CCH.
Proof.
  split.
  - intros w ids keys [= <-]. apply length_fmap.
  - intros w a h bs rs bk rk H. cbn in H. destruct ((w : gmap Z (list KramaID)) !! (a : Z)); simplify_eq. apply length_fmap.
  - intros l. apply merge_sort_Permutation.
  - intros l l' Hp. apply (Sorted_unique Z.le); try apply _.
    + apply (Sorted_merge_sort _).
    + apply (Sorted_merge_sort _).
    + cbn. unfold c_sort. by rewrite !merge_sort_Permutation.
Qed.

#[export] Existing Instances CIX CTV CCH CCH_laws.
Definition w_contexts : gmap Z (list KramaID) :=
  {[ 10 := ["A"; "B"; "C"; "D"]%string; 20 := ["E"; "F"; "G"; "H"]%string ]}.
Definition w_world : @World CE CX CT CIX CCH := w_contexts.

(** ** Witnesses *)
Definition w_cert (signers : list Z) (sig : bytes) : Qc :=
  {| Qc_Type := PREVOTE; Qc_View := 1; Qc_TSHash := 7; Qc_Address := NilAddress;
     Qc_SignerIndices := Some ((λ i, bool_decide (i ∈ signers)) <$> seqZ 0 8); Qc_Signature := sig |}.
Definition w_six_signers : list Z := [0; 1; 2; 4; 5; 6].
Definition w_good : Qc := w_cert w_six_signers (concat (w_sign PREVOTE 1 7 <$> w_six_signers)).
Definition w_forged : Qc := w_cert w_six_signers [].
Definition nobody_excluded (a : @Address CE) : bool := false.

Lemma verifyQc_accepts_witness :
  verifyQc VerifyAggregateSignature [(10 : @Address CE)] nobody_excluded 1 w_committee w_good = Ret (true, None) ∧
  ∃ b, Qc_SignerIndices w_good = Some b ∧
    certified w_committee [(10 : @Address CE)] nobody_excluded (λ i, GetIndex b (Z.of_nat i)).
Proof.
  assert (Hv : verifyQc VerifyAggregateSignature [(10 : @Address CE)] nobody_excluded 1 w_committee w_good
               = Ret (true, None)) by (vm_compute; reflexivity).
  split; [exact Hv|]. eexists. split; [reflexivity|].
  destruct (verifyQc_accepts VerifyAggregateSignature w_committee [(10 : @Address CE)] nobody_excluded 1 w_good
              ((λ i, bool_decide (i ∈ w_six_signers)) <$> seqZ 0 8) w_set1) as (ok & e & He & Hi & _).
  - exact w_committee_ok.
  - reflexivity.
  - reflexivity.
  - exact (env_weights _ _ (st_env _ _ _ _ w_started)).
  - reflexivity.
  - vm_compute. discriminate.
  - rewrite Hv in He. injection He as <- _. apply Hi. reflexivity.
Defined.

(** The same certificate with an empty signature: the tesseract is accepted. *)
Definition w_block (qc : Qc) : CTesseract :=
  {| ct_hash := 7; ct_heights := {[ 10 := 5 ]}; ct_cluster := "cluster"; ct_qc := Some qc;
     ct_seal := []; ct_sealer := "A" |}.
Example forged_block_accepted :
  verifyQc VerifyAggregateSignature [(10 : @Address CE)] nobody_excluded 1 w_committee w_forged = Ret (false, None) ∧
  ValidateTesseract VerifyAggregateSignature w_world 10 (w_block w_forged) w_committee true = Ret None.
Proof. split; vm_compute; reflexivity. Qed.

(** A transfer of a million behind a mint is not checked; alone it is refused. *)
Example transfer_behind_mint_unchecked :
  validateInteractions w_world [2] = None ∧
  checkOps w_world 10 [(IxAssetTransfer, 1000000)] = Some (ENew "invalid balance").
Proof. split; reflexivity. Qed.

Definition w_pinfo : ParticipantInfo :=
  {| PInfo_AccType := 0; PInfo_IsGenesis := false; PInfo_LockType := MutateLock; PInfo_IsSigner := true |}.
Definition w_ps : gmap (@Address CE) ParticipantInfo := {[ (10 : @Address CE) := w_pinfo; (20 : @Address CE) := w_pinfo ]}.
Definition w_fetched : gmap (@Address CE) Participant * ICSCommittee :=
  match fetchParticipantsAndCommittee w_world w_ps with
  | Ret (inl acc) => acc
  | _ => (∅, w_committee)
  end.
Lemma w_fetch : fetchParticipantsAndCommittee w_world w_ps = Ret (inl (w_fetched.1, w_fetched.2)).
Proof.
  assert (H : match fetchParticipantsAndCommittee w_world w_ps with Ret (inl _) => true | _ => false end = true)
    by (vm_compute; reflexivity).
  unfold w_fetched. by destruct (fetchParticipantsAndCommittee w_world w_ps) as [[[m c]|e]| |].
Qed.

Lemma fetch_order_irrelevant_witness :
  fetchFrom w_world (reverse (map_to_list w_ps)) = Ret (inl (w_fetched.1, w_fetched.2)).
Proof.
  apply (fetch_order_irrelevant w_world w_ps (reverse (map_to_list w_ps)) (w_fetched.1, w_fetched.2)).
  - apply reverse_Permutation.
  - exact w_fetch.
Defined.

Lemma cluster_starts_witness :
  ∃ cs q, started (committee cs) q (NewHeights cs) cs ∧ totalNodes w_fetched.2 = 8 ∧
    q !! base.size w_fetched.1 = Some 3.
Proof.
  destruct (cluster_starts w_world w_ps w_fetched.1 w_fetched.2 ["X"; "Y"; "Z"]%string
              (c_keys ["X"; "Y"; "Z"]%string) 3 [1] "cluster" "A" 0 "A" [] 1)
    as (ns & cs & q & _ & _ & Hst & Hq & _).
  - exact w_fetch.
  - reflexivity.
  - vm_compute. reflexivity.
  - exists cs, q. split; [exact Hst|]. split; [vm_compute; reflexivity|exact Hq].
Defined.

Definition w_no_random : CommitInfo :=
  {| CI_QC := Some w_good; CI_RandomSet := []; CI_RandomSetSizeWithoutDelta := 0;
     CI_Operator := "A"; CI_ClusterID := "c1"; CI_View := 1 |}%string.
Definition w_ics : ICSCommittee :=
  match GetICSCommittee w_world (w_block w_good) (Some w_no_random) with
  | Ret (inl c) => c
  | _ => w_committee
  end.
Lemma empty_random_set_panics_witness :
  verifyQc VerifyAggregateSignature (TsAddresses (w_block w_good)) nobody_excluded 1 w_ics w_good
  = Panic "nil pointer dereference".
Proof.
  apply (empty_random_set_panics VerifyAggregateSignature w_world (w_block w_good) w_no_random w_ics w_good
           ((λ i, bool_decide (i ∈ w_six_signers)) <$> seqZ 0 8)).
  - vm_compute. reflexivity.
  - reflexivity.
  - vm_compute. reflexivity.
  - reflexivity.
  - vm_compute. discriminate.
  - intros [|k] addr q Hk _ Hq; [|destruct k; discriminate]. vm_compute in Hq. injection Hq as <-.
    vm_compute. discriminate.
Defined.

(** ** Raw contexts *)
(** A meta context is the two hashes, a context its identifiers. *)
Definition CRC : RawContexts CE := {|
  Hash_String h := pretty (h : Z);
  MetaContext_FromBytes := @Depolorize _ (codec_of (Z * Z));
  ContextObject_Ids := @Depolorize _ (codec_of (list string));
|}.
Definition w_encode {A} (C : PoloCodec A) (a : A) : bytes := match Polorize a with inl raw => raw | inr _ => [] end.
Definition w_raw : gmap string bytes :=
  {[ "1" := w_encode (codec_of (Z * Z)) (2, 3);
     "2" := w_encode (codec_of (list string)) ["A"; "B"; "C"; "D"]%string;
     "9" := [] ]}%string.
Lemma raw_committee_agrees_witness :
  GetICSCommitteeFromRawContext (RC := CRC) w_world (w_block w_good) (Some w_no_random) w_raw
  = Ret ({[ "9" := [] ]}, inl w_ics)%string.
Proof.
  apply (raw_committee_agrees (RC := CRC) w_world (w_block w_good) (Some w_no_random) w_raw w_ics).
  - intros addr Ha _. assert (addr = 10) as -> by (by apply list_elem_of_singleton in Ha).
    exists 2, 3, (w_encode (codec_of (list string)) ["A"; "B"; "C"; "D"]%string), ["A"; "B"; "C"; "D"]%string, [], None.
    split; [vm_compute; reflexivity|]. split; [vm_compute; reflexivity|]. split; [vm_compute; reflexivity|].
    split; vm_compute; reflexivity.
  - split; vm_compute; reflexivity.
Defined.
