(* ===== verification/Sortition.v ===== *)
(** * Operator selection: [sortition.go]

    The operators seen for a lottery key are kept in a binary heap (the
    [container/heap] of the standard library) inside an LRU cache; only the head
    of the heap is eligible.  The cache is code of another module: [LruCache]
    gives its operations and [LruLaws] what it documents, eviction included.  The
    operator records are pointers, shared between the cache's list and the
    function that counts attempts, so they live in a heap of records. *)

From stdpp Require Import base gmap strings list fin_maps.
From Stdlib Require Import ZArith Lia Structures.OrdersEx.
From S2P Require Import Prelude External Chain.

(** ** [container/heap] *)
Section Heap.
Context {A : Type} (less : A → A → bool).

Definition parent (j : nat) : nat := Nat.div (pred j) 2.

(** [up(h, j)]; every step halves the index, so [fuel] steps are enough for an
    index of at most [fuel]. *)
Fixpoint up (fuel : nat) (l : list A) (j : nat) : list A :=
  match fuel with
  | O => l
  | S fuel' =>
      let i := parent j in
      if (i =? j)%nat then l
      else
        match l !! j, l !! i with
        | Some x, Some y => if less x y then up fuel' (<[i := x]> (<[j := y]> l)) i else l
        | _, _ => l
        end
  end.
(** [heap.Push(&h, x)]: append, then move up from the last place. *)
Definition heapPush (l : list A) (x : A) : list A := up (length l) (l ++ [x]) (length l).
End Heap.

(** ** The operators of a lottery key *)
Record ICSOperatorInfo := {
  OI_KramaID : KramaID;
  OI_Priority : Z;
  OI_Attempts : Z;
}.
Definition noOperator : ICSOperatorInfo := {| OI_KramaID := ""; OI_Priority := 0; OI_Attempts := 0 |}.

(** [a > b] on strings *)
Definition str_gt (a b : string) : bool := match String_as_OT.compare a b with Gt => true | _ => false end.

(** [ICSOperators.Less] on the records pointed to. *)
Definition Less (a b : ICSOperatorInfo) : bool :=
  if OI_Priority a =? OI_Priority b then str_gt (OI_KramaID a) (OI_KramaID b)
  else OI_Priority b <? OI_Priority a.

Notation ICSOperators := (list positive).
Definition infoAt (infos : gmap positive ICSOperatorInfo) (l : positive) : ICSOperatorInfo :=
  default noOperator (infos !! l).
Definition operators_Has (infos : gmap positive ICSOperatorInfo) (r : ICSOperators) (id : KramaID) : bool :=
  existsb (λ v, bool_decide (OI_KramaID (infoAt infos v) = id)) r.
Definition operators_Peek (r : ICSOperators) : option positive := head r.
Definition operators_Len (r : ICSOperators) : Z := zlen r.
Definition operators_Less (infos : gmap positive ICSOperatorInfo) (a b : positive) : bool :=
  Less (infoAt infos a) (infoAt infos b).

(** ** The cache *)
Class LruCache (K V : Type) := {
  Lru : Type;
  LruNew : Z → Lru;
  LruGet : K → Lru → option V * Lru;
  LruAdd : K → V → Lru → Lru;
  LruRemove : K → Lru → Lru;
}.
Class LruLaws (K V : Type) (LC : LruCache K V) : Prop := {
  lru_new : ∀ n k, (LruGet k (LruNew n)).1 = None;
  lru_get : ∀ c k k', (LruGet k' (LruGet k c).2).1 = (LruGet k' c).1;
  lru_add : ∀ c k v, (LruGet k (LruAdd k v c)).1 = Some v;
  lru_add_other : ∀ c k v k' v', k ≠ k' →
    (LruGet k' (LruAdd k v c)).1 = Some v' → (LruGet k' c).1 = Some v';
  lru_remove : ∀ c k, (LruGet k (LruRemove k c)).1 = None;
  lru_remove_other : ∀ c k k' v, k ≠ k' →
    (LruGet k' (LruRemove k c)).1 = Some v → (LruGet k' c).1 = Some v;
}.

Definition MaxEligibleOperators : Z := 1.
Definition ExpectedSortionSize : Z := 11.

(** ** [OperatorSelection] *)
Section OperatorSelection.
Context {LotteryKey : Type} `{!LruCache LotteryKey ICSOperators}.

Record OperatorSelection := {
  OS_ixOperators : Lru;
  OS_infos : gmap positive ICSOperatorInfo;
}.
Definition NewOperatorSelection : OperatorSelection :=
  {| OS_ixOperators := LruNew 50; OS_infos := ∅ |}.
Definition with_operators (os : OperatorSelection) (c : Lru) : OperatorSelection :=
  {| OS_ixOperators := c; OS_infos := OS_infos os |}.

Definition newOperator (infos : gmap positive ICSOperatorInfo) (id : KramaID) (priority : Z)
    : positive * gmap positive ICSOperatorInfo :=
  let l := fresh (dom infos) in
  (l, <[l := {| OI_KramaID := id; OI_Priority := priority; OI_Attempts := 1 |}]> infos).

(** [v.Attempts++] on [uint8] *)
Definition countAttempt (v : ICSOperatorInfo) : ICSOperatorInfo :=
  {| OI_KramaID := OI_KramaID v; OI_Priority := OI_Priority v; OI_Attempts := u8 (OI_Attempts v + 1) |}.

Definition AddICSOperatorInfo (key : LotteryKey) (id : KramaID) (priority : Z) (os : OperatorSelection)
    : OperatorSelection :=
  let '(o, c) := LruGet key (OS_ixOperators os) in
  match o with
  | None =>
      let '(l, infos) := newOperator (OS_infos os) id priority in
      {| OS_ixOperators := LruAdd key (heapPush (operators_Less infos) [] l) c; OS_infos := infos |}
  | Some list =>
      match List.find (λ v, bool_decide (OI_KramaID (infoAt (OS_infos os) v) = id)) list with
      | Some v => {| OS_ixOperators := c; OS_infos := alter countAttempt v (OS_infos os) |}
      | None =>
          let '(l, infos) := newOperator (OS_infos os) id priority in
          {| OS_ixOperators := LruAdd key (heapPush (operators_Less infos) list l) c; OS_infos := infos |}
      end
  end.

Definition IsEligible (key : LotteryKey) (id : KramaID) (os : OperatorSelection) : bool * OperatorSelection :=
  let '(o, c) := LruGet key (OS_ixOperators os) in
  (match o with
   | None => false
   | Some list => existsb (λ '(index, v), (index <? MaxEligibleOperators)
                     && bool_decide (OI_KramaID (infoAt (OS_infos os) v) = id))
                    (imap (λ i v, (Z.of_nat i, v)) list)
   end, with_operators os c).

Definition DeleteICS (key : LotteryKey) (os : OperatorSelection) : OperatorSelection :=
  with_operators os (LruRemove key (OS_ixOperators os)).

Definition GetEligibleOperators (key : LotteryKey) (os : OperatorSelection)
    : list ICSOperatorInfo * OperatorSelection :=
  let '(o, c) := LruGet key (OS_ixOperators os) in
  (match o with
   | None => []
   | Some list =>
       (λ v, {| OI_KramaID := OI_KramaID (infoAt (OS_infos os) v);
                OI_Priority := OI_Priority (infoAt (OS_infos os) v); OI_Attempts := 0 |})
       <$> take (Z.to_nat MaxEligibleOperators) list
   end, with_operators os c).
End OperatorSelection.

(** ** The seed and the lottery *)
Section Lottery.
Context `{ET : ExtTypes} `{EX : !ExtOps ET} `{TO : !TesseractOps ET} `{IX : !InteractionOps ET EX}.
Context `{CH : !Chain ET EX TO IX}.
(** [vrf] evaluation and verification, and [sortition.Select] *)
Context (vrfEvaluate : Z → (Z * bytes) + err) (vrfVerify : bytes → Z → Z → bytes → bool * option err).
Context (sortitionSelect : Z → Z → Z → Z → Z).
Context (w : World).

(** A 32-byte seed is a number; [^=] byte by byte is [Z.lxor].  The accumulator
    is the seed so far and the tesseract hashes seen. *)
Definition addSeed (acc : Z * gset Hash) (entry : Address * Participant) : res (Z * gset Hash + err) :=
  let '(icsSeed, knownTSHashes) := acc in
  let '(addr, account) := entry in
  if P_IsGenesis account || P_ExcludeFromICS account then Ret (inl acc)
  else if decide (P_TesseractHash account ∈ knownTSHashes) then Ret (inl acc)
  else
    let known := {[P_TesseractHash account]} ∪ knownTSHashes in
    match SM_GetICSSeed w addr with
    | inr e => Ret (inr e)
    | inl seed => Ret (inl (if icsSeed =? seed then icsSeed else Z.lxor icsSeed seed, known))
    end.
(** Go walks the participants in some order; [computeICSSeedFrom] is the function
    for one. *)
Definition computeICSSeedFrom (accounts : list (Address * Participant)) : res (Z + err) :=
  let! '(icsSeed, _) := efold addSeed accounts (0, ∅) in Ret (inl icsSeed).
Definition computeICSSeed (accounts : gmap Address Participant) : res (Z + err) :=
  computeICSSeedFrom (map_to_list accounts).

Definition computeVRFOutput (icsSeed : Z) : (Z * bytes) + err := vrfEvaluate icsSeed.

Definition Select (operatorIncentive icsOutput : Z) : Z + err :=
  match SM_GetTotalIncentives w with
  | inr e => inr e
  | inl totalIncentives =>
      if totalIncentives <? ExpectedSortionSize then inr (ENew "ErrInvalidTotalIncentives")
      else
        let selection := sortitionSelect operatorIncentive totalIncentives ExpectedSortionSize icsOutput in
        if 0 <? selection then inl selection else inr (ENew "operator not eligible")
  end.

(** [keys\[0\]] panics when the state knows no key of the operator. *)
Definition VerifySelection (operator : KramaID) (icsSeed icsOutput : Z) (icsProof : bytes) : res (Z + err) :=
  match SM_GetPublicKeys w [operator] with
  | inr e => Ret (inr e)
  | inl keys =>
      pk ← go_index keys 0;
      Ret match vrfVerify pk icsOutput icsSeed icsProof with
          | (_, Some e) => inr e
          | (false, None) => inr (ENew "invalid ics proof")
          | (true, None) =>
              match SM_GetGuardianIncentives w operator with
              | inr e => inr e
              | inl operatorIncentive => Select operatorIncentive icsOutput
              end
          end
  end.
End Lottery.
