(* ===== verification/SortitionSpec.v ===== *)
(** * What operator selection guarantees: the theorems

    The list of operators of a lottery key is a heap in every history, so its
    head, the one eligible operator, is the best of all that registered.  The
    seed is the exclusive or of the accounts' seeds unless a partial result
    coincides with the next seed, in which case it depends on Go's map order. *)

From stdpp Require Import base gmap strings list fin_maps sorting.
From Stdlib Require Import ZArith Lia Structures.OrdersEx.
From S2P Require Import Prelude External Chain Sortition Concrete Scenario ConcreteChain.

(** ** Heaps *)
Section Heap.
Context {A : Type} (less : A → A → bool).
(** A strict weak order. *)
Context (less_asym : ∀ x y, less x y = true → less y x = false).
Context (less_neg_trans : ∀ x y z, less x y = false → less y z = false → less x z = false).

#[local] Arguments parent : simpl never.

Definition heap_ok (l : list A) : Prop :=
  ∀ j x y, (0 < j)%nat → l !! j = Some x → l !! parent j = Some y → less x y = false.

(** A heap but for the entry at [k], whose children respect its parent. *)
Definition heap_but (l : list A) (k : nat) : Prop :=
  (∀ j x y, (0 < j)%nat → j ≠ k → l !! j = Some x → l !! parent j = Some y → less x y = false) ∧
  (∀ j x y, (0 < j)%nat → (0 < k)%nat → parent j = k → l !! j = Some x → l !! parent k = Some y →
     less x y = false).

Lemma parent_lt j : (0 < j)%nat → (parent j < j)%nat.
Proof. intros H. unfold parent. pose proof (Nat.Div0.div_le_upper_bound (pred j) 2 (pred j)). lia. Qed.
Lemma parent_0 : parent 0 = 0%nat.
Proof. done. Qed.

Lemma up_perm fuel l j : up less fuel l j ≡ₚ l.
Proof.
  revert l j. induction fuel as [|fuel IH]; intros l j; [done|]. cbn.
  destruct (parent j =? j)%nat eqn:E; [done|]. apply Nat.eqb_neq in E.
  destruct (l !! j) as [x|] eqn:Ej; [|done]. destruct (l !! parent j) as [y|] eqn:Ei; [|done].
  destruct (less x y); [|done]. rewrite IH. by apply Permutation_insert_swap.
Qed.

Lemma heap_but_top l k x y :
  heap_but l k → l !! k = Some x → l !! parent k = Some y → less x y = false → heap_ok l.
Proof.
  intros [H1 _] Hx Hy Hxy j a b Hj Ha Hb. destruct (decide (j = k)) as [->|Hne].
  - rewrite Hx in Ha. rewrite Hy in Hb. by simplify_eq.
  - by eapply H1.
Qed.

(** Exchanging an entry with its worse parent moves the exception up. *)
Lemma heap_but_swap l k x y :
  (0 < k)%nat → heap_but l k → l !! k = Some x → l !! parent k = Some y → less x y = true →
  heap_but (<[parent k := x]> (<[k := y]> l)) (parent k).
Proof.
  intros Hk [H1 H2] Hx Hy Hxy. pose proof (parent_lt k Hk) as Hlt. pose proof (less_asym _ _ Hxy) as Hyx.
  assert (Hlen : (k < length l)%nat) by (by apply lookup_lt_Some in Hx).
  assert (Hat : ∀ j, <[parent k := x]> (<[k := y]> l) !! j
            = if decide (j = parent k) then Some x else if decide (j = k) then Some y else l !! j).
  { intros j. repeat case_decide; subst.
    - apply list_lookup_insert_eq. rewrite length_insert. lia.
    - rewrite list_lookup_insert_ne by done. by apply list_lookup_insert_eq.
    - by rewrite !list_lookup_insert_ne by done. }
  split; intros j a b; rewrite !Hat.
  - intros Hj Hne Ha Hb. rewrite decide_False in Ha by done. destruct (decide (j = k)) as [->|Hjk].
    + rewrite decide_True in Hb by done. by simplify_eq.
    + destruct (decide (parent j = parent k)) as [Hp|Hp].
      * simplify_eq. apply (less_neg_trans a y b); [|done]. apply (H1 j); try done. by rewrite Hp.
      * destruct (decide (parent j = k)) as [Hpk|Hpk].
        -- simplify_eq. by apply (H2 j).
        -- by apply (H1 j).
  - intros Hj Hi Hp Ha Hb. pose proof (parent_lt (parent k) Hi) as Hlt2.
    rewrite !decide_False in Hb by lia.
    assert (Hyz : less y b = false) by (apply (H1 (parent k)); (done || lia)).
    destruct (decide (j = parent k)) as [->|_]; [pose proof (parent_lt (parent k) Hi); lia|].
    destruct (decide (j = k)) as [->|Hjk]; [by simplify_eq|].
    apply (less_neg_trans a y b); [|done]. apply (H1 j); try done. by rewrite Hp.
Qed.

Lemma up_ok fuel l k : (k ≤ fuel)%nat → (k < length l)%nat → heap_but l k → heap_ok (up less fuel l k).
Proof.
  revert l k. induction fuel as [|fuel IH]; intros l k Hf Hk Hb; cbn.
  - assert (k = 0%nat) as -> by lia. intros j x y Hj. apply Hb; lia.
  - destruct (Nat.eqb_spec (parent k) k) as [E|E].
    + destruct k; [intros j x y Hj; apply Hb; lia|]. pose proof (parent_lt (S k)). lia.
    + assert (Hk0 : (0 < k)%nat) by (destruct k; [done|lia]). pose proof (parent_lt k Hk0).
      destruct (lookup_lt_is_Some_2 l k Hk) as [x Hx].
      destruct (lookup_lt_is_Some_2 l (parent k)) as [y Hy]; [lia|]. rewrite Hx, Hy.
      destruct (less x y) eqn:Hxy; [|by eapply heap_but_top].
      apply IH; [lia|rewrite !length_insert; lia|]. by apply heap_but_swap.
Qed.

Lemma heapPush_perm l x : heapPush less l x ≡ₚ x :: l.
Proof. unfold heapPush. rewrite up_perm. by rewrite <-Permutation_cons_append. Qed.

Lemma heapPush_ok l x : heap_ok l → heap_ok (heapPush less l x).
Proof.
  intros H. apply up_ok; [done|rewrite length_app; cbn; lia|]. split.
  - intros j a b Hj Hne Ha Hb. assert (j < length l)%nat.
    { apply lookup_lt_Some in Ha. rewrite length_app in Ha. cbn in Ha. lia. }
    pose proof (parent_lt j Hj). rewrite lookup_app_l in Ha by done. rewrite lookup_app_l in Hb by lia.
    by apply (H j).
  - intros j a b Hj Hl Hp Ha Hb. apply lookup_lt_Some in Ha. rewrite length_app in Ha. cbn in Ha.
    pose proof (parent_lt j Hj). lia.
Qed.

(** Nobody is better than the head. *)
Lemma heap_head l h : heap_ok l → head l = Some h → ∀ x, x ∈ l → less x h = false.
Proof.
  intros Hok Hh x (j & Hj)%list_elem_of_lookup. revert x Hj.
  induction (lt_wf j) as [j _ IH]. intros x Hx. destruct (decide (j = 0%nat)) as [->|Hj0].
  - assert (x = h) as -> by (destruct l; cbn in *; congruence).
    destruct (less h h) eqn:E; [|done]. by rewrite (less_asym _ _ E) in E.
  - assert (Hlt : (parent j < j)%nat) by (apply parent_lt; lia).
    destruct (lookup_lt_is_Some_2 l (parent j)) as [y Hy]; [apply lookup_lt_Some in Hx; lia|].
    apply (less_neg_trans x y h); [|by apply (IH (parent j))]. apply (Hok j); (done || lia).
Qed.
End Heap.

(** ** The order of operators *)
Lemma str_compare_spec a b : CompSpec eq String_as_OT.lt a b (String_as_OT.compare a b).
Proof. apply String_as_OT.compare_spec. Qed.

Lemma str_gt_spec a b : str_gt a b = true ↔ String_as_OT.lt b a.
Proof.
  unfold str_gt. destruct (str_compare_spec a b) as [->|H|H]; split; try done.
  - intros H. by apply (irreflexivity String_as_OT.lt) in H.
  - intros H'. exfalso. apply (irreflexivity String_as_OT.lt a). by etrans.
Qed.
Lemma str_total a b : String_as_OT.lt a b ∨ a = b ∨ String_as_OT.lt b a.
Proof. destruct (str_compare_spec a b); auto. Qed.

Lemma Less_spec a b :
  Less a b = true ↔ OI_Priority b < OI_Priority a ∨
    (OI_Priority a = OI_Priority b ∧ String_as_OT.lt (OI_KramaID b) (OI_KramaID a)).
Proof.
  unfold Less. destruct (Z.eqb_spec (OI_Priority a) (OI_Priority b)).
  - rewrite str_gt_spec. split; [by right|]. intros [|[_ ?]]; [lia|done].
  - rewrite Z.ltb_lt. split; [by left|]. intros [|[? _]]; [done|lia].
Qed.
Lemma Less_asym a b : Less a b = true → Less b a = false.
Proof.
  intros H. apply not_true_is_false. revert H. rewrite !Less_spec.
  intros [?|[? H1]] [?|[? H2]]; try lia. apply (irreflexivity String_as_OT.lt (OI_KramaID a)). by etrans.
Qed.
Lemma Less_false a b :
  Less a b = false ↔ OI_Priority a < OI_Priority b ∨
    (OI_Priority a = OI_Priority b ∧
      (OI_KramaID a = OI_KramaID b ∨ String_as_OT.lt (OI_KramaID a) (OI_KramaID b))).
Proof.
  rewrite <-not_true_iff_false, Less_spec. split.
  - intros H. destruct (Ztrichotomy (OI_Priority a) (OI_Priority b)) as [?|[?|?]]; [by left| |].
    + right. split; [done|]. destruct (str_total (OI_KramaID a) (OI_KramaID b)) as [?|[?|?]]; auto.
      exfalso. apply H. by right.
    + exfalso. apply H. left. lia.
  - intros [?|[? [Hab|Hab]]] [?|[? Hba]]; try lia.
    + rewrite Hab in Hba. by apply (irreflexivity String_as_OT.lt) in Hba.
    + apply (irreflexivity String_as_OT.lt (OI_KramaID a)). by etrans.
Qed.
Lemma Less_neg_trans a b c : Less a b = false → Less b c = false → Less a c = false.
Proof.
  rewrite !Less_false. intros [?|[? Hab]] [?|[? Hbc]]; [left; lia..|].
  right. split; [lia|]. destruct Hab as [->|Hab]; [done|]. right.
  destruct Hbc as [<-|Hbc]; [done|]. by etrans.
Qed.
(** Two operators with different ids are comparable. *)
Lemma Less_total a b : OI_KramaID a ≠ OI_KramaID b → Less a b = true ∨ Less b a = true.
Proof.
  intros Hne. rewrite !Less_spec. destruct (Ztrichotomy (OI_Priority a) (OI_Priority b)) as [?|[?|?]]; [naive_solver lia| |naive_solver lia].
  destruct (str_total (OI_KramaID a) (OI_KramaID b)) as [?|[?|?]]; naive_solver lia.
Qed.

(** ** Histories of registrations *)
Section Histories.
Context {LotteryKey : Type} `{!EqDecision LotteryKey}.
Context `{LC : !LruCache LotteryKey (list positive)} `{!LruLaws LotteryKey (list positive) LC}.

Definition peek (os : OperatorSelection) (key : LotteryKey) : option (list positive) :=
  (LruGet key (OS_ixOperators os)).1.
(** The operators of a key with their priorities, as the cache keeps them. *)
Definition entry (infos : gmap positive ICSOperatorInfo) (v : positive) : KramaID * Z :=
  (OI_KramaID (infoAt infos v), OI_Priority (infoAt infos v)).
Definition registered (os : OperatorSelection) (key : LotteryKey) : option (list (KramaID * Z)) :=
  match peek os key with Some l => Some (entry (OS_infos os) <$> l) | None => None end.

Record list_ok (infos : gmap positive ICSOperatorInfo) (l : list positive) : Prop := {
  lo_heap : heap_ok (operators_Less infos) l;
  lo_ids : NoDup (entry infos <$> l).*1;
  lo_valid : ∀ v, v ∈ l → is_Some (infos !! v);
}.
Definition os_ok (os : OperatorSelection) : Prop := ∀ key l, peek os key = Some l → list_ok (OS_infos os) l.

(** A list only depends on the ids and priorities of its records. *)
Lemma list_ok_same infos infos' l :
  (∀ v, v ∈ l → is_Some (infos' !! v) ∧ entry infos' v = entry infos v) →
  list_ok infos l → list_ok infos' l ∧ entry infos' <$> l = entry infos <$> l.
Proof.
  intros Hs [Hh Hn Hv].
  assert (He : entry infos' <$> l = entry infos <$> l).
  { apply list_fmap_ext. intros i v Hi. apply Hs. by eapply list_elem_of_lookup_2. }
  split; [|exact He]. split; [|by rewrite He|intros v Hin; by apply Hs].
  intros j x y Hj Hx Hy. rewrite <-(Hh j x y Hj Hx Hy). unfold operators_Less, Less.
  apply list_elem_of_lookup_2 in Hx, Hy. destruct (Hs x Hx) as [_ [= -> ->]].
  by destruct (Hs y Hy) as [_ [= -> ->]].
Qed.

Lemma entry_new infos id p v : is_Some (infos !! v) → entry (newOperator infos id p).2 v = entry infos v.
Proof.
  intros [o Ho]. unfold entry, infoAt, newOperator. cbn. rewrite lookup_insert_ne; [done|].
  intros <-. apply (is_fresh (dom infos)). apply elem_of_dom. by eexists.
Qed.
Lemma entry_fresh infos id p : entry (newOperator infos id p).2 (newOperator infos id p).1 = (id, p).
Proof. unfold entry, infoAt, newOperator. cbn. by rewrite lookup_insert_eq. Qed.
Lemma entry_attempt infos v u : entry (alter countAttempt v infos) u = entry infos u.
Proof.
  unfold entry, infoAt. destruct (decide (v = u)) as [->|Hne].
  - rewrite lookup_alter_eq. by destruct (infos !! u).
  - by rewrite lookup_alter_ne.
Qed.

Lemma list_ok_new infos id p l :
  list_ok infos l → list_ok (newOperator infos id p).2 l ∧ entry (newOperator infos id p).2 <$> l = entry infos <$> l.
Proof.
  intros Hl. apply list_ok_same; [|exact Hl]. intros v Hv. apply (lo_valid _ _ Hl) in Hv.
  rewrite entry_new by done. split; [|done]. cbn. rewrite lookup_insert_is_Some.
  destruct (decide (fresh (dom infos) = v)); tauto.
Qed.

Lemma list_ok_attempt infos v l :
  list_ok infos l → list_ok (alter countAttempt v infos) l ∧ entry (alter countAttempt v infos) <$> l = entry infos <$> l.
Proof.
  intros Hl. apply list_ok_same; [|exact Hl]. intros u Hu. rewrite entry_attempt. split; [|done].
  rewrite lookup_alter_is_Some. by apply (lo_valid _ _ Hl).
Qed.

Lemma list_ok_push infos id p l :
  list_ok infos l → id ∉ (entry infos <$> l).*1 →
  let n := newOperator infos id p in
  list_ok n.2 (heapPush (operators_Less n.2) l n.1) ∧
  entry n.2 <$> heapPush (operators_Less n.2) l n.1 ≡ₚ (id, p) :: (entry infos <$> l).
Proof.
  intros Hl Hni n. destruct (list_ok_new infos id p l Hl) as [[Hh Hn Hv] He]. fold n in Hh, Hn, Hv, He.
  pose proof (heapPush_perm (operators_Less n.2) l n.1) as Hp.
  assert (Hent : entry n.2 <$> heapPush (operators_Less n.2) l n.1 ≡ₚ (id, p) :: (entry infos <$> l)).
  { rewrite Hp, fmap_cons, He. unfold n. by rewrite entry_fresh. }
  split; [|exact Hent]. split.
  - apply heapPush_ok; [|..|exact Hh].
    + intros x y. apply Less_asym.
    + intros x y z. apply Less_neg_trans.
  - rewrite Hent. cbn. constructor; [exact Hni|]. by rewrite <-He.
  - intros v. rewrite Hp. intros [->|Hv']%elem_of_cons; [cbn; rewrite lookup_insert_eq; by eexists|by apply Hv].
Qed.

Lemma list_ok_empty infos : list_ok infos [].
Proof. split; [intros j x y _ Hx; done|constructor|intros v Hv; by apply elem_of_nil in Hv]. Qed.

(** *** Registering an operator *)
Definition joined (o : option (list (KramaID * Z))) (id : KramaID) (p : Z) : list (KramaID * Z) :=
  let l := default [] o in if decide (id ∈ l.*1) then l else (id, p) :: l.

Lemma peek_get key os : (LruGet key (OS_ixOperators os)).1 = peek os key.
Proof. done. Qed.

Lemma find_registered infos id l :
  match List.find (λ v, bool_decide (OI_KramaID (infoAt infos v) = id)) l with
  | Some v => id ∈ (entry infos <$> l).*1
  | None => id ∉ (entry infos <$> l).*1
  end.
Proof.
  rewrite <-list_fmap_compose. destruct (List.find _ l) as [v|] eqn:E.
  - apply find_some in E as [Hin E%bool_decide_eq_true]. apply list_elem_of_fmap. exists v.
    split; [by rewrite <-E|by apply list_elem_of_In].
  - intros (v & -> & Hv)%list_elem_of_fmap. apply list_elem_of_In in Hv.
    pose proof (find_none _ _ E v Hv) as H. by apply bool_decide_eq_false in H.
Qed.

Lemma Add_spec key id p os :
  os_ok os →
  let os' := AddICSOperatorInfo key id p os in
  os_ok os' ∧
  (∃ l', registered os' key = Some l' ∧ l' ≡ₚ joined (registered os key) id p) ∧
  (∀ key' l', key' ≠ key → registered os' key' = Some l' → registered os key' = Some l').
Proof.
  intros Hok. unfold AddICSOperatorInfo. destruct (LruGet key (OS_ixOperators os)) as [o c] eqn:Eg.
  assert (Ho : peek os key = o) by (unfold peek; by rewrite Eg).
  assert (Hc : ∀ k', (LruGet k' c).1 = peek os k').
  { intros k'. pose proof (lru_get (OS_ixOperators os) key k') as H. by rewrite Eg in H. }
  set (n := newOperator (OS_infos os) id p).
  (* the cases that push an operator *)
  assert (Hpush : ∀ l0, list_ok (OS_infos os) l0 → id ∉ (entry (OS_infos os) <$> l0).*1 →
    entry (OS_infos os) <$> l0 = default [] (registered os key) →
    let os' := {| OS_ixOperators := LruAdd key (heapPush (operators_Less n.2) l0 n.1) c; OS_infos := n.2 |} in
    os_ok os' ∧ (∃ l', registered os' key = Some l' ∧ l' ≡ₚ joined (registered os key) id p) ∧
    (∀ key' l', key' ≠ key → registered os' key' = Some l' → registered os key' = Some l')).
  { intros l0 Hl0 Hni He. destruct (list_ok_push _ _ p _ Hl0 Hni) as [Hl1 Hp]. fold n in Hl1, Hp.
    split; [|split].
    - intros k' l' Hk'. unfold peek in Hk'. cbn [OS_infos OS_ixOperators] in Hk'. destruct (decide (key = k')) as [<-|Hne].
      + rewrite lru_add in Hk'. by injection Hk' as <-.
      + apply lru_add_other in Hk'; [|done]. rewrite Hc in Hk'. apply list_ok_new. by apply (Hok k').
    - unfold registered at 1, peek. cbn [OS_infos OS_ixOperators]. rewrite lru_add. eexists. split; [done|].
      rewrite Hp. unfold joined. rewrite He. rewrite <-He, decide_False by done. done.
    - intros k' l' Hne. unfold registered, peek. cbn [OS_infos OS_ixOperators]. destruct (LruGet k' (LruAdd _ _ c)).1 as [l|] eqn:El; [|done].
      apply lru_add_other in El; [|done]. rewrite Hc in El. intros [= <-]. rewrite peek_get, El.
      f_equal. symmetry. apply list_ok_new. by apply (Hok k'). }
  destruct o as [l|].
  - pose proof (find_registered (OS_infos os) id l) as Hf.
    destruct (List.find _ l) as [v|].
    + split; [|split].
      * intros k' l' Hk'. unfold peek in Hk'. cbn in Hk'. rewrite Hc in Hk'. apply list_ok_attempt. by apply (Hok k').
      * unfold registered, peek. cbn. rewrite Hc, peek_get, Ho. cbn. eexists. split; [done|].
        unfold joined. cbn. rewrite decide_True by done. rewrite (proj2 (list_ok_attempt _ v _ (Hok _ _ Ho))). done.
      * intros k' l' Hne. unfold registered, peek. cbn. rewrite Hc, !peek_get. destruct (peek os k') as [l1|] eqn:E1; [|done].
        cbn. intros [= <-]. f_equal. symmetry. by apply list_ok_attempt, (Hok k').
    + apply Hpush; [by apply (Hok key)|done|]. unfold registered. by rewrite Ho.
  - apply Hpush; [apply list_ok_empty|by apply not_elem_of_nil|]. unfold registered. by rewrite Ho.
Qed.

(** *** Every history *)
Inductive os_op :=
| OAdd (key : LotteryKey) (id : KramaID) (priority : Z)
| OEligible (key : LotteryKey) (id : KramaID)
| OOperators (key : LotteryKey)
| ODelete (key : LotteryKey).
Definition os_step (os : OperatorSelection) (op : os_op) : OperatorSelection :=
  match op with
  | OAdd key id p => AddICSOperatorInfo key id p os
  | OEligible key id => (IsEligible key id os).2
  | OOperators key => (GetEligibleOperators key os).2
  | ODelete key => DeleteICS key os
  end.
Definition os_run (ops : list os_op) : OperatorSelection := foldl os_step NewOperatorSelection ops.

Lemma with_operators_registered os c :
  (∀ k l, (LruGet k c).1 = Some l → peek os k = Some l) →
  os_ok os → os_ok (with_operators os c) ∧
  ∀ k l, registered (with_operators os c) k = Some l → registered os k = Some l.
Proof.
  intros Hc Hok. split.
  - intros k l Hk. apply (Hok k). by apply Hc.
  - intros k l. unfold registered, peek. cbn [OS_ixOperators OS_infos with_operators].
    destruct (LruGet k c).1 as [l0|] eqn:E; [|done]. apply Hc in E. unfold peek in E. by rewrite E.
Qed.

Lemma step_registered os op :
  os_ok os → os_ok (os_step os op) ∧
  ∀ k l, registered (os_step os op) k = Some l → ∀ i q, (i, q) ∈ l →
    (∃ l0, registered os k = Some l0 ∧ (i, q) ∈ l0) ∨ op = OAdd k i q.
Proof.
  intros Hok.
  assert (Hget : ∀ k, os_ok (with_operators os (LruGet k (OS_ixOperators os)).2) ∧
            ∀ k' l, registered (with_operators os (LruGet k (OS_ixOperators os)).2) k' = Some l →
              registered os k' = Some l).
  { intros k. apply with_operators_registered; [|done]. intros k' l. by rewrite lru_get. }
  destruct op as [key id p|key id|key|key]; cbn [os_step].
  - destruct (Add_spec key id p os Hok) as (Hok' & (l' & Hl' & Hp) & Hother). split; [done|].
    intros k l Hl i q Hin. destruct (decide (k = key)) as [->|Hne].
    + rewrite Hl' in Hl. injection Hl as <-. rewrite Hp in Hin. unfold joined in Hin.
      destruct (registered os key) as [l0|]; cbn in Hin; [|set_solver].
      case_decide; [left; by exists l0|]. apply elem_of_cons in Hin as [[= -> ->]|Hin]; [by right|].
      left. by exists l0.
    + left. exists l. split; [by apply Hother|done].
  - unfold IsEligible. specialize (Hget key). destruct (LruGet key (OS_ixOperators os)) as [o c].
    destruct Hget as [H1 H2]. split; [exact H1|]. intros k l Hl i q Hin. left. exists l. split; [by apply H2|done].
  - unfold GetEligibleOperators. specialize (Hget key). destruct (LruGet key (OS_ixOperators os)) as [o c].
    destruct Hget as [H1 H2]. split; [exact H1|]. intros k l Hl i q Hin. left. exists l. split; [by apply H2|done].
  - destruct (with_operators_registered os (LruRemove key (OS_ixOperators os))) as [H1 H2]; [|done|].
    { intros k l Hk. destruct (decide (key = k)) as [<-|Hne]; [by rewrite lru_remove in Hk|].
      by apply lru_remove_other in Hk. }
    split; [exact H1|]. intros k l Hl i q Hin. left. exists l. split; [by apply H2|done].
Qed.

Lemma run_registered ops :
  os_ok (os_run ops) ∧ ∀ k l, registered (os_run ops) k = Some l → ∀ i q, (i, q) ∈ l → OAdd k i q ∈ ops.
Proof.
  induction ops as [|op ops IH] using rev_ind.
  - split; intros k l; unfold registered, peek; cbn; by rewrite lru_new.
  - unfold os_run in *. rewrite foldl_app. cbn [foldl]. destruct IH as [Hok Hin].
    destruct (step_registered _ op Hok) as [Hok' Hs]. split; [exact Hok'|].
    intros k l Hl i q Hiq. apply elem_of_app. destruct (Hs k l Hl i q Hiq) as [(l0 & H0 & H1)| ->].
    + left. by apply (Hin k l0).
    + right. by apply list_elem_of_singleton.
Qed.

Lemma IsEligible_head key a os :
  (IsEligible key a os).1 = true ↔ ∃ q rest, registered os key = Some ((a, q) :: rest).
Proof.
  unfold IsEligible, registered, peek. destruct (LruGet key (OS_ixOperators os)) as [[l|] c]; cbn [fst].
  2: { split; [done|]. by intros (? & ? & ?). }
  destruct l as [|v l]; cbn.
  - split; [done|]. by intros (? & ? & ?).
  - assert (Hrest : existsb (λ '(index, v), (index <? MaxEligibleOperators)
                       && bool_decide (OI_KramaID (infoAt (OS_infos os) v) = a))
                      (imap ((λ i v, (Z.of_nat i, v)) ∘ S) l) = false).
    { apply not_true_is_false. intros ([i u] & Hin & H)%existsb_exists. apply list_elem_of_In in Hin.
      apply elem_of_lookup_imap in Hin as (k & x & [= -> ->] & _). cbn in H.
      apply andb_prop in H as [H%Z.ltb_lt _]. unfold MaxEligibleOperators in H. lia. }
    rewrite Hrest, orb_false_r. change (Z.of_nat 0 <? MaxEligibleOperators) with true. rewrite andb_true_l, bool_decide_eq_true. unfold entry at 1. split.
    + intros <-. by eexists _, _.
    + by intros (q & rest & [= -> _ _]).
Qed.

(** C32. One operator is eligible per lottery key, and it is the best: in every
    history of registrations, queries, deletions and evictions, an operator is
    eligible exactly when it is at the head of the list the cache keeps for the
    key, nobody in the list has a higher priority, or the same one and a greater
    id, everybody in the list registered for this key with this priority, and
    no other operator is eligible for the key. *)
Theorem eligible_is_best ops key a :
  let os := os_run ops in
  ((IsEligible key a os).1 = true ↔
   ∃ l q, registered os key = Some l ∧ (a, q) ∈ l ∧
     ∀ b r, (b, r) ∈ l → r < q ∨ (r = q ∧ (b = a ∨ String_as_OT.lt b a))) ∧
  (∀ l b r, registered os key = Some l → (b, r) ∈ l → OAdd key b r ∈ ops) ∧
  (∀ b, (IsEligible key a os).1 = true → (IsEligible key b os).1 = true → a = b).
Proof.
  intros os. destruct (run_registered ops) as [Hok Hin]. split; [|split].
  - assert (Hhead : ∀ l a q, registered os key = Some ((a, q) :: l) → ∀ b r, (b, r) ∈ (a, q) :: l →
              r < q ∨ (r = q ∧ (b = a ∨ String_as_OT.lt b a))).
    { intros l a' q H b r Hb. unfold registered in H. destruct (peek os key) as [l0|] eqn:E; [|done].
      injection H as H. destruct (Hok key l0 E) as [Hh _ _]. destruct l0 as [|v l0]; [done|].
      rewrite <-H in Hb. apply list_elem_of_fmap in Hb as (u & Hu & Hul).
      pose proof (heap_head (operators_Less (OS_infos os)) (λ x y, Less_asym _ _) (λ x y z, Less_neg_trans _ _ _)
                    _ v Hh eq_refl u Hul) as Hle.
      unfold operators_Less in Hle. apply Less_false in Hle. pose proof (f_equal head H) as Hv.
      unfold entry in Hu, Hv. cbn in Hv. injection Hu as -> ->. injection Hv as <- <-. exact Hle. }
    rewrite IsEligible_head. split.
    + intros (q & rest & H). exists ((a, q) :: rest), q. split; [exact H|]. split; [set_solver|]. by apply (Hhead rest).
    + intros (l & q & H & Haq & Hbest). destruct l as [|[b r] l]; [set_solver|]. exists q, l. rewrite H. do 2 f_equal.
      destruct (Hhead l b r H a q Haq) as [?|[? Hab]]; destruct (Hbest b r ltac:(set_solver)) as [?|[? Hba]]; try lia.
      subst. f_equal. destruct Hab as [?|Hab]; [done|]. destruct Hba as [?|Hba]; [done|].
      exfalso. apply (irreflexivity String_as_OT.lt a). by etrans.
  - intros l b r Hl. by apply (Hin key l Hl).
  - intros b. rewrite !IsEligible_head. intros (q & r1 & H1) (q' & r2 & H2). rewrite H1 in H2. by injection H2.
Qed.

(** A new registration is taken in, a repeated one is not: the list of the key
    afterwards has the operators it had before, with the priorities they first
    registered with, and the new operator if it was not among them; what is
    kept for other keys is unchanged or evicted. *)
Theorem AddICSOperatorInfo_registers ops key id p :
  let os := os_run ops in
  let os' := AddICSOperatorInfo key id p os in
  (∃ l', registered os' key = Some l' ∧ l' ≡ₚ joined (registered os key) id p) ∧
  (∀ key' l', key' ≠ key → registered os' key' = Some l' → registered os key' = Some l').
Proof. intros os os'. destruct (run_registered ops) as [Hok _]. by apply Add_spec. Qed.
End Histories.

(** ** The seed *)
Section Seed.
Context `{ET : ExtTypes} `{EX : !ExtOps ET} `{TO : !TesseractOps ET} `{IX : !InteractionOps ET EX}.
Context `{CH : !Chain ET EX TO IX}.
Context (w : World).

Definition counted (p : Participant) : Prop := P_IsGenesis p = false ∧ P_ExcludeFromICS p = false.

Lemma addSeed_new s known addr p seed :
  counted p → P_TesseractHash p ∉ known → SM_GetICSSeed w addr = inl seed →
  addSeed w (s, known) (addr, p)
  = Ret (inl (if s =? seed then s else Z.lxor s seed, {[P_TesseractHash p]} ∪ known)).
Proof. intros [Hg Hx] Hk Hs. unfold addSeed. rewrite Hg, Hx, Hs. cbn. by rewrite decide_False. Qed.

(** The seed depends on the order in which Go walks the participants: with
    three counted accounts of distinct tesseracts the third of whose seeds is the
    exclusive or of the others', two orders give different seeds, because a seed
    equal to the partial result is skipped. *)
Theorem seed_depends_on_order x y z px py pz a b :
  counted px → counted py → counted pz →
  NoDup [P_TesseractHash px; P_TesseractHash py; P_TesseractHash pz] →
  SM_GetICSSeed w x = inl a → SM_GetICSSeed w y = inl b → SM_GetICSSeed w z = inl (Z.lxor a b) →
  a ≠ 0 → b ≠ 0 → a ≠ b →
  computeICSSeedFrom w [(x, px); (y, py); (z, pz)] = Ret (inl (Z.lxor a b)) ∧
  computeICSSeedFrom w [(x, px); (z, pz); (y, py)] = Ret (inl b) ∧ Z.lxor a b ≠ b.
Proof.
  intros Hx Hy Hz Hnd Sx Sy Sz Ha Hb Hab. rewrite !NoDup_cons in Hnd. destruct Hnd as (H1 & H2 & _).
  assert (Hcancel : ∀ u v, Z.lxor u v = u → v = 0).
  { intros u v H. transitivity (Z.lxor u (Z.lxor u v)).
    - by rewrite <-Z.lxor_assoc, Z.lxor_nilpotent, Z.lxor_0_l.
    - by rewrite H, Z.lxor_nilpotent. }
  assert (Hne : Z.lxor a b ≠ a) by (intros H; by apply Hcancel in H).
  split; [|split].
  - unfold computeICSSeedFrom. cbn [efold].
    rewrite (addSeed_new _ _ _ _ a Hx); [|set_solver|exact Sx]. cbn [ebind efold].
    rewrite (proj2 (Z.eqb_neq 0 a)) by done. rewrite Z.lxor_0_l.
    rewrite (addSeed_new _ _ _ _ b Hy); [|set_solver|exact Sy]. cbn [ebind efold].
    rewrite (proj2 (Z.eqb_neq a b)) by done.
    rewrite (addSeed_new _ _ _ _ (Z.lxor a b) Hz); [|set_solver|exact Sz]. cbn [ebind efold]. by rewrite Z.eqb_refl.
  - unfold computeICSSeedFrom. cbn [efold].
    rewrite (addSeed_new _ _ _ _ a Hx); [|set_solver|exact Sx]. cbn [ebind efold].
    rewrite (proj2 (Z.eqb_neq 0 a)) by done. rewrite Z.lxor_0_l.
    rewrite (addSeed_new _ _ _ _ (Z.lxor a b) Hz); [|set_solver|exact Sz]. cbn [ebind efold].
    rewrite (proj2 (Z.eqb_neq a (Z.lxor a b))) by done.
    rewrite <-Z.lxor_assoc, Z.lxor_nilpotent, Z.lxor_0_l.
    rewrite (addSeed_new _ _ _ _ b Hy); [|set_solver|exact Sy]. cbn [ebind efold]. by rewrite Z.eqb_refl.
  - intros H. rewrite Z.lxor_comm in H. by apply Hcancel in H.
Qed.
End Seed.

(** ** A cache in memory, and the witnesses

    The most recently used entry first; adding drops what is over capacity. *)
Definition drop_key {V} (k : string) (l : list (string * V)) : list (string * V) :=
  filter (λ e, e.1 ≠ k) l.
Definition find_key {V} (k : string) (l : list (string * V)) : option V :=
  snd <$> List.find (λ e, bool_decide (e.1 = k)) l.
Definition CLru (V : Type) : LruCache string V := {|
  Lru := nat * list (string * V);
  LruNew n := (Z.to_nat n, []);
  LruGet k c := match find_key k c.2 with
                | Some v => (Some v, (c.1, (k, v) :: drop_key k c.2))
                | None => (None, c) end;
  LruAdd k v c := (c.1, (k, v) :: take (pred c.1) (drop_key k c.2));
  LruRemove k c := (c.1, drop_key k c.2);
|}.

Lemma find_drop_same {V} k (l : list (string * V)) : find_key k (drop_key k l) = None.
Proof.
  unfold find_key, drop_key. destruct (List.find _ _) as [e|] eqn:E; [|done].
  apply find_some in E as [Hin He%bool_decide_eq_true]. apply list_elem_of_In, list_elem_of_filter in Hin as [Hne _]. by destruct Hne.
Qed.
Lemma find_drop_other {V} k k' (l : list (string * V)) : k ≠ k' → find_key k' (drop_key k l) = find_key k' l.
Proof.
  intros Hne. unfold find_key, drop_key. induction l as [|[k0 v] l IH]; [done|]. rewrite filter_cons. cbn.
  destruct (decide (k0 ≠ k)) as [H|H]; cbn.
  - case_bool_decide; [done|exact IH].
  - rewrite bool_decide_eq_false_2 by (intros ->; apply H; congruence). exact IH.
Qed.
Lemma find_take {V} k n (l : list (string * V)) v : find_key k (take n l) = Some v → find_key k l = Some v.
Proof.
  unfold find_key. revert n. induction l as [|[k0 v0] l IH]; intros [|n]; try done. cbn.
  case_bool_decide; [done|apply IH].
Qed.
Lemma find_cons {V} k k0 (v : V) l : find_key k ((k0, v) :: l) = if decide (k0 = k) then Some v else find_key k l.
Proof. unfold find_key. cbn. case_bool_decide; by rewrite ?decide_True, ?decide_False by done. Qed.

#[local] Arguments find_key : simpl never.
#[local] Arguments drop_key : simpl never.
Lemma CLru_get {V} k (c : @Lru _ _ (CLru V)) : (LruGet k c).1 = find_key k c.2.
Proof. cbn. by destruct (find_key k c.2). Qed.

Lemma CLru_laws V : LruLaws string V (CLru V).
Proof.
  split; intros c *; rewrite ?CLru_get.
  - done.
  - cbn. destruct (find_key k c.2) as [v|] eqn:E; [|done]. cbn.
    rewrite find_cons. case_decide as H; [by subst|]. by rewrite find_drop_other.
  - cbn. by rewrite find_cons, decide_True.
  - cbn. intros Hne. rewrite find_cons, decide_False by done.
    intros E%find_take. by rewrite find_drop_other in E.
  - cbn. by rewrite find_drop_same.
  - cbn. intros Hne. by rewrite find_drop_other.
Qed.
#[local] Existing Instances CLru CLru_laws.

Definition w_lottery : list os_op :=
  [OAdd "k" "ann" 3; OAdd "k" "bob" 7; OAdd "j" "eve" 9; OAdd "k" "cat" 7; OAdd "k" "ann" 50; OEligible "k" "bob"]%string.
Lemma eligible_is_best_witness :
  (IsEligible "k"%string "cat" (os_run w_lottery)).1 = true ∧
  (IsEligible "k"%string "ann" (os_run w_lottery)).1 = false ∧
  ∃ l q, registered (os_run w_lottery) "k"%string = Some l ∧ ("cat"%string, q) ∈ l.
Proof.
  assert (H : (IsEligible "k"%string "cat" (os_run w_lottery)).1 = true) by (vm_compute; reflexivity).
  split; [exact H|]. split; [vm_compute; reflexivity|].
  destruct (eligible_is_best w_lottery "k"%string "cat") as [Hiff _].
  destruct (proj1 Hiff H) as (l & q & H1 & H2 & _). by exists l, q.
Defined.

Lemma AddICSOperatorInfo_registers_witness :
  ∃ l', registered (AddICSOperatorInfo "k"%string "dan" 1 (os_run w_lottery)) "k"%string = Some l' ∧
    l' ≡ₚ [("dan", 1); ("cat", 7); ("ann", 3); ("bob", 7)]%string.
Proof.
  destruct (AddICSOperatorInfo_registers w_lottery "k"%string "dan" 1) as [(l' & H1 & H2) _].
  exists l'. split; [exact H1|]. rewrite H2. vm_compute. reflexivity.
Defined.

#[local] Existing Instances CE CX CE_bits CCanon CT.
Definition w_account (ts : Z) : @Participant CE := {|
  P_Height := 3; P_IsGenesis := false; P_TesseractHash := (ts : @Hash CE); P_NodeSetPosition := 0;
  P_ConsensusQuorum := 0; P_ExcludeFromICS := false; P_ContextDelta := None; P_AccType := 0;
  P_LockType := MutateLock; P_IsSigner := false; P_ContextHash := (1 : @Hash CE); P_CommitHash := (1 : @Hash CE) |}.
Lemma seed_depends_on_order_witness :
  let from ts addr := ((addr : @Address CE), w_account ts) in
  computeICSSeedFrom w_world [from 10 1; from 20 2; from 30 3] = Ret (inl 3) ∧
  computeICSSeedFrom w_world [from 10 1; from 30 3; from 20 2] = Ret (inl 2).
Proof.
  intros from.
  destruct (seed_depends_on_order w_world (1 : @Address CE) (2 : @Address CE) (3 : @Address CE)
              (w_account 10) (w_account 20) (w_account 30) 1 2) as (H1 & H2 & _); try done.
  { apply (bool_decide_unpack _). vm_compute. exact I. }
Defined.
