(* ===== verification/VoteSetSpec.v ===== *)
(** * What a vote set guarantees: the theorems

    Histories of [AddVote] and [AddQc] calls on a fresh vote set, on the results
    of [VoteSetFacts.v]; witnesses run on the cluster of [Scenario.v]. *)

From stdpp Require Import base gmap strings list.
From Stdlib Require Import ZArith Lia.
From S2P Require Import Prelude External Types NodeSet Committee Cluster VoteSet Tally VoteSetFacts Concrete Scenario.

Section Theorems.
Context `{ET : ExtTypes} `{!ExtOps ET} `{!BitLaws ET} `{!PoloCodec CanonicalVote}.

(** C10. Soundness and completeness of the majority, for every history of votes
    and certificates: no call panics; a majority the vote set reports is
    carried by validators that reach every threshold, each with an authentic
    vote for that tesseract in the history; while it reports none, no tesseract has reached
    the thresholds; and no validator is ever counted for two tesseracts. *)
Theorem vote_set_majority c q heights vw vt cs ops :
  started c q heights cs → Forall (fitting vw vt) ops →
  ∃ vs cs', vs_run ops (NewVoteSet heights vw vt cs, cs) = Ret (vs, cs') ∧
    (∀ h, SuperMajority (Some vs) = (h, true) →
       ∃ b, maj23VoteSet vs = Some b ∧ majority_for c q vw vt (sent_in ops) h b) ∧
    ((SuperMajority (Some vs)).2 = false → ∀ h, ¬ reaches c q (counted_for vs h)) ∧
    (∀ h h' i, counted_for vs h i = true → counted_for vs h' i = true → h = h').
Proof.
  intros Hst Hf. destruct (started_run c q heights vw vt (sent_in ops) cs ops Hst Hf)
    as (vs & cs' & Hr & Hok & _); [done|].
  exists vs, cs'. split; [done|]. split; [intros h; by apply SuperMajority_majority|]. split.
  - destruct Hok as [_ Hm]. unfold maj_ok in Hm. unfold SuperMajority.
    destruct (maj23TsHash vs); [done|]. intros _. apply Hm.
  - apply (vo_once _ _ _ _ _ (proj1 Hok)).
Qed.

(** A majority is final: once a vote set reports one, no later vote or
    certificate changes the tesseract, the recorded signers or the aggregated
    signature. *)
Theorem majority_final c q heights vw vt cs ops1 ops2 vs1 cs1 h :
  started c q heights cs → Forall (fitting vw vt) (ops1 ++ ops2) →
  vs_run ops1 (NewVoteSet heights vw vt cs, cs) = Ret (vs1, cs1) →
  SuperMajority (Some vs1) = (h, true) →
  ∃ vs2 cs2, vs_run (ops1 ++ ops2) (NewVoteSet heights vw vt cs, cs) = Ret (vs2, cs2) ∧
    SuperMajority (Some vs2) = (h, true) ∧ maj23VoteSet vs2 = maj23VoteSet vs1 ∧
    maj23aggSignature vs2 = maj23aggSignature vs1.
Proof.
  intros Hst [Hf1 Hf2]%Forall_app Hr Hs.
  destruct (run_state c q heights vw vt (λ _, True) cs ops1 vs1 cs1 Hst Hf1) as [Hok Hcs]; [done..|].
  destruct (vs_run_ok c q vw vt (λ _, True) ops2 vs1 cs1 (st_env _ _ _ _ Hst) Hok Hcs Hf2)
    as (vs2 & cs2 & Hr2 & _ & _ & _ & Hk & _); [done|].
  exists vs2, cs2. split.
  { unfold vs_run in *. rewrite foldM_app, Hr. exact Hr2. }
  unfold SuperMajority in *. unfold maj_kept in Hk.
  destruct (maj23TsHash vs1) as [h1|] eqn:E; [|done].
  destruct Hk as (-> & -> & ->); [by eexists|done].
Qed.

(** C11. Agreement on a majority across nodes: let two nodes with the same
    committee and thresholds take any histories of votes.  If at some position
    the validators with authentic votes for two tesseracts in these histories
    weigh less than twice the threshold minus the whole position, the nodes
    cannot report majorities for different tesseracts. *)
Theorem majority_agreement c q heights vw vt cs1 cs2 ops1 ops2 vs1 vs2 cs1' cs2' h1 h2
    (faulty : nat → bool) k x :
  started c q heights cs1 → started c q heights cs2 →
  Forall (fitting vw vt) ops1 → Forall (fitting vw vt) ops2 →
  vs_run ops1 (NewVoteSet heights vw vt cs1, cs1) = Ret (vs1, cs1') →
  vs_run ops2 (NewVoteSet heights vw vt cs2, cs2) = Ret (vs2, cs2') →
  SuperMajority (Some vs1) = (h1, true) → SuperMajority (Some vs2) = (h2, true) →
  (∀ (i : nat) v1 v2, authentic c vw vt (sent_in (ops1 ++ ops2)) (Z.of_nat i) v1 →
     authentic c vw vt (sent_in (ops1 ++ ops2)) (Z.of_nat i) v2 → V_TSHash v1 ≠ V_TSHash v2 → faulty i = true) →
  q !! k = Some x →
  tally c (Z.of_nat k) faulty < 2 * x - tally c (Z.of_nat k) (λ _, true) →
  h1 = h2.
Proof.
  intros Hst1 Hst2 Hf1 Hf2 Hr1 Hr2 Hs1 Hs2 Hby Hk Hlt.
  set (sent := sent_in (ops1 ++ ops2)) in *.
  destruct (run_state c q heights vw vt sent cs1 ops1 vs1 cs1' Hst1 Hf1) as [Hok1 _]; [|done|].
  { intros v (op & ? & ?). exists op. set_solver. }
  destruct (run_state c q heights vw vt sent cs2 ops2 vs2 cs2' Hst2 Hf2) as [Hok2 _]; [|done|].
  { intros v (op & ? & ?). exists op. set_solver. }
  destruct (SuperMajority_majority _ _ _ _ _ _ _ Hok1 Hs1) as (b1 & _ & Hm1).
  destruct (SuperMajority_majority _ _ _ _ _ _ _ Hok2 Hs2) as (b2 & _ & Hm2).
  exact (majority_for_agree c q vw vt sent sent sent h1 h2 b1 b2 faulty k x Hm1 Hm2
           (λ _ H, H) (λ _ H, H) Hby Hk Hlt).
Qed.

(** What [AddVote] answers to a vote of a responded validator for the
    set's heights, view and type: "already there" for a repeated vote, an
    error for a second signature, [ErrSignatureVerificationFailed] for a bad
    one, [ErrConflictingVote] when the validator is already counted for
    another tesseract, and success otherwise; the counted votes grow by this
    one in the last case and by none in the others. *)
Theorem AddVote_answers c q heights vw vt cs0 ops vs cs v raw ok :
  started c q heights cs0 → Forall (fitting vw vt) ops →
  vs_run ops (NewVoteSet heights vw vt cs0, cs0) = Ret (vs, cs) →
  admissible c vs v → Vote_SignBytes v = inl raw →
  Verify raw (V_Signature v) (key_at c (V_SignerIndex v)) = (ok, None) →
  ∃ vs' cs', AddVote vs cs (Some v) = Ret (vote_answer vs v ok, vs', cs') ∧
    ∀ h k, counted_for vs' h k = counted_for vs h k ||
      (vote_answer vs v ok).1 &&
      bool_decide (h = V_TSHash v ∧ k = Z.to_nat (V_SignerIndex v)).
Proof.
  intros Hst Hf Hr Had Hraw Hver.
  destruct (run_state c q heights vw vt (λ _, True) cs0 ops vs cs Hst Hf) as [Hok Hcs];
    [done..|]. pose proof (st_env _ _ _ _ Hst) as Henv.
  destruct (held vs (Z.to_nat (V_SignerIndex v)) (V_TSHash v)) as [w|] eqn:Eh; [|destruct ok].
  - destruct (AddVote_unfold c q vw vt (λ _, True) Henv vs cs v Hok Hcs Had) as (r & He & Ha);
      [left; by rewrite Eh|].
    specialize (Ha raw Hraw). rewrite Eh in Ha.
    assert (Ha' : (false, r) = vote_answer vs v false) by (apply Ha; by right).
    assert (Hans : vote_answer vs v ok = (false, r)).
    { rewrite Ha'. unfold vote_answer. by rewrite Eh. }
    rewrite Hans. exists vs, cs. split; [done|]. intros h k. by rewrite orb_false_r.
  - destruct (AddVote_checked c q vw vt (λ _, True) Henv vs cs v raw Hok Hcs I Had Hraw Eh Hver)
      as (vs' & cs' & He & _ & Hcf). by exists vs', cs'.
  - destruct (AddVote_unfold c q vw vt (λ _, True) Henv vs cs v Hok Hcs Had) as (r & He & Ha).
    { right. intros raw' Hr'. rewrite Hraw in Hr'. injection Hr' as <-. by rewrite Hver. }
    specialize (Ha raw Hraw (or_introl Hver)). rewrite <-Ha. exists vs, cs. split; [done|].
    intros h k. by rewrite orb_false_r.
Qed.

(** Any other vote is refused with an error and leaves the set and the
    cluster state as they are: a bad index, foreign heights, view or type, a
    validator that has not responded, or a signature that does not verify. *)
Theorem AddVote_refuses c q heights vw vt cs0 ops vs cs v :
  started c q heights cs0 → Forall (fitting vw vt) ops →
  vs_run ops (NewVoteSet heights vw vt cs0, cs0) = Ret (vs, cs) →
  ¬ admissible c vs v ∨
  held vs (Z.to_nat (V_SignerIndex v)) (V_TSHash v) = None ∧
  (∀ raw, Vote_SignBytes v = inl raw →
     Verify raw (V_Signature v) (key_at c (V_SignerIndex v)) ≠ (true, None)) →
  ∃ e, AddVote vs cs (Some v) = Ret (false, Some e, vs, cs).
Proof.
  intros Hst Hf Hr Hcase. pose proof (st_env _ _ _ _ Hst) as Henv.
  destruct (run_state c q heights vw vt (λ _, True) cs0 ops vs cs Hst Hf) as [Hok Hcs];
    [done..|].
  destruct Hcase as [Hn|[Hheld Hbad]]; [by apply (AddVote_inadmissible c q Henv vs cs v)|].
  unfold AddVote. pose proof (nodes_total c q Henv).
  destruct (Z.ltb_spec (V_SignerIndex v) 0); [by eexists|].
  case_match; [by eexists|].
  rewrite GetByIndex_spec by (rewrite (proj1 Hcs); apply (env_committee _ _ Henv)).
  rewrite (proj1 Hcs). cbn [mbind res_bind].
  destruct (responded c (V_SignerIndex v)) eqn:Eresp; [|by eexists].
  destruct (String.eqb_spec (KR_ID (lookup_spec c (V_SignerIndex v))) "") as [|Hid]; [by eexists|].
  pose proof (lookup_id_range c q Henv _ Hid) as Hi.
  pose proof (getVote_held c q vw vt (λ _, True) vs (Z.to_nat (V_SignerIndex v)) (V_TSHash v) Hok ltac:(lia)) as Hg.
  rewrite Z2Nat.id in Hg by lia. rewrite Hg, Hheld. cbn [mbind res_bind].
  destruct (Vote_SignBytes v) as [raw|e]; [|by eexists]. specialize (Hbad raw eq_refl).
  fold (key_at c (V_SignerIndex v)).
  destruct (Verify raw (V_Signature v) _) as [[] [e|]]; [by eexists|done|by eexists..].
Qed.

(** Certificates carry a majority from node to node: if the signers of a
    certificate that verifies reach the thresholds and none of them is counted
    for another tesseract here, then accepting it makes this node report the
    majority the certificate is for. *)
Theorem AddQc_transports_majority c q heights vw vt cs0 ops vs cs v signed raw :
  started c q heights cs0 → Forall (fitting vw vt) ops →
  vs_run ops (NewVoteSet heights vw vt cs0, cs0) = Ret (vs, cs) →
  V_View v = vw → V_Type v = vt → qc_valid c vs v signed raw →
  reaches c q (λ i, bool_decide (Z.of_nat i ∈ i32 <$> signed)) →
  (∀ h k, k ∈ signed → counted_for vs h (Z.to_nat (i32 k)) = true → h = V_TSHash v) →
  ∃ vs' cs', AddQc vs cs (Some v) = Ret (true, None, vs', cs') ∧
    SuperMajority (Some vs') = (V_TSHash v, true).
Proof.
  intros Hst Hf Hr Hvw Hvt Hqc Hreach Hnc. pose proof (st_env _ _ _ _ Hst) as Henv.
  destruct (run_state c q heights vw vt (λ _, True) cs0 ops vs cs Hst Hf) as [Hok Hcs];
    [done..|].
  destruct (AddQc_accepts c q vw vt (λ _, True) Henv vs cs v signed raw Hok Hcs I Hvw Hvt Hqc)
    as (vs' & cs' & He & (Hok' & _ & _ & Hkept & _) & Hm & Hother & Hcnt).
  exists vs', cs'. split; [done|].
  assert (Hall : reaches c q (counted_for vs' (V_TSHash v))).
  { revert Hreach. apply reaches_mono. intros i _ Hi%bool_decide_eq_true.
    apply list_elem_of_fmap in Hi as (k & Hk & Hin).
    destruct (Hcnt k Hin) as (_ & _ & h & Hh & Hor). rewrite <-Hk, Nat2Z.id in Hh.
    destruct Hor as [->|Hor]; [done|]. by rewrite <-(Hnc h k Hin Hor). }
  destruct Hok' as [Hc' Hm']. unfold maj_ok in Hm'. unfold SuperMajority.
  destruct (maj23TsHash vs') as [h|] eqn:E'; [|by destruct Hm' as [_ []%(λ H, H (V_TSHash v))]].
  f_equal. destruct (decide (h = V_TSHash v)) as [|Hne]; [done|exfalso].
  destruct (maj23TsHash vs) as [h0|] eqn:E0.
  - destruct Hkept as [Hk _]; [by rewrite E0|]. rewrite E0, E' in Hk. injection Hk as ->.
    by apply Hne, Hm.
  - destruct Hm' as (b & _ & Hin & Hrb & _). destruct Hok as [_ Hm0]. unfold maj_ok in Hm0.
    rewrite E0 in Hm0. apply (proj2 Hm0 h). revert Hrb. apply reaches_mono.
    intros i _ Hi%Hin. by rewrite <-Hother.
Qed.

Lemma sumsReach_spec c q (Henv : env_ok c q) (f : nat → bool) cs sums (k : nat) :
  cluster_ok c q cs → (k + length sums = positions c)%nat →
  (∀ j x, sums !! j = Some x → x = tally c (Z.of_nat (k + j)) f) →
  ∃ (b : bool) cs', sumsReach (Z.of_nat k) sums cs = Ret (b, cs') ∧ cluster_ok c q cs' ∧
    (b = true ↔ ∀ j x, (k ≤ j)%nat → q !! j = Some x → x ≤ tally c (Z.of_nat j) f).
Proof.
  revert k cs. induction sums as [|s sums IH]; intros k cs Hcs Hk Hs; cbn [sumsReach].
  - exists true, cs. split; [done|]. split; [done|]. split; [|done]. intros _ j x Hj Hx.
    apply lookup_lt_Some in Hx. rewrite (length_q c q Henv) in Hx. cbn in Hk. lia.
  - destruct (cluster_ok_quorum c q Henv cs Hcs) as (cs1 & -> & Hcs1). cbn [mbind res_bind].
    cbn in Hk. destruct (lookup_lt_is_Some_2 q k) as [x Hx]; [rewrite (length_q c q Henv); lia|].
    rewrite (go_index_nat _ _ _ Hx). cbn [mbind res_bind].
    pose proof (Hs O s eq_refl) as Hs0. rewrite Nat.add_0_r in Hs0.
    destruct (Z.ltb_spec s x) as [Hlt|Hge].
    + exists false, cs1. split; [done|]. split; [done|]. split; [done|].
      intros H. specialize (H k x ltac:(lia) Hx). lia.
    + replace (Z.of_nat k + 1) with (Z.of_nat (S k)) by lia.
      destruct (IH (S k) cs1 Hcs1) as (b & cs' & Hb & Hcs' & Hiff); [lia| |].
      { intros j y Hy. rewrite (Hs (S j) y Hy). f_equal. lia. }
      exists b, cs'. split; [done|]. split; [done|]. rewrite Hiff. split; intros H j y Hj Hy.
      * destruct (decide (j = k)) as [->|]; [congruence|]. apply H; [lia|done].
      * apply H; [lia|done].
Qed.

(** [HasMajorityAny] is true exactly when the validators that voted, for
    whatever tesseracts, reach every threshold; the [uint32] counters it reads
    are exact tallies. *)
Theorem HasMajorityAny_spec c q heights vw vt cs0 ops vs cs :
  started c q heights cs0 → Forall (fitting vw vt) ops →
  vs_run ops (NewVoteSet heights vw vt cs0, cs0) = Ret (vs, cs) →
  (∀ k x, VS_sum vs !! k = Some x → x = tally c (Z.of_nat k) (voted (VS_votes vs))) ∧
  ∃ (b : bool) cs', HasMajorityAny (Some vs) cs = Ret (b, cs') ∧
    (b = true ↔ reaches c q (voted (VS_votes vs))).
Proof.
  intros Hst Hf Hr. pose proof (st_env _ _ _ _ Hst) as Henv.
  destruct (run_state c q heights vw vt (λ _, True) cs0 ops vs cs Hst Hf) as [Hok Hcs];
    [done..|].
  pose proof (vo_sums _ _ _ _ _ (proj1 Hok)) as Hsums.
  assert (Hx : ∀ k x, VS_sum vs !! k = Some x → x = tally c (Z.of_nat k) (voted (VS_votes vs))).
  { intros k x Hx. pose proof (lookup_lt_Some _ _ _ Hx) as Hl.
    rewrite (sums_are_length _ _ _ Hsums) in Hl.
    rewrite (sums_are_lookup _ _ _ _ Hsums Hl) in Hx. cbn beta in Hx.
    rewrite (tally_u32 c q) in Hx by done. by simplify_eq. }
  split; [done|].
  destruct (sumsReach_spec c q Henv (voted (VS_votes vs)) cs (VS_sum vs) 0)
    as (b & cs' & Hb & _ & Hiff); [done| |done|].
  { by rewrite (sums_are_length _ _ _ Hsums). }
  exists b, cs'. split; [done|]. rewrite Hiff. split.
  - intros H k x Hk. by apply H; [lia|].
  - intros H k x _ Hk. by apply H.
Qed.
End Theorems.

(** ** Witnesses *)
#[local] Existing Instances CE CX CE_bits CCanon.

Definition w_six : list Z := [0; 1; 2; 4; 5; 6].
Definition w_run (ops : list vs_op) : res (VoteSet * ClusterState) :=
  vs_run ops (NewVoteSet w_heights 1 PREVOTE w_cs, w_cs).
Definition w_state (ops : list vs_op) : VoteSet * ClusterState :=
  run_value (NewVoteSet w_heights 1 PREVOTE w_cs, w_cs) (w_run ops).
Lemma w_state_run ops : returns (w_run ops) = true →
  vs_run ops (NewVoteSet w_heights 1 PREVOTE w_cs, w_cs) = Ret ((w_state ops).1, (w_state ops).2).
Proof. apply run_value_pair. Qed.

Lemma vote_set_majority_witness :
  ∃ vs cs', w_run (w_ballot PREVOTE 1 7 w_six) = Ret (vs, cs') ∧
    SuperMajority (Some vs) = (7, true) ∧
    ∃ b, maj23VoteSet vs = Some b ∧
      majority_for w_committee w_quorum 1 PREVOTE (sent_in (w_ballot PREVOTE 1 7 w_six)) 7 b.
Proof.
  destruct (vote_set_majority w_committee w_quorum w_heights 1 PREVOTE w_cs
              (w_ballot PREVOTE 1 7 w_six) w_started (w_ballot_fitting _ _ _ _))
    as (vs & cs' & Hr & Hs & _).
  assert (Hm : SuperMajority (Some (w_state (w_ballot PREVOTE 1 7 w_six)).1) = (7, true))
    by (vm_compute; reflexivity).
  exists vs, cs'. unfold w_state, w_run in *. rewrite Hr in Hm. split; [exact Hr|].
  split; [exact Hm|]. exact (Hs 7 Hm).
Defined.

Lemma majority_final_witness :
  ∃ vs2 cs2, w_run (w_ballot PREVOTE 1 7 w_six ++ w_ballot PREVOTE 1 8 [3; 7; 0]) = Ret (vs2, cs2) ∧
    SuperMajority (Some vs2) = (7, true).
Proof.
  destruct (majority_final w_committee w_quorum w_heights 1 PREVOTE w_cs
              (w_ballot PREVOTE 1 7 w_six) (w_ballot PREVOTE 1 8 [3; 7; 0])
              (w_state (w_ballot PREVOTE 1 7 w_six)).1 (w_state (w_ballot PREVOTE 1 7 w_six)).2 7)
    as (vs2 & cs2 & Hr & Hs & _).
  - exact w_started.
  - apply Forall_app. split; apply w_ballot_fitting.
  - apply w_state_run. vm_compute. reflexivity.
  - vm_compute. reflexivity.
  - exists vs2, cs2. split; [exact Hr|exact Hs].
Defined.

Lemma w_sent_hash ty vw h signers v : sent_in (w_ballot ty vw h signers) v → V_TSHash v = h.
Proof.
  intros (op & Hop & Hv). apply list_elem_of_fmap in Hop as (n & -> & _).
  apply list_elem_of_singleton in Hv as ->. done.
Qed.

Lemma majority_agreement_witness :
  ∃ vs1 vs2 c1 c2, w_run (w_ballot PREVOTE 1 7 w_six) = Ret (vs1, c1) ∧
    w_run (w_ballot PREVOTE 1 7 [7; 6; 5; 3; 2; 1]) = Ret (vs2, c2) ∧
    (SuperMajority (Some vs1)).1 = (SuperMajority (Some vs2)).1.
Proof.
  set (o1 := w_ballot PREVOTE 1 7 w_six). set (o2 := w_ballot PREVOTE 1 7 [7; 6; 5; 3; 2; 1]).
  exists (w_state o1).1, (w_state o2).1, (w_state o1).2, (w_state o2).2.
  split; [apply w_state_run; vm_compute; reflexivity|]. split; [apply w_state_run; vm_compute; reflexivity|].
  apply (majority_agreement w_committee w_quorum w_heights 1 PREVOTE w_cs w_cs o1 o2
           (w_state o1).1 (w_state o2).1 (w_state o1).2 (w_state o2).2 _ _ (λ _, false) 0 3).
  - exact w_started.
  - exact w_started.
  - apply w_ballot_fitting.
  - apply w_ballot_fitting.
  - apply w_state_run. vm_compute. reflexivity.
  - apply w_state_run. vm_compute. reflexivity.
  - vm_compute. reflexivity.
  - vm_compute. reflexivity.
  - intros i v1 v2 [H1 _] [H2 _] Hne. exfalso. apply Hne.
    assert (Hs : ∀ v, sent_in (o1 ++ o2) v → V_TSHash v = 7).
    { intros v (op & [Hop|Hop]%elem_of_app & Hv); eapply w_sent_hash; by exists op. }
    by rewrite (Hs v1 H1), (Hs v2 H2).
  - reflexivity.
  - vm_compute. reflexivity.
Defined.

Lemma w_admissible ops h n :
  0 ≤ n < 8 → VS_heights (w_state ops).1 = w_heights → VS_view (w_state ops).1 = 1 →
  votetype (w_state ops).1 = PREVOTE →
  admissible w_committee (w_state ops).1 (w_vote PREVOTE 1 h n).
Proof.
  intros Hn Hh Hv Ht. split; rewrite ?Hh, ?Hv, ?Ht; try done.
  - assert (Hc : n = 0 ∨ n = 1 ∨ n = 2 ∨ n = 3 ∨ n = 4 ∨ n = 5 ∨ n = 6 ∨ n = 7) by lia.
    destruct_or! Hc; subst n; reflexivity.
  - assert (Hc : n = 0 ∨ n = 1 ∨ n = 2 ∨ n = 3 ∨ n = 4 ∨ n = 5 ∨ n = 6 ∨ n = 7) by lia.
    destruct_or! Hc; subst n; vm_compute; discriminate.
Qed.

(** Validator 2 voted for 8 before: its vote for 7 is a conflict. *)
Lemma AddVote_answers_witness :
  ∃ vs' cs', AddVote (w_state (w_ballot PREVOTE 1 8 [2])).1 (w_state (w_ballot PREVOTE 1 8 [2])).2
               (Some (w_vote PREVOTE 1 7 2))
    = Ret (false, Some (ECommon "ErrConflictingVote"), vs', cs') ∧
    ∀ h k, counted_for vs' h k = counted_for (w_state (w_ballot PREVOTE 1 8 [2])).1 h k.
Proof.
  set (s := w_state (w_ballot PREVOTE 1 8 [2])).
  destruct (AddVote_answers w_committee w_quorum w_heights 1 PREVOTE w_cs (w_ballot PREVOTE 1 8 [2])
              s.1 s.2 (w_vote PREVOTE 1 7 2) [cbyte 1; cbyte 1; cbyte 7] true)
    as (vs' & cs' & He & Hc).
  - exact w_started.
  - apply w_ballot_fitting.
  - apply w_state_run. vm_compute. reflexivity.
  - apply w_admissible; [lia|vm_compute; reflexivity..].
  - reflexivity.
  - vm_compute. reflexivity.
  - assert (Ha : vote_answer s.1 (w_vote PREVOTE 1 7 2) true
                 = (false, Some (ECommon "ErrConflictingVote"))) by (vm_compute; reflexivity).
    exists vs', cs'. rewrite Ha in He, Hc. split; [exact He|]. intros h k. rewrite Hc.
    apply orb_false_r.
Defined.

(** Validator 2's vote with validator 3's key is refused. *)
Lemma AddVote_refuses_witness :
  ∃ e, AddVote (w_state []).1 (w_state []).2
         (Some {| V_Type := PREVOTE; V_IsQC := false; V_View := 1; V_SignerIndex := 2;
                  V_Timestamp := 0; V_Heights := w_heights; V_TSHash := 7;
                  V_SignerIndices := None; V_Signature := w_sign PREVOTE 1 7 3 |})
       = Ret (false, Some e, (w_state []).1, (w_state []).2).
Proof.
  apply (AddVote_refuses w_committee w_quorum w_heights 1 PREVOTE w_cs []).
  - exact w_started.
  - constructor.
  - reflexivity.
  - right. split; [reflexivity|]. intros raw [= <-]. vm_compute. discriminate.
Defined.

Lemma AddQc_transports_majority_witness :
  ∃ vs' cs', AddQc (w_state (w_ballot PREVOTE 1 7 [3])).1 (w_state (w_ballot PREVOTE 1 7 [3])).2
               (Some (w_qc PREVOTE 1 7 w_six)) = Ret (true, None, vs', cs') ∧
    SuperMajority (Some vs') = (7, true).
Proof.
  set (s := w_state (w_ballot PREVOTE 1 7 [3])).
  apply (AddQc_transports_majority w_committee w_quorum w_heights 1 PREVOTE w_cs
           (w_ballot PREVOTE 1 7 [3]) s.1 s.2 (w_qc PREVOTE 1 7 w_six) w_six
           [cbyte 1; cbyte 1; cbyte 7]).
  - exact w_started.
  - apply w_ballot_fitting.
  - apply w_state_run. vm_compute. reflexivity.
  - reflexivity.
  - reflexivity.
  - split.
    + cbn. lia.
    + vm_compute. discriminate.
    + vm_compute. reflexivity.
    + intros k Hk. apply list_elem_of_In in Hk.
      repeat (destruct Hk as [<-|Hk]; [vm_compute; discriminate|]). destruct Hk.
    + reflexivity.
    + vm_compute. reflexivity.
  - intros [|[|k]] x Hx; [injection Hx as <-|injection Hx as <-|discriminate];
      vm_compute; discriminate.
  - intros h k Hk. apply list_elem_of_In in Hk. intros Hc.
    assert (Hn : votesByTesseract s.1 = {[ 7 := default (newTesseractVoteSet 2 false 8)
                   (votesByTesseract s.1 !! 7) ]}) by (vm_compute; reflexivity).
    unfold counted_for in Hc. rewrite Hn, lookup_singleton in Hc. case_decide as Hh; [by symmetry|done].
Defined.

Lemma HasMajorityAny_spec_witness :
  ∃ (b : bool) cs', HasMajorityAny (Some (w_state (w_ballot PREVOTE 1 8 [2; 3; 1])).1)
                      (w_state (w_ballot PREVOTE 1 8 [2; 3; 1])).2 = Ret (b, cs') ∧
    (b = true ↔ reaches w_committee w_quorum
                  (voted (VS_votes (w_state (w_ballot PREVOTE 1 8 [2; 3; 1])).1))).
Proof.
  apply (HasMajorityAny_spec w_committee w_quorum w_heights 1 PREVOTE w_cs
           (w_ballot PREVOTE 1 8 [2; 3; 1])).
  - exact w_started.
  - apply w_ballot_fitting.
  - apply w_state_run. vm_compute. reflexivity.
Defined.
