(* ===== verification/CertificateSpec.v ===== *)
(** * From votes to a certificate that other nodes accept

    [VoteSet] collects votes and aggregates the signatures of the first majority,
    and [verifyQc] of another node checks the result against the committee.  Here
    the two are put together. *)

From stdpp Require Import base gmap strings list.
From Stdlib Require Import ZArith Lia.
From S2P Require Import Prelude External Chain Types Concrete NodeSet Committee Cluster Validation VoteSet Tally VoteSetFacts ValidationSpec ClusterStart Scenario VoteSetSpec.

(** The signature scheme: signatures that verify one by one, at least one of them,
    are aggregated without an error to one that verifies under all keys. *)
Class AggregateLaws (ET : ExtTypes) (EX : ExtOps ET) : Prop := {
  aggregate_verifies : ∀ raw sigs keys,
    sigs ≠ [] → Forall2 (λ s k, Verify raw s k = (true, None)) sigs keys →
    (CryptoAggregateSignatures sigs).2 = None ∧
    VerifyAggregateSignature raw (CryptoAggregateSignatures sigs).1 keys = (true, None);
}.

(** ** What a vote set holds when it was given votes only *)
Section Direct.
Context `{ET : ExtTypes} `{EX : !ExtOps ET} `{!BitLaws ET} `{!PoloCodec CanonicalVote}.
Context (c : ICSCommittee).

(** A vote kept for validator [i] was sent by it and checked under its key. *)
Definition checked (i : Z) (v : Vote) : Prop :=
  V_SignerIndex v = i ∧ ∃ raw, Vote_SignBytes v = inl raw ∧ Verify raw (V_Signature v) (key_at c i) = (true, None).
Definition direct_set (tv : tesseractVoteSet) : Prop :=
  ∀ (i : nat) v, TV_votes tv !! i = Some (Some v) → checked (Z.of_nat i) v.
Definition direct (vs : VoteSet) : Prop := map_Forall (λ _ tv, direct_set tv) (votesByTesseract vs).

Lemma tv_add_direct tv i slots v p tv' :
  0 ≤ i → checked i v → direct_set tv → tv_addVerifiedVote tv i slots v p = Ret tv' → direct_set tv'.
Proof.
  intros Hi Hv Htv H. unfold tv_addVerifiedVote in H. apply bind_Ret in H as (e & _ & H).
  destruct e; [by injection H as <-|]. apply bind_Ret in H as (votes & Hu & H).
  apply bind_Ret in H as ([s vp] & _ & H). injection H as <-. intros j w Hj. cbn in Hj.
  apply go_update_Ret in Hu as (_ & _ & ->). apply list_lookup_insert_Some in Hj as [(<- & [= <-] & _)|[_ Hj]]; [|by apply Htv].
  by rewrite Z2Nat.id.
Qed.
Lemma new_set_direct n b m : direct_set (newTesseractVoteSet n b m).
Proof. intros i v Hi. apply lookup_replicate in Hi as [[=] _]. Qed.
Lemma placeVote_sets vs i v vs' :
  placeVote vs i v = Ret vs' → votesByTesseract vs' = votesByTesseract vs ∧ maj23TsHash vs' = maj23TsHash vs.
Proof. intros H. apply bind_Ret in H as (votes & _ & H). by injection H as <-. Qed.
Lemma updateSum_sets vs cs i vp vs' :
  updateSum vs cs i vp = Ret vs' → votesByTesseract vs' = votesByTesseract vs ∧ maj23TsHash vs' = maj23TsHash vs.
Proof.
  intros H. apply bind_Ret in H as ([slots|e] & _ & H); [|by injection H as <-].
  apply bind_Ret in H as (sums & _ & H). by injection H as <-.
Qed.

(** A majority that is new is for a set whose signatures were aggregated now. *)
Definition notes (vs vs' : VoteSet) : Prop :=
  ∀ h, maj23TsHash vs = None → maj23TsHash vs' = Some h →
  ∃ tv e, votesByTesseract vs' !! h = Some tv ∧ maj23VoteSet vs' = Some (BitsCopy (bitarray tv)) ∧
    AggregateSignatures tv = Ret (maj23aggSignature vs', e).
Definition voted_on (vs vs' : VoteSet) : Prop := direct vs' ∧ notes vs vs'.
Lemma voted_same vs : direct vs → voted_on vs vs.
Proof. intros Hd. split; [done|]. intros h. congruence. Qed.
Lemma voted_from vs vs1 vs' :
  maj23TsHash vs1 = maj23TsHash vs → voted_on vs1 vs' → voted_on vs vs'.
Proof. intros He [Hd Hn]. split; [done|]. intros h H. apply Hn. congruence. Qed.

Lemma noteMajority_voted vs tv v q vs' :
  direct vs → votesByTesseract vs !! V_TSHash v = Some tv → noteMajority vs tv v q false = Ret vs' → voted_on vs vs'.
Proof.
  intros Hd Htv. unfold noteMajority. destruct (maj23TsHash vs) eqn:E.
  { intros [= <-]. by apply voted_same. }
  intros H. apply bind_Ret in H as ([] & _ & H); [|injection H as <-; by apply voted_same].
  apply bind_Ret in H as (sig & Hs & H). apply bind_Ret in Hs as ([sig' e] & Ha & Hs). injection Hs as ->.
  apply bind_Ret in H as (votes & _ & H). injection H as <-. split; [done|]. intros h _ [= <-]. by exists tv, e.
Qed.
Lemma trackVote_voted vs cs v p i slots conf a o vs' cs' :
  0 ≤ i → checked i v → direct vs → trackVote vs cs v p i slots false conf = Ret (a, o, vs', cs') → voted_on vs vs'.
Proof.
  intros Hi Hv Hd H. unfold trackVote in H. cbv zeta in H.
  match type of H with (if ?x then _ else _) = _ => destruct x end; [injection H as _ _ <- _; by apply voted_same|].
  apply bind_Ret in H as ([q cs1] & _ & H). apply bind_Ret in H as (tv' & Htv & H).
  apply bind_Ret in H as (vs1 & Hm & H). injection H as _ _ <- _.
  apply (voted_from _ (set_tesseract vs (V_TSHash v) tv')); [done|]. eapply noteMajority_voted; [| |exact Hm].
  2: { cbn. by rewrite lookup_insert_eq. }
  unfold direct. cbn. apply map_Forall_insert_2; [|done]. eapply tv_add_direct; [done..| |exact Htv].
  destruct (votesByTesseract vs !! V_TSHash v) as [tv|] eqn:E; [by apply (Hd _ _ E)|apply new_set_direct].
Qed.
Lemma add_voted vs cs v i slots a o vs' cs' :
  0 ≤ i → checked i v → direct vs → vs_addVerifiedVote vs cs v 1 i slots false = Ret (a, o, vs', cs') → voted_on vs vs'.
Proof.
  intros Hi Hv Hd H. unfold vs_addVerifiedVote in H. apply bind_Ret in H as (e & _ & H).
  destruct e as [e|].
  - destruct (decide _); [injection H as _ _ <- _; by apply voted_same|]. apply bind_Ret in H as (vs1 & Hp & H).
    assert (Hs : votesByTesseract vs1 = votesByTesseract vs ∧ maj23TsHash vs1 = maj23TsHash vs).
    { destruct (decide _); [by eapply placeVote_sets|by injection Hp as <-]. }
    destruct Hs as [Hs He]. eapply voted_from; [exact He|]. eapply trackVote_voted; [done..| |exact H].
    unfold direct. by rewrite Hs.
  - apply bind_Ret in H as (vs1 & Hp & H). apply bind_Ret in H as (vs2 & Hu & H).
    apply placeVote_sets in Hp as [Hs1 He1]. apply updateSum_sets in Hu as [Hs2 He2].
    eapply (voted_from _ vs2); [congruence|]. eapply trackVote_voted; [done..| |exact H].
    unfold direct. by rewrite Hs2, Hs1.
Qed.
Lemma AddVote_voted vs cs o a e vs' cs' :
  committee cs = c → committee_ok c → direct vs → AddVote vs cs o = Ret (a, e, vs', cs') → voted_on vs vs'.
Proof.
  intros Hc Hok Hd H. pose proof (voted_same vs Hd) as Hsame. unfold AddVote in H.
  destruct o as [v|]; [|by injection H as _ _ <- _].
  destruct (Z.ltb_spec (V_SignerIndex v) 0); [by injection H as _ _ <- _|].
  destruct (_ || _); [by injection H as _ _ <- _|]. rewrite GetByIndex_spec in H by (by rewrite Hc).
  cbn [mbind res_bind] in H. rewrite Hc in H. destruct (responded c (V_SignerIndex v)); [|by injection H as _ _ <- _].
  destruct (String.eqb _ _); [by injection H as _ _ <- _|]. apply bind_Ret in H as (w & _ & H).
  destruct w as [w|]; [destruct (bool_decide _); by injection H as _ _ <- _|].
  destruct (Vote_SignBytes v) as [raw|] eqn:Hraw; [|by injection H as _ _ <- _].
  destruct (Verify raw _ _) as [[] [e0|]] eqn:Hv; [by injection H as _ _ <- _| |by injection H as _ _ <- _..].
  apply bind_Ret in H as ([slots|e0] & _ & H); [|by injection H as _ _ <- _].
  apply bind_Ret in H as ([[[a1 o1] vs1] cs1] & Ha & H). assert (Hd1 : voted_on vs vs1).
  { eapply add_voted; [..|exact Ha]; [done| |done]. split; [done|]. by exists raw. }
  destruct o1; [by injection H as _ _ <- _|]. destruct a1; [by injection H as _ _ <- _|done].
Qed.
End Direct.

Section Certificate.
Context `{ET : ExtTypes} `{EX : !ExtOps ET} `{!BitLaws ET} `{!PoloCodec CanonicalVote} `{!AggregateLaws ET EX}.

(** A signature of member [i] for a tesseract. *)
Definition signed_for (c : ICSCommittee) (vw : Z) (vt : ConsensusMsgType) (h : Hash) (i : Z) (s : bytes) : Prop :=
  ∃ raw, CanonicalVote_Bytes {| CV_Type := vt; CV_View := vw; CV_TSHash := h |} = inl raw ∧
    Verify raw s (key_at c i) = (true, None).
(** The recorded certificate of a majority: the aggregate of such signatures of
    exactly the recorded signers. *)
Definition recorded (c : ICSCommittee) (vw : Z) (vt : ConsensusMsgType) (vs : VoteSet) : Prop :=
  ∀ h, maj23TsHash vs = Some h → ∃ b sigs, maj23VoteSet vs = Some b ∧ BitsSize b = totalNodes c ∧
    maj23aggSignature vs = (CryptoAggregateSignatures sigs).1 ∧ Forall2 (signed_for c vw vt h) (GetTrueIndices b) sigs.

Lemma checked_signed c vw vt sent h tv (i : nat) v :
  tv_ok c vw vt sent h tv → direct_set c tv → TV_votes tv !! i = Some (Some v) →
  signed_for c vw vt h (Z.of_nat i) (V_Signature v).
Proof.
  intros Htv Hd Hi. destruct (to_auth _ _ _ _ _ _ Htv _ _ Hi) as [Hh (_ & Hw & Ht & _)].
  destruct (Hd _ _ Hi) as [_ (raw & Hraw & Hv)]. exists raw. split; [|done].
  unfold Vote_SignBytes, canonical in Hraw. unfold CanonicalVote_Bytes. rewrite Hw, Ht, Hh in Hraw.
  by destruct (Polorize _).
Qed.
Lemma aggregate_signed c vw vt sent h tv :
  tv_ok c vw vt sent h tv → direct_set c tv →
  ∃ sigs, AggregateSignatures tv = Ret (CryptoAggregateSignatures sigs) ∧
    Forall2 (signed_for c vw vt h) (GetTrueIndices (bitarray tv)) sigs.
Proof.
  intros Htv Hd. unfold AggregateSignatures.
  destruct (mapM_res_Forall2 (signed_for c vw vt h)
    (λ index, o ← go_index (TV_votes tv) index; v ← deref o; Ret (V_Signature v))
    (GetTrueIndices (bitarray tv))) as (sigs & Hm & Hf); [|by exists sigs; rewrite Hm].
  intros i Hi%bits_true_elem. assert (Hi0 : 0 ≤ i) by (apply bits_get_range in Hi; lia).
  rewrite <-(Z2Nat.id i), (to_bits _ _ _ _ _ _ Htv) in Hi by done. apply voted_true in Hi as [v Hv].
  pose proof (checked_signed c _ _ _ _ _ _ _ Htv Hd Hv) as Hsig. rewrite Z2Nat.id in Hsig by done.
  exists (V_Signature v). rewrite (proj2 (go_index_Ret _ i (Some v))) by done. done.
Qed.

(** Recording a majority aggregates the signatures checked so far. *)
Lemma AddVote_recorded c q vw vt sent vs cs o r :
  env_ok c q → vs_ok c q vw vt sent vs → cluster_ok c q cs → direct c vs → recorded c vw vt vs →
  (∀ v, o = Some v → sent v) → AddVote vs cs o = Ret r → direct c r.1.2 ∧ recorded c vw vt r.1.2.
Proof.
  intros He Hok Hcs Hd Hrec Hs H. destruct r as [[[a e] vs1] cs1]. cbn [fst snd].
  destruct (AddVote_ok c q vw vt sent He vs cs o Hok Hcs Hs) as (a2 & e2 & vs2 & cs2 & H2 & Hstep & _).
  rewrite H in H2. injection H2 as <- <- <- <-. destruct Hstep as ([Hc2 _] & _ & _ & Hkept & _).
  destruct (AddVote_voted c vs cs o a e vs1 cs1) as [Hd1 Hn]; [apply Hcs|apply (env_committee _ _ He)|done..|].
  split; [done|]. intros h Hh. destruct (maj23TsHash vs) as [h0|] eqn:E.
  - destruct Hkept as (Hk & -> & ->); [by rewrite E|]. apply Hrec. congruence.
  - destruct (Hn h E Hh) as (tv & e' & Htv & Hb & Hsig). pose proof (vo_tvs _ _ _ _ _ Hc2 _ _ Htv) as Htvok.
    destruct (aggregate_signed c vw vt sent h tv Htvok (Hd1 _ _ Htv)) as (sigs & Ha & Hf).
    exists (BitsCopy (bitarray tv)), sigs. rewrite bits_copy_size, GetTrueIndices_copy.
    split; [done|]. split; [apply (to_size _ _ _ _ _ _ Htvok)|]. split; [|done].
    rewrite Hsig in Ha. injection Ha as Ha. by rewrite <-Ha.
Qed.

(** A history of votes, certificates left out. *)
Definition votes_only (op : vs_op) : Prop := ∃ o, op = OpVote o.
Lemma votes_recorded c q vw vt sent ops vs cs vs' cs' :
  env_ok c q → vs_ok c q vw vt sent vs → cluster_ok c q cs → direct c vs → recorded c vw vt vs →
  Forall votes_only ops → (∀ v, sent_in ops v → sent v) → vs_run ops (vs, cs) = Ret (vs', cs') → recorded c vw vt vs'.
Proof.
  intros He. revert vs cs. induction ops as [|op ops IH]; intros vs cs Hok Hcs Hd Hrec Hv Hs H; [by injection H as <- _|].
  apply Forall_cons in Hv as [[o ->] Hv]. cbn [vs_run foldM] in H. apply bind_Ret in H as ([vs1 cs1] & H1 & H).
  destruct (vs_step_ok c q vw vt sent vs cs (OpVote o) He Hok Hcs) as (vs2 & cs2 & H2 & (Hok2 & Hcs2 & _)); [done| |].
  { intros v Hin. apply Hs. exists (OpVote o). split; [by left|done]. }
  rewrite H1 in H2. injection H2 as <- <-. unfold vs_step in H1. apply bind_Ret in H1 as ([[[a e] vs3] cs3] & H1 & H3).
  injection H3 as <- <-. apply (AddVote_recorded c q vw vt sent) in H1 as [Hd3 Hrec3]; [|done..|].
  - eapply IH; [exact Hok2|exact Hcs2|exact Hd3|exact Hrec3|exact Hv| |exact H].
    intros v (op & Hin & Hv'). apply Hs. exists op. split; [by right|done].
  - intros v ->. apply Hs. exists (OpVote (Some v)). split; [by left|by left].
Qed.

Lemma all_known c l : (∀ i, i ∈ l → i < totalNodes c) → known_signers c l = l.
Proof.
  unfold known_signers. induction l as [|i l IH]; intros H; [done|].
  rewrite filter_cons_True by (apply H; by left). f_equal. apply IH. intros j Hj. apply H. by right.
Qed.

(** The thresholds of the vote set cover those of the committee, for the accounts
    in the order of a tesseract: that of every account that takes part, and that
    of the random set.  The threshold of an excluded one is 0. *)
Definition thresholds_cover (c : ICSCommittee) (q : list Z) (addrs : list Address) (excluded : Address → bool) : Prop :=
  (∀ (k : nat) a x, addrs !! k = Some a → excluded a = false → ParticipantQuorum c (Z.of_nat k) = Ret x →
     ∃ y, q !! k = Some y ∧ x ≤ y) ∧
  (∀ x, RandomQuorumSize c = Ret x → ∃ y, q !! length addrs = Some y ∧ x ≤ y).
Definition certificate (vt : ConsensusMsgType) (vw : Z) (h : Hash) (qc : Bits * bytes) : Qc :=
  {| Qc_Type := vt; Qc_View := vw; Qc_TSHash := h; Qc_Address := NilAddress;
     Qc_SignerIndices := Some qc.1; Qc_Signature := qc.2 |}.

Lemma covered_certified c q addrs excluded (member : nat → bool) :
  thresholds_cover c q addrs excluded → reaches c q member → certified c addrs excluded member.
Proof.
  intros [Hq Hr] Hreach. split.
  - intros k a z Ha Hx Hz. destruct (Hq k a z Ha Hx Hz) as (y & Hy & Hle).
    specialize (Hreach k y Hy). lia.
  - intros z Hz. destruct (Hr z Hz) as (y & Hy & Hle). specialize (Hreach _ y Hy). unfold zlen. lia.
Qed.
(** A recorded certificate whose signers reach the thresholds is accepted. *)
Lemma recorded_verifies c q vw vt h b sigs addrs excluded rs :
  env_ok c q → (∃ x, x ∈ q ∧ 0 < x) → reaches c q (λ i, GetIndex b (Z.of_nat i)) →
  size c = zlen addrs + 1 → RandomSet c = Ret (Some rs) → thresholds_cover c q addrs excluded →
  BitsSize b = totalNodes c → Forall2 (signed_for c vw vt h) (GetTrueIndices b) sigs →
  verifyQc VerifyAggregateSignature addrs excluded vw c (certificate vt vw h (b, (CryptoAggregateSignatures sigs).1))
  = Ret (true, None).
Proof.
  intros He (x & Hxq & Hx) Hreach Hsz Hrs Hcover Hbs Hsigs. pose proof (env_committee _ _ He) as Hcok.
  apply list_elem_of_lookup in Hxq as [k Hk].
  destruct (tally_pos_member c (Z.of_nat k) (λ i, GetIndex b (Z.of_nat i))) as (i & _ & Hi & _).
  { specialize (Hreach k x Hk). lia. }
  apply bits_true_elem, list_elem_of_lookup in Hi as [j Hj].
  destruct (Forall2_lookup_l _ _ _ _ _ Hsigs Hj) as (s & _ & raw & Hraw & _).
  destruct (aggregate_verifies raw sigs (key_at c <$> GetTrueIndices b)) as [_ Hok].
  { intros ->. apply Forall2_length in Hsigs. apply lookup_lt_Some in Hj. cbn in Hsigs. lia. }
  { apply Forall2_flip, Forall2_fmap_l. eapply Forall2_impl; [exact Hsigs|]. intros i' s' (raw' & Hr' & Hs). congruence. }
  set (qc := certificate _ _ _ _).
  destruct (verifyQc_accepts VerifyAggregateSignature c addrs excluded vw qc b rs)
    as (ok & e & Hver & Hiff & Hnil); [exact Hcok|exact Hsz|exact Hrs|apply (env_weights _ _ He)|reflexivity| |].
  { rewrite Hbs. pose proof (co_bound _ Hcok). lia. }
  rewrite Hver. assert (ok = true) as Htrue; [|by rewrite (Hnil Htrue), Htrue].
  apply Hiff. split; [by eapply covered_certified|]. exists raw. split; [exact Hraw|].
  rewrite all_known; [exact Hok|]. intros j' Hj'%bits_true_elem. apply bits_get_range in Hj'. lia.
Qed.
Lemma verifyQc_bits addrs excluded vw c vt h b b' sig :
  GetTrueIndices b = GetTrueIndices b' →
  verifyQc VerifyAggregateSignature addrs excluded vw c (certificate vt vw h (b, sig))
  = verifyQc VerifyAggregateSignature addrs excluded vw c (certificate vt vw h (b', sig)).
Proof. intros E. unfold verifyQc, certificate. cbn. by rewrite E. Qed.

(** C12. A majority becomes a certificate that other nodes accept: once a vote set
    that was given votes only, from anybody and in any order, reports a majority,
    the recorded signers and the aggregate of their signatures make a certificate
    that every node with the same committee accepts, whose thresholds for the
    accounts it does not exclude are those of the vote set
    ([fetched_thresholds_cover]: so they are for a cluster read from the chain, whichever
    accounts are excluded from it); and so does what [GetQC] returns, which is
    what an engine seals a tesseract with, as long as nobody else has voted. *)
Theorem majority_certificate_verifies c q heights vw vt cs0 ops vs cs h addrs excluded rs :
  started c q heights cs0 → Forall votes_only ops →
  vs_run ops (NewVoteSet heights vw vt cs0, cs0) = Ret (vs, cs) → SuperMajority (Some vs) = (h, true) →
  size c = zlen addrs + 1 → RandomSet c = Ret (Some rs) → thresholds_cover c q addrs excluded →
  ∃ b, maj23VoteSet vs = Some b ∧
    verifyQc VerifyAggregateSignature addrs excluded vw c (certificate vt vw h (b, maj23aggSignature vs)) = Ret (true, None) ∧
    (GetTrueIndices (votesBitArray vs) = GetTrueIndices b →
     verifyQc VerifyAggregateSignature addrs excluded vw c (certificate vt vw h (GetQC vs)) = Ret (true, None)).
Proof.
  intros Hst Hv Hrun Hmaj Hsz Hrs Hcover. pose proof Hst as [He Hcs _ Hthr].
  assert (Hfit : Forall (fitting vw vt) ops) by (eapply Forall_impl; [exact Hv|]; by intros op [o ->]).
  destruct (run_state c q heights vw vt (sent_in ops) cs0 ops vs cs Hst Hfit ltac:(done) Hrun) as [[Hc Hm] _].
  assert (Hrec : recorded c vw vt vs).
  { eapply (votes_recorded c q vw vt (sent_in ops) ops (NewVoteSet heights vw vt cs0) cs0); [done| |exact Hcs| | |exact Hv|done|exact Hrun].
    - apply NewVoteSet_ok; [done|apply Hcs|apply Hst|done].
    - by apply (map_Forall_empty (M := gmap Hash)).
    - by intros ? [=]. }
  unfold SuperMajority in Hmaj. unfold maj_ok in Hm. specialize (Hrec h). destruct (maj23TsHash vs) as [h'|]; [|done].
  injection Hmaj as ->. destruct (Hrec eq_refl) as (b & sigs & Hb & Hbs & Hsig & Hsigs).
  destruct Hm as (b' & Hb' & _ & Hreach & _). assert (b' = b) as -> by congruence.
  pose proof (recorded_verifies c q vw vt h b sigs addrs excluded rs He Hthr Hreach Hsz Hrs Hcover Hbs Hsigs) as Hver.
  rewrite <-Hsig in Hver. exists b. split; [done|]. split; [exact Hver|]. intros E.
  rewrite <-Hver. by apply verifyQc_bits.
Qed.
End Certificate.

(** ** The thresholds of a cluster read from the chain *)
Section Fetched.
Context `{ET : ExtTypes} `{EX : !ExtOps ET} `{TO : !TesseractOps ET} `{IX : !InteractionOps ET EX}.
Context `{CH : !Chain ET EX TO IX} `{!ChainLaws ET EX TO IX CH} `{!BitLaws ET}.
Context (w : World).

(** Excluding accounts leaves every quorum of the committee as it was. *)
Definition same_quorums (c c' : ICSCommittee) : Prop :=
  (∀ k, ParticipantQuorum c' k = ParticipantQuorum c k) ∧ RandomQuorumSize c' = RandomQuorumSize c.
Lemma exclude_quorums c pos c' : ExcludeParticipantsFromICS c pos = Ret c' → same_quorums c c'.
Proof.
  unfold ExcludeParticipantsFromICS. intros (o & Ho & H)%bind_Ret. destruct o as [set|]; [|by injection H as <-].
  apply bind_Ret in H as (sets & Hu & H). injection H as <-.
  apply go_index_Ret in Ho as [H0 Ho]. apply go_update_Ret in Hu as (_ & Hlt & ->).
  set (set' := {| Infos := Infos set |}).
  assert (Hi : ∀ k, go_index (<[Z.to_nat pos := Some set']> (Sets c)) k
                    = o ← go_index (Sets c) k; Ret (if decide (k = pos) then Some set' else o)).
  { intros k. unfold go_index. destruct (Z.ltb_spec k 0); [done|]. rewrite list_lookup_insert. case_decide as Hd.
    - destruct Hd as [Hd _]. assert (k = pos) as -> by lia. rewrite Ho. cbn. by rewrite decide_True.
    - destruct (Sets c !! Z.to_nat k) as [x|] eqn:E; [|done]. cbn. rewrite decide_False; [done|]. intros ->.
      apply Hd. split; [done|]. by eapply lookup_lt_Some. }
  assert (Hpos : go_index (Sets c) pos = Ret (Some set)) by (by apply go_index_Ret).
  split; [intros k; unfold ParticipantQuorum|unfold RandomQuorumSize, RandomSet, StochasticSetPosition];
    cbn [Sets with_sets size]; rewrite Hi.
  - destruct (decide (k = pos)) as [->|]; [by rewrite Hpos|]. by destruct (go_index (Sets c) k).
  - destruct (decide (size c - 1 = pos)) as [->|]; [by rewrite Hpos|]. by destruct (go_index (Sets c) (size c - 1)).
Qed.

(** [Participants.ExcludeFromICS] marks the listed accounts and changes nothing
    else. *)
Definition marks (m : gmap Address Participant) (xs : list Address) : Prop :=
  ∀ a, match m !! a, Participants_ExcludeFromICS m xs !! a with
       | Some p, Some p' => P_NodeSetPosition p' = P_NodeSetPosition p ∧ P_ConsensusQuorum p' = P_ConsensusQuorum p ∧
                            P_ExcludeFromICS p' = bool_decide (a ∈ xs)
       | None, None => True
       | _, _ => False
       end.

Lemma marks_at m xs a p :
  marks m xs → m !! a = Some p → ∃ p', Participants_ExcludeFromICS m xs !! a = Some p' ∧
    P_NodeSetPosition p' = P_NodeSetPosition p ∧ P_ConsensusQuorum p' = P_ConsensusQuorum p ∧
    P_ExcludeFromICS p' = bool_decide (a ∈ xs).
Proof. intros Hm Hp. specialize (Hm a). rewrite Hp in Hm. destruct (_ !! a) as [p'|]; [by exists p'|done]. Qed.
Lemma marks_from m xs a p' :
  marks m xs → Participants_ExcludeFromICS m xs !! a = Some p' → ∃ p, m !! a = Some p ∧
    P_NodeSetPosition p' = P_NodeSetPosition p ∧ P_ConsensusQuorum p' = P_ConsensusQuorum p ∧
    P_ExcludeFromICS p' = bool_decide (a ∈ xs).
Proof. intros Hm Hp. specialize (Hm a). rewrite Hp in Hm. destruct (m !! a) as [p|]; [by exists p|done]. Qed.
Lemma marks_positions m xs :
  marks m xs → positions_ok m →
  positions_ok (Participants_ExcludeFromICS m xs) ∧ base.size (Participants_ExcludeFromICS m xs) = base.size m.
Proof.
  intros Hm [Hr Hi]. assert (Hsz : base.size (Participants_ExcludeFromICS m xs) = base.size m).
  { rewrite <-!size_dom. f_equal. apply set_eq. intros a. rewrite !elem_of_dom. specialize (Hm a).
    destruct (m !! a), (_ !! a); try done; by rewrite !is_Some_alt. }
  split; [|done]. split.
  - intros a p' Hp'. destruct (marks_from m xs a p' Hm Hp') as (p & Hp & -> & _). rewrite Hsz. by eapply Hr.
  - intros a b p' q' Hp' Hq'. destruct (marks_from m xs a p' Hm Hp') as (p & Hp & -> & _).
    destruct (marks_from m xs b q' Hm Hq') as (q & Hq & -> & _). by apply Hi.
Qed.

(** A cluster whose participants and committee were read from the chain, with a
    random set and some accounts excluded: [GetQuorum] gives thresholds that cover
    the committee's, for the accounts in the order of their positions. *)
Lemma fetched_thresholds_cover ps m c ns ixs id op t self vis vw cs xs cs1 q cs2 addrs :
  fetchParticipantsAndCommittee w ps = Ret (inl (m, c)) → BitsSize (Responses ns) = zlen (Infos ns) →
  ClusterUpdateNodeSet (NewICS ixs id op t self c m vis vw) (StochasticSetPosition c) (Some ns) = Ret cs →
  marks m xs → ClusterExcludeParticipants cs xs = Ret cs1 → GetQuorum cs1 = Ret (q, cs2) →
  length addrs = base.size m →
  (∀ k a, addrs !! k = Some a → ∃ p, m !! a = Some p ∧ P_NodeSetPosition p = Z.of_nat k) →
  thresholds_cover (committee cs1) q addrs (λ a, bool_decide (a ∈ xs)).
Proof.
  intros Hfetch Hns Hcs Hm Hex Hq Hlen Haddrs.
  destruct (fetch_placed w ps) as (r0 & Hr0 & Hn). rewrite Hfetch in Hr0. injection Hr0 as <-.
  destruct (Hn _ eq_refl) as (addrs0 & Hnd & _ & Hpl). clear Hn.
  destruct (placed_positions _ _ _ Hnd Hpl) as [Hpos Hsz]. pose proof Hpl as [Hf Hd _ _ Hdone]. cbn [fst snd] in *.
  destruct (UpdateNodeSet_filling c _ (length addrs0) ns Hf ltac:(lia) Hns) as (c' & Hc' & Hf' & Hs' & _).
  assert (Hsp : StochasticSetPosition c = Z.of_nat (length addrs0)).
  { unfold StochasticSetPosition. rewrite (fl_size _ _ _ Hf). lia. }
  unfold ClusterUpdateNodeSet in Hcs. change (committee (NewICS _ _ _ _ _ c _ _ _)) with c in Hcs.
  rewrite Hsp, Hc' in Hcs. injection Hcs as <-.
  unfold ClusterExcludeParticipants in Hex. apply bind_Ret in Hex as (c1 & Hfold & Hex). injection Hex as <-.
  cbn [Participants committee set_committee set_participants NewICS] in *.
  assert (Hsame : same_quorums c' c1).
  { eapply (foldM_preserves (same_quorums c')); [exact Hfold|done|]. intros s [a p] s' _ Hstep [H1 H2].
    destruct (Participant_ExcludedFromICS p); [|by injection Hstep as <-].
    destruct (exclude_quorums _ _ _ Hstep) as [H3 H4]. split; [intros k; by rewrite H3|by rewrite H4]. }
  destruct Hsame as [Hpq Hrq].
  assert (Hr : RandomQuorumSize c1 = Ret (quorum_of (SetSizeWithOutDelta ns))).
  { rewrite Hrq. unfold RandomQuorumSize, RandomSet, StochasticSetPosition. rewrite (fl_size _ _ _ Hf').
    replace (Z.of_nat (S (length addrs0)) - 1) with (Z.of_nat (length addrs0)) by lia.
    rewrite (go_index_nat _ _ (Some ns)); [done|]. rewrite Hs'. apply list_lookup_insert_eq. rewrite (fl_len _ _ _ Hf). lia. }
  destruct (marks_positions m xs Hm Hpos) as [Hpos' Hsz'].
  match type of Hq with GetQuorum ?x = _ => destruct (GetQuorum_spec x _ Hpos' eq_refl Hr) as (q' & Hq' & Hql & Hat & _) end.
  rewrite Hq in Hq'. injection Hq' as <- _. cbn [Participants set_committee set_participants] in Hql. rewrite Hsz' in Hql.
  split.
  - intros k a x Ha Hx Hk. destruct (Haddrs k a Ha) as (p & Hp & Hkp). apply bool_decide_eq_false in Hx.
    apply lookup_lt_Some in Ha as Hklt. destruct (lookup_lt_is_Some_2 q k) as [y Hy]; [lia|]. exists y. split; [done|].
    assert (Hi : a ∈ addrs0) by (apply Hd; by eexists). apply list_elem_of_lookup in Hi as [i Hi].
    destruct (Hdone i a Hi) as (p2 & Hp2 & Hip & Hquo); [by apply lookup_lt_Some in Hi|].
    assert (p2 = p) as -> by congruence. assert (i = k) as -> by lia.
    assert (Hxp : x = P_ConsensusQuorum p).
    { rewrite Hpq in Hk. rewrite (ParticipantQuorum_sets c c') in Hk.
      2: { rewrite Hs'. apply list_lookup_insert_ne. lia. }
      destruct (P_IsGenesis p); [|congruence]. destruct Hquo as [-> Hnone]. unfold ParticipantQuorum in Hk.
      rewrite (go_index_nat _ _ _ Hnone) in Hk. by injection Hk as <-. }
    destruct (marks_at m xs a p Hm Hp) as (p' & Hp' & Hpos2 & Hcq & Hexc).
    specialize (Hat k y Hy). unfold quorum_at in Hat. cbn [Participants set_committee set_participants] in Hat.
    rewrite decide_False in Hat by lia. destruct Hat as [(b & p3 & Hb & Hpb & _ & ->)|[_ Hall]].
    + assert (b = a) as -> by (eapply (proj2 Hpos'); [exact Hb|exact Hp'|lia]).
      assert (p3 = p') as -> by congruence. lia.
    + specialize (Hall a p' Hp' ltac:(lia)). rewrite Hexc in Hall. by apply bool_decide_eq_true in Hall.
  - intros x Hx. rewrite Hlen. destruct (lookup_lt_is_Some_2 q (base.size m)) as [y Hy]; [lia|]. exists y. split; [done|].
    specialize (Hat _ y Hy). unfold quorum_at in Hat. cbn [Participants committee set_committee set_participants] in *.
    rewrite decide_True in Hat by done. assert (x = quorum_of (SetSizeWithOutDelta ns)) by congruence. lia.
Qed.
End Fetched.

(** ** Witness *)
#[local] Existing Instances CE CX CE_bits CCanon.
Lemma CX_aggregates : AggregateLaws CE CX.
Proof.
  split. intros raw sigs keys _ Hs. split; [done|]. cbn. f_equal. apply bool_decide_eq_true. f_equal.
  induction Hs as [|s k sigs keys Hsk _ IH]; [done|]. cbn in *. injection Hsk as Hsk. apply bool_decide_eq_true in Hsk.
  by rewrite Hsk, IH.
Qed.
(** Six prevotes for one tesseract, then two for another. *)
Definition w_split : list vs_op := w_ballot PREVOTE 1 7 w_six ++ w_ballot PREVOTE 1 8 [3; 7].
Definition w_verify (qc : Bits * bytes) : res (bool * option err) :=
  verifyQc VerifyAggregateSignature [(10 : @Address CE)] (λ _, false) 1 w_committee (certificate PREVOTE 1 7 qc).
Lemma w_covers excluded : thresholds_cover w_committee w_quorum [(10 : @Address CE)] excluded.
Proof.
  split.
  - intros [|k] a x Ha _ Hx; [|by destruct k]. exists 3. split; [reflexivity|]. vm_compute in Hx. injection Hx as <-. lia.
  - intros x Hx. exists 3. split; [reflexivity|]. vm_compute in Hx. injection Hx as <-. lia.
Defined.
Lemma majority_certificate_verifies_witness :
  ∃ b, maj23VoteSet (w_state w_split).1 = Some b ∧
    w_verify (b, maj23aggSignature (w_state w_split).1) = Ret (true, None) ∧
    w_verify (GetQC (w_state w_split).1) = Ret (false, None).
Proof.
  destruct (majority_certificate_verifies (AggregateLaws0 := CX_aggregates) w_committee w_quorum w_heights 1 PREVOTE w_cs
           w_split (w_state w_split).1 (w_state w_split).2 7 [(10 : @Address CE)] (λ _, false) w_set1) as (b & Hb & Hv & _).
  - exact w_started.
  - apply Forall_app. split; apply Forall_fmap, Forall_true; intros n; by eexists.
  - apply w_state_run. vm_compute. reflexivity.
  - vm_compute. reflexivity.
  - reflexivity.
  - reflexivity.
  - apply w_covers.
  - exists b. split; [exact Hb|]. split; [exact Hv|]. vm_compute. reflexivity.
Defined.
