(* ===== verification/HeightVoteSet.v ===== *)
(** * The votes of all views: [types/votesetheight.go]

    A [HeightVoteSet] keeps a prevote and a precommit set per view.  A vote for a
    view that is not there yet creates it, at most twice per peer.  As in
    [VoteSet.v] the operations that reach the cached quorum return the cluster
    state. *)

From stdpp Require Import base gmap strings list fin_maps.
From Stdlib Require Import ZArith Lia.
From S2P Require Import Prelude External Types NodeSet Committee Cluster VoteSet Tally VoteSetFacts.

Section HeightVoteSet.
Context `{ET : ExtTypes} `{!ExtOps ET} `{!PoloCodec CanonicalVote}.

Record HeightVoteSet := {
  chainIDs : list string;
  HVS_heights : gmap Address Z;
  HVS_view : Z;
  viewVoteSet : gmap Z ViewVoteSet;
  peerCatchupRounds : gmap KramaID (list Z);
}.

Definition set_views (hvs : HeightVoteSet) (m : gmap Z ViewVoteSet) : HeightVoteSet :=
  {| chainIDs := chainIDs hvs; HVS_heights := HVS_heights hvs; HVS_view := HVS_view hvs;
     viewVoteSet := m; peerCatchupRounds := peerCatchupRounds hvs |}.
Definition set_catchup (hvs : HeightVoteSet) (m : gmap KramaID (list Z)) : HeightVoteSet :=
  {| chainIDs := chainIDs hvs; HVS_heights := HVS_heights hvs; HVS_view := HVS_view hvs;
     viewVoteSet := viewVoteSet hvs; peerCatchupRounds := m |}.
Definition set_hview (hvs : HeightVoteSet) (v : Z) : HeightVoteSet :=
  {| chainIDs := chainIDs hvs; HVS_heights := HVS_heights hvs; HVS_view := v;
     viewVoteSet := viewVoteSet hvs; peerCatchupRounds := peerCatchupRounds hvs |}.

Definition addView (hvs : HeightVoteSet) (cs : ClusterState) (v : Z) : res HeightVoteSet :=
  match viewVoteSet hvs !! v with
  | Some _ => Panic "View already exists"
  | None =>
      Ret (set_views hvs (<[v := {| VVS_Prevotes := NewVoteSet (HVS_heights hvs) v PREVOTE cs;
                                    VVS_Precommits := NewVoteSet (HVS_heights hvs) v PRECOMMIT cs |}]>
                           (viewVoteSet hvs)))
  end.

Definition Reset (hvs : HeightVoteSet) (heights : gmap Address Z) (cs : ClusterState)
    : res HeightVoteSet :=
  hvs' ← addView {| chainIDs := chainIDs hvs; HVS_heights := heights; HVS_view := HVS_view hvs;
                    viewVoteSet := ∅; peerCatchupRounds := peerCatchupRounds hvs |} cs 0;
  Ret (set_hview hvs' 0).

Definition NewHeightVoteSet (chains : list string) (heights : gmap Address Z) (cs : ClusterState)
    : res HeightVoteSet :=
  Reset {| chainIDs := chains; HVS_heights := ∅; HVS_view := 0; viewVoteSet := ∅;
           peerCatchupRounds := ∅ |} heights cs.

Definition getVoteSet (hvs : HeightVoteSet) (view : Z) (vt : ConsensusMsgType) : option VoteSet :=
  match viewVoteSet hvs !! view with
  | None => None
  | Some rvs =>
      match vt with
      | PREVOTE => Some (VVS_Prevotes rvs)
      | PRECOMMIT => Some (VVS_Precommits rvs)
      | _ => None
      end
  end.

(** The set behind the pointer [getVoteSet] returned, after a call on it. *)
Definition putVoteSet (hvs : HeightVoteSet) (view : Z) (vt : ConsensusMsgType) (vs : VoteSet)
    : HeightVoteSet :=
  set_views hvs (alter (λ rvs,
    match vt with
    | PREVOTE => {| VVS_Prevotes := vs; VVS_Precommits := VVS_Precommits rvs |}
    | PRECOMMIT => {| VVS_Prevotes := VVS_Prevotes rvs; VVS_Precommits := vs |}
    | _ => rvs
    end) view (viewVoteSet hvs)).

(** A method call on the vote set a lookup gave; nil panics in [Lock]. *)
Definition callVoteSet
    (f : VoteSet → ClusterState → res (bool * option err * VoteSet * ClusterState))
    (hvs : HeightVoteSet) (cs : ClusterState) (v : Vote)
    : res (bool * option err * HeightVoteSet * ClusterState) :=
  vs ← deref (getVoteSet hvs (V_View v) (V_Type v));
  '(added, e, vs', cs') ← f vs cs;
  Ret (added, e, putVoteSet hvs (V_View v) (V_Type v) vs', cs').

Definition HVS_AddQC (hvs : HeightVoteSet) (cs : ClusterState) (v : Vote) (peerID : KramaID)
    : res (bool * option err * HeightVoteSet * ClusterState) :=
  let call h := callVoteSet (λ vs cs, AddQc vs cs (Some v)) h cs v in
  match getVoteSet hvs (V_View v) (V_Type v) with
  | Some _ => call hvs
  | None => hvs' ← addView hvs cs (V_View v); call hvs'
  end.

Definition HVS_AddVote (hvs : HeightVoteSet) (cs : ClusterState) (v : Vote) (peerID : KramaID)
    : res (bool * option err * HeightVoteSet * ClusterState) :=
  let call h := callVoteSet (λ vs cs, AddVote vs cs (Some v)) h cs v in
  match getVoteSet hvs (V_View v) (V_Type v) with
  | Some _ => call hvs
  | None =>
      let rounds := default [] (peerCatchupRounds hvs !! peerID) in
      if zlen rounds <? 2 then
        hvs1 ← addView hvs cs (V_View v);
        call (set_catchup hvs1 (<[peerID := rounds ++ [V_View v]]> (peerCatchupRounds hvs1)))
      else Ret (false, Some (ENew "could not add vote. peer has more than 2 catchup rounds"), hvs, cs)
  end.

(** [for r := nextround; r <= view; r++]: the fuel is the length of the range;
    when it is spent and the condition still holds, [r] has wrapped around and
    the loop never ends. *)
Fixpoint addViews (fuel : nat) (hvs : HeightVoteSet) (cs : ClusterState) (r view : Z)
    : res HeightVoteSet :=
  if view <? r then Ret hvs
  else match fuel with
       | O => Hang
       | S fuel' =>
           hvs' ← (if is_some (viewVoteSet hvs !! r) then Ret hvs else addView hvs cs r);
           addViews fuel' hvs' cs (u64 (r + 1)) view
       end.

Definition HVS_SetView (hvs : HeightVoteSet) (cs : ClusterState) (view : Z) : res HeightVoteSet :=
  let nextround := u64 (HVS_view hvs - 1) in
  if negb (HVS_view hvs =? 0) && (view <? nextround) then Panic "can't add new view"
  else
    hvs' ← addViews (Z.to_nat (view + 1 - nextround)) hvs cs nextround view;
    Ret (set_hview hvs' view).

Definition GetViewBitVoteSet (hvs : HeightVoteSet) : option (gmap Z VoteBitSet) :=
  if decide (viewVoteSet hvs = ∅) then None
  else Some (map_imap (λ key value, if key =? 0 then None else ViewVoteBitSet value)
               (viewVoteSet hvs)).

(** The votes collected for one bit array, and how many read locks the
    [continue] of the error branch leaves held. *)
Definition collectVotes (vs : option VoteSet) (bits : option Bits)
    (acc : list (option Vote) * Z) : res (list (option Vote) * Z) :=
  match bits with
  | None => Ret acc
  | Some b =>
      if BitsIsEmpty b then Ret acc
      else foldM (λ '(votes, leaked) valIndex,
             set ← deref vs;
             r ← getVoteByIndex set valIndex;
             Ret match r with
                 | inl v => (votes ++ [v], leaked)
                 | inr _ => (votes, leaked + 1)
                 end) (GetTrueIndices b) acc
  end.

(** Go's map iteration order is unspecified; [map_to_list] is one order. *)
Definition GetVotes (hvs : HeightVoteSet) (m : gmap Z VoteBitSet) : res (list (option Vote) * Z) :=
  foldM (λ acc '(round, voteBitSet),
    if is_some (viewVoteSet hvs !! round) then
      acc1 ← collectVotes (getVoteSet hvs round PREVOTE) (VB_Prevotes voteBitSet) acc;
      collectVotes (getVoteSet hvs round PRECOMMIT) (VB_Precommits voteBitSet) acc1
    else Ret acc) (map_to_list m) ([], 0).

Definition HVS_Prevotes (hvs : HeightVoteSet) (view : Z) : option VoteSet :=
  getVoteSet hvs view PREVOTE.
Definition HVS_Precommits (hvs : HeightVoteSet) (view : Z) : option VoteSet :=
  getVoteSet hvs view PRECOMMIT.

(** [for r := hvs.view; r <= 0; r--]: with unsigned [r] the body runs for view
    0 only, since the decrement wraps. *)
Definition POLInfo (hvs : HeightVoteSet) : Z * Hash :=
  if HVS_view hvs <=? 0 then
    match SuperMajority (getVoteSet hvs (HVS_view hvs) PREVOTE) with
    | (tsHash, true) => (HVS_view hvs, tsHash)
    | (_, false) => (0, NilHash)
    end
  else (0, NilHash).

Definition HVS_GetQC (hvs : HeightVoteSet) (tsHash : Hash) (view : Z) (voteType : ConsensusMsgType)
    : res (Qc + err) :=
  match getVoteSet hvs view voteType with
  | None => Ret (inr (ENew "invalid vote type"))
  | Some vs =>
      h ← deref (maj23TsHash vs);
      if decide (h = tsHash)
      then Ret (inl {| Qc_Type := voteType; Qc_View := view; Qc_TSHash := h; Qc_Address := NilAddress;
                       Qc_SignerIndices := maj23VoteSet vs;
                       Qc_Signature := maj23aggSignature vs |})
      else Ret (inr (ENew "ts hash doesn't match with super majority"))
  end.

Definition PreCommitAggregatedSignature (hvs : HeightVoteSet) (viewID : Z) (ts : Hash)
    : res (bytes * option Bits * option err) :=
  preCommits ← deref (HVS_Precommits hvs viewID);
  tv ← deref (votesByTesseract preCommits !! ts);
  '(aggregatedSignature, e) ← AggregateSignatures tv;
  Ret match e with
      | Some e => ([], None, Some (EWrap e "failed to aggregate signatures"))
      | None => (aggregatedSignature, Some (bitarray tv), None)
      end.
End HeightVoteSet.

(** ** The invariant: every view's sets are sound *)
Section Facts.
Context `{ET : ExtTypes} `{!ExtOps ET} `{!BitLaws ET} `{!PoloCodec CanonicalVote}.
Definition voteType (vt : ConsensusMsgType) : Prop := vt = PREVOTE ∨ vt = PRECOMMIT.

#[export] Instance voteType_dec vt : Decision (voteType vt).
Proof. unfold voteType. apply _. Defined.

Lemma getVoteSet_type hvs view vt vs : getVoteSet hvs view vt = Some vs → voteType vt.
Proof.
  unfold getVoteSet, voteType. destruct (viewVoteSet hvs !! view); [|done].
  destruct vt; naive_solver.
Qed.

Context (c : ICSCommittee) (q : list Z) (sent : Vote → Prop).

Record hvs_ok (hvs : HeightVoteSet) : Prop := {
  ho_heights : Z.of_nat (S (base.size (HVS_heights hvs))) = size c;
  ho_sets : ∀ view vt vs, getVoteSet hvs view vt = Some vs → vs_ok c q view vt sent vs;
  ho_catchup : ∀ peer rounds, peerCatchupRounds hvs !! peer = Some rounds → zlen rounds ≤ 2;
}.

Context (Henv : env_ok c q) (Hthr : ∃ x, x ∈ q ∧ 0 < x).

Lemma getVoteSet_Some hvs view vt :
  voteType vt → is_Some (viewVoteSet hvs !! view) → is_Some (getVoteSet hvs view vt).
Proof. intros [->| ->] [rvs Hr]; unfold getVoteSet; rewrite Hr; eauto. Qed.

Lemma getVoteSet_None hvs view vt :
  voteType vt → getVoteSet hvs view vt = None → viewVoteSet hvs !! view = None.
Proof.
  intros Hvt Hn. destruct (viewVoteSet hvs !! view) eqn:E; [|done].
  destruct (getVoteSet_Some hvs view vt Hvt) as [? Hs]; [by rewrite E|]. congruence.
Qed.

Lemma getVoteSet_put hvs view vt vs0 vs view' vt' :
  getVoteSet hvs view vt = Some vs0 →
  getVoteSet (putVoteSet hvs view vt vs) view' vt' =
  if decide (view' = view ∧ vt' = vt) then Some vs else getVoteSet hvs view' vt'.
Proof.
  unfold getVoteSet, putVoteSet. cbn [viewVoteSet set_views].
  destruct (decide (view' = view)) as [->|Hne].
  - rewrite lookup_alter_eq. destruct (viewVoteSet hvs !! view) as [rvs|]; [|done]. cbn.
    destruct vt, vt'; cbn; try done; case_decide; naive_solver.
  - rewrite lookup_alter_ne by done. rewrite decide_False by naive_solver. done.
Qed.

Lemma addView_ok hvs cs view :
  hvs_ok hvs → committee cs = c → viewVoteSet hvs !! view = None →
  ∃ hvs', addView hvs cs view = Ret hvs' ∧ hvs_ok hvs' ∧
    (∀ view', is_Some (viewVoteSet hvs' !! view') ↔ view' = view ∨ is_Some (viewVoteSet hvs !! view')) ∧
    (∀ view' vt, view' ≠ view → getVoteSet hvs' view' vt = getVoteSet hvs view' vt) ∧
    HVS_view hvs' = HVS_view hvs ∧ peerCatchupRounds hvs' = peerCatchupRounds hvs ∧
    HVS_heights hvs' = HVS_heights hvs.
Proof.
  intros [Hh Hs Hp] Hcs Hn. unfold addView. rewrite Hn. eexists. split; [done|].
  assert (Hother : ∀ m view' vt, view' ≠ view →
    getVoteSet (set_views hvs (<[view := m]> (viewVoteSet hvs))) view' vt = getVoteSet hvs view' vt).
  { intros m view' vt Hne. unfold getVoteSet. cbn. by rewrite lookup_insert_ne. }
  split; [split; try done|split_and!; try done].
  - intros view' vt vs. destruct (decide (view' = view)) as [->|Hne].
    + unfold getVoteSet. cbn. rewrite lookup_insert_eq.
      destruct vt; intros [= <-]; by apply NewVoteSet_ok.
    + rewrite Hother by done. apply Hs.
  - intros view'. cbn. destruct (decide (view' = view)) as [->|Hne].
    + rewrite lookup_insert_eq. naive_solver.
    + rewrite lookup_insert_ne by done. naive_solver.
  - intros view' vt Hne. by apply Hother.
Qed.

Lemma NewHeightVoteSet_ok chains heights cs :
  committee cs = c → Z.of_nat (S (base.size heights)) = size c →
  ∃ hvs, NewHeightVoteSet chains heights cs = Ret hvs ∧ hvs_ok hvs ∧ HVS_view hvs = 0 ∧
    (∀ v, is_Some (viewVoteSet hvs !! v) ↔ v = 0) ∧ HVS_heights hvs = heights.
Proof.
  intros Hcs Hh. unfold NewHeightVoteSet, Reset. cbn [chainIDs HVS_view peerCatchupRounds].
  destruct (addView_ok {| chainIDs := chains; HVS_heights := heights; HVS_view := 0;
    viewVoteSet := ∅; peerCatchupRounds := ∅ |} cs 0) as (hvs & -> & Hok & Hv & _ & _ & _ & Hhe);
    [|done|done|].
  - split; cbn; [done| |done]. intros view vt vs. unfold getVoteSet. cbn. by rewrite lookup_empty.
  - cbn [mbind res_bind]. eexists. split; [done|]. destruct Hok as [? Hs ?].
    split; [split; done|]. split; [done|]. split; [|done]. intros v. cbn. rewrite Hv. cbn.
    rewrite lookup_empty. split; [intros [->|[? ?]]; done|by left].
Qed.

(** No view disappears and no recorded majority changes; the heights stay. *)
Definition hvs_kept (hvs hvs' : HeightVoteSet) : Prop :=
  (∀ view vt vs, getVoteSet hvs view vt = Some vs →
     ∃ vs', getVoteSet hvs' view vt = Some vs' ∧ maj_kept vs vs') ∧
  (∀ view, is_Some (viewVoteSet hvs !! view) → is_Some (viewVoteSet hvs' !! view)) ∧
  HVS_view hvs' = HVS_view hvs ∧ HVS_heights hvs' = HVS_heights hvs.

Lemma hvs_kept_refl hvs : hvs_kept hvs hvs.
Proof. split_and!; try done. intros view vt vs Hg. by exists vs. Qed.

Lemma hvs_kept_trans a b d : hvs_kept a b → hvs_kept b d → hvs_kept a d.
Proof.
  intros (H1 & H2 & H3 & H4) (H1' & H2' & H3' & H4'). split_and!; [|by auto|congruence..].
  intros view vt vs Hg. destruct (H1 _ _ _ Hg) as (vs1 & Hg1 & Hk1).
  destruct (H1' _ _ _ Hg1) as (vs2 & Hg2 & Hk2). exists vs2. split; [done|].
  by eapply maj_kept_trans.
Qed.

(** A call on a vote set of the map. *)
Lemma callVoteSet_ok f hvs cs v vs0 :
  hvs_ok hvs → cluster_ok c q cs → getVoteSet hvs (V_View v) (V_Type v) = Some vs0 →
  (∀ vs, vs_ok c q (V_View v) (V_Type v) sent vs →
     ∃ added e vs' cs', f vs cs = Ret (added, e, vs', cs') ∧
       step_ok c q (V_View v) (V_Type v) sent vs vs' cs') →
  ∃ added e vs' cs', callVoteSet f hvs cs v
    = Ret (added, e, putVoteSet hvs (V_View v) (V_Type v) vs', cs') ∧
    hvs_ok (putVoteSet hvs (V_View v) (V_Type v) vs') ∧ cluster_ok c q cs' ∧
    hvs_kept hvs (putVoteSet hvs (V_View v) (V_Type v) vs').
Proof.
  intros [Hh Hs Hp] Hcs Hg Hf. unfold callVoteSet. rewrite Hg. cbn [deref mbind res_bind].
  destruct (Hf vs0 (Hs _ _ _ Hg)) as (a & e & vs' & cs' & He & Hok & Hcs' & _ & Hk & _).
  rewrite He. cbn [mbind res_bind]. exists a, e, vs', cs'. split; [done|].
  split; [|split; [done|]].
  2: { split_and!; try done.
       - intros view vt vs Hv. rewrite (getVoteSet_put _ _ _ vs0) by done.
         case_decide as Hd; [|by exists vs]. destruct Hd as [-> ->]. exists vs'.
         rewrite Hg in Hv. by injection Hv as <-.
       - intros view. cbn. destruct (decide (view = V_View v)) as [->|].
         + rewrite lookup_alter_eq. by intros [? ->].
         + by rewrite lookup_alter_ne. }
  split; try done. intros view vt vs. rewrite (getVoteSet_put _ _ _ vs0) by done.
  case_decide as Hd; [|by apply Hs]. destruct Hd as [-> ->]. by intros [= <-].
Qed.

Lemma set_catchup_ok hvs m :
  hvs_ok hvs → (∀ peer rounds, m !! peer = Some rounds → zlen rounds ≤ 2) →
  hvs_ok (set_catchup hvs m).
Proof. intros [? ? ?] ?. by split. Qed.

(** ** Views *)
Lemma addViews_ok fuel hvs cs r view :
  hvs_ok hvs → committee cs = c → 0 ≤ r ≤ view + 1 → view + 1 < 2 ^ 64 →
  (Z.to_nat (view + 1 - r) ≤ fuel)%nat →
  ∃ hvs', addViews fuel hvs cs r view = Ret hvs' ∧ hvs_ok hvs' ∧
    (∀ v, is_Some (viewVoteSet hvs' !! v) ↔ r ≤ v ≤ view ∨ is_Some (viewVoteSet hvs !! v)) ∧
    (∀ v vt vs, getVoteSet hvs v vt = Some vs → getVoteSet hvs' v vt = Some vs).
Proof.
  revert hvs r. induction fuel as [|fuel IH]; intros hvs r Hok Hcs Hr Hb Hf; cbn [addViews].
  - destruct (Z.ltb_spec view r); [|lia]. exists hvs. split_and!; try done.
    intros v. split; [by right|]. intros [?|?]; [lia|done].
  - destruct (Z.ltb_spec view r).
    { exists hvs. split_and!; try done. intros v. split; [by right|]. intros [?|?]; [lia|done]. }
    assert (Hstep : ∃ hvs1,
      (if is_some (viewVoteSet hvs !! r) then Ret hvs else addView hvs cs r) = Ret hvs1 ∧
      hvs_ok hvs1 ∧
      (∀ v, is_Some (viewVoteSet hvs1 !! v) ↔ v = r ∨ is_Some (viewVoteSet hvs !! v)) ∧
      (∀ v vt vs, getVoteSet hvs v vt = Some vs → getVoteSet hvs1 v vt = Some vs)).
    { destruct (viewVoteSet hvs !! r) as [rvs|] eqn:E; cbn [is_some].
      - exists hvs. split_and!; try done. intros v. split; [by right|]. intros [->|?]; [by rewrite E|done].
      - destruct (addView_ok hvs cs r Hok Hcs E) as (hvs1 & He & Hok1 & Hv & Ho & _).
        exists hvs1. split_and!; try done. intros v vt vs Hg.
        rewrite Ho; [done|]. intros ->. unfold getVoteSet in Hg. by rewrite E in Hg. }
    destruct Hstep as (hvs1 & -> & Hok1 & Hv1 & Hg1). cbn [mbind res_bind].
    rewrite u64_small by lia.
    destruct (IH hvs1 (r + 1)) as (hvs' & He & Hok' & Hv' & Hg'); try done; [lia|lia|].
    exists hvs'. split; [done|]. split; [done|]. split; [|by eauto].
    intros v. rewrite Hv', Hv1. split.
    + intros [?|[->|?]]; [left; lia|left; lia|by right].
    + intros [?|?]; [|by right; right]. destruct (decide (v = r)); [by right; left|left; lia].
Qed.

(** A fresh view and the call on it. *)
Lemma addView_call_ok f hvs cs v m :
  hvs_ok hvs → cluster_ok c q cs → voteType (V_Type v) →
  getVoteSet hvs (V_View v) (V_Type v) = None →
  (∀ peer rounds, m !! peer = Some rounds → zlen rounds ≤ 2) →
  (∀ vs, vs_ok c q (V_View v) (V_Type v) sent vs →
     ∃ added e vs' cs', f vs cs = Ret (added, e, vs', cs') ∧
       step_ok c q (V_View v) (V_Type v) sent vs vs' cs') →
  ∃ hvs1, addView hvs cs (V_View v) = Ret hvs1 ∧
    peerCatchupRounds hvs1 = peerCatchupRounds hvs ∧
    ∀ hvs2, hvs2 = hvs1 ∨ hvs2 = set_catchup hvs1 m →
    ∃ added e hvs' cs', callVoteSet f hvs2 cs v = Ret (added, e, hvs', cs') ∧
      hvs_ok hvs' ∧ cluster_ok c q cs' ∧ hvs_kept hvs hvs'.
Proof.
  intros Hok Hcs Hvt Hn Hm Hf. pose proof (getVoteSet_None _ _ _ Hvt Hn) as Hnone.
  destruct (addView_ok hvs cs (V_View v) Hok (proj1 Hcs) Hnone)
    as (hvs1 & He & Hok1 & Hv1 & Ho1 & Hvw & Hcat & Hhe).
  exists hvs1. split; [done|]. split; [done|]. intros hvs2 H2.
  assert (Hok2 : hvs_ok hvs2).
  { destruct H2 as [->| ->]; [done|]. by apply set_catchup_ok. }
  assert (Hsame : ∀ view vt, getVoteSet hvs2 view vt = getVoteSet hvs1 view vt)
    by (destruct H2 as [->| ->]; done).
  destruct (getVoteSet_Some hvs1 (V_View v) (V_Type v) Hvt) as [vs0 Hg0]; [apply Hv1; by left|].
  destruct (callVoteSet_ok f hvs2 cs v vs0 Hok2 Hcs) as (a & e & vs' & cs' & Hc & Hok' & Hcs' & Hk);
    [by rewrite Hsame|done|].
  exists a, e, (putVoteSet hvs2 (V_View v) (V_Type v) vs'), cs'. split_and!; try done.
  eapply hvs_kept_trans; [|done]. split_and!.
  - intros view vt vs Hg. exists vs. split; [|done]. rewrite Hsame, Ho1; [done|].
    intros ->. unfold getVoteSet in Hg. by rewrite Hnone in Hg.
  - intros view Hs. assert (is_Some (viewVoteSet hvs1 !! view)) by (apply Hv1; by right).
    by destruct H2 as [->| ->].
  - by destruct H2 as [->| ->].
  - by destruct H2 as [->| ->].
Qed.

Lemma HVS_AddVote_ok hvs cs v peer :
  hvs_ok hvs → cluster_ok c q cs → voteType (V_Type v) → sent v →
  ∃ added e hvs' cs', HVS_AddVote hvs cs v peer = Ret (added, e, hvs', cs') ∧
    hvs_ok hvs' ∧ cluster_ok c q cs' ∧ hvs_kept hvs hvs'.
Proof.
  intros Hok Hcs Hvt Hsent. unfold HVS_AddVote.
  assert (Hf : ∀ vs, vs_ok c q (V_View v) (V_Type v) sent vs →
     ∃ added e vs' cs', AddVote vs cs (Some v) = Ret (added, e, vs', cs') ∧
       step_ok c q (V_View v) (V_Type v) sent vs vs' cs').
  { intros vs Hvs.
    destruct (AddVote_ok c q _ _ sent Henv vs cs (Some v) Hvs Hcs) as (a & e & vs' & cs' & ? & ? & _);
      [by intros ? [= <-]|eauto 10]. }
  destruct (getVoteSet hvs (V_View v) (V_Type v)) as [vs0|] eqn:Hg.
  - destruct (callVoteSet_ok (λ vs cs, AddVote vs cs (Some v)) hvs cs v vs0 Hok Hcs Hg Hf)
      as (a & e & vs' & cs' & Hc & ? & ? & ?). eauto 10.
  - destruct (Z.ltb_spec (zlen (default [] (peerCatchupRounds hvs !! peer))) 2) as [Hlt|Hge].
    2: { eexists _, _, hvs, cs. split; [done|]. split_and!; try done. apply hvs_kept_refl. }
    set (rounds := default [] (peerCatchupRounds hvs !! peer)) in *.
    destruct (addView_call_ok (λ vs cs, AddVote vs cs (Some v)) hvs cs v
      (<[peer := rounds ++ [V_View v]]> (peerCatchupRounds hvs)) Hok Hcs Hvt Hg)
      as (hvs1 & -> & Hcat & Hcall); [|done|].
    { intros peer' r. rewrite lookup_insert. case_decide.
      - intros [= <-]. unfold zlen in *. rewrite length_app. cbn. lia.
      - by apply (ho_catchup _ Hok). }
    cbn [mbind res_bind]. rewrite Hcat.
    destruct (Hcall _ (or_intror eq_refl)) as (a & e & hvs' & cs' & ? & ? & ? & ?). eauto 10.
Qed.

Lemma HVS_AddQC_ok hvs cs v peer signed :
  hvs_ok hvs → cluster_ok c q cs → voteType (V_Type v) → sent v → signerIndices v = Ret signed →
  ∃ added e hvs' cs', HVS_AddQC hvs cs v peer = Ret (added, e, hvs', cs') ∧
    hvs_ok hvs' ∧ cluster_ok c q cs' ∧ hvs_kept hvs hvs'.
Proof.
  intros Hok Hcs Hvt Hsent Hsig. unfold HVS_AddQC.
  assert (Hf : ∀ vs, vs_ok c q (V_View v) (V_Type v) sent vs →
     ∃ added e vs' cs', AddQc vs cs (Some v) = Ret (added, e, vs', cs') ∧
       step_ok c q (V_View v) (V_Type v) sent vs vs' cs').
  { intros vs Hvs. by apply (AddQc_ok c q _ _ sent Henv vs cs v signed). }
  destruct (getVoteSet hvs (V_View v) (V_Type v)) as [vs0|] eqn:Hg.
  - destruct (callVoteSet_ok (λ vs cs, AddQc vs cs (Some v)) hvs cs v vs0 Hok Hcs Hg Hf)
      as (a & e & vs' & cs' & Hc & ? & ? & ?). eauto 10.
  - destruct (addView_call_ok (λ vs cs, AddQc vs cs (Some v)) hvs cs v (peerCatchupRounds hvs)
      Hok Hcs Hvt Hg) as (hvs1 & -> & Hcat & Hcall); [apply (ho_catchup _ Hok)|done|].
    cbn [mbind res_bind].
    destruct (Hcall _ (or_introl eq_refl)) as (a & e & hvs' & cs' & ? & ? & ? & ?). eauto 10.
Qed.

Lemma HVS_SetView_ok hvs cs view :
  hvs_ok hvs → committee cs = c → 0 ≤ HVS_view hvs < 2 ^ 64 → 0 ≤ view < 2 ^ 64 - 1 →
  HVS_view hvs = 0 ∨ HVS_view hvs - 1 ≤ view →
  ∃ hvs', HVS_SetView hvs cs view = Ret hvs' ∧ hvs_ok hvs' ∧ HVS_view hvs' = view ∧
    (∀ v, is_Some (viewVoteSet hvs' !! v) ↔
       (HVS_view hvs ≠ 0 ∧ HVS_view hvs - 1 ≤ v ≤ view) ∨ is_Some (viewVoteSet hvs !! v)) ∧
    (∀ v vt vs, getVoteSet hvs v vt = Some vs → getVoteSet hvs' v vt = Some vs).
Proof.
  intros Hok Hcs Hv Hview Hcase. unfold HVS_SetView.
  destruct (Z.eqb_spec (HVS_view hvs) 0) as [H0|H0]; cbn [negb andb].
  - rewrite H0. change (u64 (0 - 1)) with (2 ^ 64 - 1).
    replace (Z.to_nat (view + 1 - (2 ^ 64 - 1))) with O by lia. cbn [addViews].
    destruct (Z.ltb_spec view (2 ^ 64 - 1)); [|lia]. cbn [mbind res_bind].
    exists (set_hview hvs view). split; [done|]. split; [by destruct Hok|]. split_and!; try done.
    intros v. cbn. split; [by right|]. by intros [[? ?]|?].
  - rewrite u64_small by lia. destruct (Z.ltb_spec view (HVS_view hvs - 1)); [lia|].
    destruct (addViews_ok (Z.to_nat (view + 1 - (HVS_view hvs - 1))) hvs cs (HVS_view hvs - 1) view)
      as (hvs' & -> & Hok' & Hv' & Hg'); try done; [lia..|].
    cbn [mbind res_bind]. exists (set_hview hvs' view). split; [done|]. split; [by destruct Hok'|].
    split_and!; try done. intros v. cbn. rewrite Hv'. naive_solver.
Qed.

(** ** Returned results

    The engine has no guard that rules out a panic in these calls, so what it
    needs is that any result they return is sound. *)
Lemma AddQc_Ret vw vt vs cs v r :
  vs_ok c q vw vt sent vs → cluster_ok c q cs → sent v → V_View v = vw → V_Type v = vt →
  AddQc vs cs (Some v) = Ret r → step_ok c q vw vt sent vs r.1.2 r.2.
Proof.
  intros Hok Hcs Hs Hvw Hvt Hr. destruct (signerIndices v) as [l| |] eqn:E.
  - destruct (AddQc_ok c q vw vt sent Henv vs cs v l Hok Hcs Hs Hvw Hvt E)
      as (a & e & vs' & cs' & He & Hst). rewrite He in Hr. by injection Hr as <-.
  - revert Hr. unfold AddQc. rewrite E. repeat (case_match; try (intros [= <-]; by apply step_ok_refl); try done).
  - revert Hr. unfold AddQc. rewrite E. repeat (case_match; try (intros [= <-]; by apply step_ok_refl); try done).
Qed.

(** [f] where it returns, and a refusal elsewhere. *)
Definition or_refuse (f : VoteSet → ClusterState → res (bool * option err * VoteSet * ClusterState))
    (vs : VoteSet) (cs : ClusterState) : res (bool * option err * VoteSet * ClusterState) :=
  match f vs cs with Ret r => Ret r | _ => Ret (false, None, vs, cs) end.

Lemma callVoteSet_or_refuse f hvs cs v r :
  callVoteSet f hvs cs v = Ret r → callVoteSet (or_refuse f) hvs cs v = Ret r.
Proof.
  unfold callVoteSet, or_refuse. destruct (getVoteSet hvs _ _) as [vs|]; [|done]. cbn.
  by destruct (f vs cs).
Qed.

Lemma HVS_AddQC_Ret hvs cs v peer added e hvs' cs' :
  hvs_ok hvs → cluster_ok c q cs → sent v → HVS_AddQC hvs cs v peer = Ret (added, e, hvs', cs') →
  hvs_ok hvs' ∧ cluster_ok c q cs' ∧ hvs_kept hvs hvs'.
Proof.
  intros Hok Hcs Hsent Hr. unfold HVS_AddQC in Hr.
  set (f := λ vs cs, AddQc vs cs (Some v)) in Hr.
  assert (Hf : ∀ vs, vs_ok c q (V_View v) (V_Type v) sent vs →
     ∃ added e vs' cs', or_refuse f vs cs = Ret (added, e, vs', cs') ∧
       step_ok c q (V_View v) (V_Type v) sent vs vs' cs').
  { intros vs Hvs. unfold or_refuse. destruct (f vs cs) as [[[[a o] vs'] cs1]| |] eqn:E.
    - exists a, o, vs', cs1. split; [done|].
      exact (AddQc_Ret _ _ vs cs v _ Hvs Hcs Hsent eq_refl eq_refl E).
    - exists false, None, vs, cs. split; [done|by apply step_ok_refl].
    - exists false, None, vs, cs. split; [done|by apply step_ok_refl]. }
  destruct (getVoteSet hvs (V_View v) (V_Type v)) as [vs0|] eqn:Hg.
  - apply callVoteSet_or_refuse in Hr.
    destruct (callVoteSet_ok _ hvs cs v vs0 Hok Hcs Hg Hf) as (a & o & vs' & cs1 & Hc & ?).
    rewrite Hc in Hr. by injection Hr as <- <- <- <-.
  - apply bind_Ret in Hr as (hvs1 & H1 & Hr).
    assert (Hvt : voteType (V_Type v)).
    { apply callVoteSet_or_refuse in Hr. revert Hr. unfold callVoteSet.
      destruct (getVoteSet hvs1 (V_View v) (V_Type v)) eqn:E; [|done]. by apply getVoteSet_type in E. }
    destruct (addView_call_ok _ hvs cs v (peerCatchupRounds hvs) Hok Hcs Hvt Hg
      (ho_catchup _ Hok) Hf) as (hvs2 & H2 & _ & Hcall).
    rewrite H1 in H2. injection H2 as <-.
    destruct (Hcall _ (or_introl eq_refl)) as (a & o & hvs3 & cs1 & Hc & ?).
    apply callVoteSet_or_refuse in Hr. rewrite Hc in Hr. by injection Hr as <- <- <- <-.
Qed.

Lemma HVS_AddVote_Ret hvs cs v peer added e hvs' cs' :
  hvs_ok hvs → cluster_ok c q cs → sent v → HVS_AddVote hvs cs v peer = Ret (added, e, hvs', cs') →
  hvs_ok hvs' ∧ cluster_ok c q cs' ∧ hvs_kept hvs hvs'.
Proof.
  intros Hok Hcs Hsent Hr. destruct (decide (voteType (V_Type v))) as [Hvt|Hvt].
  - destruct (HVS_AddVote_ok hvs cs v peer Hok Hcs Hvt Hsent) as (a & o & h & c' & He & ?).
    rewrite He in Hr. by injection Hr as <- <- <- <-.
  - assert (Hn : ∀ h : HeightVoteSet, getVoteSet h (V_View v) (V_Type v) = None).
    { intros h. destruct (getVoteSet h _ _) eqn:E; [|done]. by apply getVoteSet_type in E. }
    unfold HVS_AddVote in Hr. rewrite Hn in Hr. case_match.
    + apply bind_Ret in Hr as (h1 & _ & Hr). revert Hr. unfold callVoteSet. by rewrite Hn.
    + injection Hr as <- <- <- <-. split_and!; try done. apply hvs_kept_refl.
Qed.

Lemma addViews_Ret fuel hvs cs r view hvs' :
  hvs_ok hvs → committee cs = c → addViews fuel hvs cs r view = Ret hvs' →
  hvs_ok hvs' ∧ ∀ v vt vs, getVoteSet hvs v vt = Some vs → getVoteSet hvs' v vt = Some vs.
Proof.
  intros Hok Hcs. revert hvs r Hok. induction fuel as [|fuel IH]; intros hvs r Hok Hr; cbn [addViews] in Hr.
  - case_match; [by injection Hr as <-|done].
  - case_match; [by injection Hr as <-|]. apply bind_Ret in Hr as (hvs1 & H1 & Hr).
    assert (Hstep : hvs_ok hvs1 ∧
      ∀ v vt vs, getVoteSet hvs v vt = Some vs → getVoteSet hvs1 v vt = Some vs).
    { destruct (viewVoteSet hvs !! r) as [rvs|] eqn:E; cbn [is_some] in H1.
      - by injection H1 as <-.
      - destruct (addView_ok hvs cs r Hok Hcs E) as (h & He & Hok1 & _ & Ho & _).
        rewrite H1 in He. injection He as <-. split; [done|]. intros v vt vs Hg.
        rewrite Ho; [done|]. intros ->. unfold getVoteSet in Hg. by rewrite E in Hg. }
    destruct Hstep as [Hok1 Hk1]. destruct (IH _ _ Hok1 Hr) as [? Hk]. split; [done|]. eauto.
Qed.

Lemma HVS_SetView_Ret hvs cs view hvs' :
  hvs_ok hvs → committee cs = c → HVS_SetView hvs cs view = Ret hvs' →
  hvs_ok hvs' ∧ ∀ v vt vs, getVoteSet hvs v vt = Some vs → getVoteSet hvs' v vt = Some vs.
Proof.
  intros Hok Hcs Hr. unfold HVS_SetView in Hr. case_match; [done|].
  apply bind_Ret in Hr as (hvs1 & H1 & Hr). injection Hr as <-.
  destruct (addViews_Ret _ _ _ _ _ _ Hok Hcs H1) as [[? ? ?] ?]. by split.
Qed.
End Facts.

Lemma hvs_ok_mono `{ET : ExtTypes} `{!ExtOps ET} `{!PoloCodec CanonicalVote} c q
    (s s' : Vote → Prop) hvs :
  (∀ v, s v → s' v) → hvs_ok c q s hvs → hvs_ok c q s' hvs.
Proof.
  intros Hs [? Hsets ?]. split; try done. intros view vt vs Hg.
  by eapply vs_ok_mono, Hsets.
Qed.

Lemma hvs_kept_super `{ET : ExtTypes} hvs hvs' view vt h :
  hvs_kept hvs hvs' → SuperMajority (getVoteSet hvs view vt) = (h, true) →
  SuperMajority (getVoteSet hvs' view vt) = (h, true).
Proof.
  intros (Hk & _) Hs. destruct (getVoteSet hvs view vt) as [vs|] eqn:Hg; [|done].
  destruct (Hk _ _ _ Hg) as (vs' & -> & Hm). unfold SuperMajority in *.
  destruct (maj23TsHash vs) as [h0|] eqn:E; [|done]. destruct Hm as (-> & _); [by rewrite E|].
  by rewrite E.
Qed.
