(* ===== verification/HeightVoteSpec.v ===== *)
(** * What a height vote set guarantees: the theorems

    Histories of votes and certificates for any views, certificates read off a
    recorded majority, and the view loop, with the two corners in which the code
    departs from its comments. *)

From stdpp Require Import base gmap strings list fin_maps.
From Stdlib Require Import ZArith Lia.
From S2P Require Import Prelude External Types NodeSet Committee Cluster VoteSet Tally VoteSetFacts HeightVoteSet Concrete Scenario.

Section Theorems.
Context `{ET : ExtTypes} `{!ExtOps ET} `{!BitLaws ET} `{!PoloCodec CanonicalVote}.

(** The calls of the engine, with the peer the message came from. *)
Inductive hop :=
| HVote (v : Vote) (peer : KramaID)
| HQc (v : Vote) (peer : KramaID).
Definition hop_vote (op : hop) : Vote := match op with HVote v _ | HQc v _ => v end.
Definition hop_fits (op : hop) : Prop :=
  voteType (V_Type (hop_vote op)) ∧
  match op with HVote _ _ => True | HQc v _ => ∃ l, signerIndices v = Ret l end.

Definition h_step (acc : HeightVoteSet * ClusterState) (op : hop)
    : res (HeightVoteSet * ClusterState) :=
  '(_, _, hvs, cs) ← match op with
                     | HVote v peer => HVS_AddVote acc.1 acc.2 v peer
                     | HQc v peer => HVS_AddQC acc.1 acc.2 v peer
                     end;
  Ret (hvs, cs).
Definition h_run (ops : list hop) (acc : HeightVoteSet * ClusterState)
    : res (HeightVoteSet * ClusterState) := foldM h_step ops acc.
Definition h_sent (ops : list hop) (v : Vote) : Prop := v ∈ hop_vote <$> ops.

Lemma h_run_ok c q sent ops hvs cs :
  env_ok c q → (∃ x, x ∈ q ∧ 0 < x) → hvs_ok c q sent hvs → cluster_ok c q cs →
  Forall hop_fits ops → (∀ v, h_sent ops v → sent v) →
  ∃ hvs' cs', h_run ops (hvs, cs) = Ret (hvs', cs') ∧ hvs_ok c q sent hvs' ∧
    cluster_ok c q cs' ∧ hvs_kept hvs hvs'.
Proof.
  intros Henv Hthr. revert hvs cs. induction ops as [|op ops IH]; intros hvs cs Hok Hcs Hf Hs.
  - exists hvs, cs. split_and!; try done. apply hvs_kept_refl.
  - apply Forall_cons in Hf as [[Hvt Hop] Hf].
    assert (Hstep : ∃ hvs1 cs1, h_step (hvs, cs) op = Ret (hvs1, cs1) ∧
      hvs_ok c q sent hvs1 ∧ cluster_ok c q cs1 ∧ hvs_kept hvs hvs1).
    { assert (Hsent : sent (hop_vote op)) by (apply Hs; apply list_elem_of_here).
      unfold h_step. destruct op as [v peer|v peer]; cbn [fst snd hop_vote] in *.
      - destruct (HVS_AddVote_ok c q sent Henv Hthr hvs cs v peer Hok Hcs Hvt Hsent)
          as (a & e & hvs1 & cs1 & -> & ? & ? & ?). eauto 10.
      - destruct Hop as [l Hl].
        destruct (HVS_AddQC_ok c q sent Henv Hthr hvs cs v peer l Hok Hcs Hvt Hsent Hl)
          as (a & e & hvs1 & cs1 & -> & ? & ? & ?). eauto 10. }
    destruct Hstep as (hvs1 & cs1 & He & Hok1 & Hcs1 & Hk1).
    destruct (IH hvs1 cs1 Hok1 Hcs1 Hf) as (hvs' & cs' & Hr & ? & ? & Hk).
    { intros v Hv. apply Hs. by apply list_elem_of_further. }
    exists hvs', cs'. unfold h_run in *. cbn [foldM]. rewrite He. cbn [mbind res_bind].
    split_and!; try done. by eapply hvs_kept_trans.
Qed.

Lemma h_started c q heights cs chains sent :
  started c q heights cs →
  ∃ hvs, NewHeightVoteSet chains heights cs = Ret hvs ∧ hvs_ok c q sent hvs ∧ HVS_view hvs = 0 ∧
    (∀ v, is_Some (viewVoteSet hvs !! v) ↔ v = 0).
Proof.
  intros [Henv Hcs Hh Hthr].
  destruct (NewHeightVoteSet_ok c q sent Henv Hthr chains heights cs) as (hvs & ? & ? & ? & ? & ?);
    [apply Hcs|done|]. eauto.
Qed.

Lemma h_reach c q heights cs chains sent ops hvs0 hvs cs' :
  started c q heights cs → Forall hop_fits ops → (∀ v, h_sent ops v → sent v) →
  NewHeightVoteSet chains heights cs = Ret hvs0 → h_run ops (hvs0, cs) = Ret (hvs, cs') →
  hvs_ok c q sent hvs ∧ cluster_ok c q cs' ∧ HVS_view hvs = 0.
Proof.
  intros Hst Hf Hs Hn Hr. destruct (h_started c q heights cs chains sent Hst) as (h & Hn' & Hok & Hv & _).
  rewrite Hn in Hn'. injection Hn' as <-.
  destruct (h_run_ok c q sent ops hvs0 cs) as (h' & c' & Hr' & ? & ? & (_ & _ & Hvw & _)); try apply Hst; try done.
  rewrite Hr in Hr'. injection Hr' as <- <-. split_and!; try done. congruence.
Qed.


(** C22. Certificates are sound: when [GetQC] returns a certificate, it names the
    view, type and tesseract asked for, its signers reach every threshold, each
    with an authentic vote for exactly that, and the signature is the aggregate
    of the signers' signatures or that of a certificate checked before. *)
Theorem GetQC_certifies c q heights cs chains ops hvs0 hvs cs' h view vt qc :
  started c q heights cs → Forall hop_fits ops →
  NewHeightVoteSet chains heights cs = Ret hvs0 → h_run ops (hvs0, cs) = Ret (hvs, cs') →
  HVS_GetQC hvs h view vt = Ret (inl qc) →
  Qc_View qc = view ∧ Qc_Type qc = vt ∧ Qc_TSHash qc = h ∧
  ∃ b, Qc_SignerIndices qc = Some b ∧ majority_for c q view vt (h_sent ops) h b ∧
    cert_ok c view vt (h_sent ops) h b (Qc_Signature qc).
Proof.
  intros Hst Hf Hn Hr Hq.
  destruct (h_reach c q heights cs chains (h_sent ops) ops hvs0 hvs cs' Hst Hf) as (Hok & _); [done..|].
  unfold HVS_GetQC in Hq. destruct (getVoteSet hvs view vt) as [vs|] eqn:Hg; [|done].
  pose proof (ho_sets _ _ _ _ Hok _ _ _ Hg) as Hvs. destruct (maj23TsHash vs) as [h'|] eqn:E; [|done].
  cbn [deref mbind res_bind] in Hq. case_decide as Hh; [|done]. subst h'. injection Hq as <-. cbn.
  split_and!; try done.
  destruct (SuperMajority_majority _ _ _ _ _ _ h Hvs) as (b & Hb & Hm);
    [unfold SuperMajority; by rewrite E|].
  exists b. split_and!; try done. destruct Hvs as [_ Hmaj]. unfold maj_ok in Hmaj. rewrite E in Hmaj.
  destruct Hmaj as (b' & Hb' & _ & _ & Hc). rewrite Hb in Hb'. by injection Hb' as ->.
Qed.

(** The catch-up limit: a peer that has opened two views cannot make the
    node open a third; its vote is refused with the code's error and nothing
    changes. *)
Theorem AddVote_catchup_limit hvs cs v peer r1 r2 :
  peerCatchupRounds hvs !! peer = Some [r1; r2] → viewVoteSet hvs !! V_View v = None →
  HVS_AddVote hvs cs v peer =
  Ret (false, Some (ENew "could not add vote. peer has more than 2 catchup rounds"), hvs, cs).
Proof.
  intros Hp Hv. unfold HVS_AddVote, getVoteSet. rewrite Hv, Hp. done.
Qed.

(** [SetView] from a view other than 0 makes every view from one before
    the current one up to the given one available, keeps the votes collected
    so far, drops nothing and ends. *)
Theorem SetView_opens_views c q heights cs0 chains ops hvs0 hvs1 hvs cs view1 view :
  started c q heights cs0 → Forall hop_fits ops →
  NewHeightVoteSet chains heights cs0 = Ret hvs0 → h_run ops (hvs0, cs0) = Ret (hvs1, cs) →
  HVS_SetView hvs1 cs view1 = Ret hvs → 0 < view1 < 2 ^ 64 - 1 →
  view1 - 1 ≤ view < 2 ^ 64 - 1 →
  ∃ hvs', HVS_SetView hvs cs view = Ret hvs' ∧ HVS_view hvs' = view ∧
    (∀ v, view1 - 1 ≤ v ≤ view → is_Some (viewVoteSet hvs' !! v)) ∧
    (∀ v vt vs, getVoteSet hvs v vt = Some vs → getVoteSet hvs' v vt = Some vs).
Proof.
  intros Hst Hf Hn Hr H1 Hv1 Hv. pose proof (st_env _ _ _ _ Hst) as Henv.
  destruct (h_reach c q heights cs0 chains (λ _, True) ops hvs0 hvs1 cs Hst Hf) as (Hok & Hcs & Hz);
    [done..|].
  destruct (HVS_SetView_ok c q (λ _, True) Henv (st_threshold _ _ _ _ Hst) hvs1 cs view1)
    as (h & H1' & Hok1 & Hvw & _ & _); [done|apply Hcs|lia|lia|by left|].
  rewrite H1 in H1'. injection H1' as <-.
  destruct (HVS_SetView_ok c q (λ _, True) Henv (st_threshold _ _ _ _ Hst) hvs cs view)
    as (hvs' & H2 & _ & Hvw' & Hin & Hkeep); [done|apply Hcs|lia|lia|right; lia|].
  exists hvs'. split_and!; try done. intros v Hr'. apply Hin. left. rewrite Hvw. lia.
Qed.

(** From view 0, where every height vote set starts, [SetView] opens no view
    at all: [hvs.view - 1] wraps to the largest [uint64], so the loop has
    nothing to do.  The comment promises all views in between. *)
Theorem SetView_from_zero_opens_nothing hvs cs view :
  HVS_view hvs = 0 → 0 ≤ view < 2 ^ 64 - 1 →
  HVS_SetView hvs cs view = Ret (set_hview hvs view).
Proof.
  intros H0 Hv. unfold HVS_SetView. rewrite H0. change (u64 (0 - 1)) with (2 ^ 64 - 1).
  cbn [Z.eqb negb andb]. replace (Z.to_nat (view + 1 - (2 ^ 64 - 1))) with O by lia.
  cbn [addViews]. destruct (Z.ltb_spec view (2 ^ 64 - 1)); [done|lia].
Qed.

(** A vote of any type but PREVOTE and PRECOMMIT panics the node instead of
    being refused: for a known view the view is created twice, for a new one
    the missing vote set is dereferenced. *)
Theorem unknown_vote_type_panics hvs cs v peer :
  ¬ voteType (V_Type v) → zlen (default [] (peerCatchupRounds hvs !! peer)) < 2 →
  ∃ msg, HVS_AddVote hvs cs v peer = Panic msg.
Proof.
  intros Ht Hp.
  assert (Hn : ∀ h : HeightVoteSet, getVoteSet h (V_View v) (V_Type v) = None).
  { intros h. destruct (getVoteSet h _ _) eqn:E; [|done]. by apply getVoteSet_type in E. }
  unfold HVS_AddVote. rewrite Hn. destruct (Z.ltb_spec (zlen (default [] (peerCatchupRounds hvs !! peer))) 2); [|lia].
  unfold addView. destruct (viewVoteSet hvs !! V_View v); [by eexists|].
  cbn [mbind res_bind]. unfold callVoteSet. rewrite Hn. by eexists.
Qed.
End Theorems.

(** ** Witnesses *)
#[local] Existing Instances CE CX CE_bits CCanon.

Definition w_hvotes (ty : ConsensusMsgType) (vw h : Z) (signers : list Z) : list hop :=
  (λ n, HVote (w_vote ty vw h n) "peer") <$> signers.
Definition w_hvs0 : HeightVoteSet :=
  match NewHeightVoteSet ["chain"] w_heights w_cs with
  | Ret h => h
  | _ => {| chainIDs := []; HVS_heights := ∅; HVS_view := 0; viewVoteSet := ∅;
            peerCatchupRounds := ∅ |}
  end.
Definition w_hstate (ops : list hop) : HeightVoteSet * ClusterState :=
  run_value (w_hvs0, w_cs) (h_run ops (w_hvs0, w_cs)).
Lemma w_hstate_run ops : returns (h_run ops (w_hvs0, w_cs)) = true →
  h_run ops (w_hvs0, w_cs) = Ret ((w_hstate ops).1, (w_hstate ops).2).
Proof. apply run_value_pair. Qed.
Definition w_hops : list hop :=
  w_hvotes PREVOTE 1 7 [0; 1; 2; 4; 5; 6] ++ [HQc (w_qc PRECOMMIT 1 7 [0; 1; 2; 4; 5; 6]) "A"].

Lemma w_hops_fit : Forall hop_fits w_hops.
Proof.
  apply Forall_app. split.
  - apply Forall_fmap, Forall_forall. intros n _. split; [by left|done].
  - apply Forall_singleton. split; [by right|]. eexists. reflexivity.
Defined.


Lemma GetQC_certifies_witness :
  ∃ qc, HVS_GetQC (w_hstate w_hops).1 7 1 PREVOTE = Ret (inl qc) ∧ Qc_TSHash qc = 7 ∧
    ∃ b, Qc_SignerIndices qc = Some b ∧
      majority_for w_committee w_quorum 1 PREVOTE (h_sent w_hops) 7 b.
Proof.
  destruct (HVS_GetQC (w_hstate w_hops).1 7 1 PREVOTE) as [[qc|e]| |] eqn:E;
    [|exfalso; revert E; vm_compute; discriminate..].
  destruct (GetQC_certifies w_committee w_quorum w_heights w_cs ["chain"] w_hops w_hvs0
              (w_hstate w_hops).1 (w_hstate w_hops).2 7 1 PREVOTE qc) as (_ & _ & Hh & b & Hb & Hm & _).
  - exact w_started.
  - exact w_hops_fit.
  - reflexivity.
  - apply w_hstate_run. vm_compute. reflexivity.
  - exact E.
  - exists qc. split; [done|]. split; [exact Hh|]. exists b. by split.
Defined.

Definition w_catchup : HeightVoteSet :=
  (w_hstate (w_hvotes PREVOTE 3 7 [0] ++ w_hvotes PREVOTE 4 7 [0])).1.
Lemma AddVote_catchup_limit_witness :
  HVS_AddVote w_catchup w_cs (w_vote PREVOTE 5 7 0) "peer"
  = Ret (false, Some (ENew "could not add vote. peer has more than 2 catchup rounds"),
         w_catchup, w_cs).
Proof. apply (AddVote_catchup_limit _ _ _ _ 3 4); vm_compute; reflexivity. Defined.

Definition w_hvs1 : HeightVoteSet :=
  run_value w_hvs0 (HVS_SetView (w_hstate w_hops).1 (w_hstate w_hops).2 2).
Lemma SetView_opens_views_witness :
  ∃ hvs', HVS_SetView w_hvs1 (w_hstate w_hops).2 4 = Ret hvs' ∧
    ∀ v, 1 ≤ v ≤ 4 → is_Some (viewVoteSet hvs' !! v).
Proof.
  destruct (SetView_opens_views w_committee w_quorum w_heights w_cs ["chain"] w_hops w_hvs0
              (w_hstate w_hops).1 w_hvs1 (w_hstate w_hops).2 2 4) as (hvs' & He & _ & Hin & _).
  - exact w_started.
  - exact w_hops_fit.
  - reflexivity.
  - apply w_hstate_run. vm_compute. reflexivity.
  - apply run_value_run. vm_compute. reflexivity.
  - lia.
  - lia.
  - exists hvs'. split; [exact He|]. exact Hin.
Defined.

Lemma SetView_from_zero_opens_nothing_witness :
  HVS_SetView w_hvs0 w_cs 6 = Ret (set_hview w_hvs0 6) ∧ viewVoteSet w_hvs0 !! 5 = None.
Proof.
  split; [|vm_compute; reflexivity]. apply SetView_from_zero_opens_nothing; [reflexivity|lia].
Defined.

Lemma unknown_vote_type_panics_witness :
  ∃ msg, HVS_AddVote w_hvs0 w_cs (w_vote PROPOSAL 0 7 0) "peer" = Panic msg.
Proof.
  apply unknown_vote_type_panics; [|vm_compute; reflexivity]. by intros [|].
Defined.

(** ** Findings on the vote sets *)
Section Findings.
#[local] Existing Instances CE CX CE_bits CCanon.

Definition w_conflict : VoteSet * ClusterState :=
  match vs_run (w_ballot PRECOMMIT 1 8 [3] ++ w_ballot PRECOMMIT 1 7 [0; 1; 2; 4; 5; 6])
          (NewVoteSet w_heights 1 PRECOMMIT w_cs, w_cs) with
  | Ret a => a
  | _ => (NewVoteSet w_heights 1 PRECOMMIT w_cs, w_cs)
  end.

(** [VoteSet.GetQC] pairs the bits of all voters with the aggregate of the
    majority's signatures, so a certificate sent from it does not verify: here
    validator 3 voted for another tesseract. *)
Example GetQC_includes_minority :
  SuperMajority (Some w_conflict.1) = (7, true) ∧
  GetIndex (GetQC w_conflict.1).1 3 = true ∧
  GetIndex (default [] (maj23VoteSet w_conflict.1)) 3 = false ∧
  VerifyAggregateSignature [cbyte 2; cbyte 1; cbyte 7] (GetQC w_conflict.1).2
    ((λ i, KR_PublicKey (lookup_spec w_committee i)) <$> GetTrueIndices (GetQC w_conflict.1).1)
  = (false, None).
Proof. vm_compute. done. Qed.

Definition w_bigqc : VoteSet :=
  match AddQc (NewVoteSet w_heights 1 PRECOMMIT w_cs) w_cs (Some (w_qc PRECOMMIT 1 7 (seqZ 0 8))) with
  | Ret (_, _, vs, _) => vs
  | _ => NewVoteSet w_heights 1 PRECOMMIT w_cs
  end.

(** A certificate with more signers than needed crosses the quorum in the
    middle of the loop of [AddQc]: the recorded signers are then a strict part
    of those the recorded signature is for. *)
Example AddQc_records_prefix :
  SuperMajority (Some w_bigqc) = (7, true) ∧
  GetTrueIndices (default [] (maj23VoteSet w_bigqc)) = seqZ 0 7 ∧
  VerifyAggregateSignature [cbyte 2; cbyte 1; cbyte 7] (maj23aggSignature w_bigqc)
    ((λ i, KR_PublicKey (lookup_spec w_committee i)) <$>
       GetTrueIndices (default [] (maj23VoteSet w_bigqc)))
  = (false, None).
Proof. vm_compute. done. Qed.
End Findings.
