(* ===== verification/Transport.v ===== *)
(** * The ICS transport: [transport/transport.go], [peerset.go], [peer.go], [router.go]

    Peers with an open stream, the routers of the running clusters, and the
    goroutines that share them: [peerLifeCycle] sends messages and closes peers,
    [cleanup] removes expired routers, and every direct peer has one that writes
    its stream and one that notices its end.  Peers, routers and committees are
    shared by pointer.  The channels [msgsChan] and [closePeerChan] are
    unbuffered: the list is what the blocked senders hold, and a goroutine that
    waits in a send takes no further step until [peerLifeCycle] has received it.
    A peer's own channel holds fifty messages; [peerLifeCycle] waits when it is
    full.  What reaches the network is logged.

    [directPeerLock] of a network identity is held across a close request, so it
    is held as long as a request that was sent under it waits in the list;
    whoever needs it waits too.  Receiving a request and acting on it are two
    steps of [peerLifeCycle], which has no lock.  The [cleanup] goroutine goes
    through its routers and peers step by step, as each lock and each send may
    make it wait. *)

From stdpp Require Import base gmap strings list fin_maps.
From Stdlib Require Import ZArith Lia.
From S2P Require Import Prelude Effect External Types NodeSet Committee Cluster VoteSet HeightVoteSet.

(** libp2p and the connection manager; their answers depend on how many questions
    were asked before. *)
Class P2P := {
  PeerID : Type;
  #[global] PeerID_eq_dec :: EqDecision PeerID;
  #[global] PeerID_countable :: Countable PeerID;
  Stream : Type;
  RemotePeer : Stream → PeerID;
  DecodedPeerID : KramaID → PeerID + err;
  ConnectPeerByKramaID : nat → KramaID → option err;
  (** [errors.Is(err, common.ErrConnectionExists)] *)
  IsConnectionExists : err → bool;
  NewStream : nat → PeerID → Stream + err;
  (** [shipMessage] on the stream, and [Network.Broadcast] *)
  ShipMessage : nat → Stream → bytes → option err;
  Network_Broadcast : nat → bytes → option err;
}.

Section Transport.
Context `{ET : ExtTypes} `{EX : !ExtOps ET} `{PP : !P2P} `{!PoloCodec ICSMSG}.
Context (selfID : KramaID).

(** ** State *)
Record icsPeer := {
  IP_kramaID : KramaID;
  IP_isDirectPeer : bool;
  IP_networkID : PeerID;
  IP_stream : Stream;
  IP_msgChan : list bytes;
  IP_closed : bool;
  IP_clusters : gset ClusterID;
}.
(** The committee is shared with the cluster state. *)
Record ContextRouter := {
  CR_selfID : KramaID;
  CR_operator : KramaID;
  CR_clusterID : ClusterID;
  CR_committee : positive;
  CR_voteset : option HeightVoteSet;
  CR_expiresAt : Z;
}.

Inductive kt_action :=
| KShip (l : positive) (m : bytes)
| KTransient (id : KramaID) (m : bytes)
| KCloseStream (s : Stream)
| KResetStream (s : Stream)
| KGossip (m : bytes).

(** A sender blocked on [closePeerChan]: its message, the lock it holds, and
    whether it is the [cleanup] goroutine. *)
Record closePeer := {
  CP_kramaID : KramaID;
  CP_isDirectPeer : bool;
  CP_lock : PeerID;
  CP_cleanup : bool;
}.
(** Where [CleanDirectPeer] is: before its next peer, at the lock of a peer, or
    waiting in [disconnectPeer]. *)
Inductive clean_point := AtNext | AtLock (l : positive) | AtSend.
Record Deregistration := {
  DR_cluster : ClusterID;
  DR_peers : list KramaID;
  DR_at : clean_point;
}.
(** A pass of [removeExpiredRouters]: its time, the routers it listed and has
    still to look at, and the call of [DeregisterContextRouter] it is in. *)
Record Cleanup := {
  CU_time : Z;
  CU_routers : list positive;
  CU_current : option Deregistration;
}.

Record KramaTransport := {
  KT_msgsToEngine : list ICSMSG;
  KT_msgsChan : list (KramaID * bytes);
  KT_closePeerChan : list closePeer;
  (** a request that [peerLifeCycle] has received and not yet acted on *)
  KT_closing : option (KramaID * bool);
  (** ended streams whose reader is about to lock its peer *)
  KT_dying : list positive;
  (** the pass of [cleanup] that is running *)
  KT_cleaner : option Cleanup;
  KT_directPeerset : gmap KramaID positive;
  KT_peers : gmap positive icsPeer;
  KT_contextRouters : gmap ClusterID positive;
  (** the routers behind the pointers *)
  KT_routers : gmap positive ContextRouter;
  KT_committees : gmap positive ICSCommittee;
  KT_directInboundStreams : gmap PeerID Stream;
  (** what [peerLifeCycle] waits to put into a full channel *)
  KT_blocked : option (positive * bytes);
  KT_out : list kt_action;
  KT_asked : nat;
}.
Definition NewKramaTransport (committees : gmap positive ICSCommittee) : KramaTransport :=
  {| KT_msgsToEngine := []; KT_msgsChan := []; KT_closePeerChan := []; KT_closing := None; KT_dying := [];
     KT_cleaner := None; KT_directPeerset := ∅; KT_peers := ∅; KT_contextRouters := ∅; KT_routers := ∅;
     KT_committees := committees; KT_directInboundStreams := ∅; KT_blocked := None; KT_out := [];
     KT_asked := 0 |}.

Definition with_queues (toEngine : list ICSMSG) (msgs : list (KramaID * bytes)) (closes : list closePeer) (kt : KramaTransport) : KramaTransport :=
  {| KT_msgsToEngine := toEngine; KT_msgsChan := msgs; KT_closePeerChan := closes;
     KT_closing := KT_closing kt; KT_dying := KT_dying kt; KT_cleaner := KT_cleaner kt;
     KT_directPeerset := KT_directPeerset kt; KT_peers := KT_peers kt;
     KT_contextRouters := KT_contextRouters kt; KT_routers := KT_routers kt;
     KT_committees := KT_committees kt; KT_directInboundStreams := KT_directInboundStreams kt;
     KT_blocked := KT_blocked kt; KT_out := KT_out kt; KT_asked := KT_asked kt |}.
Definition with_closing (c : option (KramaID * bool)) (kt : KramaTransport) : KramaTransport :=
  {| KT_msgsToEngine := KT_msgsToEngine kt; KT_msgsChan := KT_msgsChan kt;
     KT_closePeerChan := KT_closePeerChan kt; KT_closing := c; KT_dying := KT_dying kt;
     KT_cleaner := KT_cleaner kt; KT_directPeerset := KT_directPeerset kt; KT_peers := KT_peers kt;
     KT_contextRouters := KT_contextRouters kt; KT_routers := KT_routers kt;
     KT_committees := KT_committees kt; KT_directInboundStreams := KT_directInboundStreams kt;
     KT_blocked := KT_blocked kt; KT_out := KT_out kt; KT_asked := KT_asked kt |}.
Definition with_dying (ls : list positive) (kt : KramaTransport) : KramaTransport :=
  {| KT_msgsToEngine := KT_msgsToEngine kt; KT_msgsChan := KT_msgsChan kt;
     KT_closePeerChan := KT_closePeerChan kt; KT_closing := KT_closing kt; KT_dying := ls;
     KT_cleaner := KT_cleaner kt; KT_directPeerset := KT_directPeerset kt; KT_peers := KT_peers kt;
     KT_contextRouters := KT_contextRouters kt; KT_routers := KT_routers kt;
     KT_committees := KT_committees kt; KT_directInboundStreams := KT_directInboundStreams kt;
     KT_blocked := KT_blocked kt; KT_out := KT_out kt; KT_asked := KT_asked kt |}.
Definition with_cleaner (c : option Cleanup) (kt : KramaTransport) : KramaTransport :=
  {| KT_msgsToEngine := KT_msgsToEngine kt; KT_msgsChan := KT_msgsChan kt;
     KT_closePeerChan := KT_closePeerChan kt; KT_closing := KT_closing kt; KT_dying := KT_dying kt;
     KT_cleaner := c; KT_directPeerset := KT_directPeerset kt; KT_peers := KT_peers kt;
     KT_contextRouters := KT_contextRouters kt; KT_routers := KT_routers kt;
     KT_committees := KT_committees kt; KT_directInboundStreams := KT_directInboundStreams kt;
     KT_blocked := KT_blocked kt; KT_out := KT_out kt; KT_asked := KT_asked kt |}.
Definition with_peers (set : gmap KramaID positive) (peers : gmap positive icsPeer) (kt : KramaTransport) : KramaTransport :=
  {| KT_msgsToEngine := KT_msgsToEngine kt; KT_msgsChan := KT_msgsChan kt;
     KT_closePeerChan := KT_closePeerChan kt; KT_closing := KT_closing kt; KT_dying := KT_dying kt;
     KT_cleaner := KT_cleaner kt; KT_directPeerset := set; KT_peers := peers;
     KT_contextRouters := KT_contextRouters kt; KT_routers := KT_routers kt;
     KT_committees := KT_committees kt; KT_directInboundStreams := KT_directInboundStreams kt;
     KT_blocked := KT_blocked kt; KT_out := KT_out kt; KT_asked := KT_asked kt |}.
Definition with_routers (table : gmap ClusterID positive) (routers : gmap positive ContextRouter) (kt : KramaTransport) : KramaTransport :=
  {| KT_msgsToEngine := KT_msgsToEngine kt; KT_msgsChan := KT_msgsChan kt;
     KT_closePeerChan := KT_closePeerChan kt; KT_closing := KT_closing kt; KT_dying := KT_dying kt;
     KT_cleaner := KT_cleaner kt; KT_directPeerset := KT_directPeerset kt; KT_peers := KT_peers kt;
     KT_contextRouters := table; KT_routers := routers; KT_committees := KT_committees kt;
     KT_directInboundStreams := KT_directInboundStreams kt; KT_blocked := KT_blocked kt; KT_out := KT_out kt;
     KT_asked := KT_asked kt |}.
Definition with_committees (cs : gmap positive ICSCommittee) (kt : KramaTransport) : KramaTransport :=
  {| KT_msgsToEngine := KT_msgsToEngine kt; KT_msgsChan := KT_msgsChan kt;
     KT_closePeerChan := KT_closePeerChan kt; KT_closing := KT_closing kt; KT_dying := KT_dying kt;
     KT_cleaner := KT_cleaner kt; KT_directPeerset := KT_directPeerset kt; KT_peers := KT_peers kt;
     KT_contextRouters := KT_contextRouters kt; KT_routers := KT_routers kt; KT_committees := cs;
     KT_directInboundStreams := KT_directInboundStreams kt; KT_blocked := KT_blocked kt; KT_out := KT_out kt;
     KT_asked := KT_asked kt |}.
Definition with_inbound (m : gmap PeerID Stream) (kt : KramaTransport) : KramaTransport :=
  {| KT_msgsToEngine := KT_msgsToEngine kt; KT_msgsChan := KT_msgsChan kt;
     KT_closePeerChan := KT_closePeerChan kt; KT_closing := KT_closing kt; KT_dying := KT_dying kt;
     KT_cleaner := KT_cleaner kt; KT_directPeerset := KT_directPeerset kt; KT_peers := KT_peers kt;
     KT_contextRouters := KT_contextRouters kt; KT_routers := KT_routers kt;
     KT_committees := KT_committees kt; KT_directInboundStreams := m; KT_blocked := KT_blocked kt;
     KT_out := KT_out kt; KT_asked := KT_asked kt |}.
Definition with_blocked (b : option (positive * bytes)) (kt : KramaTransport) : KramaTransport :=
  {| KT_msgsToEngine := KT_msgsToEngine kt; KT_msgsChan := KT_msgsChan kt;
     KT_closePeerChan := KT_closePeerChan kt; KT_closing := KT_closing kt; KT_dying := KT_dying kt;
     KT_cleaner := KT_cleaner kt; KT_directPeerset := KT_directPeerset kt; KT_peers := KT_peers kt;
     KT_contextRouters := KT_contextRouters kt; KT_routers := KT_routers kt;
     KT_committees := KT_committees kt; KT_directInboundStreams := KT_directInboundStreams kt;
     KT_blocked := b; KT_out := KT_out kt; KT_asked := KT_asked kt |}.
Definition with_log (l : list kt_action) (n : nat) (kt : KramaTransport) : KramaTransport :=
  {| KT_msgsToEngine := KT_msgsToEngine kt; KT_msgsChan := KT_msgsChan kt;
     KT_closePeerChan := KT_closePeerChan kt; KT_closing := KT_closing kt; KT_dying := KT_dying kt;
     KT_cleaner := KT_cleaner kt; KT_directPeerset := KT_directPeerset kt; KT_peers := KT_peers kt;
     KT_contextRouters := KT_contextRouters kt; KT_routers := KT_routers kt;
     KT_committees := KT_committees kt; KT_directInboundStreams := KT_directInboundStreams kt;
     KT_blocked := KT_blocked kt; KT_out := l; KT_asked := n |}.

Definition kt_log (a : kt_action) : eff KramaTransport () := modify (λ kt, with_log (KT_out kt ++ [a]) (KT_asked kt) kt).
Definition kt_ask {A} (f : nat → A) : eff KramaTransport A :=
  n ← gets KT_asked; _ ← modify (λ kt, with_log (KT_out kt) (S n) kt); mret (f n).

(** ** Peers: [peer.go] *)
Definition registry_add (c : ClusterID) (cr : gset ClusterID) : gset ClusterID := {[c]} ∪ cr.
Definition registry_has (c : ClusterID) (cr : gset ClusterID) : bool := bool_decide (c ∈ cr).
Definition registry_len (cr : gset ClusterID) : Z := Z.of_nat (base.size cr).
Definition registry_remove (c : ClusterID) (cr : gset ClusterID) : gset ClusterID := cr ∖ {[c]}.

Definition newICSPeer (id : KramaID) (stream : Stream) (isDirectPeer : bool) : icsPeer :=
  {| IP_kramaID := id; IP_isDirectPeer := isDirectPeer; IP_networkID := RemotePeer stream; IP_stream := stream;
     IP_msgChan := []; IP_closed := false; IP_clusters := ∅ |}.
Definition with_clusters (cs : gset ClusterID) (p : icsPeer) : icsPeer :=
  {| IP_kramaID := IP_kramaID p; IP_isDirectPeer := IP_isDirectPeer p; IP_networkID := IP_networkID p;
     IP_stream := IP_stream p; IP_msgChan := IP_msgChan p; IP_closed := IP_closed p; IP_clusters := cs |}.
Definition with_chan (msgs : list bytes) (closed : bool) (p : icsPeer) : icsPeer :=
  {| IP_kramaID := IP_kramaID p; IP_isDirectPeer := IP_isDirectPeer p; IP_networkID := IP_networkID p;
     IP_stream := IP_stream p; IP_msgChan := msgs; IP_closed := closed; IP_clusters := IP_clusters p |}.
Definition read_peer (l : positive) : eff KramaTransport icsPeer :=
  o ← gets (λ kt, KT_peers kt !! l); lift (deref o).
Definition write_peer (l : positive) (p : icsPeer) : eff KramaTransport () :=
  modify (λ kt, with_peers (KT_directPeerset kt) (<[l := p]> (KT_peers kt)) kt).

(** [p.decodePeerMessage] on the bytes read: the message and the peer's id
    afterwards. *)
Definition decodePeerMessage (kramaID : KramaID) (buffer : bytes) : (ICSMSG * KramaID) + err :=
  match wrap_err "failed to depolorize ics message" (Depolorize buffer) with
  | inr e => inr e
  | inl m =>
      let id := if String.eqb kramaID "" then IM_Sender m else kramaID in
      inl ({| IM_Sender := IM_Sender m; IM_ClusterID := IM_ClusterID m; IM_MsgType := IM_MsgType m;
              IM_Payload := IM_Payload m; IM_ReceivedFrom := id |}, id)
  end.

(** ** The set of direct peers: [peerset.go] *)
Definition peerset_Peer (id : KramaID) : eff KramaTransport (option positive) := gets (λ kt, KT_directPeerset kt !! id).
Definition peerset_ContainsPeer (id : KramaID) : eff KramaTransport bool :=
  gets (λ kt, is_some (KT_directPeerset kt !! id)).
Definition peerset_Len : eff KramaTransport Z := gets (λ kt, Z.of_nat (base.size (KT_directPeerset kt))).
(** Go lists them in some order. *)
Definition peerset_List : eff KramaTransport (list KramaID) := gets (λ kt, (map_to_list (KT_directPeerset kt)).*1).
Definition peerset_Register (l : positive) : eff KramaTransport () :=
  p ← read_peer l;
  registered ← peerset_ContainsPeer (IP_kramaID p);
  if registered : bool then raise (ENew "peer is already registered")
  else modify (λ kt, with_peers (<[IP_kramaID p := l]> (KT_directPeerset kt)) (KT_peers kt) kt).
Definition peerset_Unregister (id : KramaID) : eff KramaTransport () :=
  modify (λ kt, with_peers (delete id (KT_directPeerset kt)) (KT_peers kt) kt).

(** ** Direct peers *)
(** [directPeerLock] of a network identity, held by a blocked sender? *)
Definition lock_held (pid : PeerID) : eff KramaTransport bool :=
  gets (λ kt, existsb (λ q, bool_decide (CP_lock q = pid)) (KT_closePeerChan kt)).
(** [closePeerChan <- ...]; the caller holds the lock of the peer and goes on when
    [peerLifeCycle] has received the request. *)
Definition disconnectPeer (l : positive) (cleanup : bool) : eff KramaTransport () :=
  p ← read_peer l;
  modify (λ kt, with_queues (KT_msgsToEngine kt) (KT_msgsChan kt)
    (KT_closePeerChan kt ++ [{| CP_kramaID := IP_kramaID p; CP_isDirectPeer := IP_isDirectPeer p;
                                CP_lock := IP_networkID p; CP_cleanup := cleanup |}]) kt).

(** A call that finds the lock held has no effect yet: it runs when it gets it. *)
Definition ConnectToDirectPeer (kramaID : KramaID) (clusterID : ClusterID) : eff KramaTransport () :=
  if decide (kramaID = selfID) then skip else
  peerID ← lift_or (DecodedPeerID kramaID);
  held ← lock_held peerID;
  if held : bool then skip else
  o ← peerset_Peer kramaID;
  match o with
  | Some l => p ← read_peer l; write_peer l (with_clusters (registry_add clusterID (IP_clusters p)) p)
  | None =>
      e ← kt_ask (λ n, ConnectPeerByKramaID n kramaID);
      _ ← check match e with Some e => if IsConnectionExists e then None else Some e | None => None end;
      r ← kt_ask (λ n, NewStream n peerID); stream ← lift_or r;
      l ← gets (λ kt, fresh (dom (KT_peers kt)));
      _ ← write_peer l (with_clusters (registry_add clusterID ∅) (newICSPeer kramaID stream true));
      peerset_Register l
  end.

(** One iteration of the peer's writing goroutine; a closed channel is drained
    first. *)
Definition directPeerRoutine (l : positive) : eff KramaTransport () :=
  p ← read_peer l;
  match IP_msgChan p with
  | msg :: rest => _ ← write_peer l (with_chan rest (IP_closed p) p); kt_log (KShip l msg)
  | [] => if IP_closed p then kt_log (KCloseStream (IP_stream p)) else skip
  end.

(** The peer's reading goroutine, once its read has returned with or without an
    error: the check, and what it does when it gets the lock. *)
Definition handleDeadDirectPeer (l : positive) : eff KramaTransport () :=
  kPeer ← read_peer l;
  p ← peerset_Peer (IP_kramaID kPeer);
  match p with None => skip | Some _ => modify (λ kt, with_dying (KT_dying kt ++ [l]) kt) end.
Definition closeDeadPeer (l : positive) : eff KramaTransport () :=
  dying ← gets KT_dying;
  if bool_decide (l ∈ dying) then
    kPeer ← read_peer l;
    held ← lock_held (IP_networkID kPeer);
    if held : bool then skip else
    _ ← modify (λ kt, with_dying (filter (λ x, x ≠ l) (KT_dying kt)) kt);
    disconnectPeer l false
  else skip.

Definition SendMessageTransientPeer (kramaID : KramaID) (m : bytes) : eff KramaTransport () :=
  e ← kt_ask (λ n, ConnectPeerByKramaID n kramaID);
  _ ← check match e with Some e => if IsConnectionExists e then None else Some e | None => None end;
  peerID ← lift_or (DecodedPeerID kramaID);
  r ← kt_ask (λ n, NewStream n peerID); stream ← lift_or r;
  _ ← kt_log (KTransient kramaID m);
  e ← kt_ask (λ n, ShipMessage n stream m); check e.

(** [p.msgChan <- m]: a closed channel panics, a full one blocks the sender. *)
Definition sendToPeer (l : positive) (m : bytes) : eff KramaTransport () :=
  p ← read_peer l;
  if IP_closed p then lift (Panic "send on closed channel")
  else if zlen (IP_msgChan p) <? 50
  then _ ← write_peer l (with_chan (IP_msgChan p ++ [m]) false p); modify (with_blocked None)
  else modify (with_blocked (Some (l, m))).

(** The sender of a received request goes on. *)
Definition send_received (q : closePeer) (kt : KramaTransport) : KramaTransport :=
  if CP_cleanup q then
    match KT_cleaner kt with
    | Some {| CU_time := t; CU_routers := rs; CU_current := Some {| DR_cluster := c; DR_peers := ps; DR_at := AtSend |} |} =>
        with_cleaner (Some {| CU_time := t; CU_routers := rs;
          CU_current := Some {| DR_cluster := c; DR_peers := ps; DR_at := AtNext |} |}) kt
    | _ => kt
    end
  else kt.
(** [close(p.msgChan)] and the end of the registration. *)
Definition closeReceived (kramaID : KramaID) (isDirectPeer : bool) : eff KramaTransport () :=
  if isDirectPeer then
    o ← peerset_Peer kramaID;
    match o with
    | Some l =>
        p ← read_peer l;
        if IP_closed p then lift (Panic "close of closed channel")
        else _ ← write_peer l (with_chan (IP_msgChan p) true p); peerset_Unregister kramaID
    | None => skip
    end
  else skip.
(** A step of the loop; what it receives next when it is at its [select]. *)
Inductive life_event := LifeMsg | LifeClose.
Definition peerLifeCycle (ev : life_event) : eff KramaTransport () :=
  blocked ← gets KT_blocked;
  match blocked with
  | Some (l, m) => sendToPeer l m
  | None =>
      received ← gets KT_closing;
      match received with
      | Some (kramaID, isDirectPeer) =>
          _ ← modify (with_closing None); closeReceived kramaID isDirectPeer
      | None =>
          match ev with
          | LifeMsg =>
              q ← gets KT_msgsChan;
              match q with
              | [] => skip
              | (kramaID, m) :: rest =>
                  _ ← modify (λ kt, with_queues (KT_msgsToEngine kt) rest (KT_closePeerChan kt) kt);
                  o ← peerset_Peer kramaID;
                  match o with
                  | Some l => sendToPeer l m
                  | None => _ ← attempt (SendMessageTransientPeer kramaID m); skip
                  end
              end
          | LifeClose =>
              q ← gets KT_closePeerChan;
              match q with
              | [] => skip
              | req :: rest =>
                  modify (λ kt, with_closing (Some (CP_kramaID req, CP_isDirectPeer req))
                    (send_received req (with_queues (KT_msgsToEngine kt) (KT_msgsChan kt) rest kt)))
              end
          end
      end
  end.

(** ** Messages *)
Definition kt_SendMessage (peerID : KramaID) (icsMsg : ICSMSG) : eff KramaTransport () :=
  if decide (peerID = selfID) then skip else
  rawData ← lift_or (wrap_err "failed to polorize ics message" (Polorize icsMsg));
  modify (λ kt, with_queues (KT_msgsToEngine kt) (KT_msgsChan kt ++ [(peerID, rawData)]) (KT_closePeerChan kt) kt).

(** [raw] is what [msg.Bytes()] gives. *)
Definition BroadcastTesseract (raw : bytes + err) : eff KramaTransport () :=
  rawData ← lift_or raw; _ ← kt_log (KGossip rawData);
  e ← kt_ask (λ n, Network_Broadcast n rawData); check e.

Definition read_router (p : positive) : eff KramaTransport ContextRouter :=
  o ← gets (λ kt, KT_routers kt !! p); lift (deref o).
Definition routers_get (c : ClusterID) : eff KramaTransport (option positive) := gets (λ kt, KT_contextRouters kt !! c).
(** Go lists them in some order. *)
Definition routers_list : eff KramaTransport (list positive) := gets (λ kt, (map_to_list (KT_contextRouters kt)).*2).
Definition routers_add (c : ClusterID) (r : ContextRouter) : eff KramaTransport () :=
  modify (λ kt, let p := fresh (dom (KT_routers kt)) in
    with_routers (<[c := p]> (KT_contextRouters kt)) (<[p := r]> (KT_routers kt)) kt).
Definition routers_remove (c : ClusterID) : eff KramaTransport () :=
  modify (λ kt, with_routers (delete c (KT_contextRouters kt)) (KT_routers kt) kt).

Definition BroadcastMessage (icsmsg : ICSMSG) : eff KramaTransport () :=
  match Polorize icsmsg with
  | inr _ => skip
  | inl rawMsg =>
      o ← routers_get (IM_ClusterID icsmsg);
      p ← lift (deref o); cr ← read_router p;
      c ← gets (λ kt, KT_committees kt !! CR_committee cr); committee ← lift (deref c);
      for_each (GetNodes committee true) (λ kramaID,
        modify (λ kt, with_queues (KT_msgsToEngine kt) (KT_msgsChan kt ++ [(kramaID, rawMsg)]) (KT_closePeerChan kt) kt))
  end.

Definition forwardMsgToEngine (m : ICSMSG) : eff KramaTransport () :=
  modify (λ kt, with_queues (KT_msgsToEngine kt ++ [m]) (KT_msgsChan kt) (KT_closePeerChan kt) kt).
(** On the bytes read from the stream; the peer's id afterwards. *)
Definition handlePeerMessage (kramaID : KramaID) (buffer : bytes + err) : eff KramaTransport KramaID :=
  raw ← lift_or buffer;
  '(m, id) ← lift_or (decodePeerMessage kramaID raw);
  match IM_MsgType m with
  | MSG_OTHER _ => mret id
  | _ => _ ← forwardMsgToEngine m; mret id
  end.
(** Until the stream ends; [buffers] is what is read from it. *)
Fixpoint initMessageHandler (kramaID : KramaID) (buffers : list (bytes + err)) : eff KramaTransport () :=
  match buffers with
  | [] => skip
  | b :: rest =>
      r ← attempt (handlePeerMessage kramaID b);
      match r with inr _ => skip | inl id => initMessageHandler id rest end
  end.

Definition handleTransientStream (stream : Stream) (buffer : bytes + err) : eff KramaTransport () :=
  _ ← attempt (handlePeerMessage "" buffer); kt_log (KResetStream stream).
(** The start of the handler, its loop and its end; other goroutines run in
    between. *)
Definition openDirectStream (stream : Stream) : eff KramaTransport () :=
  s ← gets (λ kt, KT_directInboundStreams kt !! RemotePeer stream);
  _ ← (match s with Some s => kt_log (KResetStream s) | None => skip end);
  modify (λ kt, with_inbound (<[RemotePeer stream := stream]> (KT_directInboundStreams kt)) kt).
Definition closeDirectStream (stream : Stream) : eff KramaTransport () :=
  _ ← kt_log (KResetStream stream);
  modify (λ kt, with_inbound (delete (RemotePeer stream) (KT_directInboundStreams kt)) kt).
Definition handleMeshStream (stream : Stream) (buffers : list (bytes + err)) : eff KramaTransport () :=
  _ ← initMessageHandler "" buffers; kt_log (KCloseStream stream).

(** ** Routers *)
Definition NewContextRouter (operator : KramaID) (clusterID : ClusterID) (nodeset : positive)
    (voteset : option HeightVoteSet) : ContextRouter :=
  {| CR_selfID := selfID; CR_operator := operator; CR_clusterID := clusterID; CR_committee := nodeset;
     CR_voteset := voteset; CR_expiresAt := 0 |}.
(** [time.Now().Add(2 * time.Minute).Unix()] *)
Definition setExpiryTime (now : Z) (cr : ContextRouter) : ContextRouter :=
  {| CR_selfID := CR_selfID cr; CR_operator := CR_operator cr; CR_clusterID := CR_clusterID cr;
     CR_committee := CR_committee cr; CR_voteset := CR_voteset cr; CR_expiresAt := now + 120 |}.
Definition RegisterContextRouter (operator : KramaID) (clusterID : ClusterID) (nodeset : positive)
    (voteset : option HeightVoteSet) : eff KramaTransport () :=
  routers_add clusterID (NewContextRouter operator clusterID nodeset voteset).
Definition GracefullyCloseContextRouter (clusterID : ClusterID) (now : Z) : eff KramaTransport () :=
  o ← routers_get clusterID;
  match o with
  | Some p =>
      cr ← read_router p;
      modify (λ kt, with_routers (KT_contextRouters kt) (<[p := setExpiryTime now cr]> (KT_routers kt)) kt)
  | None => skip
  end.

(** ** The [cleanup] goroutine, step by step *)
(** The body of the loop over the peers from the lock of the peer on. *)
Definition cleanPeer (clusterID : ClusterID) (l : positive) : eff KramaTransport clean_point :=
  kPeer ← read_peer l;
  held ← lock_held (IP_networkID kPeer);
  if held : bool then mret (AtLock l) else
  if negb (registry_has clusterID (IP_clusters kPeer)) then mret AtNext
  else
    let clusters := registry_remove clusterID (IP_clusters kPeer) in
    _ ← write_peer l (with_clusters clusters kPeer);
    if registry_len clusters =? 0 then _ ← disconnectPeer l true; mret AtSend else mret AtNext.
Definition CleanDirectPeer (d : Deregistration) : eff KramaTransport Deregistration :=
  let c := DR_cluster d in
  match DR_at d, DR_peers d with
  | AtNext, kramaID :: rest =>
      o ← peerset_Peer kramaID;
      mret {| DR_cluster := c; DR_peers := rest; DR_at := match o with None => AtNext | Some l => AtLock l end |}
  | AtLock l, peers =>
      at' ← cleanPeer c l; mret {| DR_cluster := c; DR_peers := peers; DR_at := at' |}
  | AtNext, [] | AtSend, _ => mret d
  end.
(** The start of the call, up to the list of peers, and its rest; [None] when it
    has returned.  Closing a router only cancels its context. *)
Definition startDeregister (clusterID : ClusterID) : eff KramaTransport (option Deregistration) :=
  o ← routers_get clusterID;
  match o with
  | None => mret None
  | Some _ => peers ← peerset_List; mret (Some {| DR_cluster := clusterID; DR_peers := peers; DR_at := AtNext |})
  end.
Definition DeregisterContextRouter (d : Deregistration) : eff KramaTransport (option Deregistration) :=
  match DR_at d, DR_peers d with
  | AtNext, [] => _ ← routers_remove (DR_cluster d); mret None
  | _, _ => d' ← CleanDirectPeer d; mret (Some d')
  end.
(** [cr.getExpiryTime() > 0 && cr.getExpiryTime() <= currentTime] *)
Definition router_expired (currentTime : Z) (cr : ContextRouter) : bool :=
  (0 <? CR_expiresAt cr) && (CR_expiresAt cr <=? currentTime).
Definition removeExpiredRouters (cu : Cleanup) : eff KramaTransport (option Cleanup) :=
  match CU_current cu, CU_routers cu with
  | Some d, rs =>
      d' ← DeregisterContextRouter d;
      mret (Some {| CU_time := CU_time cu; CU_routers := rs; CU_current := d' |})
  | None, p :: rest =>
      cr ← read_router p;
      d ← (if router_expired (CU_time cu) cr then startDeregister (CR_clusterID cr) else mret None);
      mret (Some {| CU_time := CU_time cu; CU_routers := rest; CU_current := d |})
  | None, [] => mret None
  end.
(** The ticker, and a step of the pass it started; a tick during a pass is taken
    after it. *)
Definition cleanupTick (now : Z) : eff KramaTransport () :=
  o ← gets KT_cleaner;
  match o with
  | Some _ => skip
  | None =>
      rs ← routers_list;
      modify (with_cleaner (Some {| CU_time := now; CU_routers := rs; CU_current := None |}))
  end.
Definition cleanup : eff KramaTransport () :=
  o ← gets KT_cleaner;
  match o with None => skip | Some cu => cu' ← removeExpiredRouters cu; modify (with_cleaner cu') end.

(** ** A run of the transport *)
Inductive kt_event :=
| KtConnect (id : KramaID) (clusterID : ClusterID)
| KtSend (id : KramaID) (msg : ICSMSG)
| KtBroadcast (msg : ICSMSG)
| KtTesseract (raw : bytes + err)
| KtRegister (operator : KramaID) (clusterID : ClusterID) (nodeset : positive) (voteset : option HeightVoteSet)
| KtExpire (clusterID : ClusterID) (now : Z)
| KtCleanup (now : Z)
| KtClean
| KtLife (ev : life_event)
| KtShip (l : positive)
| KtDead (l : positive)
| KtDeadLock (l : positive)
| KtTransient (stream : Stream) (buffer : bytes + err)
| KtOpen (stream : Stream)
| KtRead (id : KramaID) (buffers : list (bytes + err))
| KtClose (stream : Stream)
| KtMesh (stream : Stream) (buffers : list (bytes + err))
(** the cluster changes a committee it shares *)
| KtCommittee (l : positive) (c : ICSCommittee).
(** The goroutines of a peer exist once the peer does. *)
Definition on_peer (l : positive) (m : eff KramaTransport ()) : eff KramaTransport () :=
  o ← gets (λ kt, KT_peers kt !! l); match o with None => skip | Some _ => m end.
Definition kt_step (ev : kt_event) : eff KramaTransport () :=
  match ev with
  | KtConnect id c => ConnectToDirectPeer id c
  | KtSend id m => kt_SendMessage id m
  | KtBroadcast m => BroadcastMessage m
  | KtTesseract raw => BroadcastTesseract raw
  | KtRegister op c nodeset voteset => RegisterContextRouter op c nodeset voteset
  | KtExpire c now => GracefullyCloseContextRouter c now
  | KtCleanup now => cleanupTick now
  | KtClean => cleanup
  | KtLife ev => peerLifeCycle ev
  | KtShip l => on_peer l (directPeerRoutine l)
  | KtDead l => on_peer l (handleDeadDirectPeer l)
  | KtDeadLock l => closeDeadPeer l
  | KtTransient s b => handleTransientStream s b
  | KtOpen s => openDirectStream s
  | KtRead id bs => initMessageHandler id bs
  | KtClose s => closeDirectStream s
  | KtMesh s bs => handleMeshStream s bs
  | KtCommittee l c => modify (λ kt, with_committees (<[l := c]> (KT_committees kt)) kt)
  end.
(** The caller logs the error. *)
Definition kt_run (evs : list kt_event) : eff KramaTransport () :=
  for_each evs (λ ev, _ ← attempt (kt_step ev); skip).
End Transport.
