(* ===== verification/TransportSpec.v ===== *)
(** * What the transport guarantees: the theorems

    Its goroutines never send on a closed channel or close one twice, a closed
    cluster leaves no peer behind, and three things that go wrong. *)

From stdpp Require Import base gmap strings list fin_maps fin_sets.
From Stdlib Require Import ZArith Lia Relations.
From S2P Require Import Prelude Effect External Types NodeSet Committee Cluster VoteSet HeightVoteSet Transport.

Section Transport.
Context `{ET : ExtTypes} `{EX : !ExtOps ET} `{PP : !P2P} `{!PoloCodec ICSMSG}.
Context (selfID : KramaID).

(** ** The invariant *)
(** A request to close the peer [id] waits in the channel or has been received. *)
Definition close_pending (kt : KramaTransport) (id : KramaID) : Prop :=
  (∃ q, q ∈ KT_closePeerChan kt ∧ CP_kramaID q = id ∧ CP_isDirectPeer q = true) ∨ KT_closing kt = Some (id, true).
(** A registered peer is open, direct and kept under its own id, and it serves a
    cluster or is about to be closed. *)
Definition peer_ok (kt : KramaTransport) (id : KramaID) (p : icsPeer) : Prop :=
  IP_kramaID p = id ∧ IP_closed p = false ∧ IP_isDirectPeer p = true ∧ (IP_clusters p ≠ ∅ ∨ close_pending kt id).
(** The [cleanup] goroutine works on a cluster that is in the table; while it waits
    in a send, its request is in the channel. *)
Definition deregistration_ok (kt : KramaTransport) (d : Deregistration) : Prop :=
  is_Some (KT_contextRouters kt !! DR_cluster d) ∧
  match DR_at d with
  | AtNext => True
  | AtLock l => is_Some (KT_peers kt !! l)
  | AtSend => ∃ q, q ∈ KT_closePeerChan kt ∧ CP_cleanup q = true
  end.
Definition cleaner_ok (kt : KramaTransport) : Prop :=
  ∀ cu, KT_cleaner kt = Some cu →
    (∀ p, p ∈ CU_routers cu → is_Some (KT_routers kt !! p)) ∧ (∀ d, CU_current cu = Some d → deregistration_ok kt d).
Record transport_ok (kt : KramaTransport) : Prop := {
  to_peers : ∀ id l, KT_directPeerset kt !! id = Some l → ∃ p, KT_peers kt !! l = Some p ∧ peer_ok kt id p;
  to_direct : ∀ l p, KT_peers kt !! l = Some p → IP_isDirectPeer p = true;
  to_blocked : ∀ l m, KT_blocked kt = Some (l, m) → ∃ id, KT_directPeerset kt !! id = Some l;
  to_routers : ∀ c p, KT_contextRouters kt !! c = Some p → ∃ r, KT_routers kt !! p = Some r ∧ CR_clusterID r = c;
  to_dying : ∀ l, l ∈ KT_dying kt → is_Some (KT_peers kt !! l);
  to_cleaner : cleaner_ok kt;
}.
(** What the last part needs of a change. *)
Lemma cleaner_mono kt kt' :
  cleaner_ok kt → KT_cleaner kt' = KT_cleaner kt → dom (KT_contextRouters kt) ⊆ dom (KT_contextRouters kt') →
  dom (KT_routers kt) ⊆ dom (KT_routers kt') → dom (KT_peers kt) ⊆ dom (KT_peers kt') →
  (∀ q, q ∈ KT_closePeerChan kt → CP_cleanup q = true → q ∈ KT_closePeerChan kt') → cleaner_ok kt'.
Proof.
  intros Hk E Ht Hr Hp Hc cu Hcu. rewrite E in Hcu. destruct (Hk cu Hcu) as [H1 H2]. split.
  - intros p Hin. apply elem_of_dom, Hr, elem_of_dom. by apply H1.
  - intros d Hd. destruct (H2 d Hd) as [H3 H4]. split; [by apply elem_of_dom, Ht, elem_of_dom|].
    destruct (DR_at d); [done|by apply elem_of_dom, Hp, elem_of_dom|]. destruct H4 as (q & ? & ?). exists q. split; [by apply Hc|done].
Qed.

(** [m] returns on every well-formed state, and keeps it so. *)
Definition safe {A} (m : eff KramaTransport A) : Prop :=
  ∀ kt, transport_ok kt → ∃ kt' r, m kt = Ret (kt', r) ∧ transport_ok kt'.

Lemma safe_ret {A} (a : A) : safe (mret a).
Proof. intros kt Hk. by eexists _, _. Qed.
Lemma safe_raise {A} e : safe (raise (A := A) e).
Proof. intros kt Hk. by eexists _, _. Qed.
Lemma safe_lift_or {A} (r : A + err) : safe (lift_or r).
Proof. intros kt Hk. by eexists _, _. Qed.
Lemma safe_check e : safe (check e).
Proof. intros kt Hk. by eexists _, _. Qed.
Lemma safe_gets {A} (f : KramaTransport → A) : safe (gets f).
Proof. intros kt Hk. by eexists _, _. Qed.
Lemma safe_bind {A B} (m : eff KramaTransport A) (f : A → eff KramaTransport B) :
  safe m → (∀ a, safe (f a)) → safe (m ≫= f).
Proof.
  intros Hm Hf kt Hk. destruct (Hm kt Hk) as (k1 & [a|e] & H & Hk1).
  - rewrite (bind_run _ _ _ _ _ H). by apply Hf.
  - rewrite (bind_fails _ _ _ _ _ H). by eexists _, _.
Qed.
Lemma safe_attempt {A} (m : eff KramaTransport A) : safe m → safe (attempt m).
Proof. intros Hm kt Hk. destruct (Hm kt Hk) as (k1 & r & H & Hk1). eexists _, _. by rewrite (attempt_run _ _ _ _ H). Qed.
Lemma safe_for_each {A} (l : list A) f : (∀ x, safe (f x)) → safe (for_each l f).
Proof. intros Hf. induction l; [apply safe_ret|]. by apply safe_bind. Qed.
(** An update that touches neither the peers, nor the routers, nor the goroutines,
    nor what waits. *)
Definition plain_update (f : KramaTransport → KramaTransport) : Prop := ∀ kt,
  KT_directPeerset (f kt) = KT_directPeerset kt ∧ KT_peers (f kt) = KT_peers kt ∧
  KT_blocked (f kt) = KT_blocked kt ∧ KT_contextRouters (f kt) = KT_contextRouters kt ∧
  KT_routers (f kt) = KT_routers kt ∧ KT_dying (f kt) = KT_dying kt ∧ KT_cleaner (f kt) = KT_cleaner kt ∧
  KT_closing (f kt) = KT_closing kt ∧ KT_closePeerChan kt ⊆ KT_closePeerChan (f kt).
Lemma close_pending_mono kt kt' id :
  KT_closing kt' = KT_closing kt → KT_closePeerChan kt ⊆ KT_closePeerChan kt' → close_pending kt id → close_pending kt' id.
Proof. intros E Hc [(q & Hq & ?)|H]; [left; exists q; split; [by apply Hc|done]|right; congruence]. Qed.
Lemma plain_update_ok f kt : plain_update f → transport_ok kt → transport_ok (f kt).
Proof.
  intros Hf [H1 H2 H3 H4 H5 H6]. destruct (Hf kt) as (Es & Ep & Eb & Et & Er & Ed & Ec & El & Hc).
  split; rewrite ?Es, ?Ep, ?Eb, ?Et, ?Er, ?Ed; try done.
  - intros id l Hl. destruct (H1 id l Hl) as (p & Hp & ? & ? & ? & Hs). exists p. split; [done|].
    split_and!; try done. destruct Hs as [Hs|Hs]; [by left|right; by eapply close_pending_mono].
  - apply (cleaner_mono kt); rewrite ?Et, ?Er, ?Ep; try done. intros q Hq _. by apply Hc.
Qed.
Lemma safe_modify f : plain_update f → safe (modify f).
Proof. intros Hf kt Hk. eexists _, _. split; [done|]. by apply plain_update_ok. Qed.
Lemma safe_ask {A} (f : nat → A) : safe (kt_ask f).
Proof.
  unfold kt_ask. apply safe_bind; [apply safe_gets|intros n]. apply safe_bind; [|intros; apply safe_ret].
  apply safe_modify. intros kt. by split_and!.
Qed.
Lemma safe_log a : safe (kt_log a).
Proof. apply safe_modify. intros kt. by split_and!. Qed.

(** ** Peers *)
Lemma read_peer_run l kt p : KT_peers kt !! l = Some p → read_peer l kt = Ret (kt, inl p).
Proof. intros H. unfold read_peer. by rewrite gets_bind, H. Qed.

(** A peer that is written stays what the registered peers must be. *)
Lemma write_peer_ok kt l p p' :
  transport_ok kt → KT_peers kt !! l = Some p →
  IP_kramaID p' = IP_kramaID p → IP_closed p' = IP_closed p → IP_isDirectPeer p' = IP_isDirectPeer p →
  (IP_clusters p ≠ ∅ → IP_clusters p' ≠ ∅ ∨ close_pending kt (IP_kramaID p)) →
  transport_ok (with_peers (KT_directPeerset kt) (<[l := p']> (KT_peers kt)) kt).
Proof.
  intros [H1 H2 H3 H4 H5 H6] Hp Hid Hcl Hd Hs. split; try done.
  - intros id l' Hl'. cbn in Hl'. destruct (H1 id l' Hl') as (q & Hq & Hqid & Hqc & Hqd & Hqs). cbn.
    destruct (decide (l = l')) as [<-|Hne].
    + rewrite Hp in Hq. injection Hq as <-. exists p'. rewrite lookup_insert_eq. split; [done|].
      split_and!; [congruence|congruence|congruence|]. destruct Hqs as [Hqs|Hqs]; [|by right].
      destruct (Hs Hqs); [by left|right; by rewrite <-Hqid].
    + exists q. rewrite lookup_insert_ne by done. by split.
  - intros l' q Hq. cbn in Hq. apply lookup_insert_Some in Hq as [[<- <-]|[_ Hq]]; [|by eapply H2].
    rewrite Hd. by eapply H2.
  - intros l' Hl'. cbn. apply lookup_insert_is_Some'. right. by apply H5.
  - apply (cleaner_mono kt); try done. cbn. rewrite dom_insert. set_solver.
Qed.
Definition request (p : icsPeer) (cleanup : bool) : closePeer :=
  {| CP_kramaID := IP_kramaID p; CP_isDirectPeer := true; CP_lock := IP_networkID p; CP_cleanup := cleanup |}.
Lemma disconnect_run kt l p b :
  transport_ok kt → KT_peers kt !! l = Some p →
  disconnectPeer l b kt = Ret (with_queues (KT_msgsToEngine kt) (KT_msgsChan kt) (KT_closePeerChan kt ++ [request p b]) kt, inl ()).
Proof.
  intros Hk Hp. unfold disconnectPeer, request. rewrite (bind_run _ _ _ _ _ (read_peer_run _ _ _ Hp)).
  by rewrite (to_direct _ Hk _ _ Hp).
Qed.
Lemma queue_ok kt q :
  transport_ok kt → transport_ok (with_queues (KT_msgsToEngine kt) (KT_msgsChan kt) (KT_closePeerChan kt ++ [q]) kt).
Proof.
  apply (plain_update_ok (λ kt, with_queues (KT_msgsToEngine kt) (KT_msgsChan kt) (KT_closePeerChan kt ++ [q]) kt)).
  intros kt0. split_and!; try done. cbn. set_solver.
Qed.

Lemma fresh_unregistered kt id l :
  transport_ok kt → KT_directPeerset kt !! id = Some l → l ≠ fresh (dom (KT_peers kt)).
Proof.
  intros Hk Hl ->. destruct (to_peers _ Hk _ _ Hl) as (p & Hp & _).
  apply elem_of_dom_2 in Hp. by apply is_fresh in Hp.
Qed.

Lemma safe_connect id c : safe (ConnectToDirectPeer selfID id c).
Proof.
  unfold ConnectToDirectPeer. case_decide as Hself; [apply safe_ret|]. apply safe_bind; [apply safe_lift_or|intros peerID].
  apply safe_bind; [apply safe_gets|intros []; [apply safe_ret|]].
  intros kt Hk. unfold peerset_Peer. rewrite gets_bind. destruct (KT_directPeerset kt !! id) as [l|] eqn:El.
  - destruct (to_peers _ Hk _ _ El) as (p & Hp & Hpid & Hpc & Hpd & _).
    rewrite (bind_run _ _ _ _ _ (read_peer_run _ _ _ Hp)). eexists _, _. split; [done|].
    apply (write_peer_ok _ _ p); try done. intros _. left. unfold registry_add. cbn. set_solver.
  - revert kt Hk El. enough (H : ∀ kt, transport_ok kt → KT_directPeerset kt !! id = None → ∃ kt' r,
      (e ← kt_ask (λ n, ConnectPeerByKramaID n id);
       _ ← check match e with Some e => if IsConnectionExists e then None else Some e | None => None end;
       r ← kt_ask (λ n, NewStream n peerID); stream ← lift_or r;
       l ← gets (λ kt, fresh (dom (KT_peers kt)));
       _ ← write_peer l (with_clusters (registry_add c ∅) (newICSPeer id stream true));
       peerset_Register l) kt = Ret (kt', r) ∧ transport_ok kt') by (intros; by apply H).
    intros kt Hk El. set (n := KT_asked kt). unfold kt_ask.
    unfold mbind, eff_bind, modify, mret, eff_ret, check, lift_or, gets. cbn [KT_asked with_log]. fold n.
    destruct (match ConnectPeerByKramaID n id with Some e => _ | None => _ end) as [e|]; [eexists _, _; split; [done|]|].
    { apply (plain_update_ok (with_log _ _)); [|done]. intros k0. by split_and!. }
    destruct (NewStream (S n) peerID) as [stream|e]; cbn [KT_peers with_log].
    2: { eexists _, _. split; [done|]. apply (plain_update_ok (with_log _ _)); [intros k0; by split_and!|].
         apply (plain_update_ok (with_log _ _)); [intros k0; by split_and!|done]. }
    set (l := fresh (dom (KT_peers kt))). unfold write_peer, modify, peerset_Register, read_peer, peerset_ContainsPeer.
    unfold mbind, eff_bind, gets, lift, modify, raise. cbn. rewrite lookup_insert_eq. cbn. rewrite El. cbn.
    eexists _, _. split; [done|]. split; cbn.
    + intros id' l' Hl'. apply lookup_insert_Some in Hl' as [[<- <-]|[Hne Hl']].
      * eexists. rewrite lookup_insert_eq. split; [done|]. split_and!; try done. left. cbn. unfold registry_add. set_solver.
      * destruct (to_peers _ Hk _ _ Hl') as (p & Hp & Hok). exists p. rewrite lookup_insert_ne; [by split|].
        intros <-. by apply (fresh_unregistered _ _ _ Hk Hl').
    + intros l' p Hp. apply lookup_insert_Some in Hp as [[<- <-]|[_ Hp]]; [done|by eapply (to_direct _ Hk)].
    + intros l' m Hb. destruct (to_blocked _ Hk _ _ Hb) as [id' Hid]. exists id'. rewrite lookup_insert_ne; [done|congruence].
    + apply (to_routers _ Hk).
    + intros l' Hl'. apply lookup_insert_is_Some'. right. by apply (to_dying _ Hk).
    + apply (cleaner_mono _ _ (to_cleaner _ Hk)); try done. cbn. rewrite dom_insert. set_solver.
Qed.

(** ** The other goroutines *)
Lemma safe_ship l : safe (on_peer l (directPeerRoutine l)).
Proof.
  intros kt Hk. unfold on_peer. rewrite gets_bind. destruct (KT_peers kt !! l) as [p|] eqn:Hp; [|by apply safe_ret].
  unfold directPeerRoutine. rewrite (bind_run _ _ _ _ _ (read_peer_run _ _ _ Hp)).
  destruct (IP_msgChan p) as [|m rest]; [destruct (IP_closed p); [by apply safe_log|by apply safe_ret]|].
  unfold write_peer. rewrite modify_bind. apply safe_log. eapply write_peer_ok; try done. intros Hc. by left.
Qed.
Lemma safe_dead l : safe (on_peer l (handleDeadDirectPeer l)).
Proof.
  intros kt Hk. unfold on_peer. rewrite gets_bind. destruct (KT_peers kt !! l) as [p|] eqn:Hp; [|by apply safe_ret].
  unfold handleDeadDirectPeer. rewrite (bind_run _ _ _ _ _ (read_peer_run _ _ _ Hp)). unfold peerset_Peer.
  rewrite gets_bind. destruct (KT_directPeerset kt !! IP_kramaID p); [|by apply safe_ret].
  eexists _, _. split; [done|]. destruct Hk as [H1 H2 H3 H4 H5 H6]. split; try done. cbn.
  intros x [?|Hx]%elem_of_app; [by apply H5|]. apply list_elem_of_singleton in Hx as ->. by eexists.
Qed.
Lemma safe_dead_lock l : safe (closeDeadPeer l).
Proof.
  intros kt Hk. unfold closeDeadPeer. rewrite gets_bind. destruct (bool_decide (l ∈ KT_dying kt)) eqn:Hin; [|by apply safe_ret].
  apply bool_decide_eq_true in Hin. destruct (to_dying _ Hk _ Hin) as [p Hp].
  rewrite (bind_run _ _ _ _ _ (read_peer_run _ _ _ Hp)). unfold lock_held. rewrite gets_bind.
  destruct (existsb _ _); [by apply safe_ret|]. rewrite modify_bind. set (k1 := with_dying _ kt).
  assert (Hk1 : transport_ok k1).
  { destruct Hk as [H1 H2 H3 H4 H5 H6]. split; try done. cbn. intros x [_ Hx]%list_elem_of_filter. by apply H5. }
  rewrite (disconnect_run k1 l p false Hk1 Hp). eexists _, _. split; [done|]. by apply queue_ok.
Qed.

(** A send to a registered peer. *)
Lemma send_ok kt id l m :
  transport_ok kt → KT_directPeerset kt !! id = Some l →
  ∃ kt', sendToPeer l m kt = Ret (kt', inl ()) ∧ transport_ok kt'.
Proof.
  intros Hk Hl. destruct (to_peers _ Hk _ _ Hl) as (p & Hp & Hpid & Hpc & Hpd & Hps). unfold sendToPeer.
  rewrite (bind_run _ _ _ _ _ (read_peer_run _ _ _ Hp)), Hpc. destruct (zlen (IP_msgChan p) <? 50).
  - unfold write_peer. rewrite modify_bind. eexists. split; [done|].
    assert (H : transport_ok (with_peers (KT_directPeerset kt) (<[l := with_chan (IP_msgChan p ++ [m]) false p]> (KT_peers kt)) kt)).
    { eapply write_peer_ok; try done. by intros; left. }
    destruct H as [H1 H2 _ H4 H5 H6]. by split.
  - eexists. split; [done|]. destruct Hk as [H1 H2 _ H4 H5 H6]. split; try done. intros l' m' [= <- <-]. by exists id.
Qed.

(** Receiving a request, and acting on it. *)
Definition took_request (q : closePeer) (rest : list closePeer) (kt : KramaTransport) : KramaTransport :=
  with_closing (Some (CP_kramaID q, CP_isDirectPeer q))
    (send_received q (with_queues (KT_msgsToEngine kt) (KT_msgsChan kt) rest kt)).
Lemma send_received_same q kt :
  KT_directPeerset (send_received q kt) = KT_directPeerset kt ∧ KT_peers (send_received q kt) = KT_peers kt ∧
  KT_blocked (send_received q kt) = KT_blocked kt ∧ KT_contextRouters (send_received q kt) = KT_contextRouters kt ∧
  KT_routers (send_received q kt) = KT_routers kt ∧ KT_dying (send_received q kt) = KT_dying kt ∧
  KT_closing (send_received q kt) = KT_closing kt ∧ KT_closePeerChan (send_received q kt) = KT_closePeerChan kt.
Proof.
  unfold send_received. destruct (CP_cleanup q); [|done].
  destruct (KT_cleaner kt) as [[t rs [[c ps []]|]]|]; by split_and!.
Qed.
Lemma received_cleaner kt q rest :
  cleaner_ok kt → KT_closePeerChan kt = q :: rest →
  cleaner_ok (send_received q (with_queues (KT_msgsToEngine kt) (KT_msgsChan kt) rest kt)).
Proof.
  intros Hk Hq. unfold send_received.
  assert (Hm : (∀ x, x ∈ KT_closePeerChan kt → CP_cleanup x = true → x ∈ rest) →
    cleaner_ok (with_queues (KT_msgsToEngine kt) (KT_msgsChan kt) rest kt)) by (intros; by apply (cleaner_mono kt)).
  destruct (CP_cleanup q) eqn:Eq.
  2: { apply Hm. intros x Hx Hc. rewrite Hq in Hx. apply elem_of_cons in Hx as [->|Hx]; [congruence|done]. }
  cbn [KT_cleaner with_queues]. destruct (KT_cleaner kt) as [[t rs [[c ps []]|]]|] eqn:Ec; intros cu Hcu; cbn in Hcu;
    try (rewrite Ec in Hcu); try done; injection Hcu as <-; destruct (Hk _ Ec) as [H1 H2]; (split; [exact H1|]); try done;
    intros d [= <-]; destruct (H2 _ eq_refl) as [H3 H4]; by split.
Qed.
Lemma received_ok kt q rest :
  transport_ok kt → KT_closePeerChan kt = q :: rest → KT_closing kt = None → transport_ok (took_request q rest kt).
Proof.
  intros [H1 H2 H3 H4 H5 H6] Hq Hn. unfold took_request.
  destruct (send_received_same q (with_queues (KT_msgsToEngine kt) (KT_msgsChan kt) rest kt)) as (Es & Ep & Eb & Et & Er & Ed & El & Ec).
  pose proof (received_cleaner kt q rest H6 Hq) as Hcl. set (k1 := send_received q _) in *.
  split; cbn; rewrite ?Es, ?Ep, ?Eb, ?Et, ?Er, ?Ed; try done.
  intros id l Hl. destruct (H1 id l Hl) as (p & Hp & ? & ? & ? & Hs). exists p. split; [done|]. split_and!; try done.
  destruct Hs as [Hs|[(x & Hx & Hid & Hd)|Hs]]; [by left| |congruence]. right. rewrite Hq in Hx.
  apply elem_of_cons in Hx as [->|Hx]; [right; cbn; by rewrite Hid, Hd|].
  left. exists x. cbn. rewrite Ec. by split_and!.
Qed.
Lemma closing_ok kt id (b : bool) :
  transport_ok kt → KT_closing kt = Some (id, b) → (b = true → KT_directPeerset kt !! id = None) →
  transport_ok (with_closing None kt).
Proof.
  intros [H1 H2 H3 H4 H5 H6] Hq Hn. split; try done. intros id' l Hl. cbn in Hl.
  destruct (H1 id' l Hl) as (p & Hp & ? & ? & ? & Hs). exists p. split; [done|]. split_and!; try done.
  destruct Hs as [Hs|[Hs|Hs]]; [by left|by right; left|]. rewrite Hq in Hs. injection Hs as -> ->. by rewrite Hn in Hl.
Qed.
(** The end of a registered peer. *)
Definition unregistered (id : KramaID) (l : positive) (p : icsPeer) (kt : KramaTransport) : KramaTransport :=
  with_peers (delete id (KT_directPeerset kt)) (<[l := with_chan (IP_msgChan p) true p]> (KT_peers kt)) (with_closing None kt).
Lemma closeReceived_run kt id (b : bool) :
  transport_ok kt → KT_blocked kt = None → KT_closing kt = Some (id, b) →
  ∃ kt', (_ ← modify (with_closing None); closeReceived id b) kt = Ret (kt', inl ()) ∧ transport_ok kt' ∧
    (kt' = with_closing None kt ∧ (b = true → KT_directPeerset kt !! id = None) ∨
     ∃ l p, b = true ∧ KT_directPeerset kt !! id = Some l ∧ KT_peers kt !! l = Some p ∧ kt' = unregistered id l p kt).
Proof.
  intros Hk Hb Hq. rewrite modify_bind. unfold closeReceived.
  destruct b; [|eexists; split; [done|]; split; [by eapply closing_ok|by left]].
  unfold peerset_Peer. rewrite gets_bind. cbn [KT_directPeerset with_closing].
  destruct (KT_directPeerset kt !! id) as [l|] eqn:El; [|eexists; split; [done|]; split; [by eapply closing_ok|by left]].
  destruct (to_peers _ Hk _ _ El) as (p & Hp & Hpid & Hpc & _). set (k1 := with_closing None kt).
  rewrite (bind_run _ _ k1 k1 p) by (by apply read_peer_run). rewrite Hpc. unfold write_peer, peerset_Unregister.
  rewrite modify_bind. eexists. split; [done|]. split; [|right; by exists l, p]. split; cbn.
  - intros id' l' Hl'. apply lookup_delete_Some in Hl' as [Hne Hl'].
    destruct (to_peers _ Hk _ _ Hl') as (q & Hqp & Hqid & Hqc & Hqd & Hqs). exists q.
    assert (l' ≠ l). { intros ->. rewrite Hp in Hqp. injection Hqp as ->. congruence. }
    rewrite lookup_insert_ne by done. split; [done|]. split_and!; try done.
    destruct Hqs as [Hqs|[Hqs|Hqs]]; [by left|by right; left|]. rewrite Hq in Hqs. congruence.
  - intros l' q Hl'. apply lookup_insert_Some in Hl' as [[<- <-]|[_ Hl']]; [exact (to_direct _ Hk _ _ Hp)|by eapply (to_direct _ Hk)].
  - congruence.
  - apply (to_routers _ Hk).
  - intros l' Hl'. apply lookup_insert_is_Some'. right. by apply (to_dying _ Hk).
  - apply (cleaner_mono _ _ (to_cleaner _ Hk)); try done. cbn. rewrite dom_insert. set_solver.
Qed.

Lemma safe_life ev : safe (peerLifeCycle ev).
Proof.
  intros kt Hk. unfold peerLifeCycle. rewrite gets_bind. destruct (KT_blocked kt) as [[l m]|] eqn:Eb.
  { destruct (to_blocked _ Hk _ _ Eb) as [id Hid]. destruct (send_ok _ _ _ m Hk Hid) as (kt' & -> & H). by eexists _, _. }
  rewrite gets_bind. destruct (KT_closing kt) as [[id b]|] eqn:Eclo.
  { destruct (closeReceived_run kt id b Hk Eb Eclo) as (kt' & -> & H & _). by eexists _, _. }
  destruct ev; rewrite gets_bind.
  - destruct (KT_msgsChan kt) as [|[id m] rest]; [by apply safe_ret|]. rewrite modify_bind. unfold peerset_Peer.
    rewrite gets_bind. set (k1 := with_queues _ _ _ kt).
    assert (Hk1 : transport_ok k1).
    { apply (plain_update_ok (λ kt, with_queues (KT_msgsToEngine kt) rest (KT_closePeerChan kt) kt)); [|done].
      intros k0. by split_and!. }
    destruct (KT_directPeerset k1 !! id) as [l|] eqn:El.
    + destruct (send_ok k1 id l m Hk1 El) as (kt' & -> & H). by eexists _, _.
    + enough (Hs : safe (_ ← attempt (SendMessageTransientPeer id m); skip)) by (by apply Hs).
      apply safe_bind; [|intros; apply safe_ret]. apply safe_attempt. unfold SendMessageTransientPeer.
      apply safe_bind; [apply safe_ask|intros e]. apply safe_bind; [apply safe_check|intros _].
      apply safe_bind; [apply safe_lift_or|intros peerID]. apply safe_bind; [apply safe_ask|intros r].
      apply safe_bind; [apply safe_lift_or|intros stream]. apply safe_bind; [apply safe_log|intros _].
      apply safe_bind; [apply safe_ask|intros; apply safe_check].
  - destruct (KT_closePeerChan kt) as [|q rest] eqn:Eq; [by apply safe_ret|]. eexists _, _. split; [done|].
    by apply (received_ok kt q rest).
Qed.

Lemma safe_handle id b : safe (handlePeerMessage id b).
Proof.
  unfold handlePeerMessage. apply safe_bind; [apply safe_lift_or|intros raw].
  apply safe_bind; [apply safe_lift_or|intros [m id']].
  destruct (IM_MsgType m); try apply safe_ret;
    (apply safe_bind; [|intros; apply safe_ret]; apply safe_modify; intros kt; by split_and!).
Qed.
Lemma safe_init id bs : safe (initMessageHandler id bs).
Proof.
  revert id. induction bs as [|b bs IH]; intros id; [apply safe_ret|].
  apply safe_bind; [apply safe_attempt, safe_handle|]. intros [id'|e]; [apply IH|apply safe_ret].
Qed.
Lemma fresh_router kt c p : transport_ok kt → KT_contextRouters kt !! c = Some p → p ≠ fresh (dom (KT_routers kt)).
Proof.
  intros Hk Hc ->. destruct (to_routers _ Hk _ _ Hc) as (r & Hr & _). apply elem_of_dom_2 in Hr. by apply is_fresh in Hr.
Qed.
Lemma safe_routers_add c r : CR_clusterID r = c → safe (routers_add c r).
Proof.
  intros Hr kt Hk. eexists _, _. split; [done|]. pose proof (fresh_router kt) as Hf. pose proof Hk as [H1 H2 H3 H4 H5 H6].
  split; try done; cbn.
  - intros c' p H. apply lookup_insert_Some in H as [[<- <-]|[_ H]]; [exists r; by rewrite lookup_insert_eq|].
    rewrite lookup_insert_ne by (intros E; by apply (Hf c' p)). by apply H4.
  - apply (cleaner_mono kt); try done; cbn; rewrite dom_insert; set_solver.
Qed.
(** A router that is written keeps its cluster. *)
Lemma write_router_ok kt p r r' :
  transport_ok kt → KT_routers kt !! p = Some r → CR_clusterID r' = CR_clusterID r →
  transport_ok (with_routers (KT_contextRouters kt) (<[p := r']> (KT_routers kt)) kt).
Proof.
  intros [H1 H2 H3 H4 H5 H6] Hp Hr. split; try done; cbn.
  - intros c p' Hc. destruct (H4 c p' Hc) as (q & Hq & Hc'). destruct (decide (p = p')) as [<-|Hne].
    + exists r'. rewrite lookup_insert_eq. split; [done|]. congruence.
    + exists q. by rewrite lookup_insert_ne by done.
  - apply (cleaner_mono kt); try done; cbn. rewrite dom_insert. set_solver.
Qed.
Lemma read_router_run p kt r : KT_routers kt !! p = Some r → read_router p kt = Ret (kt, inl r).
Proof. intros H. unfold read_router. by rewrite gets_bind, H. Qed.
Lemma safe_expire c now : safe (GracefullyCloseContextRouter c now).
Proof.
  intros kt Hk. unfold GracefullyCloseContextRouter, routers_get. rewrite gets_bind.
  destruct (KT_contextRouters kt !! c) as [p|] eqn:Ep; [|by apply safe_ret].
  destruct (to_routers _ Hk c p Ep) as (r & Hr & _). rewrite (bind_run _ _ _ _ _ (read_router_run _ _ _ Hr)).
  eexists _, _. split; [done|]. by apply (write_router_ok kt p r).
Qed.

(** ** A pass of [cleanup] *)
Definition pass (t : Z) (rs : list positive) (d : option Deregistration) : Cleanup :=
  {| CU_time := t; CU_routers := rs; CU_current := d |}.
Definition dereg (c : ClusterID) (ps : list KramaID) (at' : clean_point) : option Deregistration :=
  Some {| DR_cluster := c; DR_peers := ps; DR_at := at' |}.
Definition leave (c : ClusterID) (p : icsPeer) : icsPeer := with_clusters (IP_clusters p ∖ {[c]}) p.
Definition left_peer (c : ClusterID) (l : positive) (p : icsPeer) (kt : KramaTransport) : KramaTransport :=
  with_peers (KT_directPeerset kt) (<[l := leave c p]> (KT_peers kt)) kt.
Definition lock_waits (pid : PeerID) (kt : KramaTransport) : bool :=
  existsb (λ q, bool_decide (CP_lock q = pid)) (KT_closePeerChan kt).
Definition queued (q : closePeer) (kt : KramaTransport) : KramaTransport :=
  with_queues (KT_msgsToEngine kt) (KT_msgsChan kt) (KT_closePeerChan kt ++ [q]) kt.

(** The steps of the goroutine. *)
Inductive cleans (kt : KramaTransport) (t : Z) (rs : list positive) : option Deregistration → KramaTransport → Prop :=
| cl_end : rs = [] → cleans kt t rs None (with_cleaner None kt)
| cl_skip p rs' r :
    rs = p :: rs' → KT_routers kt !! p = Some r → cleans kt t rs None (with_cleaner (Some (pass t rs' None)) kt)
| cl_start p rs' r :
    rs = p :: rs' → KT_routers kt !! p = Some r → router_expired t r = true →
    is_Some (KT_contextRouters kt !! CR_clusterID r) →
    cleans kt t rs None (with_cleaner (Some (pass t rs'
      (dereg (CR_clusterID r) (map_to_list (KT_directPeerset kt)).*1 AtNext))) kt)
| cl_done c :
    cleans kt t rs (dereg c [] AtNext)
      (with_cleaner (Some (pass t rs None)) (with_routers (delete c (KT_contextRouters kt)) (KT_routers kt) kt))
| cl_gone c id ps :
    KT_directPeerset kt !! id = None →
    cleans kt t rs (dereg c (id :: ps) AtNext) (with_cleaner (Some (pass t rs (dereg c ps AtNext))) kt)
| cl_peer c id ps l :
    KT_directPeerset kt !! id = Some l →
    cleans kt t rs (dereg c (id :: ps) AtNext) (with_cleaner (Some (pass t rs (dereg c ps (AtLock l)))) kt)
| cl_wait c ps l p :
    KT_peers kt !! l = Some p → lock_waits (IP_networkID p) kt = true →
    cleans kt t rs (dereg c ps (AtLock l)) (with_cleaner (Some (pass t rs (dereg c ps (AtLock l)))) kt)
| cl_other c ps l p :
    KT_peers kt !! l = Some p → c ∉ IP_clusters p →
    cleans kt t rs (dereg c ps (AtLock l)) (with_cleaner (Some (pass t rs (dereg c ps AtNext))) kt)
| cl_left c ps l p :
    KT_peers kt !! l = Some p → c ∈ IP_clusters p → IP_clusters p ∖ {[c]} ≠ ∅ →
    cleans kt t rs (dereg c ps (AtLock l)) (with_cleaner (Some (pass t rs (dereg c ps AtNext))) (left_peer c l p kt))
| cl_last c ps l p :
    KT_peers kt !! l = Some p → c ∈ IP_clusters p → IP_clusters p ∖ {[c]} = ∅ →
    cleans kt t rs (dereg c ps (AtLock l))
      (with_cleaner (Some (pass t rs (dereg c ps AtSend))) (queued (request p true) (left_peer c l p kt)))
| cl_send c ps : cleans kt t rs (dereg c ps AtSend) (with_cleaner (Some (pass t rs (dereg c ps AtSend))) kt).

Lemma registry_len_0 cs : registry_len cs =? 0 = true ↔ cs = ∅.
Proof. unfold registry_len. rewrite Z.eqb_eq. split; [intros Hs; apply leibniz_equiv, size_empty_inv; lia|by intros ->]. Qed.
(** A peer that leaves a cluster, or is asked to be closed. *)
Lemma left_ok kt c l p :
  transport_ok kt → KT_peers kt !! l = Some p → IP_clusters p ∖ {[c]} ≠ ∅ → transport_ok (left_peer c l p kt).
Proof. intros Hk Hp Hne. eapply write_peer_ok; try done. intros _. by left. Qed.
Lemma last_ok kt c l p :
  transport_ok kt → KT_peers kt !! l = Some p → transport_ok (queued (request p true) (left_peer c l p kt)).
Proof.
  intros Hk Hp. pose proof (queue_ok kt (request p true) Hk) as Hq.
  apply (write_peer_ok _ l p (leave c p)) in Hq; [exact Hq|exact Hp|done..|].
  intros _. right. left. exists (request p true). cbn. split; [set_solver|done].
Qed.
Lemma cleanPeer_run kt t rs c ps l p :
  transport_ok kt → KT_peers kt !! l = Some p → ∃ k1 at', cleanPeer c l kt = Ret (k1, inl at') ∧
    cleans kt t rs (dereg c ps (AtLock l)) (with_cleaner (Some (pass t rs (dereg c ps at'))) k1).
Proof.
  intros Hk Hp. unfold cleanPeer, lock_held. rewrite (bind_run _ _ _ _ _ (read_peer_run _ _ _ Hp)), gets_bind.
  destruct (existsb _ _) eqn:Eh; [eexists _, _; split; [reflexivity|by eapply cl_wait]|]. unfold registry_has.
  destruct (bool_decide (c ∈ IP_clusters p)) eqn:Ec.
  2: { apply bool_decide_eq_false in Ec. eexists _, _. split; [reflexivity|by eapply cl_other]. }
  apply bool_decide_eq_true in Ec. cbn [negb]. unfold write_peer. rewrite modify_bind.
  change (with_peers _ _ kt) with (left_peer c l p kt).
  destruct (registry_len (registry_remove c (IP_clusters p)) =? 0) eqn:Er.
  - apply registry_len_0 in Er. assert (Hp1 : KT_peers (left_peer c l p kt) !! l = Some (leave c p)) by (cbn; by rewrite lookup_insert_eq).
    eexists _, _. split; [|by apply (cl_last kt t rs c ps l p)].
    unfold disconnectPeer, mbind, eff_bind. rewrite (read_peer_run _ _ _ Hp1). unfold request. cbn.
    by rewrite (to_direct _ Hk _ _ Hp).
  - eexists _, _. split; [reflexivity|]. apply (cl_left kt t rs c ps l p Hp Ec). intros He.
    apply registry_len_0 in He. unfold registry_remove in Er. congruence.
Qed.
Lemma cleanup_run kt t rs d :
  transport_ok kt → KT_cleaner kt = Some (pass t rs d) → ∃ kt', cleanup kt = Ret (kt', inl ()) ∧ cleans kt t rs d kt'.
Proof.
  intros Hk Hc. destruct (to_cleaner _ Hk _ Hc) as [Hrs Hd]. unfold cleanup. rewrite gets_bind, Hc.
  unfold removeExpiredRouters. cbn [CU_current CU_routers CU_time pass].
  destruct d as [[c ps at']|].
  - destruct (Hd _ eq_refl) as [_ Hat]. cbn [DR_at] in Hat. unfold DeregisterContextRouter, CleanDirectPeer.
    cbn [DR_at DR_peers DR_cluster]. destruct at' as [|l|].
    + destruct ps as [|id ps]; [eexists; split; [reflexivity|apply cl_done]|].
      unfold peerset_Peer. destruct (KT_directPeerset kt !! id) as [l|] eqn:El; eexists.
      * split; [unfold mbind, eff_bind, gets; rewrite El; reflexivity|by apply cl_peer].
      * split; [unfold mbind, eff_bind, gets; rewrite El; reflexivity|by apply cl_gone].
    + destruct Hat as [p Hp]. destruct (cleanPeer_run kt t rs c ps l p Hk Hp) as (k1 & at' & Hr & Hcl).
      eexists. split; [unfold mbind, eff_bind; rewrite Hr; reflexivity|exact Hcl].
    + eexists. split; [reflexivity|apply cl_send].
  - destruct rs as [|p rs]; [eexists; split; [reflexivity|by apply cl_end]|].
    destruct (Hrs p ltac:(by left)) as [r Hr]. pose proof (read_router_run _ _ _ Hr) as Hrr.
    unfold startDeregister, routers_get, mbind, eff_bind. rewrite Hrr.
    destruct (router_expired t r) eqn:Ex; [|eexists; split; [reflexivity|by eapply cl_skip]]. unfold gets.
    destruct (KT_contextRouters kt !! CR_clusterID r) as [x|] eqn:Et; [|eexists; split; [reflexivity|by eapply cl_skip]].
    eexists. split; [reflexivity|]. eapply cl_start; [done..|]. by rewrite Et.
Qed.

(** A new pass, or a new point of one. *)
Lemma with_cleaner_ok kt t rs d :
  transport_ok kt → (∀ p, p ∈ rs → is_Some (KT_routers kt !! p)) → (∀ x, d = Some x → deregistration_ok kt x) →
  transport_ok (with_cleaner (Some (pass t rs d)) kt).
Proof.
  intros [H1 H2 H3 H4 H5 H6] Hrs Hd. split; try done. intros cu [= <-]. by split.
Qed.
Lemma cleaner_none_ok kt : transport_ok kt → transport_ok (with_cleaner None kt).
Proof. intros [H1 H2 H3 H4 H5 H6]. by split. Qed.
Lemma cleans_ok kt t rs d kt' :
  transport_ok kt → KT_cleaner kt = Some (pass t rs d) → cleans kt t rs d kt' → transport_ok kt'.
Proof.
  intros Hk Hc Hcl. destruct (to_cleaner _ Hk _ Hc) as [Hrs Hd]. cbn in Hrs, Hd.
  assert (Htab : ∀ c ps a, d = dereg c ps a → is_Some (KT_contextRouters kt !! c)) by (intros c ps a ->; by destruct (Hd _ eq_refl)).
  destruct Hcl as [->|p rs' r -> Hr|p rs' r -> Hr Hx Ht|c|c id ps Hn|c id ps l Hl|c ps l p Hp Hw|c ps l p Hp Hno|c ps l p Hp Hin Hne|c ps l p Hp Hin He|c ps].
  - by apply cleaner_none_ok.
  - apply with_cleaner_ok; [done| |done]. intros; apply Hrs; by right.
  - apply with_cleaner_ok; [done|intros; apply Hrs; by right|]. intros x [= <-]. by split.
  - assert (Hk1 : transport_ok (with_cleaner (Some (pass t rs None)) kt)) by by apply with_cleaner_ok.
    destruct Hk1 as [H1 H2 H3 H4 H5 H6]. split; try done; cbn.
    + intros c' p Hp. apply lookup_delete_Some in Hp as [_ Hp]. by apply H4.
    + intros cu [= <-]. by split.
  - apply with_cleaner_ok; [done|done|]. intros x [= <-]. split; [|done]. by eapply Htab.
  - apply with_cleaner_ok; [done|done|]. intros x [= <-]. split; [by eapply Htab|]. cbn.
    destruct (to_peers _ Hk _ _ Hl) as (q & Hq & _). by eexists.
  - apply with_cleaner_ok; [done|done|]. intros x [= <-]. split; [by eapply Htab|]. by eexists.
  - apply with_cleaner_ok; [done|done|]. intros x [= <-]. split; [|done]. by eapply Htab.
  - apply with_cleaner_ok; [by apply left_ok|done|]. intros x [= <-]. split; [|done]. by eapply Htab.
  - apply with_cleaner_ok; [by apply last_ok|done|]. intros x [= <-]. split; [by eapply Htab|]. cbn.
    exists (request p true). split; [set_solver|done].
  - apply with_cleaner_ok; [done|done|]. intros x Hx. by apply Hd.
Qed.
Lemma safe_cleanup : safe cleanup.
Proof.
  intros kt Hk. destruct (KT_cleaner kt) as [[t rs d]|] eqn:Ec.
  - destruct (cleanup_run kt t rs d Hk Ec) as (kt' & -> & Hcl). eexists _, _. split; [done|]. by eapply cleans_ok.
  - unfold cleanup. rewrite gets_bind, Ec. by apply safe_ret.
Qed.
Lemma safe_tick now : safe (cleanupTick now).
Proof.
  intros kt Hk. unfold cleanupTick, routers_list. rewrite gets_bind. destruct (KT_cleaner kt); [by apply safe_ret|].
  eexists _, _. split; [done|]. apply with_cleaner_ok; [done| |done].
  intros p ([c p'] & -> & Hin%elem_of_map_to_list)%list_elem_of_fmap. destruct (to_routers _ Hk _ _ Hin) as (r & Hr & _). by eexists.
Qed.

Definition is_broadcast (ev : kt_event) : Prop := ∃ m, ev = KtBroadcast m.
Lemma safe_step ev : ¬ is_broadcast ev → safe (kt_step selfID ev).
Proof.
  intros Hb. destruct ev; cbn [kt_step].
  - apply safe_connect.
  - unfold kt_SendMessage. case_decide; [apply safe_ret|]. apply safe_bind; [apply safe_lift_or|intros raw].
    apply safe_modify. intros kt. by split_and!.
  - destruct Hb. by eexists.
  - apply safe_bind; [apply safe_lift_or|intros raw']. apply safe_bind; [apply safe_log|intros _].
    apply safe_bind; [apply safe_ask|intros; apply safe_check].
  - by apply safe_routers_add.
  - apply safe_expire.
  - apply safe_tick.
  - apply safe_cleanup.
  - apply safe_life.
  - apply safe_ship.
  - apply safe_dead.
  - apply safe_dead_lock.
  - apply safe_bind; [apply safe_attempt, safe_handle|intros; apply safe_log].
  - apply safe_bind; [apply safe_gets|intros s]. apply safe_bind; [destruct s; [apply safe_log|apply safe_ret]|].
    intros _. apply safe_modify. intros kt. by split_and!.
  - apply safe_init.
  - apply safe_bind; [apply safe_log|]. intros _. apply safe_modify. intros kt. by split_and!.
  - apply safe_bind; [apply safe_init|intros; apply safe_log].
  - intros kt [H1 H2 H3 H4 H5 H6]. eexists _, _. split; [done|]. by split.
Qed.

(** Can a broadcast reach the nodes of its cluster? *)
Definition routed (kt : KramaTransport) (m : ICSMSG) : Prop :=
  ∃ p r c, KT_contextRouters kt !! IM_ClusterID m = Some p ∧ KT_routers kt !! p = Some r ∧
    KT_committees kt !! CR_committee r = Some c.
Lemma broadcast_step m kt :
  transport_ok kt →
  (∃ kt' r, BroadcastMessage m kt = Ret (kt', r) ∧ transport_ok kt') ∨
  BroadcastMessage m kt = Panic "nil pointer dereference" ∧ ¬ routed kt m.
Proof.
  intros Hk. unfold BroadcastMessage, routers_get. destruct (Polorize m) as [raw|e]; [|left; by apply safe_ret].
  rewrite gets_bind. destruct (KT_contextRouters kt !! IM_ClusterID m) as [p|] eqn:Ep.
  2: { right. split; [done|]. by intros (p & r & c & Hp & _); congruence. }
  destruct (to_routers _ Hk _ _ Ep) as (r & Er & _).
  rewrite (bind_run (lift (deref (Some p))) _ kt kt p) by done.
  rewrite (bind_run _ _ _ _ _ (read_router_run _ _ _ Er)), gets_bind.
  destruct (KT_committees kt !! CR_committee r) as [c|] eqn:Ec.
  - left. rewrite (bind_run (lift (deref (Some c))) _ kt kt c) by done. apply safe_for_each; [|done]. intros id.
    apply safe_modify. intros kt0. by split_and!.
  - right. split; [done|]. intros (p' & r' & c & Hp & Hr & Hc). congruence.
Qed.
Lemma new_ok committees : transport_ok (NewKramaTransport committees).
Proof. split; cbn; try (intros ? ?; rewrite ?lookup_empty; done). by intros l ?%elem_of_nil. Qed.

Lemma step_ok ev kt kt' r : transport_ok kt → kt_step selfID ev kt = Ret (kt', r) → transport_ok kt'.
Proof.
  intros Hk H. assert (Hd : is_broadcast ev ∨ ¬ is_broadcast ev) by (destruct ev; try (right; by intros []); left; by eexists).
  destruct Hd as [[m ->]|Hn].
  - destruct (broadcast_step m kt Hk) as [(k2 & r2 & Hr & Hk2)|[Hp _]]; cbn in H; congruence.
  - destruct (safe_step ev Hn kt Hk) as (k2 & r2 & Hr & Hk2). congruence.
Qed.
(** A run is a step and a run. *)
Lemma run_cons ev evs kt kt' r :
  kt_run selfID (ev :: evs) kt = Ret (kt', r) →
  ∃ k1 x, kt_step selfID ev kt = Ret (k1, x) ∧ kt_run selfID evs k1 = Ret (kt', r).
Proof.
  intros [(k1 & [] & H1 & H2)|(e & H1 & _)]%bind_cases.
  - apply attempt_skip in H1 as [[x H1] _]. by exists k1, x.
  - by apply (quiet_bind _ _ (quiet_attempt _) (λ _, quiet_ret _)) in H1.
Qed.
Lemma run_ok evs kt kt' r : transport_ok kt → kt_run selfID evs kt = Ret (kt', r) → transport_ok kt'.
Proof.
  revert kt. induction evs as [|ev evs IH]; intros kt Hk; [by intros [= <- _]|].
  intros (k1 & x & H1 & H2)%run_cons. eapply IH; [|exact H2]. by eapply step_ok.
Qed.

(** C20. The transport does not crash: after whatever connections, messages, stream
    ends, expired routers and events of its goroutines in whatever order, every
    registered peer is open and kept under its own id, and serves a cluster or is
    about to be closed; whatever happens next returns, so nothing is ever sent on
    a closed channel and none is closed twice.  The one exception is a broadcast
    for a cluster without a router, which dereferences nil. *)
Theorem transport_safe evs committees kt r ev :
  kt_run selfID evs (NewKramaTransport committees) = Ret (kt, r) →
  (∀ id l, KT_directPeerset kt !! id = Some l → ∃ p, KT_peers kt !! l = Some p ∧ peer_ok kt id p) ∧
  ((∃ kt' r', kt_step selfID ev kt = Ret (kt', r')) ∨
   ∃ m, ev = KtBroadcast m ∧ kt_step selfID ev kt = Panic "nil pointer dereference" ∧ ¬ routed kt m).
Proof.
  intros Hrun. apply run_ok in Hrun as Hk; [|apply new_ok]. split; [exact (to_peers _ Hk)|].
  assert (Hd : is_broadcast ev ∨ ¬ is_broadcast ev) by (destruct ev; try (right; by intros []); left; by eexists).
  destruct Hd as [[m ->]|Hn].
  - destruct (broadcast_step m kt Hk) as [(k2 & r2 & Hr & _)|[Hp Hm]]; [left; by eexists _, _|right; by exists m].
  - left. destruct (safe_step ev Hn kt Hk) as (k2 & r2 & Hr & _). by eexists _, _.
Qed.

(** ** Closing a cluster *)
Definition peer_of (kt : KramaTransport) (id : KramaID) : option icsPeer :=
  l ← KT_directPeerset kt !! id; KT_peers kt !! l.
(** The peer [id], registered as [l], serves [c]. *)
Definition serves (c : ClusterID) (kt : KramaTransport) (id : KramaID) (l : positive) : Prop :=
  KT_directPeerset kt !! id = Some l ∧ ∃ p, KT_peers kt !! l = Some p ∧ c ∈ IP_clusters p.
(** The deregistration that is running. *)
Definition current (kt : KramaTransport) : option Deregistration := cu ← KT_cleaner kt; CU_current cu.
Definition cleaning (c : ClusterID) (kt : KramaTransport) : Prop := ∃ d, current kt = Some d ∧ DR_cluster d = c.

(** A cluster whose router is gone is served by nobody; while it is deregistered,
    the peers that serve it are still to come. *)
Definition covered (c : ClusterID) (kt : KramaTransport) : Prop :=
  match current kt with
  | Some d =>
      if decide (DR_cluster d = c)
      then ∀ id l, serves c kt id l → id ∈ DR_peers d ∨ DR_at d = AtLock l
      else KT_contextRouters kt !! c = None → ∀ id l, ¬ serves c kt id l
  | None => KT_contextRouters kt !! c = None → ∀ id l, ¬ serves c kt id l
  end.

Section Keeps.
Context (c : ClusterID).
(** What the other goroutines do, as far as [c] is concerned. *)
Record keeps (kt kt' : KramaTransport) : Prop := {
  kp_serves : ∀ id l, serves c kt' id l → serves c kt id l;
  kp_table : KT_contextRouters kt' !! c = KT_contextRouters kt !! c;
  kp_current : current kt' = current kt ∨
    ∃ c' ps, current kt = dereg c' ps AtSend ∧ current kt' = dereg c' ps AtNext;
}.
#[local] Instance keeps_preorder : PreOrder keeps.
Proof.
  split; [intros kt; split; try done; by left|]. intros k1 k2 k3 [S1 T1 C1] [S2 T2 C2].
  split; [intros id l H; by apply S1, S2|congruence|].
  destruct C1 as [C1|(c1 & p1 & A1 & B1)], C2 as [C2|(c2 & p2 & A2 & B2)].
  - left. congruence.
  - right. exists c2, p2. split; congruence.
  - right. exists c1, p1. split; congruence.
  - rewrite B1 in A2. discriminate A2.
Qed.
Lemma covered_keeps kt kt' : covered c kt → keeps kt kt' → covered c kt'.
Proof.
  unfold covered. intros Hk [Hs Ht [Hc|(c' & ps & A & B)]].
  - rewrite Hc. destruct (current kt) as [d|]; [case_decide|].
    + intros id l Hsv. by apply Hk, Hs.
    + intros Hn id l Hsv. rewrite Ht in Hn. by apply (Hk Hn id l), Hs.
    + intros Hn id l Hsv. rewrite Ht in Hn. by apply (Hk Hn id l), Hs.
  - rewrite B. rewrite A in Hk. cbn in *. case_decide.
    + intros id l Hsv. destruct (Hk id l (Hs _ _ Hsv)) as [?|?]; [by left|done].
    + intros Hn id l Hsv. rewrite Ht in Hn. by apply (Hk Hn id l), Hs.
Qed.

Lemma keeps_modify f :
  (∀ kt, KT_directPeerset (f kt) = KT_directPeerset kt ∧ KT_peers (f kt) = KT_peers kt ∧
     KT_contextRouters (f kt) = KT_contextRouters kt ∧ KT_cleaner (f kt) = KT_cleaner kt) →
  only keeps (modify f).
Proof.
  intros Hf. apply only_modify. intros kt. destruct (Hf kt) as (E1 & E2 & E3 & E4). split.
  - intros id l [Hl (p & Hp & ?)]. rewrite E1 in Hl. rewrite E2 in Hp. split; [done|by exists p].
  - by rewrite E3.
  - left. unfold current. by rewrite E4.
Qed.
Lemma keeps_write kt l p p' :
  KT_peers kt !! l = Some p → (c ∈ IP_clusters p' → c ∈ IP_clusters p) →
  keeps kt (with_peers (KT_directPeerset kt) (<[l := p']> (KT_peers kt)) kt).
Proof.
  intros Hp Hc. split; [|done|by left]. intros id l' [Hl (q & Hq & Hin)]. split; [done|]. cbn in Hq.
  apply lookup_insert_Some in Hq as [[<- <-]|[_ Hq]]; [exists p; by split; [|apply Hc]|by exists q].
Qed.
Lemma keeps_read {A} l (k : icsPeer → eff KramaTransport A) :
  (∀ kt p kt' r, KT_peers kt !! l = Some p → k p kt = Ret (kt', r) → keeps kt kt') → only keeps (read_peer l ≫= k).
Proof.
  intros Hk kt kt' r H. destruct (KT_peers kt !! l) as [p|] eqn:Hp.
  - rewrite (bind_run _ _ _ _ _ (read_peer_run _ _ _ Hp)) in H. by eapply Hk.
  - unfold read_peer, mbind, eff_bind, gets in H. by rewrite Hp in H.
Qed.
#[local] Hint Extern 1 (only _ (modify _)) => apply keeps_modify; intros ?; split_and!; done : eff.
#[local] Hint Extern 1 (only _ skip) => apply only_ret : eff.
Lemma keeps_log a : only keeps (kt_log a).
Proof. unfold kt_log. only_steps. Qed.
Lemma keeps_ask {A} (f : nat → A) : only keeps (kt_ask f).
Proof. unfold kt_ask. only_steps. Qed.
#[local] Hint Resolve keeps_log keeps_ask : eff.
Lemma keeps_message id b : only keeps (handlePeerMessage id b).
Proof. unfold handlePeerMessage, forwardMsgToEngine. only_steps. Qed.
#[local] Hint Resolve keeps_message : eff.
Lemma keeps_handler id bs : only keeps (initMessageHandler id bs).
Proof. revert id. induction bs as [|b bs IH]; intros id; cbn [initMessageHandler]; only_steps. Qed.
Lemma keeps_disconnect l b : only keeps (disconnectPeer l b).
Proof. unfold disconnectPeer, read_peer. only_steps. Qed.
#[local] Hint Resolve keeps_handler keeps_disconnect : eff.
Lemma keeps_send l m : only keeps (sendToPeer l m).
Proof.
  apply keeps_read. intros kt p kt' r Hp. destruct (IP_closed p); [done|]. destruct (_ <? _).
  - unfold write_peer. rewrite modify_bind. intros H.
    refine (transitivity (keeps_write kt l p _ Hp _) (keeps_modify (with_blocked None) _ _ _ _ H)); [done|by intros; split_and!].
  - apply (keeps_modify (with_blocked _)). by intros; split_and!.
Qed.
Lemma keeps_ship l : only keeps (directPeerRoutine l).
Proof.
  apply keeps_read. intros kt p kt' r Hp. destruct (IP_msgChan p) as [|m rest].
  - destruct (IP_closed p); [by apply keeps_log|by intros [= <- _]].
  - unfold write_peer. rewrite modify_bind. intros H.
    refine (transitivity (keeps_write kt l p _ Hp _) (keeps_log _ _ _ _ H)). done.
Qed.
Lemma keeps_close id b : only keeps (closeReceived id b).
Proof.
  unfold closeReceived, peerset_Peer. destruct b; [|apply only_ret, _]. apply only_bind; [apply _|apply only_gets, _|].
  intros [l|]; [|apply only_ret, _]. apply keeps_read. intros kt p kt' r Hp. destruct (IP_closed p); [done|].
  unfold write_peer, peerset_Unregister. rewrite modify_bind. intros [= <- _].
  refine (transitivity (keeps_write kt l p (with_chan (IP_msgChan p) true p) Hp _) _); [done|]. split; [|done|by left].
  intros id' l' [Hl H]. cbn in Hl. apply lookup_delete_Some in Hl as [_ Hl]. by split.
Qed.
Lemma keeps_received q rest kt : keeps kt (took_request q rest kt).
Proof.
  unfold took_request. destruct (send_received_same q (with_queues (KT_msgsToEngine kt) (KT_msgsChan kt) rest kt)) as (Es & Ep & _ & Et & _).
  set (k1 := send_received q _) in *. split; cbn; [|by rewrite Et|].
  - intros id l [Hl H]. cbn in Hl, H. rewrite Es in Hl. rewrite Ep in H. by split.
  - change (current k1 = current kt ∨ ∃ c' ps, current kt = dereg c' ps AtSend ∧ current k1 = dereg c' ps AtNext).
    unfold k1, send_received. destruct (CP_cleanup q); [|by left]. cbn [KT_cleaner with_queues].
    unfold current. destruct (KT_cleaner kt) as [[t rs [[c' ps []]|]]|] eqn:Ec; cbn; rewrite ?Ec; try (by left).
    right. by exists c', ps.
Qed.
Lemma keeps_life ev : only keeps (peerLifeCycle ev).
Proof.
  pose proof keeps_send. pose proof keeps_close. unfold peerLifeCycle, peerset_Peer, SendMessageTransientPeer.
  apply only_bind; [apply _|apply only_gets, _|]. intros [[l m]|]; [apply keeps_send|].
  apply only_bind; [apply _|apply only_gets, _|]. intros [[id b]|].
  { apply only_bind; [apply _| |intros _; apply keeps_close]. apply keeps_modify. by intros; split_and!. }
  destruct ev; [only_steps|]. apply only_bind; [apply _|apply only_gets, _|]. intros [|q rest]; [apply only_ret, _|].
  apply only_modify. intros kt. apply keeps_received.
Qed.
Lemma keeps_connect selfID' id c' : c' ≠ c → only keeps (ConnectToDirectPeer selfID' id c').
Proof.
  intros Hne. unfold ConnectToDirectPeer, peerset_Peer, lock_held. case_decide; [apply only_ret, _|].
  apply only_bind; [apply _|apply only_lift_or, _|intros pid].
  apply only_bind; [apply _|apply only_gets, _|]. intros []; [apply only_ret, _|].
  apply only_bind; [apply _|apply only_gets, _|]. intros [l|].
  { apply keeps_read. intros kt p kt' r Hp [= <- _]. apply (keeps_write kt l p); [done|]. cbn. unfold registry_add. set_solver. }
  apply only_bind; [apply _|apply keeps_ask|intros e]. apply only_bind; [apply _|apply only_check, _|intros _].
  apply only_bind; [apply _|apply keeps_ask|intros r]. apply only_bind; [apply _|apply only_lift_or, _|intros stream].
  intros kt kt' r'. rewrite gets_bind. set (l := fresh (dom (KT_peers kt))). unfold write_peer. rewrite modify_bind.
  set (p := with_clusters _ _). unfold peerset_Register.
  set (k1 := with_peers _ _ kt). assert (Hp : KT_peers k1 !! l = Some p) by apply lookup_insert_eq.
  rewrite (bind_run _ _ _ _ _ (read_peer_run _ _ _ Hp)). unfold peerset_ContainsPeer.
  rewrite gets_bind. cbn [KT_directPeerset with_peers k1].
  assert (Hk : ∀ set', (∀ id' l', set' !! id' = Some l' → l' = l ∨ KT_directPeerset kt !! id' = Some l') →
    keeps kt (with_peers set' (<[l := p]> (KT_peers kt)) kt)).
  { intros set' Hset. split; [|done|by left]. intros id' l' [Hl (q & Hq & Hin)]. cbn in Hl, Hq.
    apply lookup_insert_Some in Hq as [[<- <-]|[Hl' Hq]]; [cbn in Hin; unfold registry_add in Hin; set_solver|].
    destruct (Hset _ _ Hl) as [->|Hl0]; [done|]. split; [done|by exists q]. }
  destruct (is_some _); intros [= <- _]; apply Hk; [by right|].
  intros id' l' [[_ <-]|[_ H']]%lookup_insert_Some; [by left|by right].
Qed.

(** The events that make a node serve [c] or give it a router, and the steps of
    [cleanup]. *)
Definition concerns (ev : kt_event) : Prop :=
  match ev with KtConnect _ c' => c' = c | KtRegister _ c' _ _ => c' = c | _ => False end.
Lemma keeps_step ev : ¬ concerns ev → ev ≠ KtClean → only keeps (kt_step selfID ev).
Proof.
  intros Hev Hclean. pose proof keeps_life. pose proof keeps_ship. destruct ev as [id c'| | | |op c' ns vs| | | | | | | | | | | | |];
    cbn [kt_step]; try done;
    unfold kt_SendMessage, BroadcastMessage, BroadcastTesseract, GracefullyCloseContextRouter, read_router,
      routers_get, on_peer, handleDeadDirectPeer, closeDeadPeer, lock_held, read_peer,
      handleTransientStream, openDirectStream, handleMeshStream, closeDirectStream, peerset_Peer; try only_steps.
  - apply keeps_connect. by intros ->.
  - apply only_modify. intros kt. split; [done| |by left]. cbn. apply lookup_insert_ne. by intros ->.
  - unfold cleanupTick, routers_list. intros kt kt' r. rewrite gets_bind. destruct (KT_cleaner kt) eqn:Ec; intros [= <- _]; [done|].
    split; [done|done|]. left. unfold current. by rewrite Ec.
Qed.
End Keeps.

(** A step of [cleanup] on any cluster. *)
Lemma serves_left c c' kt l p id l' :
  KT_peers kt !! l = Some p → serves c (left_peer c' l p kt) id l' → serves c kt id l' ∧ (c' = c → l' ≠ l).
Proof.
  intros Hp [Hl (q & Hq & Hin)]. cbn in Hl, Hq. apply lookup_insert_Some in Hq as [[<- <-]|[Hne Hq]].
  - cbn in Hin. split; [|intros ->; set_solver]. split; [done|]. exists p. split; [done|set_solver].
  - split; [|congruence]. split; [done|by exists q].
Qed.
Lemma covered_cleans c kt t rs d kt' :
  KT_cleaner kt = Some (pass t rs d) → cleans kt t rs d kt' → covered c kt → covered c kt'.
Proof.
  intros Hc Hcl Hk. unfold covered, current in Hk. rewrite Hc in Hk. cbn in Hk.
  destruct Hcl as [E|p rs' r E Hr|p rs' r E Hr Hx Ht|c1|c1 id ps Hn|c1 id ps l Hl|c1 ps l p Hp Hw|c1 ps l p Hp Hno|c1 ps l p Hp Hin Hne|c1 ps l p Hp Hin He|c1 ps];
    unfold covered; cbn in *; try done.
  - case_decide as Hd; [|exact Hk]. intros id l [Hl _]. left. apply list_elem_of_fmap. exists (id, l).
    split; [done|]. by apply elem_of_map_to_list.
  - intros Hn id l Hs. rewrite lookup_delete_None in Hn. case_decide as Hd.
    + destruct (Hk id l Hs) as [?%elem_of_nil|?]; done.
    + destruct Hn as [?|Hn]; [done|]. by apply (Hk Hn id l).
  - case_decide; [|exact Hk]. intros id' l Hs. left. destruct (Hk id' l Hs) as [[->|?]%elem_of_cons|?]; [|done|done].
    destruct Hs as [Hs _]. cbn in Hs. congruence.
  - case_decide; [|exact Hk]. intros id' l' Hs. destruct (Hk id' l' Hs) as [[->|?]%elem_of_cons|?]; [|by left|done].
    right. destruct Hs as [Hs _]. cbn in Hs. congruence.
  - case_decide as Hd; [|exact Hk]. subst c1. intros id' l' Hs. destruct (Hk id' l' Hs) as [?|[= <-]]; [by left|].
    destruct Hs as [_ (q & Hq & Hin)]. cbn in Hq. congruence.
  - case_decide as Hd.
    + intros id' l' Hs. apply (serves_left _ _ _ _ _ _ _ Hp) in Hs as [Hs Hl]. specialize (Hl Hd).
      destruct (Hk id' l' Hs) as [?|[= ->]]; [by left|done].
    + intros Hn id' l' Hs. apply (serves_left _ _ _ _ _ _ _ Hp) in Hs as [Hs _]. by apply (Hk Hn id' l').
  - case_decide as Hd.
    + intros id' l' Hs. apply (serves_left _ _ _ _ _ _ _ Hp) in Hs as [Hs Hl]. specialize (Hl Hd).
      destruct (Hk id' l' Hs) as [?|[= ->]]; [by left|done].
    + intros Hn id' l' Hs. apply (serves_left _ _ _ _ _ _ _ Hp) in Hs as [Hs _]. by apply (Hk Hn id' l').
Qed.
Lemma clean_step kt kt' r :
  transport_ok kt → cleanup kt = Ret (kt', r) →
  r = inl () ∧ (KT_cleaner kt = None ∧ kt' = kt ∨
    ∃ t rs d, KT_cleaner kt = Some (pass t rs d) ∧ cleans kt t rs d kt').
Proof.
  intros Hk H. destruct (KT_cleaner kt) as [[t rs d]|] eqn:Ec.
  - destruct (cleanup_run kt t rs d Hk Ec) as (k1 & H1 & Hcl). rewrite H1 in H. injection H as <- <-.
    split; [done|]. right. by exists t, rs, d.
  - unfold cleanup in H. rewrite gets_bind, Ec in H. injection H as <- <-. by split; [|left].
Qed.
Lemma covered_run c evs kt kt' r :
  transport_ok kt → covered c kt → Forall (λ ev, ¬ concerns c ev) evs →
  kt_run selfID evs kt = Ret (kt', r) → covered c kt'.
Proof.
  intros Hk Hc Hev. revert kt Hk Hc. induction Hev as [|ev evs Hev _ IH]; intros kt Hk Hc; [by intros [= <- _]|].
  intros (k1 & x & H1 & H2)%run_cons. apply step_ok in H1 as Hk1; [|done]. refine (IH k1 Hk1 _ H2).
  assert (Hd : ev = KtClean ∨ ev ≠ KtClean) by (destruct ev; first [left; reflexivity|right; discriminate]). destruct Hd as [->|Hne].
  - apply (clean_step _ _ _ Hk) in H1 as [_ [[_ ->]|(t & rs & d & Hcu & Hcl)]]; [done|by eapply covered_cleans].
  - eapply covered_keeps; [exact Hc|]. by eapply keeps_step.
Qed.
(** Nobody serves a cluster whose router is gone. *)
Lemma covered_gone c kt id p :
  transport_ok kt → covered c kt → KT_contextRouters kt !! c = None → peer_of kt id = Some p → c ∉ IP_clusters p.
Proof.
  intros Hk Hc Hn Hp Hin. assert (Hs : ∃ l, serves c kt id l).
  { unfold peer_of in Hp. destruct (KT_directPeerset kt !! id) as [l|] eqn:El; [|done]. exists l. split; [done|by exists p]. }
  destruct Hs as [l Hs]. unfold covered in Hc. destruct (current kt) as [d|] eqn:Ed; [|by eapply Hc].
  case_decide as Hd; [|by eapply Hc]. unfold current in Ed. destruct (KT_cleaner kt) as [cu|] eqn:Ecu; [|done].
  destruct (to_cleaner _ Hk _ Ecu) as [_ Hok]. destruct (Hok d Ed) as [[x Hx] _]. rewrite Hd in Hx. congruence.
Qed.

(** ** The pass comes to its end *)
(** No peer loses a cluster other than [c]. *)
Definition spares (c : ClusterID) (kt kt' : KramaTransport) : Prop :=
  ∀ l p', KT_peers kt' !! l = Some p' →
    ∃ p, KT_peers kt !! l = Some p ∧ IP_clusters p' ∖ {[c]} = IP_clusters p ∖ {[c]}.
#[local] Instance spares_preorder c : PreOrder (spares c).
Proof.
  split; [intros kt l p Hp; by exists p|]. intros k1 k2 k3 H12 H23 l p3 Hp3.
  destruct (H23 l p3 Hp3) as (p2 & Hp2 & E2). destruct (H12 l p2 Hp2) as (p1 & Hp1 & E1). exists p1. split; [done|congruence].
Qed.
Lemma spares_same c kt kt' : KT_peers kt' = KT_peers kt → spares c kt kt'.
Proof. intros E l p Hp. rewrite E in Hp. by exists p. Qed.
Lemma spares_write c kt l p p' set :
  KT_peers kt !! l = Some p → IP_clusters p' ∖ {[c]} = IP_clusters p ∖ {[c]} →
  spares c kt (with_peers set (<[l := p']> (KT_peers kt)) kt).
Proof.
  intros Hp E l' q Hq. cbn in Hq. apply lookup_insert_Some in Hq as [[<- <-]|[_ Hq]]; [by exists p|by exists q].
Qed.

Definition weight (at' : clean_point) : nat := match at' with AtNext => 0 | AtLock _ => 3 | AtSend => 1 end.
(** What is left to do before the deregistration ends. *)
Definition to_do (kt : KramaTransport) (d : Deregistration) : nat :=
  4 * length (DR_peers d) + weight (DR_at d) + length (KT_closePeerChan kt).
(** [peerLifeCycle] takes a close request or acts on one. *)
Record life_moves (c : ClusterID) (kt kt' : KramaTransport) : Prop := {
  lm_ok : transport_ok kt';
  lm_blocked : KT_blocked kt' = None;
  lm_table : KT_contextRouters kt' = KT_contextRouters kt;
  lm_spares : spares c kt kt';
  lm_current : current kt' = current kt ∨ ∃ c' ps, current kt = dereg c' ps AtSend ∧ current kt' = dereg c' ps AtNext;
  lm_queue : KT_closing kt = None ∧ KT_closePeerChan kt' = tail (KT_closePeerChan kt) ∨
    KT_closing kt ≠ None ∧ KT_closing kt' = None ∧ KT_closePeerChan kt' = KT_closePeerChan kt;
}.
Lemma life_close c kt :
  transport_ok kt → KT_blocked kt = None →
  ∃ kt', peerLifeCycle LifeClose kt = Ret (kt', inl ()) ∧ life_moves c kt kt'.
Proof.
  intros Hk Hb. unfold peerLifeCycle. rewrite gets_bind, Hb, gets_bind. destruct (KT_closing kt) as [[id b]|] eqn:Ec.
  - destruct (closeReceived_run kt id b Hk Hb Ec) as (kt' & Hr & Hok & Hcase). exists kt'. split; [exact Hr|].
    destruct Hcase as [[-> _]|(l & p & _ & _ & Hp & ->)]; (split; [exact Hok|exact Hb|done| |by left|right; by rewrite Ec]).
    + by apply spares_same.
    + by apply (spares_write c (with_closing None kt) l p).
  - rewrite gets_bind. destruct (KT_closePeerChan kt) as [|q rest] eqn:Eq.
    + exists kt. split; [done|]. split; try done; [by left|]. left. by rewrite Eq.
    + eexists. split; [reflexivity|]. pose proof (received_ok kt q rest Hk Eq Ec) as Hok.
      pose proof (kp_current c _ _ (keeps_received c q rest kt)) as Hcur.
      destruct (send_received_same q (with_queues (KT_msgsToEngine kt) (KT_msgsChan kt) rest kt)) as (_ & Ep & Eb & Et & _ & _ & _ & El).
      split; [exact Hok|cbn; by rewrite Eb|cbn; by rewrite Et| |exact Hcur|].
      * apply spares_same. cbn. by rewrite Ep.
      * left. split; [done|]. cbn. by rewrite El, Eq.
Qed.
(** Two of its steps: one request less, if there is one. *)
Lemma life_twice c kt :
  transport_ok kt → KT_blocked kt = None →
  ∃ k1 k2, peerLifeCycle LifeClose kt = Ret (k1, inl ()) ∧ peerLifeCycle LifeClose k1 = Ret (k2, inl ()) ∧
    transport_ok k2 ∧ KT_blocked k2 = None ∧ KT_contextRouters k2 = KT_contextRouters kt ∧ spares c kt k2 ∧
    (length (KT_closePeerChan k2) ≤ pred (length (KT_closePeerChan kt)))%nat ∧
    ∀ d, current kt = Some d → ∃ d', current k2 = Some d' ∧ DR_cluster d' = DR_cluster d ∧
      DR_peers d' = DR_peers d ∧ (weight (DR_at d') ≤ weight (DR_at d))%nat.
Proof.
  intros Hk Hb. destruct (life_close c kt Hk Hb) as (k1 & H1 & [O1 B1 T1 S1 C1 Q1]).
  destruct (life_close c k1 O1 B1) as (k2 & H2 & [O2 B2 T2 S2 C2 Q2]).
  exists k1, k2. do 2 (split; [done|]). split; [done|]. split; [done|]. split; [congruence|]. split; [by etrans|]. split.
  - assert (Ht : ∀ l : list closePeer, length (tail l) = pred (length l)) by (by intros []).
    destruct Q1 as [[_ Q1]|(_ & N1 & Q1)], Q2 as [[_ Q2]|(N2 & _ & Q2)]; rewrite Q2, ?Ht, Q1, ?Ht; try lia. done.
  - intros d Hd. rewrite Hd in C1. destruct C1 as [C1|(c1 & p1 & E1 & C1)].
    + rewrite C1 in C2. destruct C2 as [C2|(c2 & p2 & E2 & C2)]; [exists d; split_and!; try done; lia|].
      injection E2 as ->. rewrite C2. eexists. split; [done|]. cbn. split_and!; try done. lia.
    + injection E1 as ->. rewrite C1 in C2. destruct C2 as [C2|(c2 & p2 & E2 & _)]; [|discriminate E2].
      rewrite C2. eexists. split; [done|]. cbn. split_and!; try done. lia.
Qed.

(** One round of the two goroutines. *)
Definition round : list kt_event := [KtLife LifeClose; KtLife LifeClose; KtClean].
(** What is left of the deregistration of [c] after a step of it. *)
Definition goes_on (c : ClusterID) (kt : KramaTransport) (n : nat) : Prop :=
  KT_contextRouters kt !! c = None ∨ ∃ d, current kt = Some d ∧ DR_cluster d = c ∧ (to_do kt d < n)%nat.
Lemma clean_goes_on c kt n d :
  transport_ok kt → current kt = Some d → DR_cluster d = c → (to_do kt d ≤ n)%nat →
  (KT_closePeerChan kt ≠ [] → (to_do kt d < n)%nat) →
  ∃ kt', cleanup kt = Ret (kt', inl ()) ∧ transport_ok kt' ∧ KT_blocked kt' = KT_blocked kt ∧ spares c kt kt' ∧ goes_on c kt' n.
Proof.
  intros Hk Hd Hc Hn Hq. unfold current in Hd. destruct (KT_cleaner kt) as [[t rs d']|] eqn:Ecu; [|done].
  cbn in Hd. subst d'. destruct (cleanup_run kt t rs (Some d) Hk Ecu) as (kt' & Hr & Hcl). exists kt'. split; [done|].
  split; [by eapply cleans_ok|]. destruct (to_cleaner _ Hk _ Ecu) as [_ Hok]. destruct (Hok d eq_refl) as [_ Hat].
  clear Hok Hr Ecu. unfold goes_on. inversion Hcl as [|? ? ? ? ?|? ? ? ? ? ? ?|c1 E|c1 id ps Hg E|c1 id ps l Hl E|c1 ps l p Hp Hw E|c1 ps l p Hp Hno E|c1 ps l p Hp Hin Hne E|c1 ps l p Hp Hin He E|c1 ps E];
    subst; unfold to_do in *; cbn in *; split; try done; (split; [first [by apply spares_same|apply (spares_write _ _ _ p); [done|cbn; set_solver]]|]).
  - left. apply lookup_delete_eq.
  - right. eexists. split; [done|]. cbn. split; [done|lia].
  - right. eexists. split; [done|]. cbn. split; [done|lia].
  - right. eexists. split; [done|]. cbn. split; [done|]. apply Hq. unfold lock_waits in Hw. intros E. by rewrite E in Hw.
  - right. eexists. split; [done|]. cbn. split; [done|lia].
  - right. eexists. split; [done|]. cbn. split; [done|lia].
  - right. eexists. split; [done|]. cbn. split; [done|]. rewrite length_app. cbn. lia.
  - right. eexists. split; [done|]. cbn. split; [done|]. apply Hq. destruct Hat as (q & Hin & _). intros E. rewrite E in Hin. by apply elem_of_nil in Hin.
Qed.
Lemma round_run c kt d :
  transport_ok kt → KT_blocked kt = None → current kt = Some d → DR_cluster d = c →
  ∃ kt', kt_run selfID round kt = Ret (kt', inl ()) ∧ transport_ok kt' ∧ KT_blocked kt' = None ∧ spares c kt kt' ∧
    goes_on c kt' (to_do kt d).
Proof.
  intros Hk Hb Hd Hc. destruct (life_twice c kt Hk Hb) as (k1 & k2 & H1 & H2 & O2 & B2 & _ & S2 & Q2 & C2).
  destruct (C2 d Hd) as (d' & Hd' & Hc' & Hp' & Hw').
  destruct (clean_goes_on c k2 (to_do kt d) d' O2 Hd') as (k3 & H3 & O3 & B3 & S3 & G3).
  - congruence.
  - unfold to_do. rewrite Hp'. lia.
  - intros Hne. unfold to_do. rewrite Hp'. destruct (KT_closePeerChan k2); [done|]. cbn in Q2 |- *. lia.
  - exists k3. split; [|split_and!; [done|congruence|by etrans|done]].
    unfold kt_run, round. cbn [for_each]. unfold mbind, eff_bind, attempt. cbn [kt_step].
    rewrite H1. cbn. rewrite H2. cbn. by rewrite H3.
Qed.
Lemma run_app evs1 evs2 kt k1 : kt_run selfID evs1 kt = Ret (k1, inl ()) → kt_run selfID (evs1 ++ evs2) kt = kt_run selfID evs2 k1.
Proof.
  revert kt. induction evs1 as [|ev evs1 IH]; intros kt; [by intros [= <-]|]. unfold kt_run. cbn [for_each app].
  intros [(k2 & [] & H1 & H2)|(e & H1 & [=])]%bind_cases. rewrite (bind_run _ _ _ _ _ H1). by apply IH.
Qed.
Lemma rounds_end c kt d :
  transport_ok kt → KT_blocked kt = None → current kt = Some d → DR_cluster d = c →
  ∃ n kt', kt_run selfID (concat (replicate n round)) kt = Ret (kt', inl ()) ∧ transport_ok kt' ∧ spares c kt kt' ∧
    KT_contextRouters kt' !! c = None.
Proof.
  remember (to_do kt d) as m eqn:Em. revert kt d Em. induction (lt_wf m) as [m _ IH]. intros kt d -> Hk Hb Hd Hc.
  destruct (round_run c kt d Hk Hb Hd Hc) as (k1 & H1 & O1 & B1 & S1 & [Hn|(d' & Hd' & Hc' & Hlt)]).
  - exists 1%nat, k1. cbn [replicate concat]. rewrite app_nil_r. by split_and!.
  - destruct (IH _ Hlt k1 d' eq_refl O1 B1 Hd' Hc') as (n & k2 & H2 & O2 & S2 & Hn). exists (S n), k2.
    cbn [replicate concat]. rewrite (run_app _ _ _ _ H1). split_and!; [done|done|by etrans|done].
Qed.

(** ** A peer that is closed under a new cluster *)
(** A cluster can connect to a peer that is about to be closed: [peerLifeCycle] has
    received the request, so its sender has released the lock of the peer, and the
    peer is still registered; the call adds the cluster to it and reports success,
    and the request then closes its channel and unregisters it.  The cluster is
    left without the peer, and [peerLifeCycle] sends what it has for it over a
    stream of its own. *)
Theorem close_request_cuts_reconnect evs committees kt r id pid c p :
  kt_run selfID evs (NewKramaTransport committees) = Ret (kt, r) →
  id ≠ selfID → DecodedPeerID id = inl pid → lock_waits pid kt = false → peer_of kt id = Some p →
  KT_blocked kt = None → KT_closing kt = Some (id, true) →
  ∃ kt1 kt2,
    ConnectToDirectPeer selfID id c kt = Ret (kt1, inl ()) ∧
    peer_of kt1 id = Some (with_clusters ({[c]} ∪ IP_clusters p) p) ∧
    (∀ ev, peerLifeCycle ev kt1 = Ret (kt2, inl ())) ∧
    peer_of kt2 id = None ∧ KT_closing kt2 = None.
Proof.
  intros Hrun Hself Hpid Hlock Hpeer Hb Hq. apply run_ok in Hrun as Hk; [|apply new_ok].
  unfold peer_of in Hpeer. destruct (KT_directPeerset kt !! id) as [l|] eqn:El; [|done]. cbn in Hpeer.
  set (q := with_clusters ({[c]} ∪ IP_clusters p) p).
  set (k1 := with_peers (KT_directPeerset kt) (<[l := q]> (KT_peers kt)) kt).
  assert (Hok : transport_ok k1).
  { apply (write_peer_ok kt l p q); try done. intros _. left. cbn. set_solver. }
  assert (Hk1 : KT_peers k1 !! l = Some q) by (cbn; by rewrite lookup_insert_eq).
  destruct (closeReceived_run k1 id true Hok Hb Hq) as (k2 & H2 & _ & [[_ Hn]|(l' & p' & _ & Hl' & Hp' & ->)]).
  { cbn in Hn. rewrite El in Hn. by specialize (Hn eq_refl). }
  exists k1. eexists. split; [|split; [|split; [intros ev|]]].
  - unfold ConnectToDirectPeer. rewrite decide_False by done. rewrite Hpid.
    rewrite (bind_run (lift_or (inl pid)) _ kt kt pid) by done. unfold lock_held. rewrite gets_bind.
    unfold lock_waits in Hlock. rewrite Hlock. unfold peerset_Peer. rewrite gets_bind, El.
    by rewrite (bind_run _ _ _ _ _ (read_peer_run _ _ _ Hpeer)).
  - unfold peer_of. cbn [KT_directPeerset k1 with_peers]. by rewrite El.
  - unfold peerLifeCycle. rewrite !gets_bind. cbn [KT_blocked k1 with_peers]. rewrite Hb, gets_bind.
    change (KT_closing k1) with (KT_closing kt). rewrite Hq. exact H2.
  - split; [|done]. unfold peer_of. cbn. by rewrite lookup_delete_eq.
Qed.

(** ** A peer that does not read *)
Section Full.
Context (l : positive) (m : bytes).
(** [peerLifeCycle] waits for the channel of peer [l]. *)
Definition full (kt : KramaTransport) : Prop :=
  KT_blocked kt = Some (l, m) ∧
  ∃ p, KT_peers kt !! l = Some p ∧ IP_closed p = false ∧ 50 ≤ zlen (IP_msgChan p).
(** While it does, requests only pile up and nobody is written to. *)
Definition piles_up (kt kt' : KramaTransport) : Prop :=
  full kt → full kt' ∧ (∀ id, is_Some (KT_directPeerset kt !! id) → KT_directPeerset kt' !! id = KT_directPeerset kt !! id) ∧
    KT_msgsChan kt `prefix_of` KT_msgsChan kt' ∧ KT_closePeerChan kt `prefix_of` KT_closePeerChan kt'.
#[local] Instance piles_up_preorder : PreOrder piles_up.
Proof.
  split; [intros kt H; by split_and!|]. intros k1 k2 k3 H12 H23 H.
  destruct (H12 H) as (F2 & S2 & M2 & C2). destruct (H23 F2) as (F3 & S3 & M3 & C3).
  split_and!; [done| |by etrans|by etrans]. intros id Hid. rewrite S3; [by apply S2|by rewrite S2].
Qed.

Lemma piles_modify f :
  (∀ kt, KT_blocked (f kt) = KT_blocked kt ∧ KT_peers (f kt) = KT_peers kt ∧
    KT_directPeerset (f kt) = KT_directPeerset kt ∧
    KT_msgsChan kt `prefix_of` KT_msgsChan (f kt) ∧ KT_closePeerChan kt `prefix_of` KT_closePeerChan (f kt)) →
  only piles_up (modify f).
Proof.
  intros Hf. apply only_modify. intros kt [Hb Hp]. destruct (Hf kt) as (Eb & Ep & Es & Hm & Hc).
  split_and!; [split; rewrite ?Eb, ?Ep; done|by rewrite Es|done|done].
Qed.
Lemma piles_write l' p : (l' = l → IP_closed p = false ∧ 50 ≤ zlen (IP_msgChan p)) → only piles_up (write_peer l' p).
Proof.
  intros Hp. apply only_modify. intros kt [Hb (q & Hq & Hcl & Hlen)]. split_and!; try done. split; [done|]. cbn.
  destruct (decide (l' = l)) as [->|Hne].
  - exists p. rewrite lookup_insert_eq. by destruct Hp.
  - exists q. by rewrite lookup_insert_ne by done.
Qed.
Lemma piles_read {A} l' (k : icsPeer → eff KramaTransport A) :
  (∀ p, (l' = l → IP_closed p = false ∧ 50 ≤ zlen (IP_msgChan p)) → only piles_up (k p)) →
  only piles_up (read_peer l' ≫= k).
Proof.
  intros Hk kt kt' r Hr Hfull. pose proof Hfull as [_ (q & Hq & Hcl)].
  unfold read_peer, mbind, eff_bind, gets in Hr. destruct (KT_peers kt !! l') as [p|] eqn:Ep; [|done].
  refine (Hk p _ _ _ _ Hr Hfull). intros ->. congruence.
Qed.
Lemma piles_register l' : only piles_up (peerset_Register l').
Proof.
  apply piles_read. intros p _ kt kt' r Hr [Hb Hp]. unfold peerset_ContainsPeer in Hr. rewrite gets_bind in Hr.
  destruct (KT_directPeerset kt !! IP_kramaID p) eqn:E; injection Hr as <- <-; [by split_and!|].
  split_and!; try done. intros id Hid. cbn. rewrite lookup_insert_ne; [done|]. intros <-. rewrite E in Hid. by destruct Hid.
Qed.
(** The new peer of a connection is none that exists. *)
Lemma piles_fresh p :
  only piles_up (l' ← gets (λ kt, fresh (dom (KT_peers kt))); _ ← write_peer l' p; peerset_Register l').
Proof.
  intros kt kt' r Hr Hfull. pose proof Hfull as [_ (q & Hq & _)]. rewrite gets_bind in Hr. revert Hr Hfull.
  set (l' := fresh (dom (KT_peers kt))).
  enough (Ho : only piles_up (_ ← write_peer l' p; peerset_Register l')) by (intros Hr; by apply (Ho _ _ _ Hr)).
  apply only_bind; [apply _| |intros _; apply piles_register]. apply piles_write. intros El. apply elem_of_dom_2 in Hq. rewrite <-El in Hq. by apply is_fresh in Hq.
Qed.
#[local] Hint Extern 1 (only _ (modify _)) => apply piles_modify; intros ?; split_and!; try done; by eexists : eff.
#[local] Hint Extern 1 (only _ skip) => apply only_ret : eff.
#[local] Hint Resolve piles_write piles_register : eff.
Ltac piles :=
  repeat lazymatch goal with
  | |- only _ (read_peer _ ≫= _) => apply piles_read; intros ? ?
  | |- only _ (@mbind _ _ positive _ _ (gets _)) => apply piles_fresh
  | |- only _ (mbind _ _) => apply only_bind; [apply _| |intros ?]
  | |- only _ (for_each _ _) => apply only_for_each; [apply _|intros ?]
  | |- only _ (attempt _) => apply only_attempt
  | |- only _ (match ?x with _ => _ end) => destruct x eqn:?
  | |- only _ _ => solve [eauto 3 with eff typeclass_instances]
  end.
Lemma piles_log a : only piles_up (kt_log a).
Proof. unfold kt_log. piles. Qed.
Lemma piles_ask {A} (f : nat → A) : only piles_up (kt_ask f).
Proof. unfold kt_ask. piles. Qed.
#[local] Hint Resolve piles_log piles_ask : eff.
Lemma piles_disconnect l' b : only piles_up (disconnectPeer l' b).
Proof. unfold disconnectPeer. piles. Qed.
#[local] Hint Resolve piles_disconnect : eff.
Lemma piles_clean c id : only piles_up (cleanPeer c id).
Proof. unfold cleanPeer, lock_held. piles. Qed.
#[local] Hint Resolve piles_clean : eff.
Lemma piles_deregister d : only piles_up (DeregisterContextRouter d).
Proof. unfold DeregisterContextRouter, CleanDirectPeer, peerset_Peer, routers_remove. piles. Qed.
Lemma piles_message id b : only piles_up (handlePeerMessage id b).
Proof. unfold handlePeerMessage, forwardMsgToEngine. piles. Qed.
#[local] Hint Resolve piles_deregister piles_message : eff.
Lemma piles_handler id bs : only piles_up (initMessageHandler id bs).
Proof. revert id. induction bs as [|b bs IH]; intros id; cbn [initMessageHandler]; piles. Qed.
Lemma piles_connect selfID' id c : only piles_up (ConnectToDirectPeer selfID' id c).
Proof. unfold ConnectToDirectPeer, peerset_Peer, lock_held. piles. Qed.
Lemma piles_life ev : only piles_up (peerLifeCycle ev).
Proof.
  intros kt kt' r Hr Hfull. pose proof Hfull as [Hb (p & Hp & Hcl & Hlen)].
  unfold peerLifeCycle in Hr. rewrite gets_bind, Hb in Hr. unfold sendToPeer in Hr.
  rewrite (bind_run _ _ _ _ _ (read_peer_run _ _ _ Hp)), Hcl in Hr.
  replace (zlen (IP_msgChan p) <? 50) with false in Hr by (symmetry; apply Z.ltb_ge; lia).
  injection Hr as <- <-. split_and!; try done. split; [done|by exists p].
Qed.
#[local] Hint Resolve piles_handler piles_connect piles_life : eff.
Lemma piles_step ev : ev ≠ KtShip l → only piles_up (kt_step selfID ev).
Proof.
  intros Hev. destruct ev; cbn [kt_step]; unfold kt_SendMessage, BroadcastMessage, BroadcastTesseract, RegisterContextRouter,
    GracefullyCloseContextRouter, cleanupTick, cleanup, removeExpiredRouters, startDeregister, peerset_List, routers_list,
    read_router, routers_add, routers_get, on_peer, directPeerRoutine, handleDeadDirectPeer, closeDeadPeer, lock_held,
    handleTransientStream, openDirectStream, handleMeshStream, closeDirectStream, peerset_Peer; piles.
  apply piles_write. intros ->. by destruct Hev.
Qed.
Lemma piles_run evs kt kt' r :
  KtShip l ∉ evs → kt_run selfID evs kt = Ret (kt', r) → piles_up kt kt'.
Proof.
  revert kt. induction evs as [|ev evs IH]; intros kt Hev; [by intros [= <- _]|].
  apply not_elem_of_cons in Hev as [Hne Hev]. intros [(k1 & [] & H1 & H2)|(e & H1 & _)]%bind_cases.
  - apply attempt_skip in H1 as [[x H1] _]. etrans; [by eapply piles_step; [|exact H1]; congruence|by eapply IH].
  - by apply (quiet_bind _ _ (quiet_attempt _) (λ _, quiet_ret _)) in H1.
Qed.
End Full.


(** ** The end of a cluster *)
Section Still.
(** The pass and the routers of the running clusters stay. *)
Definition still (kt kt' : KramaTransport) : Prop :=
  KT_cleaner kt ≠ None → KT_cleaner kt' = KT_cleaner kt ∧
  ∀ c, is_Some (KT_contextRouters kt !! c) → is_Some (KT_contextRouters kt' !! c).
#[local] Instance still_preorder : PreOrder still.
Proof.
  split; [by intros kt|]. intros k1 k2 k3 H12 H23 Hn. destruct (H12 Hn) as [E12 T12].
  destruct H23 as [E23 T23]; [congruence|]. split; [congruence|]. intros c Hc. by apply T23, T12.
Qed.
Lemma still_modify f :
  (∀ kt, KT_cleaner (f kt) = KT_cleaner kt ∧ KT_contextRouters (f kt) = KT_contextRouters kt) → only still (modify f).
Proof. intros Hf. apply only_modify. intros kt Hn. destruct (Hf kt) as [-> ->]. done. Qed.
#[local] Hint Extern 1 (only _ (modify _)) => apply still_modify; intros ?; split; done : eff.
#[local] Hint Extern 1 (only _ skip) => apply only_ret : eff.
Lemma still_send l m : only still (sendToPeer l m).
Proof. unfold sendToPeer, read_peer, write_peer. only_steps. Qed.
Lemma still_log a : only still (kt_log a).
Proof. unfold kt_log. only_steps. Qed.
Lemma still_ask {A} (f : nat → A) : only still (kt_ask f).
Proof. unfold kt_ask. only_steps. Qed.
Lemma still_message id b : only still (handlePeerMessage id b).
Proof. unfold handlePeerMessage, forwardMsgToEngine. only_steps. Qed.
#[local] Hint Resolve still_log still_ask still_message : eff.
Lemma still_handler id bs : only still (initMessageHandler id bs).
Proof.
  revert id. induction bs as [|b bs IH]; intros id; cbn [initMessageHandler]; only_steps.
Qed.
#[local] Hint Resolve still_handler : eff.
Lemma still_step ev : ev ≠ KtClean → (∀ e, ev ≠ KtLife e) → only still (kt_step selfID ev).
Proof.
  intros Hc Hl. destruct ev; cbn [kt_step]; try done; try (by destruct (Hl _ eq_refl));
    unfold ConnectToDirectPeer, kt_SendMessage, BroadcastMessage, BroadcastTesseract, GracefullyCloseContextRouter, read_router,
      routers_get, on_peer, handleDeadDirectPeer, closeDeadPeer, lock_held, disconnectPeer, directPeerRoutine, peerset_Register,
      peerset_ContainsPeer, read_peer, write_peer,
      handleTransientStream, openDirectStream, handleMeshStream, closeDirectStream, peerset_Peer; try only_steps.
  - apply only_modify. intros kt Hn. split; [done|]. intros c Hc'. cbn. apply lookup_insert_is_Some'. by right.
  - unfold cleanupTick, routers_list. intros kt kt' r. rewrite gets_bind. destruct (KT_cleaner kt) eqn:Ec; intros [= <- _]; [done|].
    intros Hn. by rewrite Ec in Hn.
Qed.
Lemma waiting_cleanup kt kt' r d :
  current kt = Some d → DR_at d = AtSend → cleanup kt = Ret (kt', r) → kt' = kt.
Proof.
  unfold current. destruct (KT_cleaner kt) as [[t rs [[c ps a]|]]|] eqn:Ec; cbn; try done. intros [= <-]. cbn. intros ->.
  unfold cleanup. rewrite gets_bind, Ec. unfold removeExpiredRouters, DeregisterContextRouter, CleanDirectPeer, mbind, eff_bind. cbn.
  destruct ps; intros [= <- _]; rewrite <-Ec; by destruct kt.
Qed.
(** The pass waits as long as [peerLifeCycle] does. *)
Lemma waiting_run l m evs kt kt' r d :
  full l m kt → current kt = Some d → DR_at d = AtSend → KtShip l ∉ evs → kt_run selfID evs kt = Ret (kt', r) →
  current kt' = Some d ∧ ∀ c, is_Some (KT_contextRouters kt !! c) → is_Some (KT_contextRouters kt' !! c).
Proof.
  revert kt. induction evs as [|ev evs IH]; intros kt Hf Hd Ha Hev; [by intros [= <- _]|].
  apply not_elem_of_cons in Hev as [Hne Hev]. intros (k1 & x & H1 & H2)%run_cons.
  destruct (piles_step l m ev ltac:(congruence) _ _ _ H1 Hf) as [Hf1 _].
  assert (Hs : current k1 = Some d ∧ ∀ c, is_Some (KT_contextRouters kt !! c) → is_Some (KT_contextRouters k1 !! c)).
  { assert (Hn : KT_cleaner kt ≠ None) by (intros E; unfold current in Hd; by rewrite E in Hd).
    assert (Hstill : still kt k1 ∨ k1 = kt).
    { assert (Hcase : ev = KtClean ∨ (∃ e, ev = KtLife e) ∨ ev ≠ KtClean ∧ ∀ e, ev ≠ KtLife e)
        by (destruct ev; first [left; reflexivity|right; left; eexists; reflexivity|right; right; split; intros; discriminate]).
      destruct Hcase as [->|[[e ->]|[Hc Hl]]]; [right; by eapply waiting_cleanup|left|left; by eapply still_step].
      destruct Hf as [Hb _]. cbn [kt_step] in H1. unfold peerLifeCycle in H1. rewrite gets_bind, Hb in H1. by eapply still_send. }
    destruct Hstill as [Hstill| ->]; [|done]. destruct (Hstill Hn) as [E T]. split; [|exact T]. unfold current. by rewrite E. }
  destruct Hs as [Hd1 T1]. destruct (IH k1 Hf1 Hd1 Ha Hev H2) as [Hd' T']. split; [done|]. intros c Hc. by apply T', T1.
Qed.
End Still.

(** C30. A closed cluster leaves nothing behind.  Take a state with a router for [c]
    that [cleanup] is not about to remove, and let anything happen but connections
    and routers for [c].  Then (1) once the router is gone no registered peer serves
    [c], although the pass goes from peer to peer while others connect, close and
    send; (2) if a pass has come to [c] and [peerLifeCycle] is not blocked, the two
    goroutines in turn bring it to its end: the router goes, every peer keeps its
    other clusters, and a registered peer left with none is about to be closed;
    (3) but if the pass waits in [disconnectPeer] while [peerLifeCycle] waits for a
    peer that does not read, it stays there, and the router stays, as long as that
    peer's stream takes nothing. *)
Theorem deregister_cleans evs0 committees kt0 r0 c evs kt r :
  kt_run selfID evs0 (NewKramaTransport committees) = Ret (kt0, r0) →
  KT_contextRouters kt0 !! c ≠ None → ¬ cleaning c kt0 →
  Forall (λ ev, ¬ concerns c ev) evs → kt_run selfID evs kt0 = Ret (kt, r) →
  (KT_contextRouters kt !! c = None → ∀ id p, peer_of kt id = Some p → c ∉ IP_clusters p) ∧
  (cleaning c kt → KT_blocked kt = None →
     ∃ n kt', kt_run selfID (concat (replicate n round)) kt = Ret (kt', inl ()) ∧
       KT_contextRouters kt' !! c = None ∧ spares c kt kt' ∧
       ∀ id p, peer_of kt' id = Some p → c ∉ IP_clusters p ∧ (IP_clusters p ≠ ∅ ∨ close_pending kt' id)) ∧
  (∀ d l m p evs' kt' r',
     current kt = Some d → DR_cluster d = c → DR_at d = AtSend →
     KT_blocked kt = Some (l, m) → KT_peers kt !! l = Some p → IP_closed p = false → 50 ≤ zlen (IP_msgChan p) →
     KtShip l ∉ evs' → kt_run selfID evs' kt = Ret (kt', r') →
     current kt' = Some d ∧ KT_contextRouters kt' !! c ≠ None).
Proof.
  intros Hrun0 Hr Hnot Hev Hrun. apply run_ok in Hrun0 as Hk0; [|apply new_ok].
  assert (Hc0 : covered c kt0).
  { unfold covered. destruct (current kt0) as [d|] eqn:Ed; [|done]. rewrite decide_False; [done|]. intros Hd. apply Hnot. by exists d. }
  apply run_ok in Hrun as Hk; [|done]. pose proof (covered_run _ _ _ _ _ Hk0 Hc0 Hev Hrun) as Hc.
  split; [intros Hn id p; by apply covered_gone|]. split.
  - intros (d & Hd & Hdc) Hb. destruct (rounds_end c kt d Hk Hb Hd Hdc) as (n & kt' & Hrun' & Hk' & Hs & Hn).
    exists n, kt'. split_and!; [done..|]. intros id p Hp. split.
    + refine (covered_gone c kt' id p Hk' _ Hn Hp). refine (covered_run _ _ _ _ _ Hk Hc _ Hrun').
      clear. induction n as [|n IH]; [constructor|]. cbn [replicate concat]. apply Forall_app. split; [|done].
      by repeat constructor; intros [].
    + unfold peer_of in Hp. destruct (KT_directPeerset kt' !! id) as [l|] eqn:El; [|done].
      destruct (to_peers _ Hk' _ _ El) as (q & Hq & _ & _ & _ & Hqs). cbn in Hp. by assert (q = p) as -> by congruence.
  - intros d l m p evs' kt' r' Hd Hdc Ha Hb Hp Hcl Hlen Hship Hrun'.
    destruct (waiting_run l m evs' kt kt' r' d) as [Hd' T]; [by split; [|exists p]|done..|]. split; [done|].
    assert (Ht : is_Some (KT_contextRouters kt !! c)).
    { unfold current in Hd. destruct (KT_cleaner kt) as [cu|] eqn:Ecu; [|done].
      destruct (to_cleaner _ Hk _ Ecu) as [_ Hok]. destruct (Hok d Hd) as [Ht _]. by rewrite <-Hdc. }
    apply T in Ht as [x Hx]. by rewrite Hx.
Qed.

(** ** Inbound streams *)
(** What [initMessageHandler] forwards from a stream of the peer [id]. *)
Fixpoint forwarded (id : KramaID) (buffers : list (bytes + err)) : list ICSMSG :=
  match buffers with
  | inl raw :: rest =>
      match decodePeerMessage id raw with
      | inl (m, id') => (match IM_MsgType m with MSG_OTHER _ => [] | _ => [m] end) ++ forwarded id' rest
      | inr _ => []
      end
  | _ => []
  end.
Lemma handler_run id bs kt :
  initMessageHandler id bs kt
  = Ret (with_queues (KT_msgsToEngine kt ++ forwarded id bs) (KT_msgsChan kt) (KT_closePeerChan kt) kt, inl ()).
Proof.
  revert id kt. induction bs as [|[raw|e] bs IH]; intros id kt; cbn [initMessageHandler forwarded].
  - rewrite app_nil_r. by destruct kt.
  - unfold handlePeerMessage. destruct (decodePeerMessage id raw) as [[m id']|e] eqn:Ed.
    + unfold mbind, eff_bind, attempt, lift_or. rewrite Ed.
      destruct (IM_MsgType m) eqn:Em; cbn; rewrite IH; cbn; by rewrite <-?app_assoc.
    + unfold mbind, eff_bind, attempt, lift_or. rewrite Ed, app_nil_r. by destruct kt.
  - rewrite app_nil_r. by destruct kt.
Qed.
Lemma decode_known id raw m id' : id ≠ "" → decodePeerMessage id raw = inl (m, id') → id' = id ∧ IM_ReceivedFrom m = id.
Proof.
  unfold decodePeerMessage. intros Hid. destruct (Depolorize raw) as [m0|e]; [|done].
  rewrite (proj2 (String.eqb_neq id "") Hid). intros [= <- <-]. done.
Qed.
Lemma forwarded_known id bs m : id ≠ "" → m ∈ forwarded id bs → IM_ReceivedFrom m = id.
Proof.
  intros Hid. induction bs as [|[raw|e] bs IH]; cbn [forwarded]; [by intros ?%elem_of_nil| |by intros ?%elem_of_nil].
  destruct (decodePeerMessage id raw) as [[m' id']|e] eqn:Ed; [|by intros ?%elem_of_nil].
  destruct (decode_known _ _ _ _ Hid Ed) as [-> Hf]. intros [Hm|Hm]%elem_of_app; [|by apply IH].
  destruct (IM_MsgType m'); try (apply elem_of_nil in Hm; done); by apply list_elem_of_singleton in Hm as ->.
Qed.

(** The peer that opens a stream names itself: everything the engine gets from
    the stream is said to come from the sender written in its first message,
    whatever sender the later messages carry, and nothing of the connection is
    compared with it. *)
Theorem stream_attribution raw m0 bs kt :
  Depolorize raw = inl m0 → IM_Sender m0 ≠ "" →
  ∃ ms, initMessageHandler "" (inl raw :: bs) kt
        = Ret (with_queues (KT_msgsToEngine kt ++ ms) (KT_msgsChan kt) (KT_closePeerChan kt) kt, inl ()) ∧
    (∀ m, m ∈ ms → IM_ReceivedFrom m = IM_Sender m0) ∧
    ∀ raw' m', bs = [inl raw'] → Depolorize raw' = inl m' → IM_MsgType m' = MSG_VOTEMSG →
      ∃ m, m ∈ ms ∧ IM_Sender m = IM_Sender m' ∧ IM_ReceivedFrom m = IM_Sender m0.
Proof.
  intros Hraw Hs. exists (forwarded "" (inl raw :: bs)). rewrite handler_run. split; [done|].
  cbn [forwarded]. unfold decodePeerMessage at 1 2. rewrite Hraw. cbn [wrap_err String.eqb]. split.
  - intros m [Hm|Hm]%elem_of_app; [|by eapply forwarded_known].
    destruct (IM_MsgType _); try (apply elem_of_nil in Hm; done); by apply list_elem_of_singleton in Hm as ->.
  - intros raw' m' -> Hraw' Ht. eexists. split; [apply elem_of_app; right|].
    + cbn [forwarded]. unfold decodePeerMessage. rewrite Hraw'. cbn [wrap_err IM_MsgType]. rewrite Ht. by left.
    + cbn. by rewrite (proj2 (String.eqb_neq _ "") Hs).
Qed.

Lemma open_spec s kt :
  ∃ kt', openDirectStream s kt = Ret (kt', inl ()) ∧
    KT_directInboundStreams kt' = <[RemotePeer s := s]> (KT_directInboundStreams kt) ∧
    KT_out kt' = KT_out kt ++ (match KT_directInboundStreams kt !! RemotePeer s with Some s' => [KResetStream s'] | None => [] end).
Proof.
  unfold openDirectStream. rewrite gets_bind.
  destruct (KT_directInboundStreams kt !! RemotePeer s); eexists; (split; [done|]); split; try done. by rewrite app_nil_r.
Qed.

(** A node that reconnects loses its place: when a second stream of the same
    node has replaced the first, the end of the first takes the second out of
    the table, so a third stream is opened beside it and the second is not
    reset. *)
Theorem old_stream_unregisters_new s1 s2 s3 kt :
  RemotePeer s1 = RemotePeer s2 → RemotePeer s3 = RemotePeer s2 →
  ∃ kt1 kt2 kt3 kt4,
    openDirectStream s1 kt = Ret (kt1, inl ()) ∧ openDirectStream s2 kt1 = Ret (kt2, inl ()) ∧
    KT_directInboundStreams kt2 !! RemotePeer s2 = Some s2 ∧ KResetStream s1 ∈ KT_out kt2 ∧
    closeDirectStream s1 kt2 = Ret (kt3, inl ()) ∧ KT_directInboundStreams kt3 !! RemotePeer s2 = None ∧
    openDirectStream s3 kt3 = Ret (kt4, inl ()) ∧
    KT_directInboundStreams kt4 !! RemotePeer s2 = Some s3 ∧ KT_out kt4 = KT_out kt3.
Proof.
  intros E12 E32. destruct (open_spec s1 kt) as (kt1 & H1 & I1 & _). destruct (open_spec s2 kt1) as (kt2 & H2 & I2 & O2).
  rewrite E12 in I1. rewrite I1, lookup_insert_eq in O2.
  edestruct (open_spec s3) as (kt4 & H4 & I4 & O4).
  eexists kt1, kt2, _, kt4. do 2 (split; [done|]). split; [by rewrite I2, lookup_insert_eq|].
  split; [rewrite O2; set_solver|]. split; [reflexivity|]. cbn. rewrite E12.
  split; [by rewrite lookup_delete_eq|]. split; [exact H4|]. rewrite I4, O4, E32, lookup_insert_eq. split; [done|].
  cbn. by rewrite lookup_delete_eq, app_nil_r.
Qed.
End Transport.
