(* ===== verification/TransportScenario.v ===== *)
(** * A concrete network, and the witnesses of the transport's theorems

    A node's network identity is its name and a stream is its remote end with a
    number; every connection succeeds.  Committees are those of [Scenario.v]. *)

From stdpp Require Import base gmap strings list countable.
From Stdlib Require Import ZArith Lia.
From S2P Require Import Prelude Effect External Types Concrete NodeSet Committee Cluster VoteSet HeightVoteSet Transport TransportSpec Scenario.

#[local] Existing Instances CE CX CE_bits CCanon.

Definition NP2P : P2P := {|
  PeerID := string;
  Stream := string * nat;
  RemotePeer := fst;
  DecodedPeerID id := inl id;
  ConnectPeerByKramaID _ _ := None;
  IsConnectionExists _ := false;
  NewStream n id := inl (id, n);
  ShipMessage _ _ _ := None;
  Network_Broadcast _ _ := None;
|}.
(** The sender's view of a message; [ReceivedFrom] is not encoded. *)
Definition n_type (t : MsgType) : Z :=
  match t with MSG_PREPARE => 0 | MSG_PREPARED => 1 | MSG_PROPOSAL => 2 | MSG_VOTEMSG => 3 | MSG_OTHER n => n + 4 end.
Definition n_type_of (z : Z) : MsgType :=
  match z with 0 => MSG_PREPARE | 1 => MSG_PREPARED | 2 => MSG_PROPOSAL | 3 => MSG_VOTEMSG | _ => MSG_OTHER (z - 4) end.
Definition n_codec : PoloCodec (string * string * Z) := codec_of (string * string * Z).
Definition NIcs : PoloCodec ICSMSG := {|
  Polorize m := @Polorize _ n_codec (IM_Sender m, IM_ClusterID m, n_type (IM_MsgType m));
  Depolorize raw := match @Depolorize _ n_codec raw with
                    | inl (s, c, t) => inl (NewICSMsg s c (n_type_of t) [])
                    | inr e => inr e
                    end;
|}.
#[local] Existing Instances NP2P NIcs.

Definition n_self : KramaID := "A".
Definition n_committees : gmap positive ICSCommittee := {[ 1%positive := w_committee ]}.
Definition n_start : KramaTransport := NewKramaTransport n_committees.
Definition n_msg (c : ClusterID) : ICSMSG := NewICSMsg "A" c MSG_VOTEMSG [].
(** Where a run ends. *)
Definition n_after (evs : list kt_event) (kt : KramaTransport) : KramaTransport :=
  match kt_run n_self evs kt with Ret (kt', _) => kt' | _ => kt end.

(** Two clusters: "B" serves the first, "C" both. *)
Definition n_connects : list kt_event :=
  [KtRegister "A" "c1" 1 None; KtRegister "A" "c2" 1 None;
   KtConnect "B" "c1"; KtConnect "C" "c1"; KtConnect "C" "c2"; KtBroadcast (n_msg "c1")]%string.
Definition n_connected : KramaTransport := n_after n_connects n_start.
Lemma n_connects_run : kt_run n_self n_connects n_start = Ret (n_connected, inl ()).
Proof. vm_compute. reflexivity. Qed.

Lemma transport_safe_witness :
  (∃ p, KT_peers n_connected !! 1%positive = Some p ∧ peer_ok n_connected "B" p) ∧
  (∃ kt' r', kt_step n_self (KtLife LifeMsg) n_connected = Ret (kt', r')).
Proof.
  destruct (transport_safe n_self n_connects n_committees n_connected (inl ()) (KtLife LifeMsg) n_connects_run) as [Hp Hs].
  split.
  - apply Hp. vm_compute. reflexivity.
  - destruct Hs as [Hs|(m & Hm & _)]; [exact Hs|discriminate Hm].
Defined.
(** A broadcast for a cluster without a router. *)
Example broadcast_unrouted :
  kt_step n_self (KtBroadcast (n_msg "c3")) n_connected = Panic "nil pointer dereference".
Proof. vm_compute. reflexivity. Qed.

(** The first cluster expires, and the pass comes to its peers. *)
Definition n_expire : list kt_event := [KtExpire "c1" 0; KtCleanup 200; KtClean]%string.
Definition n_cleaning (c : ClusterID) (kt : KramaTransport) : bool :=
  match current kt with Some d => String.eqb (DR_cluster d) c | None => false end.
Lemma n_cleaning_spec c kt : n_cleaning c kt = true ↔ cleaning c kt.
Proof.
  unfold n_cleaning, cleaning. destruct (current kt) as [d|]; [rewrite String.eqb_eq|split; [done|by intros (? & [=] & _)]].
  split; [intros Hd; by exists d|]. by intros (d' & [= <-] & Hd).
Qed.
Definition n_quiet (evs : list kt_event) : bool :=
  forallb (λ ev, match ev with KtConnect _ _ | KtRegister _ _ _ _ => false | _ => true end) evs.
Lemma n_quiet_spec c evs : n_quiet evs = true → Forall (λ ev, ¬ concerns c ev) evs.
Proof.
  intros H. apply Forall_forall. intros ev Hin Hc. unfold n_quiet in H. rewrite forallb_forall in H.
  specialize (H ev Hin). by destruct ev.
Qed.

(** Two clusters expire in a node whose [peerLifeCycle] goes on, and in one where it
    waits for "B": fifty-one messages for it, which takes none, and one for "C". *)
Definition n_flood : list kt_event :=
  replicate 51 (KtSend "B" (n_msg "c1")) ++ replicate 51 (KtLife LifeMsg) ++ [KtSend "C" (n_msg "c1")]%string.
Definition n_calm : list kt_event := [KtRegister "A" "c1" 1 None; KtConnect "B" "c1"; KtConnect "C" "c1"]%string.
Definition n_calmed : KramaTransport := n_after n_calm n_start.
Definition n_busy : list kt_event := n_flood ++ n_expire ++ [KtClean; KtClean].
Definition n_jammed : KramaTransport := n_after n_busy n_calmed.
Definition n_pending : bytes := match Polorize (n_msg "c1") with inl raw => raw | inr _ => [] end.
Definition n_full : icsPeer := default (newICSPeer "" ("", 0%nat) false) (KT_peers n_jammed !! 1%positive).
Definition n_pass : Deregistration := default {| DR_cluster := ""; DR_peers := []; DR_at := AtNext |} (current n_jammed).
Definition n_wait : list kt_event := [KtClean; KtLife LifeClose; KtClean; KtShip 2; KtLife LifeClose; KtClean].
Lemma deregister_cleans_witness :
  (∃ n kt', kt_run n_self (concat (replicate n round)) (n_after n_expire n_connected) = Ret (kt', inl ()) ∧
     KT_contextRouters kt' !! "c1"%string = None ∧ ∀ id p, peer_of kt' id = Some p → "c1"%string ∉ IP_clusters p) ∧
  current (n_after n_wait n_jammed) = Some n_pass ∧ DR_at n_pass = AtSend.
Proof.
  split.
  - destruct (deregister_cleans n_self n_connects n_committees n_connected (inl ()) "c1" n_expire
      (n_after n_expire n_connected) (inl ())) as (_ & H & _).
    + exact n_connects_run.
    + intros H. apply (f_equal is_some) in H. vm_compute in H. discriminate H.
    + intros H. apply n_cleaning_spec in H. vm_compute in H. discriminate H.
    + apply n_quiet_spec. reflexivity.
    + vm_compute. reflexivity.
    + destruct H as (n & kt' & Hr & Hn & _ & Hp).
      * apply n_cleaning_spec. vm_compute. reflexivity.
      * vm_compute. reflexivity.
      * exists n, kt'. split; [exact Hr|]. split; [exact Hn|]. intros id p Hid. exact (proj1 (Hp id p Hid)).
  - destruct (deregister_cleans n_self n_calm n_committees n_calmed (inl ()) "c1" n_busy n_jammed (inl ())) as (_ & _ & H).
    + vm_compute. reflexivity.
    + intros H. apply (f_equal is_some) in H. vm_compute in H. discriminate H.
    + intros H. apply n_cleaning_spec in H. vm_compute in H. discriminate H.
    + apply n_quiet_spec. vm_compute. reflexivity.
    + vm_compute. reflexivity.
    + split; [|vm_compute; reflexivity].
      refine (proj1 (H n_pass 1%positive n_pending n_full n_wait _ (inl ()) _ _ _ _ _ _ _ _ _)).
      * vm_compute. reflexivity.
      * vm_compute. reflexivity.
      * vm_compute. reflexivity.
      * vm_compute. reflexivity.
      * vm_compute. reflexivity.
      * vm_compute. reflexivity.
      * vm_compute. discriminate.
      * unfold n_wait. rewrite !not_elem_of_cons. split_and!; try discriminate. apply not_elem_of_nil.
      * vm_compute. reflexivity.
Defined.

(** The request for "B" has been received while a third cluster connects to it. *)
Definition n_expiring : list kt_event :=
  n_calm ++ n_expire ++ [KtClean; KtClean; KtLife LifeClose].
Definition n_expired : KramaTransport := n_after n_expiring n_start.
Lemma n_expiring_run : kt_run n_self n_expiring n_start = Ret (n_expired, inl ()).
Proof. vm_compute. reflexivity. Qed.
Definition n_closing : KramaID := default "" (fst <$> KT_closing n_expired).
Definition n_b : icsPeer := default (newICSPeer "" ("", 0%nat) false) (peer_of n_expired n_closing).
Lemma close_request_cuts_reconnect_witness :
  n_closing ∈ ["B"; "C"]%string ∧
  ∃ kt1 kt2, ConnectToDirectPeer n_self n_closing "c3" n_expired = Ret (kt1, inl ()) ∧
    peerLifeCycle LifeClose kt1 = Ret (kt2, inl ()) ∧ peer_of kt2 n_closing = None.
Proof.
  split; [apply list_elem_of_In; vm_compute; tauto|].
  destruct (close_request_cuts_reconnect n_self n_expiring n_committees n_expired (inl ()) n_closing n_closing "c3" n_b)
    as (kt1 & kt2 & H1 & _ & H2 & H3 & _).
  - exact n_expiring_run.
  - vm_compute. discriminate.
  - reflexivity.
  - vm_compute. reflexivity.
  - vm_compute. reflexivity.
  - vm_compute. reflexivity.
  - vm_compute. reflexivity.
  - exists kt1, kt2. split; [exact H1|]. split; [exact (H2 LifeClose)|exact H3].
Defined.

Definition n_flooded : KramaTransport := n_after (n_calm ++ n_flood) n_start.
Definition n_swamped : icsPeer := default (newICSPeer "" ("", 0%nat) false) (KT_peers n_flooded !! 1%positive).
Definition n_later : list kt_event := [KtLife LifeMsg; KtLife LifeClose; KtShip 2; KtLife LifeMsg]%string.
Definition n_stuck : KramaTransport := n_after n_later n_flooded.

(** A stream that "D" opens as "B". *)
Definition n_as (id : KramaID) : bytes := match Polorize (NewICSMsg id "c1" MSG_VOTEMSG []) with inl raw => raw | inr _ => [] end.
Lemma stream_attribution_witness :
  ∃ ms, initMessageHandler "" [inl (n_as "B"); inl (n_as "D")] n_start
        = Ret (with_queues ms [] [] n_start, inl ()) ∧ ∀ m, m ∈ ms → IM_ReceivedFrom m = "B"%string.
Proof.
  destruct (stream_attribution (n_as "B") (NewICSMsg "B" "c1" MSG_VOTEMSG []) [inl (n_as "D")] n_start)
    as (ms & Hr & Hm & _).
  - vm_compute. reflexivity.
  - discriminate.
  - exists ms. split; [exact Hr|exact Hm].
Defined.

Definition n_stream (n : nat) : @Stream NP2P := ("B"%string, n).
Lemma old_stream_unregisters_new_witness :
  ∃ kt, KT_directInboundStreams kt !! "B"%string = Some (n_stream 3) ∧ KResetStream (n_stream 2) ∉ KT_out kt.
Proof.
  destruct (old_stream_unregisters_new (n_stream 1) (n_stream 2) (n_stream 3) n_start)
    as (kt1 & kt2 & kt3 & kt4 & H1 & H2 & _ & _ & H3 & _ & H4 & H5 & H6).
  - reflexivity.
  - reflexivity.
  - exists kt4. split; [exact H5|]. rewrite H6. vm_compute in H1. injection H1 as <-. vm_compute in H2. injection H2 as <-.
    vm_compute in H3. injection H3 as <-. cbn. rewrite !not_elem_of_cons. split_and!; try discriminate. apply not_elem_of_nil.
Defined.
