(* ===== verification/Execution.v ===== *)
(** * Executing interactions and building tesseracts: [krama_engine.go]

    The execution engine and the constructor of tesseracts belong to other
    modules: the class [Execution] has their functions.  The leader executes the
    interactions of its cluster and builds the tesseract it proposes; a validator
    executes those of a proposal and compares. *)

From stdpp Require Import base gmap strings list fin_maps.
From Stdlib Require Import ZArith Lia.
From S2P Require Import Prelude Effect External Chain Types NodeSet Committee Cluster Validation VoteSet HeightVoteSet Sortition.

(** [common.PoXtData]: the fields the repository fills. *)
Record PoXtData `{ET : ExtTypes} := {
  PX_Proposer : KramaID;
  PX_View : Z;
  PX_LastCommit : gmap Address Hash;
  PX_AccountLocks : gmap Address LockType;
  PX_ICSSeed : Z;
  PX_ICSProof : bytes;
}.

Class Execution (ET : ExtTypes) (EX : ExtOps ET) (TO : TesseractOps ET) (IX : InteractionOps ET EX)
    (CH : Chain ET EX TO IX) := {
  (** [common.Receipts], read from a [state.Transition] *)
  Receipts : Type;
  Transition_Receipts : Transition → Receipts;
  Receipts_FuelUsed : Receipts → Z;
  Receipts_Hash : Receipts → Hash + err;
  (** [common.AccStateHashes] *)
  AccStateHashes : Type;
  ASH_StateHash : AccStateHashes → Address → Hash;
  ASH_ContextHash : AccStateHashes → Address → Hash;
  ASH_ExcludedAccounts : AccStateHashes → list Address;
  SM_LoadTransitionObjects : World → gmap Address ParticipantInfo → Transition + err;
  (** [ExecuteInteractions] works on the transition it is given *)
  ExecuteInteractions : World → Transition → Interactions → ExecutionContext →
    Transition * (AccStateHashes + err);
  IsContextUpdateRequired : Participant → bool;
  Participants_LockInfo : gmap Address Participant → bool → gmap Address LockType;
  Participants_Addrs : gmap Address Participant → list Address;
  TsReceipts : Tesseract → Receipts;
  TsEpoch : Tesseract → Z;
  TsFuelUsed : Tesseract → Z;
  TsFuelLimit : Tesseract → Z;
  TsConsensusInfo : Tesseract → PoXtData;
  TsExecutionContext : Tesseract → ExecutionContext;
  TsSetReceipts : Tesseract → Receipts → Tesseract;
  TsBytes : Tesseract → bytes + err;
  (** [common.NewTesseract], in the order of its parameters; the seal is nil *)
  NewTesseract : gmap Address PState → Hash → Hash → Z → Z → Z → Z → PoXtData → KramaID →
    Interactions → Receipts → CommitInfo → Tesseract;
  L_AddTesseractWithState : World → gmap Hash bytes → Tesseract → Transition → World * option err;
  SM_RemoveCachedObject : World → Address → World;
}.

(** What [common.NewTesseract] keeps of its arguments. *)
Class ExecutionLaws (ET : ExtTypes) (EX : ExtOps ET) (TO : TesseractOps ET) (IX : InteractionOps ET EX)
    (TV : TesseractView ET EX TO) (CH : Chain ET EX TO IX) (XE : Execution ET EX TO IX CH) : Prop := {
  new_tesseract_parts : ∀ ps ixh rh epoch time used limit poxt sealer ixs rs ci,
    let ts := NewTesseract ps ixh rh epoch time used limit poxt sealer ixs rs ci in
    TsParticipants ts = ps ∧ TsInteractionsHash ts = ixh ∧ TsReceiptsHash ts = rh ∧
    TsCommit ts = Some ci ∧ TsIxns ts = ixs ∧ TsClusterID ts = CI_ClusterID ci ∧
    TsOperator ts = CI_Operator ci ∧ TsView ts = CI_View ci;
}.

Definition StochasticSetSize : Z := 3.
Definition BehaviouralContextSize : Z := 5.

Section Execution.
Context `{ET : ExtTypes} `{EX : !ExtOps ET} `{TO : !TesseractOps ET} `{IX : !InteractionOps ET EX}.
Context `{TV : !TesseractView ET EX TO} `{CH : !Chain ET EX TO IX} `{XE : !Execution ET EX TO IX CH}.
Context `{!PoloCodec CanonicalVote}.
Context (vrfEvaluate : Z → (Z * bytes) + err).
(** [selfID], [len(cfg.TrustedPeers) > 0] and [cfg.EnableDebugMode]. *)
Context (self : KramaID) (trustedPeersPresent debugMode : bool).

(** A cluster state and the vote set it points to. *)
Record Cluster := {
  CL_cs : ClusterState;
  CL_voteSet : option HeightVoteSet;
}.
Definition update_cs (f : ClusterState → ClusterState) : eff Cluster () :=
  modify (λ c, {| CL_cs := f (CL_cs c); CL_voteSet := CL_voteSet c |}).
Definition set_cs (cs : ClusterState) : eff Cluster () := update_cs (λ _, cs).
Definition get_cs : eff Cluster ClusterState := gets CL_cs.
Definition UpdateVoteSet (vs : HeightVoteSet) : eff Cluster () :=
  modify (λ c, {| CL_cs := CL_cs c; CL_voteSet := Some vs |}).

(** ** The nodes of a new account's context *)
(** The loop over the random set; [count] is the number of nodes taken. *)
Fixpoint pickNodes (requiredBehavioural total count : Z) (infos : list (bool * KramaID))
    (behavioural random : list KramaID) : list KramaID * list KramaID :=
  match infos with
  | [] => (behavioural, random)
  | (responded, id) :: rest =>
      let '(b, r, n) :=
        if responded then
          if negb (zlen behavioural =? requiredBehavioural)
          then (behavioural ++ [id], random, count + 1)
          else (behavioural, random ++ [id], count + 1)
        else (behavioural, random, count) in
      if n =? total then (b, r) else pickNodes requiredBehavioural total n rest b r
  end.

Definition getContextNodes (cs : ClusterState) (requiredRandomNodes requiredBehaviouralNodes : Z)
    : res (list KramaID * list KramaID) :=
  if trustedPeersPresent then
    b ← go_slice (TrustedPeers cs) 0 requiredBehaviouralNodes;
    r ← go_slice (TrustedPeers cs) requiredBehaviouralNodes (requiredBehaviouralNodes + requiredRandomNodes);
    Ret (b, r)
  else
    o ← RandomSet (committee cs);
    set ← deref o;
    Ret (pickNodes requiredBehaviouralNodes (requiredRandomNodes + requiredBehaviouralNodes) 0
           ((λ '(index, info), (GetIndex (Responses set) index, NI_ID info)) <$> ranged set) [] []).

Definition with_delta (p : Participant) (d : DeltaGroup) : Participant :=
  {| P_Height := P_Height p; P_IsGenesis := P_IsGenesis p; P_TesseractHash := P_TesseractHash p;
     P_NodeSetPosition := P_NodeSetPosition p; P_ConsensusQuorum := P_ConsensusQuorum p;
     P_ExcludeFromICS := P_ExcludeFromICS p; P_ContextDelta := Some d; P_AccType := P_AccType p;
     P_LockType := P_LockType p; P_IsSigner := P_IsSigner p; P_ContextHash := P_ContextHash p;
     P_CommitHash := P_CommitHash p |}.

(** [ps.LockType > MutateLock || !ps.IsContextUpdateRequired()] and the debug
    mode; of the other participants only new accounts get a delta. *)
Definition needsDelta (ps : Participant) : bool :=
  negb (LockAboveMutate (P_LockType ps) || negb (IsContextUpdateRequired ps))
  && negb (debugMode && negb (P_IsGenesis ps)) && P_IsGenesis ps.
Definition updateDelta (cs : ClusterState) (entry : Address * Participant) : res ClusterState :=
  let '(addr, ps) := entry in
  if needsDelta ps then
    '(behaviouralNodes, randomNodes) ← getContextNodes cs StochasticSetSize BehaviouralContextSize;
    Ret (set_participants
           (<[addr := with_delta ps {| BehaviouralNodes := behaviouralNodes; RandomNodes := randomNodes |}]>
              (Participants cs)) cs)
  else Ret cs.
(** [getContextNodes] never returns an error. *)
Definition updateContextDelta (cs : ClusterState) : res ClusterState :=
  foldM updateDelta (map_to_list (Participants cs)) cs.

(** ** The proposal of the leader *)
Definition participantStates (cs : ClusterState) (ps : AccStateHashes) : gmap Address PState :=
  map_imap (λ addr p, Some
    {| PS_PreviousContext := P_ContextHash p; PS_StateHash := ASH_StateHash ps addr;
       PS_Height := Participant_NewHeight p; PS_TransitiveLink := Participant_TSHash p;
       PS_LatestContext := ASH_ContextHash ps addr; PS_ContextDelta := P_ContextDelta p |})
    (Participants cs).

Definition clusterCommitInfo (op : KramaID) (cs : ClusterState) : res CommitInfo :=
  randomSet ← GetRandomNodes cs;
  n ← RandomSetSizeWithOutDelta (committee cs);
  Ret {| CI_QC := None; CI_RandomSet := randomSet; CI_RandomSetSizeWithoutDelta := n;
         CI_Operator := op; CI_ClusterID := CS_ClusterID cs; CI_View := CurrentView cs |}.

Definition generateTesseract (cs : ClusterState) (poxt : PoXtData) (hs : AccStateHashes)
    : res (Tesseract + err) :=
  let receipts := Transition_Receipts (CS_Transition cs) in
  match Ixs_Hash (ixns cs) with
  | inr e => Ret (inr e)
  | inl ixnsHash =>
      match Receipts_Hash receipts with
      | inr e => Ret (inr e)
      | inl receiptHash =>
          info ← clusterCommitInfo (Operator cs) cs;
          Ret (inl (NewTesseract (participantStates cs hs) ixnsHash receiptHash 0 (ICSReqTime cs)
                      (Receipts_FuelUsed receipts) 1000 poxt (SelfKramaID cs) (ixns cs) receipts info))
      end
  end.

Definition createNewTSFromLockedTS (cs : ClusterState) (ts : Tesseract) : res Tesseract :=
  info ← clusterCommitInfo (SelfKramaID cs) cs;
  Ret (NewTesseract (TsParticipants ts) (TsInteractionsHash ts) (TsReceiptsHash ts) (TsEpoch ts)
         (TsTimestamp ts) (TsFuelUsed ts) (TsFuelLimit ts) (TsConsensusInfo ts) (SelfKramaID cs)
         (TsIxns ts) (TsReceipts ts) info).

(** [cs.Participants\[addr\].CommitHash] of every locked account; a missing
    entry is a nil pointer. *)
Definition lastCommits (ps : gmap Address Participant) (locks : gmap Address LockType)
    : res (gmap Address Hash) :=
  foldM (λ m '(addr, _), p ← deref (ps !! addr); Ret (<[addr := P_CommitHash p]> m))
    (map_to_list locks) ∅.

Definition createProposalTesseract (w : World) (view : Z) : eff Cluster Tesseract :=
  cs ← get_cs;
  transition ← lift_or match SM_LoadTransitionObjects w (Ixs_Participants (ixns cs)) with
                       | inr e => inr (EWrap e "failed to load state transition objects")
                       | inl t => inl t
                       end;
  cs ← lift (updateContextDelta cs); _ ← set_cs cs;
  let '(transition, r) := ExecuteInteractions w transition (ixns cs) (ClusterExecutionContext cs) in
  stateHashes ← lift_or r;
  cs ← lift (ClusterExcludeParticipants cs (ASH_ExcludedAccounts stateHashes)); _ ← set_cs cs;
  voteset ← lift (NewHeightVoteSet [] (NewHeights cs) cs);
  _ ← UpdateVoteSet voteset;
  seed ← lift_res (computeICSSeed w (Participants cs));
  '(newSeed, proof) ← lift_or (computeVRFOutput vrfEvaluate seed);
  let lockInfo := Participants_LockInfo (Participants cs) true in
  lastCommitHash ← lift (lastCommits (Participants cs) lockInfo);
  let poxt := {| PX_Proposer := self; PX_View := view; PX_LastCommit := lastCommitHash;
                 PX_AccountLocks := lockInfo; PX_ICSSeed := newSeed; PX_ICSProof := proof |} in
  _ ← update_cs (SetStateTransition transition);
  cs ← get_cs;
  lift_res (generateTesseract cs poxt stateHashes).

(** Go walks [lockedTS] in any order: the tesseract taken is the one visited
    last. *)
Definition lastLockedTS (cs : ClusterState) (lockedTS : list (Address * Tesseract))
    : res (option Tesseract + err) :=
  efold (λ _ '(addr, ts),
    h ← IxnHash cs;
    Ret (if decide (TsInteractionsHash ts ≠ h) then inr (ENew "ts lock mismatch") else inl (Some ts)))
    lockedTS None.
Definition createProposalTS (w : World) (view : Z) (lockedTS : gmap Address Tesseract)
    : eff Cluster Tesseract :=
  cs ← get_cs;
  lockTS ← lift_res (lastLockedTS cs (map_to_list lockedTS));
  match lockTS with
  | None => createProposalTesseract w view
  | Some ts => lift (createNewTSFromLockedTS cs ts)
  end.

(** ** What a validator does with a proposal *)
(** The transition the execution worked on, and the tesseract with its receipts. *)
Definition ExecuteAndValidate (w : World) (ts : Tesseract) (transition : Transition)
    : Transition * (Tesseract + err) :=
  let '(transition, r) := ExecuteInteractions w transition (TsIxns ts) (TsExecutionContext ts) in
  (transition,
   match r with
   | inr e => inr e
   | inl stateHashes =>
       if isReceiptsHashValid ts (Receipts_Hash (Transition_Receipts transition))
          && areStateHashesValid ts (ASH_StateHash stateHashes)
       then inl (TsSetReceipts ts (Transition_Receipts transition))
       else inr (ENew "failed to validate the tesseract")
   end).
End Execution.
