(* ===== verification/ExecutionSpec.v ===== *)
(** * What executing and proposing guarantee: the theorems *)

From stdpp Require Import base gmap strings list fin_maps.
From Stdlib Require Import ZArith Lia.
From S2P Require Import Prelude Effect External Chain Types NodeSet Committee Cluster Validation VoteSet HeightVoteSet Sortition Execution.

Section Execution.
Context `{ET : ExtTypes} `{EX : !ExtOps ET} `{TO : !TesseractOps ET} `{IX : !InteractionOps ET EX}.
Context `{TV : !TesseractView ET EX TO} `{CH : !Chain ET EX TO IX} `{XE : !Execution ET EX TO IX CH}.
Context `{!ExecutionLaws ET EX TO IX TV CH XE}.
Context `{!PoloCodec CanonicalVote}.
Context (vrfEvaluate : Z → (Z * bytes) + err).
Context (self : KramaID) (trustedPeersPresent debugMode : bool).

(** ** The context of a new account *)
Definition chosen (infos : list (bool * KramaID)) : list KramaID := (filter (λ p, p.1 = true) infos).*2.

Lemma pickNodes_spec (nb total : nat) infos b r :
  (length b + length r < total)%nat → (length b ≤ nb)%nat → (nb ≤ total)%nat → (length b < nb → r = [])%nat →
  pickNodes (Z.of_nat nb) (Z.of_nat total) (Z.of_nat (length b + length r)) infos b r
  = (take nb (b ++ r ++ chosen infos), drop nb (take total (b ++ r ++ chosen infos))).
Proof.
  revert b r. induction infos as [|[responded id] infos IH]; intros b r Hlt Hb Ht Hr.
  - cbn. rewrite app_nil_r. rewrite (take_ge (b ++ r) total) by (rewrite length_app; lia).
    destruct (decide (length b < nb)%nat) as [H|H].
    + rewrite (Hr H), app_nil_r. rewrite take_ge, drop_ge by lia. done.
    + rewrite take_app_length', drop_app_length' by lia. done.
  - cbn [pickNodes]. unfold chosen. rewrite filter_cons. cbn [fst].
    destruct responded; cbn [negb].
    2: { rewrite decide_False by done. rewrite (proj2 (Z.eqb_neq _ _)) by lia. by apply IH. }
    rewrite decide_True by done. cbn [fmap list_fmap snd]. fold (chosen infos). unfold zlen.
    assert (Hdone : ∀ b' r' : list KramaID, (length b' + length r' = total)%nat → length b' = nb →
      ∀ rest : list KramaID, (b', r') = (take nb (b' ++ r' ++ rest), drop nb (take total (b' ++ r' ++ rest)))).
    { intros b' r' Hl Hl' rest. f_equal; [by rewrite take_app_length'|].
      rewrite app_assoc, (take_app_length' (b' ++ r')) by (rewrite length_app; lia). by rewrite drop_app_length'. }
    destruct (Z.eqb_spec (Z.of_nat (length b)) (Z.of_nat nb)) as [He|Hne]; cbn [negb].
    + destruct (Z.eqb_spec (Z.of_nat (length b + length r) + 1) (Z.of_nat total)) as [Hl|Hl].
      * replace (b ++ r ++ id :: chosen infos) with (b ++ (r ++ [id]) ++ chosen infos) by (by rewrite <-app_assoc).
        apply Hdone; rewrite ?length_app; cbn; lia.
      * replace (b ++ r ++ id :: chosen infos) with (b ++ (r ++ [id]) ++ chosen infos) by (by rewrite <-app_assoc).
        rewrite <-IH; [|rewrite ?length_app; cbn; lia..]. f_equal. rewrite length_app. cbn. lia.
    + rewrite (Hr ltac:(lia)) in *. cbn [app length] in *.
      destruct (Z.eqb_spec (Z.of_nat (length b + 0) + 1) (Z.of_nat total)) as [Hl|Hl].
      * replace (b ++ id :: chosen infos) with ((b ++ [id]) ++ [] ++ chosen infos) by (by rewrite <-app_assoc).
        apply Hdone; rewrite ?length_app; cbn; lia.
      * replace (b ++ id :: chosen infos) with ((b ++ [id]) ++ [] ++ chosen infos) by (by rewrite <-app_assoc).
        rewrite <-IH; [|rewrite ?length_app; cbn; (lia || done)..]. f_equal. rewrite length_app. cbn. lia.
Qed.

(** The members of the random set that answered. *)
Definition answered (ns : NodeSet) : list KramaID :=
  chosen ((λ '(index, info), (GetIndex (Responses ns) index, NI_ID info)) <$> ranged ns).

(** The context of a new account: without trusted peers its behavioural nodes
    are the first five members of the random set that answered and its random
    nodes the next three.  A random set of the size the engine asks for has three
    members, so the behavioural context gets at most three nodes and the random
    context none. *)
Theorem new_context_nodes cs ns :
  RandomSet (committee cs) = Ret (Some ns) →
  let b := take 5 (answered ns) in let r := drop 5 (take 8 (answered ns)) in
  getContextNodes false cs StochasticSetSize BehaviouralContextSize = Ret (b, r) ∧
  (zlen (Infos ns) ≤ StochasticSetSize → zlen b ≤ StochasticSetSize ∧ r = []).
Proof.
  intros H b r. split.
  - unfold getContextNodes. rewrite H. cbn [mbind res_bind deref].
    change BehaviouralContextSize with (Z.of_nat 5). change (StochasticSetSize + Z.of_nat 5) with (Z.of_nat 8).
    change 0 with (Z.of_nat (length (@nil KramaID) + length (@nil KramaID))).
    rewrite pickNodes_spec by (cbn; lia || done). done.
  - unfold StochasticSetSize, zlen. intros Hl.
    assert (Ha : (length (answered ns) ≤ length (Infos ns))%nat).
    { unfold answered, chosen. rewrite length_fmap. etrans; [apply length_filter|]. rewrite length_fmap.
      unfold ranged. by rewrite length_imap. }
    unfold b, r. split; [rewrite length_take; lia|]. rewrite take_ge, drop_ge by lia. done.
Qed.

(** ** The proposal *)
(** What the leader executed with. *)
Definition leader_context (cs : ClusterState) : res ExecutionContext :=
  cs' ← updateContextDelta trustedPeersPresent debugMode cs; Ret (ClusterExecutionContext cs').

Lemma areStateHashesValid_built cs hs ts :
  TsParticipants ts = participantStates cs hs → areStateHashesValid ts (ASH_StateHash hs) = true.
Proof.
  intros H. unfold areStateHashesValid. rewrite H. apply forallb_forall.
  intros [addr p] Hin%list_elem_of_In%elem_of_map_to_list. unfold participantStates in Hin.
  rewrite map_lookup_imap in Hin. destruct (Participants cs !! addr) as [q|]; [|done]. cbn in Hin.
  injection Hin as <-. by apply bool_decide_eq_true_2.
Qed.

Lemma generateTesseract_parts cs poxt hs ts :
  generateTesseract cs poxt hs = Ret (inl ts) →
  TsParticipants ts = participantStates cs hs ∧ TsIxns ts = ixns cs ∧ TsClusterID ts = CS_ClusterID cs ∧
  Ixs_Hash (ixns cs) = inl (TsInteractionsHash ts) ∧
  Receipts_Hash (Transition_Receipts (CS_Transition cs)) = inl (TsReceiptsHash ts).
Proof.
  unfold generateTesseract. destruct (Ixs_Hash (ixns cs)) as [ixh|e] eqn:Ei; [|done].
  destruct (Receipts_Hash _) as [rh|e] eqn:Er; [|done]. unfold clusterCommitInfo.
  destruct (GetRandomNodes cs) as [rs| |]; [|done..]. cbn [mbind res_bind].
  destruct (RandomSetSizeWithOutDelta _) as [n| |]; [|done..]. cbn [mbind res_bind].
  match goal with |- context [NewTesseract _ _ _ _ _ _ _ _ _ _ _ ?i] => set (info := i) end.
  destruct (new_tesseract_parts (participantStates cs hs) ixh rh 0 (ICSReqTime cs)
    (Receipts_FuelUsed (Transition_Receipts (CS_Transition cs))) 1000 poxt (SelfKramaID cs) (ixns cs)
    (Transition_Receipts (CS_Transition cs)) info) as (H1 & H2 & H3 & H4 & H5 & H6 & H7 & H8).
  intros H. injection H as <-. rewrite H1, H2, H3, H5, H6. done.
Qed.

(** What a successful proposal went through. *)
Lemma createProposalTesseract_inv w view c c' ts :
  createProposalTesseract vrfEvaluate self trustedPeersPresent debugMode w view c = Ret (c', inl ts) →
  ∃ t0 cs1 t1 hs cs2 poxt,
    SM_LoadTransitionObjects w (Ixs_Participants (ixns (CL_cs c))) = inl t0 ∧
    updateContextDelta trustedPeersPresent debugMode (CL_cs c) = Ret cs1 ∧
    ExecuteInteractions w t0 (ixns cs1) (ClusterExecutionContext cs1) = (t1, inl hs) ∧
    ClusterExcludeParticipants cs1 (ASH_ExcludedAccounts hs) = Ret cs2 ∧
    CL_cs c' = SetStateTransition t1 cs2 ∧
    generateTesseract (SetStateTransition t1 cs2) poxt hs = Ret (inl ts).
Proof.
  unfold createProposalTesseract, get_cs, set_cs, update_cs, UpdateVoteSet. intros H. eff_steps H.
  destruct (ExecuteInteractions w a _ _) as [t1 r] eqn:Ex. eff_steps H.
  destruct a8 as [newSeed proof]. eff_steps H. cbn in *.
  destruct (SM_LoadTransitionObjects w _) as [t|e]; [|done]. injection Ha as ->.
  exists a, a0, t1, a2, a3. eexists. split_and!; [done|done|by rewrite Ha1 in Ex|done|done|exact H].
Qed.

Lemma updateContextDelta_same cs cs' :
  updateContextDelta trustedPeersPresent debugMode cs = Ret cs' →
  ixns cs' = ixns cs ∧ CS_ClusterID cs' = CS_ClusterID cs.
Proof.
  unfold updateContextDelta. intros H.
  apply (foldM_preserves (λ c, ixns c = ixns cs ∧ CS_ClusterID c = CS_ClusterID cs) _ _ _ _ H); [done|].
  intros c [addr ps] c' _. cbn. destruct (needsDelta debugMode ps); [|by intros [= <-]].
  destruct (getContextNodes _ _ _ _) as [[b r]| |]; [|done..]. cbn. by intros [= <-].
Qed.
Lemma ClusterExcludeParticipants_same cs addrs cs' :
  ClusterExcludeParticipants cs addrs = Ret cs' → ixns cs' = ixns cs ∧ CS_ClusterID cs' = CS_ClusterID cs.
Proof. unfold ClusterExcludeParticipants. intros H. res_inv. done. Qed.

(** C19. An honest leader's proposal validates: the tesseract the leader builds is
    accepted by every validator that loads the same accounts from the same chain
    state and executes the interactions in the context the leader executed them
    in. *)
Theorem honest_proposal_validates w view c c' ts :
  createProposalTesseract vrfEvaluate self trustedPeersPresent debugMode w view c = Ret (c', inl ts) →
  leader_context (CL_cs c) = Ret (TsExecutionContext ts) →
  TsIxns ts = ixns (CL_cs c) ∧ TsClusterID ts = CS_ClusterID (CL_cs c) ∧
  ∃ transition, SM_LoadTransitionObjects w (Ixs_Participants (TsIxns ts)) = inl transition ∧
    let '(transition', r) := ExecuteAndValidate w ts transition in
    r = inl (TsSetReceipts ts (Transition_Receipts transition')).
Proof.
  intros H Hctx. apply createProposalTesseract_inv in H
    as (t0 & cs1 & t1 & hs & cs2 & poxt & Hl & Hu & Hx & He & _ & Hg).
  apply generateTesseract_parts in Hg as (Hp & Hi & Hc & _ & Hr).
  apply updateContextDelta_same in Hu as Hsame. apply ClusterExcludeParticipants_same in He as Hsame'.
  cbn in Hi, Hc, Hr. destruct Hsame as [Hi1 Hc1], Hsame' as [Hi2 Hc2].
  split; [congruence|]. split; [congruence|]. exists t0. split; [by rewrite Hi, Hi2, Hi1|].
  unfold leader_context in Hctx. rewrite Hu in Hctx. injection Hctx as Hctx.
  unfold ExecuteAndValidate. rewrite <-Hctx, Hi, Hi2, Hx. rewrite Hr. unfold isReceiptsHashValid.
  rewrite bool_decide_eq_true_2 by done. by rewrite (areStateHashesValid_built _ _ _ Hp).
Qed.

(** A locked tesseract is never proposed again: a tesseract that a leader built
    for some interactions is refused as the locked tesseract of any cluster with
    the very same interactions, because the hash of the whole list is compared
    with the hash of its first interaction (the two differ for the hash
    functions of the program). *)
Theorem locked_tesseract_refused w0 view0 c0 c0' w view addr ts h h0 hashes c :
  createProposalTesseract vrfEvaluate self trustedPeersPresent debugMode w0 view0 c0 = Ret (c0', inl ts) →
  ixns (CL_cs c) = ixns (CL_cs c0) →
  Ixs_Hash (ixns (CL_cs c0)) = inl h → IxHashes (ixns (CL_cs c0)) = h0 :: hashes → h ≠ h0 →
  createProposalTS vrfEvaluate self trustedPeersPresent debugMode w view {[ addr := ts ]} c
  = Ret (c, inr (ENew "ts lock mismatch")).
Proof.
  intros H Hsame Hl Hh Hne. apply createProposalTesseract_inv in H
    as (t0 & cs1 & t1 & hs & cs2 & poxt & _ & Hu & _ & He & _ & Hg).
  apply generateTesseract_parts in Hg as (_ & _ & _ & Hts & _). cbn in Hts.
  apply updateContextDelta_same in Hu as [Hi1 _]. apply ClusterExcludeParticipants_same in He as [Hi2 _].
  rewrite Hi2, Hi1, Hl in Hts. injection Hts as Hts.
  unfold createProposalTS, get_cs. rewrite gets_bind.
  unfold mbind, eff_bind, lift_res, lastLockedTS. rewrite map_to_list_singleton. cbn [efold].
  unfold IxnHash. rewrite Hsame, Hh. change (go_index (h0 :: hashes) 0) with (Ret h0). cbn [mbind res_bind].
  by rewrite decide_True by congruence.
Qed.
End Execution.
