(* ===== verification/Genesis.v ===== *)
(** * The genesis tesseract: [genesis.go]

    [SetupGenesis] reads the genesis file, makes a state object for the sarga
    account, every account, logic and asset of the file, and adds one tesseract
    with all of them to the lattice.  State objects are code of another module;
    each is reached through the transition map only, so it is a value kept in the
    map, and a method gives the object afterwards. *)

From Stdlib Require Import Strings.String.
From stdpp Require Import base gmap strings list fin_maps sorting.
From Stdlib Require Import ZArith Lia Strings.Byte.
From S2P Require Import Prelude Effect External Chain Types NodeSet Committee Cluster Execution.

(** Modules [common], [state], [compute] and the lattice. *)
Class GenesisChain (ET : ExtTypes) (EX : ExtOps ET) (TO : TesseractOps ET) (IX : InteractionOps ET EX)
    (CH : Chain ET EX TO IX) (XE : Execution ET EX TO IX CH) := {
  SargaAddress : Address;
  GenesisLogicAddrs : list Address;
  SargaAccount : Z;
  LogicAccount : Z;
  AssetAccount : Z;
  RegularAccount : Z;
  CreateAddressFromString : string → Address;
  Address_String : Address → string;
  ValidateAccountType : Z → option err;
  Hash_Hex : Hash → string;
  HexToHash : string → Z;
  Hex2Bytes : string → bytes;
  NoMsgType : ConsensusMsgType;
  NoInteractions : Interactions;
  NoReceipts : Receipts;
  (** [common.AssetCreationArgs] *)
  AssetInfo : Type;
  AssetDescriptor : Type;
  AI_Symbol : AssetInfo → string;
  AI_Operator : AssetInfo → Address;
  AI_Allocations : AssetInfo → list (Address * Z);
  AI_AssetDescriptor : AssetInfo → AssetDescriptor;
  SM_CreateStateObject : World → Address → Z → bool → StateObject;
  SO_Address : StateObject → Address;
  SO_CreateContext : StateObject → list KramaID → list KramaID → StateObject * option err;
  (** for [SargaLogicID] *)
  SO_CreateStorageTree : StateObject → StateObject * option err;
  (** with [GenesisIxHash] *)
  SO_AddAccountGenesisInfo : StateObject → Address → StateObject * option err;
  SO_CreateAsset : StateObject → Address → AssetDescriptor → StateObject * (AssetID + err);
  SO_AddBalance : StateObject → AssetID → Z → StateObject;
  SO_Commit : StateObject → StateObject * (Hash + err);
  SO_ContextHash : StateObject → Hash;
  SO_BehaviourIds : StateObject → list KramaID;
  (** [state.ObjectMap] *)
  GetObject : gmap Address StateObject → Address → option StateObject;
  NewTransitionOf : gmap Address StateObject → Transition;
  (** the operation of a new deploy interaction of the sarga account *)
  LogicDeployOp : string → bytes → bytes → IxOp + err;
  (** the logic's object, and an error or the error of the receipt *)
  DeployLogic : Z → IxOp → StateObject → StateObject → StateObject * (option string + err);
  L_AddTesseract : World → bool → Address → Tesseract → Transition → bool → World * option err;
}.
(** An object keeps its address. *)
Class GenesisLaws (ET : ExtTypes) (EX : ExtOps ET) (TO : TesseractOps ET) (IX : InteractionOps ET EX)
    (CH : Chain ET EX TO IX) (XE : Execution ET EX TO IX CH) (GC : GenesisChain ET EX TO IX CH XE) : Prop := {
  address_created : ∀ w a t n, SO_Address (SM_CreateStateObject w a t n) = a;
  address_context : ∀ o b r, SO_Address (SO_CreateContext o b r).1 = SO_Address o;
  address_storage : ∀ o, SO_Address (SO_CreateStorageTree o).1 = SO_Address o;
  address_info : ∀ o a, SO_Address (SO_AddAccountGenesisInfo o a).1 = SO_Address o;
  address_asset : ∀ o a d, SO_Address (SO_CreateAsset o a d).1 = SO_Address o;
  address_balance : ∀ o i x, SO_Address (SO_AddBalance o i x) = SO_Address o;
  address_commit : ∀ o, SO_Address (SO_Commit o).1 = SO_Address o;
  address_deploy : ∀ t op o d, SO_Address (DeployLogic t op o d).1 = SO_Address o;
  object_map : ∀ m a, GetObject m a = m !! a;
}.

Section Genesis.
Context `{ET : ExtTypes} `{EX : !ExtOps ET} `{TO : !TesseractOps ET} `{IX : !InteractionOps ET EX}.
Context `{CH : !Chain ET EX TO IX} `{XE : !Execution ET EX TO IX CH} `{GC : !GenesisChain ET EX TO IX CH XE}.

(** ** The genesis file *)
Record AccountSetupArgs := {
  AS_Address : Address;
  AS_AccType : Z;
  AS_BehaviouralContext : list KramaID;
  AS_RandomContext : list KramaID;
}.
Record AssetAccountSetupArgs := {
  AA_AssetInfo : AssetInfo;
  AA_BehaviouralContext : list KramaID;
  AA_RandomContext : list KramaID;
}.
Record LogicSetupArgs := {
  LS_Name : string;
  LS_Callsite : string;
  LS_Calldata : bytes;
  LS_Manifest : bytes;
  LS_BehaviouralContext : list KramaID;
  LS_RandomContext : list KramaID;
}.
Record GenesisFile := {
  GF_SargaAccount : AccountSetupArgs;
  GF_Accounts : list AccountSetupArgs;
  GF_AssetAccounts : list AssetAccountSetupArgs;
  GF_Logics : list LogicSetupArgs;
}.
(** [cfg.GenesisTimestamp], [cfg.GenesisSeed], [cfg.GenesisProof], what
    [os.ReadFile] gives for [cfg.GenesisFilePath], and [json.Unmarshal]. *)
Context (timestamp : Z) (icsSeed icsProof : string) (readFile : bytes + err) (unmarshal : bytes → GenesisFile + err).

Definition validateSargaAccountCreationInfo (acc : AccountSetupArgs) : option err :=
  if decide (AS_Address acc = SargaAddress) then None else Some (ECommon "ErrInvalidAddress").
Definition validateAccountCreationInfo : list AccountSetupArgs → option err := firstErr (λ acc,
  if decide (AS_Address acc = SargaAddress) then Some (ECommon "ErrInvalidAddress")
  else match ValidateAccountType (AS_AccType acc) with
       | Some e => Some (EWrap e ("invalid genesis account creation info " ++ Address_String (AS_Address acc))%string)
       | None => None
       end).
Definition validateAssetAccountCreationArgs : list AssetAccountSetupArgs → option err := firstErr (λ acc,
  match AI_Allocations (AA_AssetInfo acc) with [] => Some (ENew "empty allocations") | _ => None end).
Definition validateLogicCreationArgs : list LogicSetupArgs → option err := firstErr (λ acc,
  match LS_Manifest acc with [] => Some (ENew "invalid manifest") | _ => None end).
Definition parseGenesisFile : GenesisFile + err :=
  match wrap_err "failed to open genesis file" readFile with
  | inr e => inr e
  | inl data =>
      match wrap_err "failed to parse genesis file" (unmarshal data) with
      | inr e => inr e
      | inl genesisData =>
          match validateSargaAccountCreationInfo (GF_SargaAccount genesisData) with
          | Some e => inr (EWrap e "invalid sarga account info")
          | None =>
              match validateAccountCreationInfo (GF_Accounts genesisData) with
              | Some e => inr e
              | None =>
                  match validateAssetAccountCreationArgs (GF_AssetAccounts genesisData) with
                  | Some e => inr e
                  | None =>
                      match validateLogicCreationArgs (GF_Logics genesisData) with
                      | Some e => inr e
                      | None => inl genesisData
                      end
                  end
              end
          end
      end
  end.

(** ** The state objects *)
(** A method of an object that may fail; an object that failed is dropped. *)
Definition changed (r : StateObject * option err) : res (StateObject + err) :=
  Ret (match r.2 with None => inl r.1 | Some e => inr e end).
Definition wrapped {A} (msg : string) (m : res (A + err)) : res (A + err) := r ← m; Ret (wrap_err msg r).

Definition addGenesisInfo (stateObject : StateObject) (addr : Address) : res (StateObject + err) :=
  changed (SO_AddAccountGenesisInfo stateObject addr).
Definition setupSargaAccount (w : World) (sarga : AccountSetupArgs) (accounts : list AccountSetupArgs)
    (assets : list AssetAccountSetupArgs) (logics : list LogicSetupArgs) : res (StateObject + err) :=
  let! o := wrapped "context initiation failed in genesis"
    (changed (SO_CreateContext (SM_CreateStateObject w SargaAddress SargaAccount true)
                (AS_BehaviouralContext sarga) (AS_RandomContext sarga))) in
  let! o := wrapped "failed to create storage tree" (changed (SO_CreateStorageTree o)) in
  let! o := addGenesisInfo o SargaAddress in
  let! o := efold (λ o account, addGenesisInfo o (AS_Address account)) accounts o in
  let! o := efold (λ o logic, addGenesisInfo o (CreateAddressFromString (LS_Name logic))) logics o in
  efold (λ o assetAcc, addGenesisInfo o (CreateAddressFromString (AI_Symbol (AA_AssetInfo assetAcc)))) assets o.
Definition setupNewAccount (w : World) (info : AccountSetupArgs) : res (StateObject + err) :=
  wrapped "context initiation failed in genesis"
    (changed (SO_CreateContext (SM_CreateStateObject w (AS_Address info) (AS_AccType info) true)
                (AS_BehaviouralContext info) (AS_RandomContext info))).

(** One iteration of [setupGenesisLogics]. *)
Definition deployGenesisLogic (w : World) (transition : gmap Address StateObject) (logic : LogicSetupArgs)
    : res (gmap Address StateObject + err) :=
  let logicAddr := CreateAddressFromString (LS_Name logic) in
  if negb (bool_decide (logicAddr ∈ GenesisLogicAddrs))
  then Ret (inr (ENew "generated address does not exist in predefined contract address"))
  else
    let deployerState := SM_CreateStateObject w NilAddress RegularAccount true in
    let! logicState := wrapped "context initiation failed in genesis"
      (changed (SO_CreateContext (SM_CreateStateObject w logicAddr LogicAccount true)
                  (LS_BehaviouralContext logic) (LS_RandomContext logic))) in
    match LogicDeployOp (LS_Callsite logic) (LS_Calldata logic) (LS_Manifest logic) with
    | inr _ => Panic "NewInteraction failed"
    | inl op =>
        match DeployLogic timestamp op logicState deployerState with
        | (_, inr e) => Ret (inr (EWrap e "deployment failed for logic"))
        | (_, inl (Some e)) => Ret (inr (ENew ("deployment call failed: " ++ e)%string))
        | (logicState, inl None) => Ret (inl (<[SO_Address logicState := logicState]> transition))
        end
    end.
Definition setupGenesisLogics (w : World) (transition : gmap Address StateObject) (logics : list LogicSetupArgs)
    : res (gmap Address StateObject + err) := efold (deployGenesisLogic w) logics transition.

(** [transition\[addr\].CreateAsset(...)] *)
Definition createAsset (transition : gmap Address StateObject) (addr accAddress : Address) (d : AssetDescriptor)
    (stateObject : StateObject) : res (gmap Address StateObject * AssetID + err) :=
  Ret (match SO_CreateAsset stateObject accAddress d with
       | (o, inl assetID) => inl (<[addr := o]> transition, assetID)
       | (_, inr e) => inr e
       end).
Definition allocate (assetID : AssetID) (transition : gmap Address StateObject) (allocation : Address * Z)
    : res (gmap Address StateObject + err) :=
  match transition !! allocation.1 with
  | None => Ret (inr (ENew "allocation address not found in state objects"))
  | Some o => Ret (inl (<[allocation.1 := SO_AddBalance o assetID allocation.2]> transition))
  end.
(** One iteration of [setupAssetAccounts]. *)
Definition setupAssetAccount (w : World) (transition : gmap Address StateObject) (assetAccount : AssetAccountSetupArgs)
    : res (gmap Address StateObject + err) :=
  let info := AA_AssetInfo assetAccount in
  let accAddress := CreateAddressFromString (AI_Symbol info) in
  let! o := changed (SO_CreateContext (SM_CreateStateObject w accAddress AssetAccount true)
                       (AA_BehaviouralContext assetAccount) (AA_RandomContext assetAccount)) in
  let! '(transition, assetID) := createAsset transition accAddress accAddress (AI_AssetDescriptor info) o in
  let! transition :=
    (if decide (AI_Operator info = NilAddress) then Ret (inl transition)
     else match transition !! AI_Operator info with
          | None => Ret (inr (ENew "operator account not found"))
          | Some operator =>
              let! '(transition, _) := createAsset transition (AI_Operator info) accAddress (AI_AssetDescriptor info) operator in
              Ret (inl transition)
          end) in
  efold (allocate assetID) (AI_Allocations info) transition.
Definition setupAssetAccounts (w : World) (transition : gmap Address StateObject)
    (assetAccs : list AssetAccountSetupArgs) : res (gmap Address StateObject + err) :=
  efold (setupAssetAccount w) assetAccs transition.

(** ** The tesseract *)
(** One iteration of the loop over the transition. *)
Definition commitObject (acc : gmap Address StateObject * list Address * list Hash * list Hash)
    (entry : Address * StateObject)
    : res (gmap Address StateObject * list Address * list Hash * list Hash + err) :=
  let '(transition, addresses, stateHashes, contextHashes) := acc in
  Ret (match SO_Commit entry.2 with
       | (_, inr e) => inr e
       | (o, inl stateHash) =>
           inl (<[entry.1 := o]> transition, addresses ++ [SO_Address o], stateHashes ++ [stateHash],
                contextHashes ++ [SO_ContextHash o])
       end).

Definition hexLe (a b : Hash) : Prop := String.leb (Hash_Hex a) (Hash_Hex b) = true.
#[local] Instance hexLe_dec : RelDecision hexLe.
Proof. intros a b. unfold hexLe. apply _. Defined.
Definition sortHashes : list Hash → list Hash := merge_sort hexLe.
Definition genesisEntry (stateHash contextHash : Hash) (o : StateObject) : PState :=
  {| PS_PreviousContext := NilHash; PS_StateHash := stateHash; PS_Height := 0; PS_TransitiveLink := NilHash;
     PS_LatestContext := contextHash;
     PS_ContextDelta := Some {| BehaviouralNodes := SO_BehaviourIds o; RandomNodes := [] |} |}.
Definition genesisParticipants (addresses : list Address) (stateHashes contextHashes : list Hash)
    (transition : gmap Address StateObject) : res (gmap Address PState) :=
  foldM (λ participants '(i, addr),
    contextHash ← go_index contextHashes i;
    stateHash ← go_index stateHashes i;
    o ← deref (GetObject transition addr);
    Ret (<[addr := genesisEntry stateHash contextHash o]> participants))
    (imap (λ i addr, (Z.of_nat i, addr)) addresses) ∅.
Definition genesisCommit : CommitInfo :=
  {| CI_QC := None; CI_RandomSet := []; CI_RandomSetSizeWithoutDelta := 0; CI_Operator := ""; CI_ClusterID := "";
     CI_View := GenesisView |}.
Definition createGenesisTesseract (addresses : list Address) (stateHashes contextHashes : list Hash)
    (transition : gmap Address StateObject) : res Tesseract :=
  participants ← genesisParticipants addresses stateHashes contextHashes transition;
  let ixHashString := foldl (λ s h, s ++ Hash_Hex h)%string "Genesis"%string (sortHashes stateHashes) in
  let interactionsHash := GetHash (list_byte_of_string ixHashString) in
  let poxt := {| PX_Proposer := ""; PX_View := GenesisView; PX_LastCommit := ∅; PX_AccountLocks := ∅;
                 PX_ICSSeed := HexToHash icsSeed; PX_ICSProof := Hex2Bytes icsProof |} in
  let ts := NewTesseract participants interactionsHash NilHash 0 timestamp 0 0 poxt "" NoInteractions NoReceipts genesisCommit in
  Ret (TsSetCommitQc ts {| Qc_Type := NoMsgType; Qc_View := GenesisView; Qc_TSHash := TsHash ts; Qc_Address := NilAddress;
                           Qc_SignerIndices := None; Qc_Signature := [] |}).

Definition addGenesisTesseract (addresses : list Address) (stateHashes contextHashes : list Hash)
    (transition : gmap Address StateObject) : eff World () :=
  tesseract ← lift (createGenesisTesseract addresses stateHashes contextHashes transition);
  w ← gets id;
  let '(w', e) := L_AddTesseract w true NilAddress tesseract (NewTransitionOf transition) true in
  _ ← modify (λ _, w');
  check (match e with Some e => Some (EWrap e "error adding genesis tesseract") | None => None end).

(** The transition before it is committed. *)
Definition setupAccounts (w : World) (f : GenesisFile) : res (gmap Address StateObject + err) :=
  let! sargaObject := wrapped "failed to setup sarga account"
    (setupSargaAccount w (GF_SargaAccount f) (GF_Accounts f) (GF_AssetAccounts f) (GF_Logics f)) in
  let! transition := efold (λ transition v,
      let! o := wrapped "failed to setup genesis account" (setupNewAccount w v) in
      Ret (inl (<[AS_Address v := o]> transition)))
    (GF_Accounts f) {[ SO_Address sargaObject := sargaObject ]} in
  let! transition := wrapped "failed to setup genesis logic" (setupGenesisLogics w transition (GF_Logics f)) in
  wrapped "failed to setup asset accounts" (setupAssetAccounts w transition (GF_AssetAccounts f)).
Definition SetupGenesis : eff World () :=
  f ← lift_or (wrap_err "failed to parse genesis file" parseGenesisFile);
  w ← gets id;
  match SM_GetAccountMetaInfo w (AS_Address (GF_SargaAccount f)) with
  | inl _ => skip
  | inr _ =>
      transition ← lift_res (setupAccounts w f);
      '(transition, addresses, stateHashes, contextHashes) ←
        lift_res (efold commitObject (map_to_list transition) (transition, [], [], []));
      addGenesisTesseract addresses stateHashes contextHashes transition
  end.
End Genesis.
