(* ===== verification/GenesisSpec.v ===== *)
(** * Every node makes the same genesis tesseract: the theorems

    The tesseract depends on the state objects only, not on the order in which Go
    walks the map of them; and a successful setup adds exactly one, with one
    initial entry per account of the file. *)

From Stdlib Require Import Strings.String Strings.Ascii.
From stdpp Require Import base gmap strings list fin_maps sorting.
From Stdlib Require Import ZArith Lia Strings.Byte.
From S2P Require Import Prelude Effect External Chain Types NodeSet Committee Cluster Execution Genesis.

(** ** Strings are totally ordered *)
Lemma ascii_compare_Lt a b : Ascii.compare a b = Lt ↔ (N_of_ascii a < N_of_ascii b)%N.
Proof. unfold Ascii.compare. apply N.compare_lt_iff. Qed.
Lemma ascii_compare_refl a : Ascii.compare a a = Eq.
Proof. unfold Ascii.compare. apply N.compare_refl. Qed.
Lemma string_compare_refl s : String.compare s s = Eq.
Proof. induction s as [|a s IH]; [done|]. cbn. by rewrite ascii_compare_refl. Qed.
Lemma string_compare_trans s1 s2 s3 :
  String.compare s1 s2 = Lt → String.compare s2 s3 = Lt → String.compare s1 s3 = Lt.
Proof.
  revert s2 s3. induction s1 as [|a s1 IH]; intros [|b s2] [|c s3]; cbn; try done.
  destruct (Ascii.compare a b) eqn:Eab; [|..|done].
  - apply Ascii.compare_eq_iff in Eab as ->. destruct (Ascii.compare b c); try done. by apply IH.
  - intros _. destruct (Ascii.compare b c) eqn:Ebc; [..|done].
    + apply Ascii.compare_eq_iff in Ebc as ->. by rewrite Eab.
    + intros _. apply ascii_compare_Lt in Eab, Ebc. by rewrite (proj2 (ascii_compare_Lt a c) (N.lt_trans _ _ _ Eab Ebc)).
Qed.
Definition strLe (a b : string) : Prop := String.leb a b = true.
#[export] Instance strLe_trans : Transitive strLe.
Proof.
  intros a b c. unfold strLe, String.leb. destruct (String.compare a b) eqn:Eab; [..|done].
  - by apply String.compare_eq_iff in Eab as ->.
  - intros _. destruct (String.compare b c) eqn:Ebc; [..|done].
    + apply String.compare_eq_iff in Ebc as ->. by rewrite Eab.
    + by rewrite (string_compare_trans a b c).
Qed.
#[export] Instance strLe_anti : AntiSymm eq strLe.
Proof. intros a b. apply String.leb_antisym. Qed.

(** A loop that fills a map. *)
Lemma fill_lookup {K V W} `{Countable K} (g : V → W) (l : list (K * V)) (m : gmap K W) k :
  NoDup l.*1 →
  foldl (λ m p, <[p.1 := g p.2]> m) m l !! k
  = match (list_to_map l : gmap K V) !! k with Some x => Some (g x) | None => m !! k end.
Proof.
  revert m. induction l as [|[k' v] l IH]; intros m Hnd; cbn; [by rewrite lookup_empty|].
  apply NoDup_cons in Hnd as [Hk' Hnd]. rewrite IH by done.
  destruct (decide (k = k')) as [->|Hne].
  - rewrite lookup_insert_eq. by rewrite (proj1 (not_elem_of_list_to_map _ _) Hk'), lookup_insert_eq.
  - by rewrite !lookup_insert_ne by done.
Qed.
Lemma fill_all {K V W} `{Countable K} (g : V → W) (l : list (K * V)) (tr : gmap K V) (m : gmap K W) :
  l ≡ₚ map_to_list tr → (∀ k, is_Some (m !! k) → is_Some (tr !! k)) →
  foldl (λ m p, <[p.1 := g p.2]> m) m l = g <$> tr.
Proof.
  intros Hl Hm. assert (Hnd : NoDup l.*1) by (rewrite Hl; apply NoDup_fst_map_to_list).
  apply map_eq. intros k. rewrite fill_lookup by done. rewrite (list_to_map_proper l (map_to_list tr) Hnd Hl).
  rewrite list_to_map_to_list, lookup_fmap. destruct (tr !! k) as [o|] eqn:E; [done|]. cbn.
  destruct (m !! k) eqn:Em; [|done]. destruct (Hm k) as [x Hx]; [by eexists|]. congruence.
Qed.

Section Genesis.
Context `{ET : ExtTypes} `{EX : !ExtOps ET} `{TO : !TesseractOps ET} `{IX : !InteractionOps ET EX}.
Context `{CH : !Chain ET EX TO IX} `{XE : !Execution ET EX TO IX CH} `{GC : !GenesisChain ET EX TO IX CH XE}.
Context `{!GenesisLaws ET EX TO IX CH XE GC}.
Context (timestamp : Z) (icsSeed icsProof : string) (readFile : bytes + err) (unmarshal : bytes → GenesisFile + err).

(** ** The tesseract of a transition *)
(** Every object is under its own address. *)
Definition keyed (tr : gmap Address StateObject) : Prop := map_Forall (λ a o, SO_Address o = a) tr.
Definition committed (o : StateObject) : StateObject := (SO_Commit o).1.
Definition commitHash (o : StateObject) : option Hash := match (SO_Commit o).2 with inl h => Some h | inr _ => None end.
Definition entryOf (o : StateObject) : PState :=
  genesisEntry (default NilHash (commitHash o)) (SO_ContextHash (committed o)) (committed o).
Definition tesseractWith (participants : gmap Address PState) (stateHashes : list Hash) : Tesseract :=
  let ts := NewTesseract participants
    (GetHash (list_byte_of_string (foldl (λ s h, s ++ Hash_Hex h)%string "Genesis"%string (sortHashes stateHashes))))
    NilHash 0 timestamp 0 0
    {| PX_Proposer := ""; PX_View := GenesisView; PX_LastCommit := ∅; PX_AccountLocks := ∅;
       PX_ICSSeed := HexToHash icsSeed; PX_ICSProof := Hex2Bytes icsProof |} "" NoInteractions NoReceipts genesisCommit in
  TsSetCommitQc ts {| Qc_Type := NoMsgType; Qc_View := GenesisView; Qc_TSHash := TsHash ts; Qc_Address := NilAddress;
                      Qc_SignerIndices := None; Qc_Signature := [] |}.
Definition genesisOf (tr : gmap Address StateObject) : Tesseract :=
  tesseractWith (entryOf <$> tr) (omap commitHash (map_to_list tr).*2).

Lemma sort_hex l1 l2 : l1 ≡ₚ l2 → Hash_Hex <$> sortHashes l1 = Hash_Hex <$> sortHashes l2.
Proof.
  intros Hp. assert (Hs : ∀ l, Sorted strLe (Hash_Hex <$> sortHashes l)).
  { intros l. apply (Sorted_fmap Hash_Hex hexLe); [done|]. apply Sorted_merge_sort.
    intros a b. apply String.leb_total. }
  apply (Sorted_unique strLe); [apply Hs|apply Hs|]. apply fmap_Permutation. unfold sortHashes. by rewrite !merge_sort_Permutation.
Qed.
Lemma tesseractWith_perm ps l1 l2 : l1 ≡ₚ l2 → tesseractWith ps l1 = tesseractWith ps l2.
Proof.
  intros Hp. unfold tesseractWith.
  assert (Hf : ∀ l s, foldl (λ s h, s ++ Hash_Hex h)%string s l = foldl (λ s x, s ++ x)%string s (Hash_Hex <$> l)).
  { intros l. induction l as [|h l IH]; intros s; cbn; [done|apply IH]. }
  by rewrite (Hf (sortHashes l1)), (Hf (sortHashes l2)), (sort_hex l1 l2 Hp).
Qed.

(** ** The loops *)
Lemma commit_step tr a s c k o :
  SO_Address o = k →
  match commitHash o with
  | Some h => commitObject (tr, a, s, c) (k, o)
      = Ret (inl (<[k := committed o]> tr, a ++ [k], s ++ [h], c ++ [SO_ContextHash (committed o)]))
  | None => ∃ e, commitObject (tr, a, s, c) (k, o) = Ret (inr e)
  end.
Proof.
  intros <-. unfold commitObject, commitHash, committed. cbn [fst snd]. pose proof (address_commit o) as Ha.
  destruct (SO_Commit o) as [o' [h|e]]; cbn [fst snd] in *; [by rewrite Ha|by eexists].
Qed.
Lemma commit_fold l tr a s c :
  Forall (λ p, SO_Address p.2 = p.1) l →
  match mapM (λ p, commitHash p.2) l with
  | Some hs => efold commitObject l (tr, a, s, c)
      = Ret (inl (foldl (λ m p, <[p.1 := committed p.2]> m) tr l, a ++ l.*1, s ++ hs,
                  c ++ ((λ p, SO_ContextHash (committed p.2)) <$> l)))
  | None => ∃ e, efold commitObject l (tr, a, s, c) = Ret (inr e)
  end.
Proof.
  revert tr a s c. induction l as [|[k o] l IH]; intros tr a s c Hl; [cbn; by rewrite !app_nil_r|].
  apply Forall_cons in Hl as [Hk Hl]. pose proof (commit_step tr a s c k o Hk) as Hs. cbn [mapM efold snd].
  destruct (commitHash o) as [h|]; cbn [mbind option_bind]; [rewrite Hs|destruct Hs as [e ->]; by eexists].
  cbn [ebind]. specialize (IH (<[k:=committed o]> tr) (a ++ [k]) (s ++ [h]) (c ++ [SO_ContextHash (committed o)]) Hl).
  destruct (mapM (λ p, commitHash p.2) l) as [hs|]; cbn [mbind option_bind]; [|exact IH].
  rewrite IH. cbn [foldl fmap list_fmap fst snd]. by rewrite <-!app_assoc.
Qed.

Lemma participants_fold tr pre l hs (m : gmap Address PState) :
  Forall2 (λ p h, commitHash p.2 = Some h) (pre ++ l) hs →
  (∀ p, p ∈ l → tr !! p.1 = Some (committed p.2)) →
  foldM (λ participants '(i, addr),
    contextHash ← go_index ((λ p, SO_ContextHash (committed p.2)) <$> (pre ++ l)) i;
    stateHash ← go_index hs i;
    o ← deref (GetObject tr addr);
    Ret (<[addr := genesisEntry stateHash contextHash o]> participants))
    (imap (λ i addr, (Z.of_nat (length pre + i), addr)) l.*1) m
  = Ret (foldl (λ m p, <[p.1 := entryOf p.2]> m) m l).
Proof.
  revert pre m. induction l as [|[k o] l IH]; intros pre m Hhs Htr; [done|].
  cbn [fmap list_fmap imap foldM fst snd]. rewrite Nat.add_0_r.
  destruct (Forall2_lookup_l _ _ _ (length pre) (k, o) Hhs) as (h & Hh & Hc); [by rewrite list_lookup_middle|]. cbn in Hc.
  assert (Hctx : ((λ p : Address * StateObject, SO_ContextHash (committed p.2)) <$> pre ++ (k, o) :: l) !! length pre
                 = Some (SO_ContextHash (committed o))) by (by rewrite list_lookup_fmap, list_lookup_middle).
  rewrite (go_index_nat _ _ _ Hctx).
  cbn [mbind res_bind]. rewrite (go_index_nat _ _ _ Hh). cbn [mbind res_bind].
  pose proof (Htr (k, o) ltac:(by left)) as Htr'. cbn [fst snd] in Htr'. rewrite object_map, Htr'. cbn [deref mbind res_bind foldl fst snd].
  specialize (IH (pre ++ [(k, o)]) (<[k := entryOf o]> m)). rewrite <-app_assoc in IH. cbn [app] in IH.
  assert (Hent : genesisEntry h (SO_ContextHash (committed o)) (committed o) = entryOf o) by (unfold entryOf; by rewrite Hc).
  rewrite Hent, <-IH; [|done|intros p Hp; apply Htr; by right].
  f_equal. apply imap_ext. intros i x _. cbn. f_equal. rewrite length_app. cbn. lia.
Qed.

(** From the commits to the tesseract, for an order of the transition. *)
Definition genesisFrom (order : list (Address * StateObject)) (tr : gmap Address StateObject)
    : res (Tesseract * gmap Address StateObject + err) :=
  let! '(tr', addresses, stateHashes, contextHashes) := efold commitObject order (tr, [], [], []) in
  t ← createGenesisTesseract timestamp icsSeed icsProof addresses stateHashes contextHashes tr';
  Ret (inl (t, tr')).
Lemma genesisFrom_spec order tr :
  keyed tr → order ≡ₚ map_to_list tr →
  match mapM (λ p, commitHash p.2) order with
  | Some _ => genesisFrom order tr = Ret (inl (genesisOf tr, committed <$> tr))
  | None => ∃ e, genesisFrom order tr = Ret (inr e)
  end.
Proof.
  intros Hk Ho. assert (Hl : Forall (λ p, SO_Address p.2 = p.1) order).
  { rewrite Ho. apply Forall_forall. intros [k o] Hin. apply elem_of_map_to_list in Hin. by apply Hk. }
  pose proof (commit_fold order tr [] [] [] Hl) as Hf. unfold genesisFrom.
  destruct (mapM (λ p, commitHash p.2) order) as [hs|] eqn:Ehs; [|destruct Hf as [e ->]; by exists e].
  rewrite Hf. cbn [ebind app]. rewrite (fill_all committed order tr tr Ho) by done.
  apply mapM_Some in Ehs. unfold createGenesisTesseract, genesisParticipants.
  pose proof (participants_fold (committed <$> tr) [] order hs ∅ Ehs) as Hp. cbn [app length Nat.add] in Hp. rewrite Hp.
  2: { intros [k o] Hin. rewrite Ho in Hin. apply elem_of_map_to_list in Hin. cbn. by rewrite lookup_fmap, Hin. }
  cbn [mbind res_bind]. rewrite (fill_all entryOf order tr ∅ Ho) by (intros k; rewrite lookup_empty; by intros [? [=]]).
  f_equal. f_equal. f_equal. apply (tesseractWith_perm (entryOf <$> tr) hs). unfold genesisOf.
  assert (Hhs : omap commitHash order.*2 = hs).
  { clear -Ehs. induction Ehs as [|p h l hs Hph _ IH]; [done|]. cbn. by rewrite Hph, IH. }
  rewrite <-Hhs. by rewrite Ho.
Qed.

(** C27. The genesis tesseract does not depend on the order in which Go walks the map
    of the state objects: whichever order two nodes take, one makes a tesseract
    exactly when the other does, and it is the same tesseract over the same
    committed objects. *)
Theorem genesis_order_irrelevant tr order1 order2 x :
  keyed tr → order1 ≡ₚ map_to_list tr → order2 ≡ₚ map_to_list tr →
  genesisFrom order1 tr = Ret (inl x) ↔ genesisFrom order2 tr = Ret (inl x).
Proof.
  intros Hk H1 H2. pose proof (genesisFrom_spec order1 tr Hk H1) as S1. pose proof (genesisFrom_spec order2 tr Hk H2) as S2.
  assert (Hm : is_Some (mapM (λ p, commitHash p.2) order1) ↔ is_Some (mapM (λ p, commitHash p.2) order2)).
  { rewrite !mapM_is_Some, H1, H2. done. }
  destruct (mapM _ order1) as [l1|], (mapM _ order2) as [l2|].
  - by rewrite S1, S2.
  - by destruct (proj1 Hm ltac:(by eexists)).
  - by destruct (proj2 Hm ltac:(by eexists)).
  - destruct S1 as [e1 ->], S2 as [e2 ->]. done.
Qed.

(** ** The accounts of the transition *)
Lemma wrapped_inl {A} msg (m : res (A + err)) a : wrapped msg m = Ret (inl a) ↔ m = Ret (inl a).
Proof. unfold wrapped. destruct m as [[x|e]| |]; cbn; split; try done. Qed.
Lemma changed_inl r o : changed r = Ret (inl o) ↔ r.2 = None ∧ o = r.1.
Proof. unfold changed. destruct r as [x [e|]]; cbn; split; [done|by intros [[=] _]|by intros [= ->]|by intros [_ ->]]. Qed.

(** A loop that puts one object per element into the transition. *)
Lemma efold_accounts {A} (addr : A → Address) (f : gmap Address StateObject → A → res (gmap Address StateObject + err)) l tr tr' :
  (∀ m x m', f m x = Ret (inl m') → keyed m → keyed m' ∧ dom m' = {[ addr x ]} ∪ dom m) →
  efold f l tr = Ret (inl tr') → keyed tr → keyed tr' ∧ dom tr' = list_to_set (addr <$> l) ∪ dom tr.
Proof.
  intros Hf. revert tr. induction l as [|x l IH]; intros tr; cbn [efold].
  { intros [= <-] Hk. split; [done|]. cbn. set_solver. }
  intros (m & Hm & H)%ebind_inl Hk. destruct (Hf _ _ _ Hm Hk) as [Hk1 Hd1]. destruct (IH _ H Hk1) as [Hk2 Hd2].
  split; [done|]. rewrite Hd2, Hd1. cbn. set_solver.
Qed.
Lemma keyed_insert (m : gmap Address StateObject) a o :
  keyed m → SO_Address o = a → keyed (<[a := o]> m) ∧ dom (<[a := o]> m) = {[ a ]} ∪ dom m.
Proof. intros Hk Ha. split; [by apply map_Forall_insert_2|]. by rewrite dom_insert_L. Qed.

Lemma setupNewAccount_address w v o : setupNewAccount w v = Ret (inl o) → SO_Address o = AS_Address v.
Proof. intros [_ ->]%wrapped_inl%changed_inl. by rewrite address_context, address_created. Qed.
Lemma addInfo_address o a o' : addGenesisInfo o a = Ret (inl o') → SO_Address o' = SO_Address o.
Proof. intros [_ ->]%changed_inl. apply address_info. Qed.
Lemma efold_address {A} (f : A → Address) l o o' :
  efold (λ o x, addGenesisInfo o (f x)) l o = Ret (inl o') → SO_Address o' = SO_Address o.
Proof.
  revert o. induction l as [|x l IH]; intros o; cbn [efold]; [by intros [= <-]|].
  intros (o1 & H1 & H)%ebind_inl. rewrite (IH _ H). by eapply addInfo_address.
Qed.
Lemma setupSarga_address w sarga accounts assets logics o :
  setupSargaAccount w sarga accounts assets logics = Ret (inl o) → SO_Address o = SargaAddress.
Proof.
  unfold setupSargaAccount. intros (o1 & H1 & H)%ebind_inl. apply wrapped_inl, changed_inl in H1 as [_ ->].
  apply ebind_inl in H as (o2 & H2 & H). apply wrapped_inl, changed_inl in H2 as [_ ->].
  apply ebind_inl in H as (o3 & H3%addInfo_address & H). apply ebind_inl in H as (o4 & H4%efold_address & H).
  apply ebind_inl in H as (o5 & H5%efold_address & H). apply efold_address in H.
  by rewrite H, H5, H4, H3, address_storage, address_context, address_created.
Qed.
Definition logicAddress (l : LogicSetupArgs) : Address := CreateAddressFromString (LS_Name l).
Definition assetAddress (a : AssetAccountSetupArgs) : Address := CreateAddressFromString (AI_Symbol (AA_AssetInfo a)).

Lemma deployGenesisLogic_accounts w m l m' :
  deployGenesisLogic timestamp w m l = Ret (inl m') → keyed m → keyed m' ∧ dom m' = {[ logicAddress l ]} ∪ dom m.
Proof.
  unfold deployGenesisLogic. cbv zeta. destruct (negb _); [done|]. intros (o & Ho & H)%ebind_inl Hk.
  apply wrapped_inl, changed_inl in Ho as [_ ->]. destruct (LogicDeployOp _ _ _) as [op|]; [|done].
  match type of H with context [DeployLogic ?t op ?o ?d] => pose proof (address_deploy t op o d) as Ha; destruct (DeployLogic t op o d) as [o' [[e|]|e]] end;
    [done| |done].
  injection H as <-. cbn in Ha. rewrite address_context, address_created in Ha. rewrite Ha. by apply keyed_insert.
Qed.
Lemma createAsset_accounts m a acc d o m' i :
  createAsset m a acc d o = Ret (inl (m', i)) → SO_Address o = a → keyed m → keyed m' ∧ dom m' = {[ a ]} ∪ dom m.
Proof.
  unfold createAsset. pose proof (address_asset o acc d) as Ha. destruct (SO_CreateAsset o acc d) as [o' [x|e]]; [|done].
  intros [= <- <-] Ho Hk. apply keyed_insert; [done|]. cbn in Ha. congruence.
Qed.
Lemma allocate_accounts i m al m' : allocate i m al = Ret (inl m') → keyed m → keyed m' ∧ dom m' = dom m.
Proof.
  unfold allocate. destruct (m !! al.1) as [o|] eqn:E; [|done]. intros [= <-] Hk.
  destruct (keyed_insert m al.1 (SO_AddBalance o i al.2) Hk) as [Hk' Hd]; [rewrite address_balance; by apply Hk|].
  split; [done|]. rewrite Hd. apply elem_of_dom_2 in E. set_solver.
Qed.
Lemma allocations_accounts i l m m' : efold (allocate i) l m = Ret (inl m') → keyed m → keyed m' ∧ dom m' = dom m.
Proof.
  revert m. induction l as [|al l IH]; intros m; cbn [efold]; [by intros [= <-]|].
  intros (m1 & H1 & H)%ebind_inl Hk. destruct (allocate_accounts _ _ _ _ H1 Hk) as [Hk1 <-]. by apply IH.
Qed.
Lemma setupAssetAccount_accounts w m a m' :
  setupAssetAccount w m a = Ret (inl m') → keyed m → keyed m' ∧ dom m' = {[ assetAddress a ]} ∪ dom m.
Proof.
  unfold setupAssetAccount. cbv zeta. intros (o & Ho & H)%ebind_inl Hk. apply changed_inl in Ho as [_ ->].
  apply ebind_inl in H as ([m1 i] & H1 & H). apply createAsset_accounts in H1 as [Hk1 Hd1];
    [|by rewrite address_context, address_created|done].
  apply ebind_inl in H as (m2 & H2 & H). assert (Hm2 : keyed m2 ∧ dom m2 = dom m1).
  { revert H2. case_decide; [by intros [= <-]|]. destruct (m1 !! _) as [op|] eqn:Eo; [|done].
    intros ([m3 i3] & H3 & H3')%ebind_inl. injection H3' as <-.
    apply createAsset_accounts in H3 as [Hk3 ->]; [|by apply Hk1|done]. split; [done|].
    apply elem_of_dom_2 in Eo. set_solver. }
  destruct Hm2 as [Hk2 Hd2]. apply allocations_accounts in H as [Hk3 Hd3]; [|done]. split; [done|by rewrite Hd3, Hd2, Hd1].
Qed.

Lemma setupAccounts_spec w f tr :
  setupAccounts timestamp w f = Ret (inl tr) →
  keyed tr ∧ dom tr = list_to_set (assetAddress <$> GF_AssetAccounts f) ∪ (list_to_set (logicAddress <$> GF_Logics f) ∪
    (list_to_set (AS_Address <$> GF_Accounts f) ∪ {[ SargaAddress ]})).
Proof.
  unfold setupAccounts. intros (o & Ho & H)%ebind_inl. apply wrapped_inl, setupSarga_address in Ho. rewrite Ho in H.
  apply ebind_inl in H as (m1 & H1 & H). apply ebind_inl in H as (m2 & H2 & H). apply wrapped_inl in H2. apply wrapped_inl in H.
  apply (efold_accounts AS_Address) in H1 as [Hk1 Hd1].
  2: { intros m v m' (o' & Hv & Hm)%ebind_inl Hk. injection Hm as <-. apply wrapped_inl, setupNewAccount_address in Hv.
       by apply keyed_insert. }
  2: { intros a o' [<- <-]%lookup_singleton_Some. done. }
  apply (efold_accounts logicAddress) in H2 as [Hk2 Hd2]; [|by apply deployGenesisLogic_accounts|done].
  apply (efold_accounts assetAddress) in H as [Hk3 Hd3]; [|by apply setupAssetAccount_accounts|done].
  split; [done|]. by rewrite Hd3, Hd2, Hd1, dom_singleton_L.
Qed.

Lemma parse_sarga f : parseGenesisFile readFile unmarshal = inl f → AS_Address (GF_SargaAccount f) = SargaAddress.
Proof.
  unfold parseGenesisFile. destruct (wrap_err _ readFile) as [raw|]; [|done]. destruct (wrap_err _ (unmarshal raw)) as [g|]; [|done].
  unfold validateSargaAccountCreationInfo. case_decide as Hs; [|done]. by repeat (case_match; try done); intros [= <-].
Qed.

(** C28. What setting up the genesis does: when the sarga account is known nothing;
    otherwise a success adds exactly one tesseract, in which exactly the sarga
    account, the accounts, the logics and the assets of the file have an entry,
    each the initial one of its committed object; and an error leaves the node as
    it was, unless it is the lattice that refused the tesseract. *)
Theorem genesis_setup w w' r :
  SetupGenesis timestamp icsSeed icsProof readFile unmarshal w = Ret (w', r) →
  match r with
  | inr e => w' = w ∨ ∃ t tr e0, e = EWrap e0 "error adding genesis tesseract" ∧
      L_AddTesseract w true NilAddress t (NewTransitionOf tr) true = (w', Some e0)
  | inl _ => ∃ f, parseGenesisFile readFile unmarshal = inl f ∧
      ((∃ m, SM_GetAccountMetaInfo w SargaAddress = inl m) ∧ w' = w ∨
       (∃ e, SM_GetAccountMetaInfo w SargaAddress = inr e) ∧ ∃ tr,
         dom tr = {[ SargaAddress ]} ∪ list_to_set (AS_Address <$> GF_Accounts f) ∪
                  list_to_set (logicAddress <$> GF_Logics f) ∪ list_to_set (assetAddress <$> GF_AssetAccounts f) ∧
         (∀ a o, tr !! a = Some o → SO_Address o = a ∧ is_Some (commitHash o)) ∧
         L_AddTesseract w true NilAddress (genesisOf tr) (NewTransitionOf (committed <$> tr)) true = (w', None))
  end.
Proof.
  unfold SetupGenesis. destruct (parseGenesisFile readFile unmarshal) as [f|e] eqn:Ef; [|intros [= <- <-]; by left].
  rewrite (bind_run (lift_or _) _ w w f) by done. rewrite gets_bind. cbn [id]. rewrite (parse_sarga _ Ef).
  destruct (SM_GetAccountMetaInfo w SargaAddress) as [m|e] eqn:Em.
  { intros [= <- <-]. exists f. split; [done|]. left. split; [by eexists|done]. }
  destruct (setupAccounts timestamp w f) as [[tr|e0]| |] eqn:Es; [|intros H..].
  2: { rewrite (bind_fails (lift_res _) _ w w e0) in H by done. injection H as <- <-. by left. }
  2, 3: discriminate H.
  rewrite (bind_run (lift_res _) _ w w tr) by done. apply setupAccounts_spec in Es as [Hk Hd].
  pose proof (genesisFrom_spec (map_to_list tr) tr Hk ltac:(done)) as Hg. unfold genesisFrom in Hg.
  destruct (mapM _ (map_to_list tr)) as [hs|] eqn:Ehs.
  - destruct (efold commitObject _ _) as [[[[[tr' a] s] c]|e0]| |]; [|discriminate Hg..]. cbn [ebind] in Hg.
    apply bind_Ret in Hg as (t & Ht & Hg). injection Hg as -> ->.
    rewrite (bind_run (lift_res _) _ w w (committed <$> tr, a, s, c)) by done. unfold addGenesisTesseract.
    rewrite Ht. rewrite (bind_run (lift _) _ w w (genesisOf tr)) by done. rewrite gets_bind. cbn [id].
    destruct (L_AddTesseract _ _ _ _ _ _) as [w1 [e1|]] eqn:Ea; intros [= <- <-].
    + right. eauto.
    + exists f. split; [done|]. right. split; [by eexists|]. exists tr. split; [rewrite Hd; set_solver|]. split; [|done].
      intros k o Hko. split; [by apply Hk|]. apply mk_is_Some in Ehs. rewrite mapM_is_Some, Forall_forall in Ehs.
      apply (Ehs (k, o)). by apply elem_of_map_to_list.
  - destruct Hg as [e0 Hg]. destruct (efold commitObject _ _) as [[[[[tr' a] s] c]|e1]| |]; [|..|discriminate Hg|discriminate Hg].
    + cbn [ebind] in Hg. apply bind_Ret in Hg as (t & _ & Hg). discriminate Hg.
    + intros [= <- <-]. by left.
Qed.
End Genesis.
