(* ===== verification/Safety.v ===== *)
(** * Safety information: [safety/safety.go]

    Before it signs a precommit, and again when it commits, a node stores the
    certificate per account and the proposal per tesseract.  The key-value store
    is an interface implemented outside the repository: [SafetyStore] gives its
    operations and [SafetyStoreLaws] what a store of this kind documents. *)

From stdpp Require Import base gmap strings list fin_maps.
From Stdlib Require Import ZArith Lia.
From S2P Require Import Prelude External Types Concrete.

(** [errors.Is(err, common.<name>)] *)
Fixpoint err_is (e : err) (name : string) : bool :=
  match e with
  | ECommon n => String.eqb n name
  | EWrap e' _ => err_is e' name
  | ENew _ | EExternal _ => false
  end.

(** [store] *)
Class SafetyStore (ET : ExtTypes) := {
  DB : Type;
  (** address and latest tesseract hash of [common.AccountMetaInfo] *)
  DB_GetAccountMetaInfo : DB → Address → (Address * Hash) + err;
  DB_GetSafetyData : DB → Address → bytes + err;
  DB_GetCommitInfo : DB → Hash → bytes + err;
  DB_SetSafetyData : DB → Address → bytes → DB * option err;
  DB_SetConsensusProposalInfo : DB → Hash → bytes → DB * option err;
  DB_GetConsensusProposalInfo : DB → Hash → bytes + err;
  DB_DeleteConsensusProposalInfo : DB → Hash → DB * option err;
  DB_GetAllConsensusProposalInfo : DB → list bytes + err;
  DB_DeleteSafetyData : DB → Address → DB * option err;
}.

(** A write that succeeds is read back, and touches nothing else. *)
Class SafetyStoreLaws (ET : ExtTypes) (ST : SafetyStore ET) : Prop := {
  db_set_get : ∀ db db' a raw, DB_SetSafetyData db a raw = (db', None) →
    ∀ b, DB_GetSafetyData db' b = if decide (a = b) then inl raw else DB_GetSafetyData db b;
  db_set_proposals : ∀ db db' a raw, DB_SetSafetyData db a raw = (db', None) →
    ∀ h, DB_GetConsensusProposalInfo db' h = DB_GetConsensusProposalInfo db h;
  db_proposal_get : ∀ db db' h raw, DB_SetConsensusProposalInfo db h raw = (db', None) →
    ∀ h', DB_GetConsensusProposalInfo db' h'
          = if decide (h = h') then inl raw else DB_GetConsensusProposalInfo db h';
  db_proposal_safety : ∀ db db' h raw, DB_SetConsensusProposalInfo db h raw = (db', None) →
    ∀ a, DB_GetSafetyData db' a = DB_GetSafetyData db a;
  db_delete_get : ∀ db db' h, DB_DeleteConsensusProposalInfo db h = (db', None) →
    DB_GetConsensusProposalInfo db' h = inr (ECommon "ErrKeyNotFound") ∧
    ∀ h', h' ≠ h → DB_GetConsensusProposalInfo db' h' = DB_GetConsensusProposalInfo db h';
  db_delete_safety : ∀ db db' h, DB_DeleteConsensusProposalInfo db h = (db', None) →
    ∀ a, DB_GetSafetyData db' a = DB_GetSafetyData db a;
}.

(** The parts of a tesseract a [ProposalInfo] carries next to it, and
    [CommitInfo.FromBytes]. *)
Class TesseractParts (ET : ExtTypes) (TO : TesseractOps ET) := {
  TsInteractions : Type;
  TsReceipts : Type;
  TsCommitInfo : Type;
  GetInteractions : Tesseract → TsInteractions;
  GetReceipts : Tesseract → TsReceipts;
  GetCommitInfo : Tesseract → TsCommitInfo;
  WithIxnAndReceipts : Tesseract → TsInteractions → TsReceipts → TsCommitInfo → Tesseract;
  CommitInfo_QC : bytes → Qc + err;
}.

Section Safety.
Context `{ET : ExtTypes} `{!TesseractOps ET} `{!SafetyStore ET} `{!TesseractParts ET _}.
Context `{!PoloCodec SafetyData}.

Record ProposalInfo := {
  PI_TS : Tesseract;
  PI_Ixns : TsInteractions;
  PI_Receipts : TsReceipts;
  PI_CommitInfo : TsCommitInfo;
}.

Definition NewProposalInfo (ts : Tesseract) : ProposalInfo :=
  {| PI_TS := ts; PI_Ixns := GetInteractions ts; PI_Receipts := GetReceipts ts;
     PI_CommitInfo := GetCommitInfo ts |}.
Definition ProposalInfo_Tesseract (pi : ProposalInfo) : Tesseract :=
  WithIxnAndReceipts (PI_TS pi) (PI_Ixns pi) (PI_Receipts pi) (PI_CommitInfo pi).

Context `{!PoloCodec ProposalInfo}.

Definition ProposalInfo_Bytes (pi : ProposalInfo) : bytes + err := Polorize pi.
Definition ProposalInfo_FromBytes (raw : bytes) : ProposalInfo + err := Depolorize raw.

Definition getSafetyData (db : DB) (addr : Address) : SafetyData + err :=
  match DB_GetSafetyData db addr with
  | inr e => inr e
  | inl raw => SafetyData_FromBytes raw
  end.

Definition setSafetyData (db : DB) (addr : Address) (data : SafetyData) : DB * option err :=
  match SafetyData_Bytes data with
  | inr e => (db, Some e)
  | inl raw => DB_SetSafetyData db addr raw
  end.

Definition GetLatestSafetyInfo (db : DB) (addr : Address) : SafetyData + err :=
  match DB_GetAccountMetaInfo db addr with
  | inr e => inr e
  | inl (maddr, mhash) =>
      match getSafetyData db maddr with
      | inl info => inl info
      | inr e =>
          if err_is e "ErrKeyNotFound" then
            match DB_GetCommitInfo db mhash with
            | inr e => inr e
            | inl raw =>
                match CommitInfo_QC raw with
                | inr e => inr e
                | inl qc => inl {| SD_Qc := [qc]; SD_TSHashes := [mhash] |}
                end
            end
          else inr e
      end
  end.

(** One iteration of the loop of [UpdateSafetyInfo]. *)
Definition updateAccount (qc : Qc) (db : DB) (addr : Address) : DB * option err :=
  setSafetyData db addr
    match getSafetyData db addr with
    | inr _ => {| SD_Qc := [qc]; SD_TSHashes := [Qc_TSHash qc] |}
    | inl info => SafetyData_UpdateQc info qc
    end.

Fixpoint updateAccounts (qc : Qc) (addrs : list Address) (db : DB) : DB * option err :=
  match addrs with
  | [] => (db, None)
  | addr :: rest =>
      match updateAccount qc db addr with
      | (db', Some e) => (db', Some e)
      | (db', None) => updateAccounts qc rest db'
      end
  end.

(** The part after the loop, on the proposal's tesseract. *)
Definition updateProposalInfo (qc : Qc) (ts : Tesseract) (db : DB) : DB * option err :=
  match Qc_Type qc with
  | PREVOTE =>
      match ProposalInfo_Bytes (NewProposalInfo ts) with
      | inr e => (db, Some e)
      | inl raw => DB_SetConsensusProposalInfo db (TsHash ts) raw
      end
  | PRECOMMIT => DB_DeleteConsensusProposalInfo db (TsHash ts)
  | _ => (db, None)
  end.

(** [load] dereferences the tesseract pointer; a nil proposal panics in
    [p.Heights()].  Go's map order is unspecified; [map_to_list] is one order. *)
Definition UpdateSafetyInfo (load : option positive → res Tesseract) (db : DB) (p : option Proposal)
    (qc : Qc) : res (DB * option err) :=
  prop ← deref p;
  ts ← load (Prop_Tesseract prop);
  Ret match updateAccounts qc (map_to_list (TsHeights ts)).*1 db with
      | (db', Some e) => (db', Some e)
      | (db', None) => updateProposalInfo qc ts db'
      end.

Fixpoint decodeInfos (raws : list bytes) (acc : list Tesseract) : list Tesseract + err :=
  match raws with
  | [] => inl acc
  | raw :: rest =>
      match ProposalInfo_FromBytes raw with
      | inr e => inr e
      | inl info => decodeInfos rest (acc ++ [ProposalInfo_Tesseract info])
      end
  end.
Definition GetFailedViewTS (db : DB) : list Tesseract + err :=
  match DB_GetAllConsensusProposalInfo db with
  | inr e => inr e
  | inl raws => decodeInfos raws []
  end.

Definition GetTesseract (db : DB) (tsHash : Hash) : Tesseract + err :=
  match DB_GetConsensusProposalInfo db tsHash with
  | inr e => inr e
  | inl raw =>
      match ProposalInfo_FromBytes raw with
      | inr e => inr e
      | inl info => inl (ProposalInfo_Tesseract info)
      end
  end.

Definition DeleteSafetyData (db : DB) (addr : Address) : DB * option err :=
  DB_DeleteSafetyData db addr.

(** ** Theorems *)
Context `{!SafetyStoreLaws ET _} `{!PoloRoundTrip SafetyData} `{!PoloRoundTrip ProposalInfo}.

Lemma setSafetyData_get db addr sd db' :
  setSafetyData db addr sd = (db', None) →
  (∀ b, getSafetyData db' b = if decide (addr = b) then inl sd else getSafetyData db b) ∧
  (∀ h, DB_GetConsensusProposalInfo db' h = DB_GetConsensusProposalInfo db h).
Proof.
  unfold setSafetyData. destruct (SafetyData_Bytes sd) as [raw|e] eqn:E; [|done].
  intros Hs. split; [|by apply (db_set_proposals _ _ _ _ Hs)].
  intros b. unfold getSafetyData. rewrite (db_set_get _ _ _ _ Hs b). case_decide; [|done].
  by apply SafetyData_roundtrip.
Qed.

(** What a successful loop leaves for an account. *)
Definition recorded (qc : Qc) (old new : SafetyData + err) : Prop :=
  ∃ sd, new = inl sd ∧ last (SD_Qc sd) = Some qc ∧
    sd = match old with
         | inl info => SafetyData_UpdateQc info qc
         | inr _ => {| SD_Qc := [qc]; SD_TSHashes := [Qc_TSHash qc] |}
         end.

Lemma updateAccount_get qc db addr db' :
  updateAccount qc db addr = (db', None) →
  recorded qc (getSafetyData db addr) (getSafetyData db' addr) ∧
  (∀ b, b ≠ addr → getSafetyData db' b = getSafetyData db b) ∧
  (∀ h, DB_GetConsensusProposalInfo db' h = DB_GetConsensusProposalInfo db h).
Proof.
  intros [Hg Hp]%setSafetyData_get. split_and!; [| |done].
  - rewrite Hg, decide_True by done. eexists. split; [done|]. split; [|done].
    destruct (getSafetyData db addr); [apply SafetyData_UpdateQc_last|done].
  - intros b Hne. by rewrite Hg, decide_False by done.
Qed.

Lemma updateAccounts_get qc addrs db db' :
  NoDup addrs → updateAccounts qc addrs db = (db', None) →
  (∀ a, a ∈ addrs → recorded qc (getSafetyData db a) (getSafetyData db' a)) ∧
  (∀ a, a ∉ addrs → getSafetyData db' a = getSafetyData db a) ∧
  (∀ h, DB_GetConsensusProposalInfo db' h = DB_GetConsensusProposalInfo db h).
Proof.
  revert db. induction addrs as [|x addrs IH]; intros db Hnd H; cbn in H.
  - injection H as ->. split_and!; try done. intros a Ha. by apply elem_of_nil in Ha.
  - apply NoDup_cons in Hnd as [Hx Hnd].
    destruct (updateAccount qc db x) as [db1 [e|]] eqn:E; [done|].
    destruct (updateAccount_get _ _ _ _ E) as (Hr & Ho & Hp).
    destruct (IH db1 Hnd H) as (Hr' & Ho' & Hp'). split_and!.
    + intros a [->|Ha]%elem_of_cons; [by rewrite Ho'|].
      rewrite <-(Ho a) by (intros ->; done). by apply Hr'.
    + intros a [Hne Ha]%not_elem_of_cons. by rewrite Ho', Ho.
    + intros h. by rewrite Hp', Hp.
Qed.

(** Storing a certificate: when [UpdateSafetyInfo] reports no error, every
    account of the proposal holds it as its latest certificate, which is what
    [GetLatestSafetyInfo] then answers for it, no other account is touched, and the proposal itself can be read back under its hash after a
    prevote certificate and is gone after a precommit certificate. *)
Theorem UpdateSafetyInfo_records load db p ts qc db' :
  load (Prop_Tesseract p) = Ret ts →
  UpdateSafetyInfo load db (Some p) qc = Ret (db', None) →
  (∀ a h, a ∈ dom (TsHeights ts) → DB_GetAccountMetaInfo db' a = inl (a, h) →
     ∃ sd, GetLatestSafetyInfo db' a = inl sd ∧
       last (SD_Qc sd) = Some qc ∧ SafetyData_LastView sd = Ret (Qc_View qc)) ∧
  (∀ a, a ∉ dom (TsHeights ts) → getSafetyData db' a = getSafetyData db a) ∧
  (Qc_Type qc = PREVOTE →
     GetTesseract db' (TsHash ts) = inl (ProposalInfo_Tesseract (NewProposalInfo ts))) ∧
  (Qc_Type qc = PRECOMMIT →
     GetTesseract db' (TsHash ts) = inr (ECommon "ErrKeyNotFound")).
Proof.
  intros Hl H. unfold UpdateSafetyInfo in H. cbn [deref mbind res_bind] in H. rewrite Hl in H.
  cbn [mbind res_bind] in H. injection H as H.
  set (addrs := (map_to_list (TsHeights ts)).*1) in *.
  assert (Hdom : ∀ a, a ∈ addrs ↔ a ∈ dom (TsHeights ts)).
  { intros a. unfold addrs. rewrite elem_of_dom, list_elem_of_fmap. split.
    - intros ([a' z] & -> & Hin%elem_of_map_to_list). by eexists.
    - intros [z Hz]. exists (a, z). split; [done|]. by apply elem_of_map_to_list. }
  destruct (updateAccounts qc addrs db) as [db1 [e|]] eqn:E; [done|].
  apply updateAccounts_get in E as (Hr & Ho & Hp); [|apply NoDup_fst_map_to_list].
  assert (Hsame : ∀ a, getSafetyData db' a = getSafetyData db1 a).
  { intros a. unfold getSafetyData. unfold updateProposalInfo in H.
    destruct (Qc_Type qc); [destruct (ProposalInfo_Bytes _); [|done]|..|by injection H as ->|by injection H as ->].
    - by rewrite (db_proposal_safety _ _ _ _ H a).
    - by rewrite (db_delete_safety _ _ _ H a). }
  split_and!.
  - intros a h Ha%Hdom Hmeta. destruct (Hr a Ha) as (sd & Hsd & Hlast & _).
    rewrite <-Hsame in Hsd. exists sd. split_and!; [|done|].
    { unfold GetLatestSafetyInfo. by rewrite Hmeta, Hsd. }
    unfold SafetyData_LastView. by rewrite (last_go_index _ _ Hlast).
  - intros a Ha. rewrite Hsame. apply Ho. by rewrite Hdom.
  - intros Ht. unfold updateProposalInfo in H. rewrite Ht in H.
    destruct (ProposalInfo_Bytes (NewProposalInfo ts)) as [raw|] eqn:Eb; [|done].
    unfold GetTesseract. rewrite (db_proposal_get _ _ _ _ H), decide_True by done.
    unfold ProposalInfo_FromBytes. by rewrite (depolorize_polorize _ _ Eb).
  - intros Ht. unfold updateProposalInfo in H. rewrite Ht in H. unfold GetTesseract.
    by rewrite (proj1 (db_delete_get _ _ _ H)).
Qed.

(** A certificate for an older view is appended, and the account then reports the
    older view as its last. *)
Lemma UpdateQc_older_regresses sd l qc :
  last (SD_Qc sd) = Some l → Qc_View qc < Qc_View l →
  SafetyData_LastView sd = Ret (Qc_View l) ∧
  SafetyData_LastView (SafetyData_UpdateQc sd qc) = Ret (Qc_View qc).
Proof.
  intros Hl _. split; [|apply SafetyData_UpdateQc_LastView].
  unfold SafetyData_LastView. by rewrite (last_go_index _ _ Hl).
Qed.
End Safety.

(** ** A store in memory, and the witness *)
#[local] Existing Instances CE CX CT.

Record MemDB := {
  m_meta : gmap Z Z;
  m_safety : gmap Z bytes;
  m_commit : gmap Z bytes;
  m_proposals : gmap Z bytes;
}.
Definition m_get (m : gmap Z bytes) (k : Z) : bytes + err :=
  match m !! k with Some raw => inl raw | None => inr (ECommon "ErrKeyNotFound") end.
Definition m_set_safety (db : MemDB) (m : gmap Z bytes) : MemDB :=
  {| m_meta := m_meta db; m_safety := m; m_commit := m_commit db; m_proposals := m_proposals db |}.
Definition m_set_proposals (db : MemDB) (m : gmap Z bytes) : MemDB :=
  {| m_meta := m_meta db; m_safety := m_safety db; m_commit := m_commit db; m_proposals := m |}.

Definition MemStore : SafetyStore CE := @Build_SafetyStore CE MemDB
  (λ db a, match m_meta db !! a with
           | Some h => inl (a, h) | None => inr (ECommon "ErrKeyNotFound") end)
  (λ db a, m_get (m_safety db) a)
  (λ db h, m_get (m_commit db) h)
  (λ db a raw, (m_set_safety db (<[a := raw]> (m_safety db)), None))
  (λ db h raw, (m_set_proposals db (<[h := raw]> (m_proposals db)), None))
  (λ db h, m_get (m_proposals db) h)
  (λ db h, (m_set_proposals db (delete h (m_proposals db)), None))
  (λ db, inl (map_to_list (m_proposals db)).*2)
  (λ db a, (m_set_safety db (delete a (m_safety db)), None)).

Lemma MemStore_laws : SafetyStoreLaws CE MemStore.
Proof.
  split; cbn.
  - intros db db' a raw [= <-] b. unfold m_get. cbn. rewrite lookup_insert. by case_decide.
  - by intros db db' a raw [= <-].
  - intros db db' h raw [= <-] h'. unfold m_get. cbn. rewrite lookup_insert. by case_decide.
  - by intros db db' h raw [= <-].
  - intros db db' h [= <-]. unfold m_get. cbn. rewrite lookup_delete_eq. split; [done|].
    intros h' Hne. by rewrite lookup_delete_ne.
  - by intros db db' h [= <-].
Qed.

(** The tesseract of [Concrete.v] carries nothing next to it. *)
Definition CParts : TesseractParts CE CT := @Build_TesseractParts CE CT unit unit unit
  (λ _, tt) (λ _, tt) (λ _, tt) (λ t _ _ _, t)
  (λ raw, match decode (bytes_pos raw) with
          | Some q => inl q | None => inr (EExternal "invalid commit info") end).
#[local] Existing Instances MemStore MemStore_laws CParts.

#[local] Instance cproposal_eq_dec : EqDecision ProposalInfo.
Proof.
  refine (λ a b, cast_if (decide (PI_TS a = PI_TS b))).
  - abstract (destruct a as [t [] [] []], b as [t' [] [] []]; cbn in *; by subst).
  - abstract (by intros ->).
Defined.
Lemma cproposal_inj (p : ProposalInfo) : {| PI_TS := PI_TS p; PI_Ixns := tt; PI_Receipts := tt; PI_CommitInfo := tt |} = p.
Proof. by destruct p as [t [] [] []]. Qed.
#[local] Instance cproposal_countable : Countable ProposalInfo :=
  inj_countable' PI_TS (λ t, {| PI_TS := t; PI_Ixns := tt; PI_Receipts := tt; PI_CommitInfo := tt |})
    cproposal_inj.
Definition CSafetyCodec : PoloCodec SafetyData := codec_of SafetyData.
Definition CProposalCodec : PoloCodec ProposalInfo := codec_of ProposalInfo.
#[local] Existing Instances CSafetyCodec CProposalCodec.

Definition w_ts : CTesseract :=
  {| ct_hash := 7; ct_heights := {[ 10 := 5 ]}; ct_cluster := "cluster"; ct_qc := None;
     ct_seal := []; ct_sealer := "" |}.
Definition w_tess : @Tesseract CE CT := w_ts.
Definition w_proposal : Proposal :=
  {| Prop_Type := PROPOSAL; Prop_PrepareQc := None; Prop_Tesseract := Some 1%positive |}.
Definition w_load (p : option positive) : res (@Tesseract CE CT) :=
  match p with Some 1%positive => Ret w_tess | _ => Panic "nil pointer dereference" end.
Definition w_certificate (ty : ConsensusMsgType) (vw : Z) : Qc :=
  {| Qc_Type := ty; Qc_View := vw; Qc_TSHash := 7; Qc_Address := NilAddress; Qc_SignerIndices := None; Qc_Signature := [] |}.
Definition w_mem : MemDB :=
  {| m_meta := {[ 10 := 3 ]}; m_safety := ∅; m_commit := ∅; m_proposals := ∅ |}.
Definition w_db : @DB CE MemStore := w_mem.
Definition w_db1 : @DB CE MemStore :=
  match UpdateSafetyInfo w_load w_db (Some w_proposal) (w_certificate PREVOTE 4) with
  | Ret (db, _) => db | _ => w_db end.

Lemma UpdateSafetyInfo_records_witness :
  ∃ sd, GetLatestSafetyInfo w_db1 10 = inl sd ∧ last (SD_Qc sd) = Some (w_certificate PREVOTE 4) ∧
    GetTesseract w_db1 7 = inl (ProposalInfo_Tesseract (NewProposalInfo w_tess)).
Proof.
  destruct (UpdateSafetyInfo_records (PoloRoundTrip0 := codec_of_roundtrip SafetyData)
              (PoloRoundTrip1 := codec_of_roundtrip ProposalInfo)
              w_load w_db w_proposal w_tess (w_certificate PREVOTE 4) w_db1)
    as (Ha & _ & Hp & _).
  - reflexivity.
  - vm_compute. reflexivity.
  - destruct (Ha 10 3) as (sd & Hs & Hl & _).
    + apply elem_of_dom. vm_compute. eexists. reflexivity.
    + vm_compute. reflexivity.
    + exists sd. split; [exact Hs|]. split; [exact Hl|]. apply Hp. reflexivity.
Defined.
