(* ===== verification/Views.v ===== *)
(** * View information and eligibility: [ics_handler.go], [krama_engine.go]

    What a node tells its peers about the accounts of a cluster, what it makes of
    their answers, and the cluster state it starts from.  These functions read the
    chain state, the safety data and the current view and change nothing. *)

From stdpp Require Import base gmap strings list fin_maps sorting.
From Stdlib Require Import ZArith Lia.
From S2P Require Import Prelude External Chain Types NodeSet Committee Cluster Validation VoteSet HeightVoteSet Sortition Execution Safety.

Section Views.
Context `{ET : ExtTypes} `{EX : !ExtOps ET} `{TO : !TesseractOps ET} `{IX : !InteractionOps ET EX}.
Context `{TV : !TesseractView ET EX TO} `{CH : !Chain ET EX TO IX} `{XE : !Execution ET EX TO IX CH}.
Context `{ST : !SafetyStore ET} `{TP : !TesseractParts ET TO}.
Context `{!PoloCodec CanonicalVote} `{!PoloCodec SafetyData} `{!PoloCodec ProposalInfo}.
Context `{!PoloCodec (Z * Views)}.
Context (sign : bytes → bytes * option err).
Context (signatureVerifier : bytes → bytes → list bytes → bool * option err).
Context (self : KramaID).
Context (w : World) (db : DB) (accountLocks : gmap Address LockType) (currentView : Z).

(** ** The local view of the accounts *)
Definition accountLockStatus (addr : Address) : LockType := default NoLock (accountLocks !! addr).

Definition viewInfoOf (addr : Address) : res (ViewInfo + err) :=
  match SM_IsAccountRegistered w addr with
  | inr e => Ret (inr e)
  | inl false =>
      Ret (inl {| VI_Addr := addr; VI_LastView := 0; VI_CurrentLock := accountLockStatus addr;
                  VI_Qc := None |})
  | inl true =>
      match GetLatestSafetyInfo db addr with
      | inr e => Ret (inr e)
      | inl safetyData =>
          lastView ← SafetyData_LastView safetyData;
          Ret (inl {| VI_Addr := addr; VI_LastView := lastView;
                      VI_CurrentLock := accountLockStatus addr; VI_Qc := Some (SD_Qc safetyData) |})
      end
  end.

(** [sort.Slice] by address; entries with one address may come in either order. *)
Definition view_before (a b : ViewInfo) : Prop := AddrLess (VI_Addr b) (VI_Addr a) = false.
#[global] Instance view_before_dec : RelDecision view_before.
Proof. intros a b. unfold view_before. apply _. Defined.

Definition loadViewInfo (ps : list Address) : res (list ViewInfo + err) :=
  let! infos := efold (λ infos addr, let! i := viewInfoOf addr in Ret (inl (infos ++ [i]))) ps [] in
  Ret (inl (merge_sort view_before infos)).

Definition createPreparedMsg (msg : Prepare) : res (Prepared + err) :=
  let! viewInfos := loadViewInfo (Pr_Ps msg) in
  Ret match Prepared_Sign sign {| Pd_View := Pr_View msg; Pd_Infos := Some viewInfos; Pd_Signature := [] |} with
      | (Some e, _) => inr e
      | (None, responseMsg) => inl responseMsg
      end.

(** ** The views of the peers *)
Definition getTS (tsHash : Hash) : Tesseract + err :=
  match L_GetTesseract w tsHash false true with
  | inl ts => inl ts
  | inr _ => GetTesseract db tsHash
  end.

Definition checkQc (qc : Qc) : res (() + err) :=
  if Qc_View qc =? GenesisView then Ret (inl ())
  else match getTS (Qc_TSHash qc) with
       | inr e => Ret (inr e)
       | inl ts =>
           let! ics := GetICSCommittee w ts (TsCommit ts) in
           '(verified, e) ← verifyQc signatureVerifier (TsAddresses ts) (TsIsExcluded ts) (Qc_View qc) ics qc;
           Ret match e with
               | Some e => inr (EWrap e "failed to verify QC")
               | None => if verified : bool then inl () else inr (ECommon "ErrSignatureVerificationFailed")
               end
       end.
Definition validatePeerHighestQc (remote : ViewInfo) : res (() + err) :=
  efold (λ _ qc, checkQc qc) (default [] (VI_Qc remote)) ().

(** The loop from index [i] on: the entries from there afterwards, and the
    error it ends with. *)
Fixpoint updateHighestFrom (peerInfo : list ViewInfo) (highest : list ViewInfo)
    : res (list ViewInfo * option err) :=
  match highest, peerInfo with
  | [], _ | _, [] => Ret (highest, None)
  | viewInfo :: rest, p :: peers =>
      if VI_LastView p <=? VI_LastView viewInfo then
        '(rest', e) ← updateHighestFrom peers rest; Ret (viewInfo :: rest', e)
      else if decide (VI_Addr p ≠ VI_Addr viewInfo)
      then Ret (highest, Some (ENew "View Order doesn't match"))
      else
        r ← validatePeerHighestQc viewInfo;
        match r with
        | inr e => Ret (highest, Some e)
        | inl _ => '(rest', e) ← updateHighestFrom peers rest; Ret (p :: rest', e)
        end
  end.
Definition updateHighestVI (cs : ClusterState) (peerInfo : Views) : res (ClusterState * option err) :=
  '(highest, e) ← updateHighestFrom (default [] peerInfo) (highestViewInfo cs);
  Ret (set_highest highest cs, e).

(** What the answers lead to: go on with the locked tesseracts found so far, or
    end the handler without a proposal. *)
Definition firstQc (v : ViewInfo) : res Qc := go_index (default [] (VI_Qc v)) 0.
Fixpoint lockedTesseracts (localVI highest : list ViewInfo) (index : Z) (lockedTS : gmap Address Tesseract)
    : res (option (gmap Address Tesseract) + err) :=
  match highest with
  | [] => Ret (inl (Some lockedTS))
  | highestVI :: rest =>
      local_ok ← (if is_some (VI_Qc highestVI) then Ret true
                  else l ← go_index localVI index; Ret (is_some (VI_Qc l)));
      if negb local_ok then lockedTesseracts localVI rest (index + 1) lockedTS
      else
        hq ← firstQc highestVI;
        match getTS (Qc_TSHash hq) with
        | inr e => Ret (inr e)
        | inl highestViewTS =>
            l ← go_index localVI index; lq ← firstQc l;
            match getTS (Qc_TSHash lq) with
            | inr e => Ret (inr e)
            | inl currentViewTS =>
                let heightDiff := u64 (TsHeight highestViewTS (VI_Addr highestVI)
                                       - TsHeight currentViewTS (VI_Addr highestVI)) in
                if heightDiff =? 0 then lockedTesseracts localVI rest (index + 1) lockedTS
                else if 1 <? heightDiff then Ret (inl None)
                else match Qc_Type hq with
                     | PRECOMMIT => Ret (inl None)
                     | PREVOTE => lockedTesseracts localVI rest (index + 1)
                                    (<[Qc_Address hq := highestViewTS]> lockedTS)
                     | _ => lockedTesseracts localVI rest (index + 1) lockedTS
                     end
            end
        end
  end.

Definition createPrepareQc (cs : ClusterState) : res (PreparedInfo + err) :=
  '(infos, signatures) ← ViewInfosAndSignatures (committee cs);
  Ret match CryptoAggregateSignatures signatures with
      | (_, Some e) => inr e
      | (aggSign, None) =>
          inl {| PI_View := CurrentView cs; PI_PeerViews := infos;
                 PI_SignerIndices := Some (GetVoteset (committee cs)); PI_Signature := aggSign |}
      end.

(** ** Eligibility and the initial cluster state *)
(** A negative position is only tested for on the node itself. *)
Definition isOperatorEligible (peerID : KramaID) (ixns : Interactions) : bool :=
  let addr := Ixs_LeaderCandidateAddress ixns in
  match SM_GetAccountMetaInfo w addr with
  | inr _ => false
  | inl metaInfo =>
      if decide (peerID = self) then
        if AM_PositionInContextSet metaInfo <? 0 then false
        else currentView mod MaxBehaviourContextSize =? AM_PositionInContextSet metaInfo
      else match SM_GetContext w addr (AM_ContextHash metaInfo) with
           | inr _ => false
           | inl (behaviourContext, _) => bool_decide (peerID ∈ behaviourContext)
           end
  end.

Definition loadClusterState (op : KramaID) (ixns : Interactions) (clusterID : ClusterID) (reqTime : Z)
    : res (ClusterState + err) :=
  let! '(participants, c) := fetchParticipantsAndCommittee w (Ixs_Participants ixns) in
  let! viewInfos := loadViewInfo (Participants_Addrs participants) in
  Ret (inl (NewICS ixns clusterID op reqTime self c participants viewInfos currentView)).

(** ** The checks on a proposal's prepare certificate *)
(** The messages the signers signed; a signer without views is skipped. *)
Definition preparedBytes (view : Z) (peerViews : list Views) (acc : list bytes) (index : Z)
    : res (list bytes + err) :=
  v ← go_index peerViews index;
  Ret match v with
      | None => inl acc
      | Some _ =>
          match Prepared_SignBytes {| Pd_View := view; Pd_Infos := v; Pd_Signature := [] |} with
          | inr e => inr e
          | inl rawData => inl (acc ++ [rawData])
          end
      end.
Definition rawPreparedMsgs (qc : PreparedInfo) (trueIndices : list Z) : res (list bytes + err) :=
  efold (preparedBytes (PI_View qc) (PI_PeerViews qc)) trueIndices [].
End Views.
