(* ===== verification/ViewsSpec.v ===== *)
(** * What the exchange of views guarantees: the theorems

    The highest views are the pointwise maxima of what the peers claim, the claims
    themselves are not verified, and two consequences for the leader. *)

From stdpp Require Import base gmap strings list fin_maps sorting.
From Stdlib Require Import ZArith Lia.
From S2P Require Import Prelude Effect External Chain Types NodeSet Committee Cluster Validation VoteSet HeightVoteSet Sortition Execution Safety Views.

Section Views.
Context `{ET : ExtTypes} `{EX : !ExtOps ET} `{TO : !TesseractOps ET} `{IX : !InteractionOps ET EX}.
Context `{TV : !TesseractView ET EX TO} `{CH : !Chain ET EX TO IX} `{XE : !Execution ET EX TO IX CH}.
Context `{ST : !SafetyStore ET} `{TP : !TesseractParts ET TO}.
Context `{!PoloCodec CanonicalVote} `{!PoloCodec SafetyData} `{!PoloCodec ProposalInfo}.
Context `{!PoloCodec (Z * Views)}.
Context (signatureVerifier : bytes → bytes → list bytes → bool * option err).
Context (w : World) (db : DB) (accountLocks : gmap Address LockType).

(** ** The local views *)
Lemma efold_snoc {A B} (f : A → res (B + err)) (l : list A) (acc bs : list B) :
  efold (λ bs a, let! b := f a in Ret (inl (bs ++ [b]))) l acc = Ret (inl bs) →
  ∃ new, bs = acc ++ new ∧ Forall2 (λ a b, f a = Ret (inl b)) l new.
Proof.
  revert acc. induction l as [|a l IH]; intros acc; cbn.
  - intros [= <-]. exists []. by rewrite app_nil_r.
  - rewrite ebind_inl. intros (acc' & Ha & Hrest). apply ebind_inl in Ha as (b & Hb & [= <-]).
    apply IH in Hrest as (new & -> & Hf). exists (b :: new). rewrite <-app_assoc. by split; [|constructor].
Qed.

(** The view information a node reports: one entry per account asked for, sorted
    by address; an account without a state has last view 0 and no certificate, a
    registered one has the certificates of its safety data and the view of the
    last of them. *)
Theorem loadViewInfo_spec ps infos :
  (∀ a b, AddrLess a b = true → AddrLess b a = false) →
  loadViewInfo w db accountLocks ps = Ret (inl infos) →
  Sorted view_before infos ∧
  ∃ entries, infos ≡ₚ entries ∧ Forall2 (λ addr i,
    VI_Addr i = addr ∧ VI_CurrentLock i = accountLockStatus accountLocks addr ∧
    (SM_IsAccountRegistered w addr = inl false ∧ VI_LastView i = 0 ∧ VI_Qc i = None ∨
     SM_IsAccountRegistered w addr = inl true ∧
     ∃ sd qc, GetLatestSafetyInfo db addr = inl sd ∧ VI_Qc i = Some (SD_Qc sd) ∧
       last (SD_Qc sd) = Some qc ∧ VI_LastView i = Qc_View qc)) ps entries.
Proof.
  intros Hlaw. unfold loadViewInfo. rewrite ebind_inl. intros (es & Hf & [= <-]).
  apply efold_snoc in Hf as (entries & -> & Hf). cbn [app]. split.
  - apply Sorted_merge_sort. intros a b. unfold view_before.
    destruct (AddrLess (VI_Addr b) (VI_Addr a)) eqn:E; [|by left]. right. by apply Hlaw.
  - exists entries. split; [apply merge_sort_Permutation|]. eapply Forall2_impl; [exact Hf|]. cbn.
    intros addr i. unfold viewInfoOf. destruct (SM_IsAccountRegistered w addr) as [[]|e] eqn:Er; [| |done].
    + destruct (GetLatestSafetyInfo db addr) as [sd|e] eqn:Es; [|done]. unfold SafetyData_LastView.
      destruct (go_index (SD_Qc sd) (zlen (SD_Qc sd) - 1)) as [qc| |] eqn:Eq; [|done|done].
      intros [= <-]. cbn. split; [done|]. split; [done|]. right. split; [done|]. exists sd, qc.
      split_and!; try done. apply go_index_Ret in Eq as [_ Hl]. rewrite last_lookup. unfold zlen in Hl.
      by replace (pred (length (SD_Qc sd))) with (Z.to_nat (Z.of_nat (length (SD_Qc sd)) - 1)) by lia.
    + intros [= <-]. cbn. split; [done|]. split; [done|]. by left.
Qed.

(** Every entry of a local view reports the lock recorded for its account. *)
Lemma loadViewInfo_locks ps infos :
  loadViewInfo w db accountLocks ps = Ret (inl infos) →
  Forall (λ i, VI_CurrentLock i = accountLockStatus accountLocks (VI_Addr i)) infos.
Proof.
  unfold loadViewInfo. rewrite ebind_inl. intros (es & Hf & [= <-]).
  apply efold_snoc in Hf as (entries & -> & Hf). cbn [app].
  rewrite (merge_sort_Permutation view_before entries).
  induction Hf as [|a i l l' Hi _ IH]; constructor; [|exact IH]. revert Hi. unfold viewInfoOf.
  destruct (SM_IsAccountRegistered w a) as [[]|]; [|by intros [= <-]|done].
  destruct (GetLatestSafetyInfo db a) as [sd|]; [|done].
  destruct (SafetyData_LastView sd) as [v| |]; [by intros [= <-]|done|done].
Qed.

(** ** The highest views *)
Notation update := (updateHighestFrom signatureVerifier w db).
(** What a position may become. *)
Definition raised (h h' : ViewInfo) : Prop :=
  h' = h ∨ VI_Addr h' = VI_Addr h ∧ VI_LastView h < VI_LastView h'.
Definition higher (h p : ViewInfo) : ViewInfo := if VI_LastView p <=? VI_LastView h then h else p.

#[local] Instance raised_refl : Reflexive raised.
Proof. by left. Qed.
Lemma update_raises peers highest hs e :
  update peers highest = Ret (hs, e) → Forall2 raised highest hs.
Proof.
  revert peers hs e. induction highest as [|h highest IH]; intros [|p peers] hs e; cbn.
  - by intros [= <- _].
  - by intros [= <- _].
  - by intros [= <- _].
  - destruct (Z.leb_spec (VI_LastView p) (VI_LastView h)) as [Hle|Hlt].
    + destruct (update peers highest) as [[rest e']| |] eqn:E; [|done|done]. intros [= <- <-].
      constructor; [by left|by eapply IH].
    + destruct (decide (VI_Addr p ≠ VI_Addr h)) as [Ha|Ha]; [by intros [= <- _]|]. apply dec_stable in Ha.
      destruct (validatePeerHighestQc signatureVerifier w db h) as [[[]|e1]| |]; [|by intros [= <- _]|done|done].
      cbn. destruct (update peers highest) as [[rest e']| |] eqn:E; [|done|done]. intros [= <- <-].
      constructor; [by right|by eapply IH].
Qed.

(** C36. The highest views only rise: whatever a peer sends, every account keeps its
    place, no last view becomes smaller, and when the call succeeds the entry of
    an account the peer reported on is the peer's if it claims a later view and
    the old one otherwise. *)
Theorem updateHighestVI_raises cs peerInfo cs' e :
  updateHighestVI signatureVerifier w db cs peerInfo = Ret (cs', e) →
  cs' = set_highest (highestViewInfo cs') cs ∧
  Forall2 raised (highestViewInfo cs) (highestViewInfo cs') ∧
  (e = None → ∀ i h, highestViewInfo cs !! i = Some h →
     highestViewInfo cs' !! i = Some (match default [] peerInfo !! i with Some p => higher h p | None => h end)).
Proof.
  unfold updateHighestVI. destruct (update _ _) as [[hs e']| |] eqn:E; [|done|done]. cbn.
  intros [= <- <-]. cbn. split; [done|]. split; [by eapply update_raises|]. intros ->.
  revert E. generalize (default [] peerInfo), (highestViewInfo cs). intros peers highest. revert peers hs.
  induction highest as [|h highest IH]; intros [|p peers] hs; cbn.
  - intros [= <-] i h. by rewrite lookup_nil.
  - intros [= <-] i h. by rewrite lookup_nil.
  - intros [= <-] i h'. by rewrite lookup_nil.
  - unfold higher. destruct (Z.leb_spec (VI_LastView p) (VI_LastView h)) as [Hle|Hlt].
    + destruct (update peers highest) as [[rest e']| |] eqn:E; [|done|done]. intros [= <- ->].
      intros [|i] h'; cbn; [intros [= <-]; rewrite (proj2 (Z.leb_le _ _)); [done|lia]|]. by apply IH.
    + destruct (decide (VI_Addr p ≠ VI_Addr h)) as [Ha|Ha]; [done|].
      destruct (validatePeerHighestQc signatureVerifier w db h) as [[[]|e1]| |]; [|done|done|done].
      cbn. destruct (update peers highest) as [[rest e']| |] eqn:E; [|done|done]. intros [= <- ->].
      intros [|i] h'; cbn; [intros [= <-]; rewrite (proj2 (Z.leb_gt _ _)); [done|lia]|]. by apply IH.
Qed.

(** The certificates a peer claims are not verified: the outcome of
    [updateHighestVI] is the same for any two reports that name the same accounts
    and last views, whatever certificates they carry, and a successful call takes
    over the claimed entries as they are (the certificate that is checked is the
    node's own). *)
Theorem claimed_certificates_unchecked cs peers peers' :
  Forall2 (λ p p', VI_Addr p = VI_Addr p' ∧ VI_LastView p = VI_LastView p') peers peers' →
  ('(_, e) ← updateHighestVI signatureVerifier w db cs (Some peers); Ret e)
  = ('(_, e) ← updateHighestVI signatureVerifier w db cs (Some peers'); Ret e).
Proof.
  intros Hp. unfold updateHighestVI. cbn [default]. generalize (highestViewInfo cs). intros highest.
  enough (H : ('(_, e) ← update peers highest; Ret e) = ('(_, e) ← update peers' highest; Ret e)).
  { cbn [from_option id].
    destruct (update peers highest) as [[? ?]| |], (update peers' highest) as [[? ?]| |]; cbn in *; congruence. }
  revert highest. induction Hp as [|p p' peers peers' [Ha Hv] Hp IH]; intros [|h highest]; try done.
  cbn [updateHighestFrom]. rewrite Hv, Ha. specialize (IH highest).
  destruct (VI_LastView p' <=? VI_LastView h); [|destruct (decide (VI_Addr p' ≠ VI_Addr h)); [done|];
    destruct (validatePeerHighestQc signatureVerifier w db h) as [[[]|e1]| |]; [|done..]];
    destruct (update peers highest) as [[? ?]| |], (update peers' highest) as [[? ?]| |]; cbn in *; congruence.
Qed.

#[local] Arguments getTS : simpl never.

(** ** What the leader makes of the highest views *)
(** A committee member can crash the leader: for a new account, of which the
    leader has no certificate, any claim of a later view that names a tesseract
    the leader knows is taken over, and reading the leader's own certificate then
    runs out of range. *)
Theorem claimed_certificate_panics cs l0 ls p ps q qs t :
  localViewInfo cs = l0 :: ls → highestViewInfo cs = l0 :: ls →
  VI_Qc l0 = None → VI_Addr p = VI_Addr l0 → VI_LastView l0 < VI_LastView p →
  VI_Qc p = Some (q :: qs) → getTS w db (Qc_TSHash q) = inl t →
  ∀ cs' e, updateHighestVI signatureVerifier w db cs (Some (p :: ps)) = Ret (cs', e) →
  lockedTesseracts w db (localViewInfo cs') (highestViewInfo cs') 0 ∅ = Panic "index out of range".
Proof.
  intros Hl Hh Hq Ha Hv Hp Ht cs' e. unfold updateHighestVI. cbn [default]. rewrite Hh. cbn.
  rewrite (proj2 (Z.leb_gt _ _)) by done. destruct (decide (VI_Addr p ≠ VI_Addr l0)); [done|].
  unfold validatePeerHighestQc. rewrite Hq. cbn.
  destruct (update ps ls) as [[rest e']| |]; [|done|done]. intros [= <- _].
  assert (Hf : firstQc p = Ret q) by (unfold firstQc; by rewrite Hp).
  assert (Hf0 : firstQc l0 = Panic "index out of range") by (unfold firstQc; by rewrite Hq).
  cbn [localViewInfo highestViewInfo set_highest]. rewrite Hl. cbn [lockedTesseracts].
  rewrite Hp, Hf. cbn [is_some mbind res_bind negb]. rewrite Ht. change (go_index (l0 :: ls) 0) with (Ret l0).
  cbn [mbind res_bind]. by rewrite Hf0.
Qed.
End Views.
