(* ===== verification/Ticker.v ===== *)
(** * View steps and the timeout ticker: [kbft/rounds.go], [kbft/ticker.go]

    The ticker routine keeps the timeout it last armed and takes a new one only
    if it is for a later point of the protocol.  Its [select] is a step function
    on the events it waits for; the timer's channel holds at most one tick. *)

From stdpp Require Import base gmap strings list fin_maps.
From Stdlib Require Import ZArith Lia Sorting.Sorted.
From S2P Require Import Prelude External Types Concrete.

(** [ViewStepType] is a [uint8]. *)
Definition ViewStepNewHeight : Z := 1.
Definition ViewStepNewView : Z := 2.
Definition ViewStepPropose : Z := 3.
Definition ViewStepPrevote : Z := 4.
Definition ViewStepPrecommit : Z := 5.
Definition ViewStepCommit : Z := 6.

Definition ViewStepType_IsValid (rtype : Z) : bool := (1 <=? rtype) && (rtype <=? 6).
Definition ViewStepType_String (rtype : Z) : string :=
  if rtype =? ViewStepNewHeight then "ViewStepNewHeight"%string
  else if rtype =? ViewStepNewView then "ViewStepNewView"%string
  else if rtype =? ViewStepPropose then "ViewStepPropose"%string
  else if rtype =? ViewStepPrevote then "ViewStepPrevote"%string
  else if rtype =? ViewStepPrecommit then "ViewStepPrecommit"%string
  else if rtype =? ViewStepCommit then "ViewStepCommit"%string
  else "viewStepUnknown"%string.

Section Heights.
Context `{ET : ExtTypes}.

(** The loops return [false] at the first entry that fails [test]; the result
    does not depend on the order of the entries. *)
Definition heightsAgree (test : Z → Z → bool) (systemHeights newHeights : gmap Address Z) : bool :=
  if negb (Z.of_nat (base.size systemHeights) =? Z.of_nat (base.size newHeights)) then false
  else forallb (λ '(systemAddress, systemHeight),
         match newHeights !! systemAddress with
         | Some newHeight => test systemHeight newHeight
         | None => false
         end) (map_to_list systemHeights).
Definition areHeightsEqual : gmap Address Z → gmap Address Z → bool :=
  heightsAgree (λ systemHeight newHeight, systemHeight =? newHeight).
Definition areHeightsGreater : gmap Address Z → gmap Address Z → bool :=
  heightsAgree (λ systemHeight newHeight, negb (systemHeight <=? newHeight)).

Lemma heightsAgree_true test a b :
  heightsAgree test a b = true ↔
  base.size a = base.size b ∧
  ∀ addr x, a !! addr = Some x → ∃ y, b !! addr = Some y ∧ test x y = true.
Proof.
  unfold heightsAgree.
  destruct (Z.eqb_spec (Z.of_nat (base.size a)) (Z.of_nat (base.size b))) as [Hs|Hs]; cbn [negb].
  2: { split; [done|]. intros [? _]. lia. }
  rewrite forallb_forall. split.
  - intros H. split; [lia|]. intros addr x Hx.
    specialize (H (addr, x)). rewrite <-list_elem_of_In, elem_of_map_to_list in H.
    specialize (H Hx). cbn in H. destruct (b !! addr) as [y|]; [eauto|done].
  - intros [_ H] [addr x] Hin. rewrite <-list_elem_of_In, elem_of_map_to_list in Hin.
    destruct (H addr x Hin) as (y & -> & Ht). done.
Qed.

Lemma areHeightsEqual_true a b : areHeightsEqual a b = true ↔ a = b.
Proof.
  unfold areHeightsEqual. rewrite heightsAgree_true. split.
  - intros [Hs H]. apply map_eq. intros addr. destruct (a !! addr) as [x|] eqn:E.
    + destruct (H addr x E) as (y & -> & Ht%Z.eqb_eq). by subst.
    + destruct (b !! addr) as [y|] eqn:E'; [|done]. exfalso.
      assert (Hd : dom a ⊂ dom b).
      { split.
        - intros k [x Hx]%elem_of_dom. destruct (H k x Hx) as (z & Hz & _). apply elem_of_dom. by eexists.
        - intros Hsub. assert (addr ∈ dom a) as [z Hz]%elem_of_dom.
          { apply Hsub, elem_of_dom. by eexists. }
          congruence. }
      apply subset_size in Hd. rewrite !size_dom in Hd. lia.
  - intros ->. split; [done|]. intros addr x Hx. exists x. split; [done|]. apply Z.eqb_refl.
Qed.

Lemma areHeightsEqual_refl a : areHeightsEqual a a = true.
Proof. by apply areHeightsEqual_true. Qed.

Lemma areHeightsGreater_irrefl a : a ≠ ∅ → areHeightsGreater a a = false.
Proof.
  intros Hne. destruct (areHeightsGreater a a) eqn:E; [|done].
  apply heightsAgree_true in E as [_ H].
  destruct (map_choose a Hne) as (addr & x & Hx). destruct (H addr x Hx) as (y & Hy & Ht).
  rewrite Hx in Hy. injection Hy as ->. apply negb_true_iff, Z.leb_gt in Ht. lia.
Qed.

Record timeoutInfo := {
  TI_Duration : Z;
  TI_Height : gmap Address Z;
  TI_View : Z;
  TI_Step : Z;
}.
(** [var info timeoutInfo] *)
Definition zeroTimeout : timeoutInfo :=
  {| TI_Duration := 0; TI_Height := ∅; TI_View := 0; TI_Step := 0 |}.

(** The conditions of the first case of the routine: is the new timeout armed? *)
Definition acceptTimeout (info new : timeoutInfo) : bool :=
  let running := negb (Z.of_nat (base.size (TI_Height info)) =? 0) in
  if running && areHeightsGreater (TI_Height info) (TI_Height new) then false
  else if running && areHeightsEqual (TI_Height new) (TI_Height info) then
    if TI_View new <? TI_View info then false
    else if TI_View new =? TI_View info then
      negb ((0 <? TI_Step info) && (TI_Step new <=? TI_Step info))
    else true
  else true.

Record Ticker := {
  T_info : timeoutInfo;
  (** the duration the timer runs for, if it runs *)
  T_timer : option Z;
  (** values whose send on [tock] has been started so far, each in a goroutine
      of its own *)
  T_tock : list timeoutInfo;
  (** [isClosed], set when the quit channel is closed *)
  T_isClosed : bool;
  (** the routine has returned *)
  T_quit : bool;
}.

(** [Stop] stops the timer, or takes what it has fired and nobody has read. *)
Definition Ticker_Stop (t : Ticker) : Ticker :=
  {| T_info := T_info t; T_timer := None; T_tock := T_tock t; T_isClosed := T_isClosed t; T_quit := T_quit t |}.

(** [NewTicker] stops the timer it creates. *)
Definition NewTicker : Ticker :=
  Ticker_Stop {| T_info := zeroTimeout; T_timer := Some 0; T_tock := []; T_isClosed := false; T_quit := false |}.

(** [Close]: the quit channel is closed once only. *)
Definition Ticker_Close (t : Ticker) : Ticker :=
  if T_isClosed t then t
  else {| T_info := T_info t; T_timer := T_timer t; T_tock := T_tock t; T_isClosed := true; T_quit := T_quit t |}.

Inductive ticker_event :=
| TickReceived (new : timeoutInfo)
| TimerFired
| QuitReceived
| CloseCalled.

(** One iteration of the [select] loop of [timeoutRoutine]; [None] when the
    routine has returned or the case is not ready. *)
Definition timeoutRoutine (t : Ticker) (ev : ticker_event) : option Ticker :=
  if T_quit t then None
  else match ev with
       | TickReceived new =>
           Some (if acceptTimeout (T_info t) new
                 then {| T_info := new; T_timer := Some (TI_Duration new); T_tock := T_tock (Ticker_Stop t);
                         T_isClosed := T_isClosed t; T_quit := false |}
                 else t)
       | TimerFired =>
           match T_timer t with
           | Some _ => Some {| T_info := T_info t; T_timer := None;
                               T_tock := T_tock t ++ [T_info t]; T_isClosed := T_isClosed t; T_quit := false |}
           | None => None
           end
       | QuitReceived =>
           if T_isClosed t
           then Some {| T_info := T_info t; T_timer := T_timer t; T_tock := T_tock t; T_isClosed := true; T_quit := true |}
           else None
       | CloseCalled => None
       end.

(** A step of the ticker: of its routine, or a call of [Close]. *)
Definition ticker_step (t : Ticker) (ev : ticker_event) : option Ticker :=
  match ev with CloseCalled => Some (Ticker_Close t) | _ => timeoutRoutine t ev end.

(** A history of the ticker. *)
Fixpoint ticker_run (t : Ticker) (evs : list ticker_event) : option Ticker :=
  match evs with
  | [] => Some t
  | ev :: rest => t' ← ticker_step t ev; ticker_run t' rest
  end.

(** ** Timeouts fire in protocol order *)
Definition later (a b : timeoutInfo) : Prop :=
  TI_View a < TI_View b ∨ TI_View a = TI_View b ∧ TI_Step a < TI_Step b.

Lemma acceptTimeout_later info new h :
  TI_Height info = h → TI_Height new = h → h ≠ ∅ → 0 < TI_Step info →
  acceptTimeout info new = true ↔ later info new.
Proof.
  intros Hi Hn Hne Hs. unfold acceptTimeout, later. rewrite Hi, Hn.
  assert (Z.of_nat (base.size h) ≠ 0) by (intros H0; apply Hne, map_size_empty_inv; lia).
  destruct (Z.eqb_spec (Z.of_nat (base.size h)) 0); [done|]. cbn [negb andb].
  rewrite areHeightsGreater_irrefl, areHeightsEqual_refl by done.
  destruct (Z.ltb_spec (TI_View new) (TI_View info)); [split; [done|lia]|].
  destruct (Z.eqb_spec (TI_View new) (TI_View info)) as [E|E]; [|split; [lia|done]].
  destruct (Z.ltb_spec 0 (TI_Step info)); [|lia]. cbn [andb].
  destruct (Z.leb_spec (TI_Step new) (TI_Step info)); cbn; split; try done; lia.
Qed.

(** The fired timeouts come in strictly increasing order, and the one armed
    last is not before them. *)
Definition ticker_ok (h : gmap Address Z) (t : Ticker) : Prop :=
  StronglySorted later (T_tock t) ∧
  (T_info t = zeroTimeout ∧ T_timer t = None ∧ T_tock t = [] ∨
   TI_Height (T_info t) = h ∧ 0 < TI_Step (T_info t) ∧
   match T_timer t with
   | Some _ => Forall (λ x, later x (T_info t)) (T_tock t)
   | None => Forall (λ x, later x (T_info t) ∨ x = T_info t) (T_tock t)
   end).

Lemma StronglySorted_snoc {A} (R : A → A → Prop) l x :
  StronglySorted R l → Forall (λ y, R y x) l → StronglySorted R (l ++ [x]).
Proof.
  induction l as [|y l IH]; intros Hs Hf; [by repeat constructor|].
  apply StronglySorted_inv in Hs as [Hs Hy]. apply Forall_cons in Hf as [Hyx Hf].
  cbn. constructor; [by apply IH|]. apply Forall_app. split; [done|by apply Forall_singleton].
Qed.

Lemma later_trans a b d : later a b → later b d → later a d.
Proof. unfold later. lia. Qed.

Definition event_for (h : gmap Address Z) (ev : ticker_event) : Prop :=
  match ev with
  | TickReceived new => TI_Height new = h ∧ 0 < TI_Step new
  | _ => True
  end.

Lemma timeoutRoutine_ok h t ev t' :
  h ≠ ∅ → ticker_ok h t → event_for h ev → timeoutRoutine t ev = Some t' → ticker_ok h t'.
Proof.
  intros Hne [Hs Hi] He H. unfold timeoutRoutine in H. destruct (T_quit t); [done|].
  destruct ev as [new| | |].
  - destruct He as [Hh Hp]. destruct (acceptTimeout (T_info t) new) eqn:Ea; injection H as <-;
      [|by split]. split; [done|]. right. cbn. split_and!; try done.
    destruct Hi as [(_ & _ & ->)|(Hih & His & Hf)]; [constructor|].
    apply (acceptTimeout_later _ _ h) in Ea; try done.
    destruct (T_timer t); eapply Forall_impl; [exact Hf| |exact Hf|]; cbn.
    + intros x Hx. by eapply later_trans.
    + intros x [Hx| ->]; [by eapply later_trans|done].
  - destruct Hi as [(_ & Ht & _)|(Hih & His & Hf)]; [by rewrite Ht in H|].
    destruct (T_timer t) as [d|]; [|done]. injection H as <-. split; cbn.
    + by apply StronglySorted_snoc.
    + right. split_and!; try done. apply Forall_app. split; [|apply Forall_singleton; by right].
      eapply Forall_impl; [exact Hf|]. by left.
  - destruct (T_isClosed t); [|done]. injection H as <-. by split.
  - done.
Qed.
Lemma ticker_step_ok h t ev t' :
  h ≠ ∅ → ticker_ok h t → event_for h ev → ticker_step t ev = Some t' → ticker_ok h t'.
Proof.
  intros Hne Hok He H. destruct ev; try by eapply timeoutRoutine_ok.
  injection H as <-. unfold Ticker_Close. destruct (T_isClosed t); [done|]. by destruct Hok.
Qed.

(** Timeouts fire in protocol order: whatever timeouts of one height vector
    are scheduled, and whenever the timer fires in between, the values the ticker
    sends off are strictly increasing in view and then step, so a stale timeout
    never overtakes a newer one and none is sent twice. *)
Theorem ticker_fires_in_order h evs t :
  h ≠ ∅ → Forall (event_for h) evs → ticker_run NewTicker evs = Some t →
  StronglySorted later (T_tock t).
Proof.
  intros Hne Hf. assert (H0 : ticker_ok h NewTicker).
  { split; [constructor|]. by left. }
  revert H0. generalize NewTicker as t0. induction Hf as [|ev evs He Hf IH]; intros t0 H0 H; cbn in H.
  - injection H as <-. apply H0.
  - destruct (ticker_step t0 ev) as [t1|] eqn:E; [|done]. cbn in H.
    apply (IH t1); [by eapply ticker_step_ok|done].
Qed.

End Heights.

(** ** Witness *)
#[local] Existing Instance CE.
Definition w_timeout (vw step : Z) : timeoutInfo :=
  {| TI_Duration := 1; TI_Height := {[ (10 : Address) := 5 ]}; TI_View := vw; TI_Step := step |}.
Definition w_ticks : list ticker_event :=
  [TickReceived (w_timeout 0 1); TimerFired; TickReceived (w_timeout 1 1); TickReceived (w_timeout 0 3);
   TimerFired; TickReceived (w_timeout 1 4); CloseCalled; TimerFired; CloseCalled; QuitReceived].
Lemma w_ticks_fire :
  T_tock <$> ticker_run NewTicker w_ticks = Some [w_timeout 0 1; w_timeout 1 1; w_timeout 1 4].
Proof. vm_compute. reflexivity. Qed.
Lemma ticker_fires_in_order_witness :
  ∃ t, ticker_run NewTicker w_ticks = Some t ∧
    T_tock t = [w_timeout 0 1; w_timeout 1 1; w_timeout 1 4] ∧ StronglySorted later (T_tock t).
Proof.
  destruct (proj1 (fmap_Some _ _ _) w_ticks_fire) as (t & E & Ht).
  exists t. split; [exact E|]. split; [by symmetry|].
  apply (ticker_fires_in_order (TI_Height (w_timeout 0 1)) w_ticks t).
  - discriminate.
  - repeat constructor.
  - exact E.
Defined.
