(* ===== verification/Kbft.v ===== *)
(** * The BFT engine: [kbft/kbft.go], [kbft/evidence.go], [kbft/rounds.go]

    The state of one engine for one cluster.  Tesseracts live in a heap, since
    the proposal, [ProposalTS] and the cluster state share the pointer and the
    engine seals the tesseract in place.  A channel is the list of everything
    sent on it, with a read position for the engine's own queue; a message in the
    outbound channel may point into the vote sets, and shows what they hold when
    it is serialised ([on_wire]).  A [Close] is logged with its error; the
    goroutine that calls the handlers is the step function [kstep].  A deferred
    function runs when its function returns and while a panic unwinds it; nothing
    recovers a panic, which ends the run.  Logging, tracing and the event mux (nil
    in the engine) have no effect here, and a send never blocks. *)

From stdpp Require Import base gmap strings list fin_maps.
From Stdlib Require Import ZArith Lia.
From S2P Require Import Prelude External Types NodeSet Committee Cluster VoteSet HeightVoteSet Safety Ticker.

Section Kbft.
Context `{ET : ExtTypes} `{!ExtOps ET} `{!TesseractOps ET}.
Context `{!SafetyStore ET} `{!TesseractParts ET _}.
Context `{!PoloCodec CanonicalVote} `{!PoloCodec SafetyData} `{!PoloCodec ProposalInfo}.

(** ** Evidence *)
Record Evidence := {
  EV_IxHash : Hash;
  EV_Operator : KramaID;
  EV_Votes : list (option Vote);
  EV_VoteSet : option Bits;
}.
(** [make(\[\]*Vote, size)]: the votes are appended behind [size] nil ones. *)
Definition NewEvidence (ixHash : Hash) (operator : KramaID) (size : Z) : res Evidence :=
  if size <? 0 then Panic "makeslice: len out of range"
  else Ret {| EV_IxHash := ixHash; EV_Operator := operator;
              EV_Votes := replicate (Z.to_nat size) None; EV_VoteSet := None |}.
Definition Evidence_AddVote (e : Evidence) (v : Vote) : Evidence :=
  {| EV_IxHash := EV_IxHash e; EV_Operator := EV_Operator e;
     EV_Votes := EV_Votes e ++ [Some v]; EV_VoteSet := EV_VoteSet e |}.
Definition Evidence_AddVoteSet (e : Evidence) (b : option Bits) : Evidence :=
  {| EV_IxHash := EV_IxHash e; EV_Operator := EV_Operator e; EV_Votes := EV_Votes e;
     EV_VoteSet := b |}.

Context `{!PoloCodec Evidence}.
Definition Evidence_Bytes (e : Evidence) : bytes + err :=
  wrap_err "failed to polorize evidence" (Polorize e).
Definition FlushEvidence (e : Evidence) : (Hash * bytes) + err :=
  match Evidence_Bytes e with
  | inr err => inr err
  | inl rawData => inl (GetHash rawData, rawData)
  end.

(** The vault ([None] when nil) and the tesseract handler. *)
Context (vault : option (bytes → bytes * option err)).
Context (tesseractHandler : Tesseract → option err).

(** ** State *)
(** A message in [outboundMsgChan]: a certificate's [SignerIndices] is the bit array
    of the vote set of a view and type, not a copy of it. *)
Record Outbound := {
  O_msg : ConsensusMessage;
  O_bits : option (Z * ConsensusMsgType);
}.
Record KBFT := {
  K_Heights : gmap Address Z;
  K_View : Z;
  K_Step : Z;
  K_Votes : HeightVoteSet;
  K_CommitView : Z;
  K_Proposal : option Proposal;
  K_ProposalTS : option positive;
  K_id : KramaID;
  K_operator : KramaID;
  K_nSteps : Z;
  K_ics : ClusterState;
  K_evidence : Evidence;
  K_db : DB;
  K_heap : gmap positive Tesseract;
  (** everything sent on [selfMsgChan], and how much of it was received *)
  K_self : list ConsensusMessage;
  K_selfRead : nat;
  K_outbound : list Outbound;
  K_closed : list (option err);
  (** tesseracts handed to [tesseractHandler] *)
  K_finalized : list Tesseract;
  (** timeouts given to the ticker *)
  K_timeouts : list timeoutInfo;
  (** messages given to [wal.WriteSync] *)
  K_wal : list ConsensusMessage;
}.

Definition with_step (k : KBFT) (view step nSteps : Z) : KBFT :=
  {| K_Heights := K_Heights k; K_View := view; K_Step := step; K_Votes := K_Votes k;
     K_CommitView := K_CommitView k; K_Proposal := K_Proposal k; K_ProposalTS := K_ProposalTS k;
     K_id := K_id k; K_operator := K_operator k; K_nSteps := nSteps; K_ics := K_ics k;
     K_evidence := K_evidence k; K_db := K_db k; K_heap := K_heap k; K_self := K_self k;
     K_selfRead := K_selfRead k; K_outbound := K_outbound k; K_closed := K_closed k;
     K_finalized := K_finalized k; K_timeouts := K_timeouts k; K_wal := K_wal k |}.
Definition with_votes (k : KBFT) (votes : HeightVoteSet) (ics : ClusterState) : KBFT :=
  {| K_Heights := K_Heights k; K_View := K_View k; K_Step := K_Step k; K_Votes := votes;
     K_CommitView := K_CommitView k; K_Proposal := K_Proposal k; K_ProposalTS := K_ProposalTS k;
     K_id := K_id k; K_operator := K_operator k; K_nSteps := K_nSteps k; K_ics := ics;
     K_evidence := K_evidence k; K_db := K_db k; K_heap := K_heap k; K_self := K_self k;
     K_selfRead := K_selfRead k; K_outbound := K_outbound k; K_closed := K_closed k;
     K_finalized := K_finalized k; K_timeouts := K_timeouts k; K_wal := K_wal k |}.
Definition with_commit_view (k : KBFT) (view : Z) : KBFT :=
  {| K_Heights := K_Heights k; K_View := K_View k; K_Step := K_Step k; K_Votes := K_Votes k;
     K_CommitView := view; K_Proposal := K_Proposal k; K_ProposalTS := K_ProposalTS k;
     K_id := K_id k; K_operator := K_operator k; K_nSteps := K_nSteps k; K_ics := K_ics k;
     K_evidence := K_evidence k; K_db := K_db k; K_heap := K_heap k; K_self := K_self k;
     K_selfRead := K_selfRead k; K_outbound := K_outbound k; K_closed := K_closed k;
     K_finalized := K_finalized k; K_timeouts := K_timeouts k; K_wal := K_wal k |}.
Definition with_proposal (k : KBFT) (p : option Proposal) (ts : option positive) : KBFT :=
  {| K_Heights := K_Heights k; K_View := K_View k; K_Step := K_Step k; K_Votes := K_Votes k;
     K_CommitView := K_CommitView k; K_Proposal := p; K_ProposalTS := ts;
     K_id := K_id k; K_operator := K_operator k; K_nSteps := K_nSteps k; K_ics := K_ics k;
     K_evidence := K_evidence k; K_db := K_db k; K_heap := K_heap k; K_self := K_self k;
     K_selfRead := K_selfRead k; K_outbound := K_outbound k; K_closed := K_closed k;
     K_finalized := K_finalized k; K_timeouts := K_timeouts k; K_wal := K_wal k |}.
Definition with_evidence (k : KBFT) (e : Evidence) : KBFT :=
  {| K_Heights := K_Heights k; K_View := K_View k; K_Step := K_Step k; K_Votes := K_Votes k;
     K_CommitView := K_CommitView k; K_Proposal := K_Proposal k; K_ProposalTS := K_ProposalTS k;
     K_id := K_id k; K_operator := K_operator k; K_nSteps := K_nSteps k; K_ics := K_ics k;
     K_evidence := e; K_db := K_db k; K_heap := K_heap k; K_self := K_self k;
     K_selfRead := K_selfRead k; K_outbound := K_outbound k; K_closed := K_closed k;
     K_finalized := K_finalized k; K_timeouts := K_timeouts k; K_wal := K_wal k |}.
Definition with_db (k : KBFT) (db : DB) : KBFT :=
  {| K_Heights := K_Heights k; K_View := K_View k; K_Step := K_Step k; K_Votes := K_Votes k;
     K_CommitView := K_CommitView k; K_Proposal := K_Proposal k; K_ProposalTS := K_ProposalTS k;
     K_id := K_id k; K_operator := K_operator k; K_nSteps := K_nSteps k; K_ics := K_ics k;
     K_evidence := K_evidence k; K_db := db; K_heap := K_heap k; K_self := K_self k;
     K_selfRead := K_selfRead k; K_outbound := K_outbound k; K_closed := K_closed k;
     K_finalized := K_finalized k; K_timeouts := K_timeouts k; K_wal := K_wal k |}.
Definition with_heap (k : KBFT) (heap : gmap positive Tesseract) : KBFT :=
  {| K_Heights := K_Heights k; K_View := K_View k; K_Step := K_Step k; K_Votes := K_Votes k;
     K_CommitView := K_CommitView k; K_Proposal := K_Proposal k; K_ProposalTS := K_ProposalTS k;
     K_id := K_id k; K_operator := K_operator k; K_nSteps := K_nSteps k; K_ics := K_ics k;
     K_evidence := K_evidence k; K_db := K_db k; K_heap := heap; K_self := K_self k;
     K_selfRead := K_selfRead k; K_outbound := K_outbound k; K_closed := K_closed k;
     K_finalized := K_finalized k; K_timeouts := K_timeouts k; K_wal := K_wal k |}.
Definition with_self (k : KBFT) (self : list ConsensusMessage) (read : nat)
    (wal : list ConsensusMessage) : KBFT :=
  {| K_Heights := K_Heights k; K_View := K_View k; K_Step := K_Step k; K_Votes := K_Votes k;
     K_CommitView := K_CommitView k; K_Proposal := K_Proposal k; K_ProposalTS := K_ProposalTS k;
     K_id := K_id k; K_operator := K_operator k; K_nSteps := K_nSteps k; K_ics := K_ics k;
     K_evidence := K_evidence k; K_db := K_db k; K_heap := K_heap k; K_self := self;
     K_selfRead := read; K_outbound := K_outbound k; K_closed := K_closed k;
     K_finalized := K_finalized k; K_timeouts := K_timeouts k; K_wal := wal |}.
Definition with_output (k : KBFT) (outbound : list Outbound) (closed : list (option err))
    (finalized : list Tesseract) (timeouts : list timeoutInfo) : KBFT :=
  {| K_Heights := K_Heights k; K_View := K_View k; K_Step := K_Step k; K_Votes := K_Votes k;
     K_CommitView := K_CommitView k; K_Proposal := K_Proposal k; K_ProposalTS := K_ProposalTS k;
     K_id := K_id k; K_operator := K_operator k; K_nSteps := K_nSteps k; K_ics := K_ics k;
     K_evidence := K_evidence k; K_db := K_db k; K_heap := K_heap k; K_self := K_self k;
     K_selfRead := K_selfRead k; K_outbound := outbound; K_closed := closed;
     K_finalized := finalized; K_timeouts := timeouts; K_wal := K_wal k |}.

(** Dereference of a tesseract pointer. *)
Definition load (k : KBFT) (p : option positive) : res Tesseract :=
  match p with
  | None => Panic "nil pointer dereference"
  | Some l => match K_heap k !! l with
              | Some t => Ret t
              | None => Panic "dangling pointer"
              end
  end.
(** [p.Heights()] *)
Definition Proposal_Heights (k : KBFT) (p : Proposal) : res (gmap Address Z) :=
  t ← load k (Prop_Tesseract p); Ret (TsHeights t).

(** ** The small operations *)
Definition sendInternalMessage (msg : ConsensusMessage) (k : KBFT) : KBFT :=
  with_self k (K_self k ++ [msg]) (K_selfRead k) (K_wal k).
(** [kbft.outboundMsgChan <- msg], for a message that points to [O_bits]. *)
Definition sendOutbound (o : Outbound) (k : KBFT) : KBFT :=
  with_output k (K_outbound k ++ [o]) (K_closed k) (K_finalized k) (K_timeouts k).
Definition sendExternalMessage (msg : ConsensusMessage) (k : KBFT) : KBFT :=
  sendOutbound {| O_msg := msg; O_bits := None |} k.
Definition Close (e : option err) (k : KBFT) : KBFT :=
  with_output k (K_outbound k) (K_closed k ++ [e]) (K_finalized k) (K_timeouts k).
Definition scheduleTimeout (d : Z) (heights : gmap Address Z) (view step : Z) (k : KBFT) : KBFT :=
  with_output k (K_outbound k) (K_closed k) (K_finalized k)
    (K_timeouts k ++ [{| TI_Duration := d; TI_Height := heights; TI_View := view; TI_Step := step |}]).
Definition scheduleView (k : KBFT) : KBFT :=
  scheduleTimeout 100000000 (K_Heights k) (K_View k) ViewStepNewHeight k.
Definition updateViewStep (view step : Z) (k : KBFT) : KBFT := with_step k view step (K_nSteps k).
Definition stepChange (k : KBFT) : KBFT := with_step k (K_View k) (K_Step k) (K_nSteps k + 1).
Definition isLeader (k : KBFT) (view : Z) (kramaID : KramaID) : bool :=
  bool_decide (K_operator k = kramaID).
Definition isProposalReceived (k : KBFT) : bool :=
  is_some (K_Proposal k) && is_some (K_ProposalTS k).

(** ** Voting *)
Definition signVote (sign : bytes → bytes * option err) (k : KBFT) (msgType : ConsensusMsgType)
    (tsHash : Hash) : Vote + err :=
  let '(valIndex, _, _) := ClusterHasKramaID (K_ics k) (K_id k) in
  if valIndex =? -1 then inr (ECommon "ErrKramaIDNotFound")
  else
    let v sig := {| V_Type := msgType; V_IsQC := false; V_View := K_View k;
                    V_SignerIndex := valIndex; V_Timestamp := 0; V_Heights := K_Heights k;
                    V_TSHash := tsHash; V_SignerIndices := None; V_Signature := sig |} in
    match Vote_SignBytes (v []) with
    | inr e => inr e
    | inl rawData =>
        match sign rawData with
        | (_, Some e) => inr e
        | (sig, None) => inl (v sig)
        end
    end.

Definition sendVote (msgType : ConsensusMsgType) (tsHash : Hash) (internalMessage : bool)
    (k : KBFT) : KBFT :=
  match vault with
  | None => k
  | Some sign =>
      let '(_, _, exists_) := ClusterHasKramaID (K_ics k) (K_id k) in
      if negb exists_ then k
      else match signVote sign k msgType tsHash with
           | inr _ => k
           | inl vote =>
               if internalMessage
               then sendInternalMessage {| CM_PeerID := K_id k; CM_Recipient := "";
                                           CM_Payload := PayloadVote vote |} k
               else sendExternalMessage {| CM_PeerID := K_id k; CM_Recipient := Operator (K_ics k);
                                           CM_Payload := PayloadVote vote |} k
           end
  end.

(** The certificate is read off the vote set with [VoteSet.GetQC], which gives the
    vote set's own bit array: the message keeps the reference, and the bits written
    here are those of the moment it is sent. *)
Definition sendQc (msgType : ConsensusMsgType) (tsHash : Hash) (k : KBFT) : res KBFT :=
  if negb (is_some vault) then Ret k
  else
    '(bits, sig) ← match msgType with
                   | PREVOTE =>
                       vs ← deref (HVS_Prevotes (K_Votes k) (K_View k));
                       Ret (Some (GetQC vs).1, (GetQC vs).2)
                   | PRECOMMIT =>
                       vs ← deref (HVS_Precommits (K_Votes k) (K_View k));
                       Ret (Some (GetQC vs).1, (GetQC vs).2)
                   | _ => Ret (None, [])
                   end;
    let msg := {| CM_PeerID := K_id k; CM_Recipient := ""; CM_Payload := PayloadVote
                   {| V_Type := msgType; V_IsQC := true; V_View := K_View k; V_SignerIndex := 0;
                      V_Timestamp := 0; V_Heights := K_Heights k; V_TSHash := tsHash;
                      V_SignerIndices := bits; V_Signature := sig |} |} in
    Ret (sendOutbound {| O_msg := msg; O_bits := (λ _, (K_View k, msgType)) <$> bits |} k).

(** What [handleOutboundMessage] serialises when it takes the message from the
    channel, with the engine in state [k]. *)
Definition show_bits (b : option Bits) (msg : ConsensusMessage) : ConsensusMessage :=
  match CM_Payload msg with
  | PayloadVote v =>
      {| CM_PeerID := CM_PeerID msg; CM_Recipient := CM_Recipient msg; CM_Payload := PayloadVote
           {| V_Type := V_Type v; V_IsQC := V_IsQC v; V_View := V_View v; V_SignerIndex := V_SignerIndex v;
              V_Timestamp := V_Timestamp v; V_Heights := V_Heights v; V_TSHash := V_TSHash v;
              V_SignerIndices := b; V_Signature := V_Signature v |} |}
  | _ => msg
  end.
Definition on_wire (k : KBFT) (o : Outbound) : ConsensusMessage :=
  match O_bits o with
  | None => O_msg o
  | Some (view, ty) =>
      match getVoteSet (K_Votes k) view ty with
      | None => O_msg o
      | Some vs => show_bits (Some (votesBitArray vs)) (O_msg o)
      end
  end.

(** ** The steps of a view *)
Definition enterPrevote (h : gmap Address Z) (view : Z) (k : KBFT) : res KBFT :=
  if negb (areHeightsEqual (K_Heights k) h) || (view <? K_View k)
     || (K_View k =? view) && (ViewStepPrevote <=? K_Step k)
  then Ret k
  else
    k' ← match K_ProposalTS k with
         | None => Ret (sendVote PREVOTE NilHash (isLeader k view (K_id k)) k)
         | Some _ =>
             t ← load k (K_ProposalTS k);
             Ret (sendVote PREVOTE (TsHash t) (isLeader k view (K_id k)) k)
         end;
    Ret (stepChange (updateViewStep view ViewStepPrevote k')).

Definition enterPreCommit_body (view : Z) (k : KBFT) : res KBFT :=
  match SuperMajority (HVS_Prevotes (K_Votes k) view) with
  | (_, false) => Ret k
  | (tsHash, true) =>
      k1 ← (if isLeader k view (K_id k) then sendQc PREVOTE tsHash k else Ret k);
      t ← load k1 (K_ProposalTS k1);
      if negb (TsCompareHash t tsHash) then
        (* the error log reads the proposal's tesseract *)
        p ← deref (K_Proposal k1);
        _ ← load k1 (Prop_Tesseract p);
        Ret k1
      else
        r ← HVS_GetQC (K_Votes k1) tsHash (K_View k1) PREVOTE;
        match r with
        | inr _ => Ret k1
        | inl qc =>
            '(db, e) ← UpdateSafetyInfo (load k1) (K_db k1) (K_Proposal k1) qc;
            let k2 := with_db k1 db in
            match e with
            | Some _ => Ret k2
            | None => Ret (sendVote PRECOMMIT tsHash (isLeader k2 view (K_id k2)) k2)
            end
        end
  end.

Definition enterPreCommit (heights : gmap Address Z) (view : Z) (k : KBFT) : res KBFT :=
  if negb (areHeightsEqual (K_Heights k) heights) || (view <? K_View k)
     || (view =? K_View k) && (ViewStepPrecommit <=? K_Step k)
  then Ret k
  else
    k' ← enterPreCommit_body view k;
    Ret (stepChange (updateViewStep view ViewStepPrecommit k')).

Definition updateConsensusInfoInTesseracts (preCommitBitSet : Bits) (signature : bytes) (k : KBFT)
    : res (option err * KBFT) :=
  match FlushEvidence (K_evidence k) with
  | inr e => Ret (Some e, k)
  | inl (evidenceHash, data) =>
      p ← deref (K_Proposal k);
      pt ← load k (Prop_Tesseract p);
      let qc := {| Qc_Type := PRECOMMIT; Qc_View := K_View k; Qc_TSHash := TsHash pt; Qc_Address := NilAddress;
                   Qc_SignerIndices := Some preCommitBitSet; Qc_Signature := signature |} in
      let k1 := with_votes k (K_Votes k) (AddDirty evidenceHash data (K_ics k)) in
      t ← load k1 (K_ProposalTS k1);
      let store t k := match K_ProposalTS k with
                       | Some l => with_heap k (<[l := t]> (K_heap k)) | None => k end in
      let t1 := TsSetCommitQc t qc in
      let k2 := store t1 k1 in
      match TsSignBytes t1 with
      | inr e => Ret (Some e, k2)
      | inl rawData =>
          sign ← deref vault;
          match sign rawData with
          | (_, Some e) => Ret (Some (EWrap e "failed to sign the tesseract"), k2)
          | (seal, None) => Ret (None, store (TsSetSealBy (TsSetSeal t1 seal) (K_id k2)) k2)
          end
      end
  end.

Definition finalizeCommit (h : gmap Address Z) (k : KBFT) : res KBFT :=
  if negb (areHeightsEqual (K_Heights k) h) then Panic "unmatched heights"
  else
    match SuperMajority (HVS_Precommits (K_Votes k) (K_CommitView k)) with
    | (_, false) => Ret k
    | (tsHash, true) =>
        if decide (tsHash = NilHash) then Ret k
        else
          match K_Proposal k with
          | None => Ret k
          | Some p =>
              pt ← load k (Prop_Tesseract p);
              if negb (TsCompareHash pt tsHash) then Ret k
              else if negb (areHeightsEqual (K_Heights k) h) || negb (K_Step k =? ViewStepCommit)
              then Ret k
              else
                vs ← deref (HVS_Precommits (K_Votes k) (K_View k));
                '(e, k1) ← updateConsensusInfoInTesseracts (GetQC vs).1 (GetQC vs).2 k;
                match e with
                | Some e => Ret (Close (Some e) k1)
                | None =>
                    t ← load k1 (K_ProposalTS k1);
                    let k2 := with_output k1 (K_outbound k1) (K_closed k1)
                                (K_finalized k1 ++ [TsCopy t]) (K_timeouts k1) in
                    match tesseractHandler (TsCopy t) with
                    | Some e => Ret (Close (Some e) k2)
                    | None => Ret (Close None k2)
                    end
                end
          end
    end.

Definition enterCommit_body (view : Z) (k : KBFT) : res KBFT :=
  match SuperMajority (HVS_Precommits (K_Votes k) view) with
  | (_, false) => Panic "expecting precommits"
  | (tsHash, true) =>
      r ← HVS_GetQC (K_Votes k) tsHash (K_View k) PRECOMMIT;
      match r with
      | inr _ => Ret k
      | inl qc =>
          '(db, e) ← UpdateSafetyInfo (load k) (K_db k) (K_Proposal k) qc;
          let k1 := with_db k db in
          match e with
          | Some _ => Ret k1
          | None => if isLeader k1 view (K_id k1) then sendQc PRECOMMIT tsHash k1 else Ret k1
          end
      end
  end.

(** What the deferred function finds when the body is done with [k]. *)
Definition commit_step (view : Z) (k : KBFT) : KBFT :=
  stepChange (with_commit_view (updateViewStep (K_View k) ViewStepCommit k) view).

(** The deferred function also runs while a panic of the body unwinds: it may hand
    the tesseract over before the process ends.  It reads neither the safety store
    nor the outbound channel, which is all the body may have changed by then. *)
Definition enterCommit_unwinds (heights : gmap Address Z) (view : Z) (k : KBFT) : res KBFT :=
  finalizeCommit heights (commit_step view k).
Definition enterCommit (heights : gmap Address Z) (view : Z) (k : KBFT) : res KBFT :=
  if negb (areHeightsEqual (K_Heights k) heights) || (ViewStepCommit <=? K_Step k)
  then Ret k
  else
    match enterCommit_body view k with
    | Ret k1 => finalizeCommit heights (commit_step view k1)
    | Panic msg => _ ← enterCommit_unwinds heights view k; Panic msg
    | Hang => Hang
    end.

(** [createProposal] never fails. *)
Definition createProposal (heights : gmap Address Z) (view : Z) (k : KBFT) : KBFT :=
  sendInternalMessage {| CM_PeerID := K_id k; CM_Recipient := "";
    CM_Payload := PayloadProposal (NewProposal (PrepareQc (K_ics k)) (ts (K_ics k))) |} k.

Definition enterPropose (heights : gmap Address Z) (view : Z) (k : KBFT) : res KBFT :=
  if negb (areHeightsEqual (K_Heights k) heights) || (view <? K_View k)
     || (K_View k =? view) && (ViewStepPropose <=? K_Step k)
  then Ret k
  else
    let k1 := if negb (is_some vault) then k
              else if negb (isLeader k view (K_id k)) then k
              else createProposal heights view k in
    let k2 := stepChange (updateViewStep view ViewStepPropose k1) in
    if isProposalReceived k2 then enterPrevote heights (K_View k2) k2 else Ret k2.

Definition enterNewView (heights : gmap Address Z) (view : Z) (k : KBFT) : res KBFT :=
  if negb (areHeightsEqual (K_Heights k) heights) || (view <? K_View k)
     || (K_View k =? view) && negb (K_Step k =? ViewStepNewHeight)
  then Ret k
  else
    let k1 := updateViewStep view ViewStepNewView k in
    let k2 := if negb (view =? 0) then with_proposal k1 None None else k1 in
    votes ← HVS_SetView (K_Votes k2) (K_ics k2) (u64 (view + 1));
    enterPropose heights view (with_votes k2 votes (K_ics k2)).

(** ** Messages *)
Definition setProposal (p : Proposal) (k : KBFT) : res (option err * KBFT) :=
  match K_Proposal k with
  | Some _ => Ret (Some (ENew "proposal already set"), k)
  | None =>
      heights ← Proposal_Heights k p;
      bad ← (if negb (areHeightsEqual (K_Heights k) heights) then Ret true
             else v ← Proposal_View p; Ret (negb (v =? K_View k)));
      if bad : bool then Ret (Some (ENew "invalid height or view"), k)
      else
        let k1 := with_proposal k (Some p) (Prop_Tesseract p) in
        let k2 := if isLeader k1 (K_View k1) (K_id k1)
                  then sendExternalMessage {| CM_PeerID := K_id k1; CM_Recipient := "";
                                              CM_Payload := PayloadProposal p |} k1
                  else k1 in
        k3 ← (if (K_Step k2 <=? ViewStepPropose) && isProposalReceived k2
              then enterPrevote (K_Heights k2) (K_View k2) k2 else Ret k2);
        Ret (None, k3)
  end.

(** The two cases of the switch after a vote has been added. *)
Definition afterPrevote (v : Vote) (k : KBFT) : res KBFT :=
  let preVotes := HVS_Prevotes (K_Votes k) (V_View v) in
  '(future, k1) ← (if K_View k <? V_View v
                   then '(any, ics) ← HasMajorityAny preVotes (K_ics k);
                        Ret (any, with_votes k (K_Votes k) ics)
                   else Ret (false, k));
  if future : bool then Ret k1
  else if (K_View k1 =? V_View v) && (ViewStepPrevote <=? K_Step k1) then
    let '(tsHash, ok) := SuperMajority preVotes in
    if ok && (isProposalReceived k1 || negb (bool_decide (tsHash = NilHash)))
    then enterPreCommit (K_Heights k1) (V_View v) k1 else Ret k1
  else Ret k1.

Definition afterPrecommit (v : Vote) (k : KBFT) : res KBFT :=
  let preCommits := HVS_Precommits (K_Votes k) (V_View v) in
  match SuperMajority preCommits with
  | (tsHash, true) =>
      if decide (tsHash = NilHash) then Ret k else enterCommit (K_Heights k) (V_View v) k
  | (_, false) =>
      if K_View k <=? V_View v
      then '(_, ics) ← HasMajorityAny preCommits (K_ics k); Ret (with_votes k (K_Votes k) ics)
      else Ret k
  end.

(** The vote goes to the vote set; refused ones are kept as evidence. *)
Definition countVote (v : Vote) (peerID : KramaID) (k : KBFT) : res (bool * option err * KBFT) :=
  if V_IsQC v && negb (isLeader k (V_View v) peerID)
  then Ret (false, Some (ENew "Invalid Leader"), k)
  else
    '(added, e, votes, ics) ← (if V_IsQC v then HVS_AddQC (K_Votes k) (K_ics k) v peerID
                               else HVS_AddVote (K_Votes k) (K_ics k) v peerID);
    let k1 := with_votes k votes ics in
    Ret (added, e, if is_some e || negb added
                   then with_evidence k1 (Evidence_AddVote (K_evidence k1) v) else k1).

Definition addVote (v : Vote) (peerID : KramaID) (k : KBFT) : res (bool * option err * KBFT) :=
  if negb (AreVoteHeightsEqual (V_Heights v) (K_Heights k)) then Ret (false, None, k)
  else
    k1 ← match K_ProposalTS k with
         | None => Ret k
         | Some _ =>
             t ← load k (K_ProposalTS k);
             Ret (if decide (V_TSHash v = TsHash t) then k
                  else with_evidence k (Evidence_AddVote (K_evidence k) v))
         end;
    '(added, e, k2) ← countVote v peerID k1;
    if is_some e || negb added then Ret (added, e, k2)
    else
      k3 ← match V_Type v with
           | PREVOTE => afterPrevote v k2
           | PRECOMMIT => afterPrecommit v k2
           | _ => Ret k2
           end;
      Ret (added, None, k3).

Definition handleMsg (msg : ConsensusMessage) (k : KBFT) : res KBFT :=
  match CM_Payload msg with
  | PayloadProposal p => '(_, k') ← setProposal p k; Ret k'
  | PayloadVote v => '(_, _, k') ← addVote v (CM_PeerID msg) k; Ret k'
  | _ => Ret k
  end.

(** [r] is the copy of the view state taken before the [select], which is the
    current one: only this goroutine changes it. *)
Definition handleTimeout (ti : timeoutInfo) (k : KBFT) : res KBFT :=
  if negb (areHeightsEqual (TI_Height ti) (K_Heights k)) || (TI_View ti <? K_View k)
     || (TI_View ti =? K_View k) && (TI_Step ti <? K_Step k)
  then Ret k
  else if TI_Step ti =? ViewStepNewHeight then enterNewView (TI_Height ti) (TI_View ti) k
  else Ret k.

(** ** The engine's loop

    [NewKBFTService] with [updateToState], and [Start] up to the loop. *)
Definition NewKBFTService (operator : KramaID) (ics : ClusterState) (voteset : HeightVoteSet)
    (evidence : Evidence) (db : DB) (heap : gmap positive Tesseract) : KBFT :=
  stepChange
    {| K_Heights := NewHeights ics; K_View := CurrentView ics; K_Step := ViewStepNewHeight;
       K_Votes := voteset; K_CommitView := 0; K_Proposal := None; K_ProposalTS := None;
       K_id := SelfKramaID ics; K_operator := operator; K_nSteps := 0; K_ics := ics;
       K_evidence := evidence; K_db := db; K_heap := heap; K_self := []; K_selfRead := 0;
       K_outbound := []; K_closed := []; K_finalized := []; K_timeouts := []; K_wal := [] |}.

(** What the loop can receive.  An inbound proposal points to a tesseract decoded
    for it, which is new in the heap. *)
Inductive kevent :=
| EvInbound (msg : ConsensusMessage) (decoded : gmap positive Tesseract)
| EvSelf
| EvTimeout (ti : timeoutInfo).

(** One iteration of the loop of [handler] that does not leave it. *)
Definition kstep (k : KBFT) (ev : kevent) : res KBFT :=
  match ev with
  | EvInbound msg decoded => handleMsg msg (with_heap k (K_heap k ∪ decoded))
  | EvSelf =>
      match K_self k !! K_selfRead k with
      | None => Ret k
      | Some msg =>
          handleMsg msg (with_self k (K_self k) (S (K_selfRead k)) (K_wal k ++ [msg]))
      end
  | EvTimeout ti => handleTimeout ti k
  end.

Definition krun (evs : list kevent) (k : KBFT) : res KBFT := foldM kstep evs k.
End Kbft.
