(* ===== verification/KbftFacts.v ===== *)
(** * The BFT engine: invariant

    [kinv] is the invariant of an engine between two messages: its vote sets are
    sound, each signed vote belongs to a (view, step) the engine has passed, no
    two signed votes of one view and type differ, a signed precommit has a
    prevote majority behind it, and so has everything handed to the tesseract
    handler with precommits.  [kext] is what only grows.  Every handler is proved
    to preserve the first and establish the second. *)

From stdpp Require Import base gmap strings list fin_maps.
From Stdlib Require Import ZArith Lia.
From S2P Require Import Prelude External Types NodeSet Committee Cluster VoteSet Tally VoteSetFacts HeightVoteSet Safety Ticker Kbft.

Section KbftFacts.
Context `{ET : ExtTypes} `{!ExtOps ET} `{!TesseractOps ET}.
Context `{!SafetyStore ET} `{!TesseractParts ET _}.
Context `{!PoloCodec CanonicalVote} `{!PoloCodec SafetyData} `{!PoloCodec ProposalInfo} `{!PoloCodec Evidence}.
Context `{!BitLaws ET} `{!TesseractLaws ET _}.
Context (vault : option (bytes → bytes * option err)) (tesseractHandler : Tesseract → option err).

(** The votes the engine has signed; certificates are not signed by it. *)
Definition out_vote (m : ConsensusMessage) : option Vote :=
  match CM_Payload m with
  | PayloadVote v => if V_IsQC v then None else Some v
  | _ => None
  end.
Definition any_vote (m : ConsensusMessage) : option Vote :=
  match CM_Payload m with PayloadVote v => Some v | _ => None end.
Definition signed (k : KBFT) : list Vote :=
  omap any_vote (K_self k) ++ omap (out_vote ∘ O_msg) (K_outbound k).

(** The vote an event delivers. *)
Definition ev_vote (ev : kevent) : option Vote :=
  match ev with EvInbound msg _ => any_vote msg | _ => None end.

Lemma out_any m v : out_vote m = Some v → any_vote m = Some v.
Proof. unfold out_vote, any_vote. destruct (CM_Payload m); try done. by destruct (V_IsQC v0). Qed.

(** The step at which a vote of a type is signed. *)
Definition rank (ty : ConsensusMsgType) : Z :=
  match ty with PREVOTE => ViewStepPrevote | PRECOMMIT => ViewStepPrecommit | _ => 7 end.

Definition majority_at (k : KBFT) (view : Z) (ty : ConsensusMsgType) (h : Hash) : Prop :=
  SuperMajority (getVoteSet (K_Votes k) view ty) = (h, true).

(** (view, step) in lexicographic order. *)
Definition kle (k k' : KBFT) : Prop :=
  K_View k < K_View k' ∨ K_View k = K_View k' ∧ K_Step k ≤ K_Step k'.

Record kext (k k' : KBFT) : Prop := {
  ke_le : kle k k';
  ke_maj : ∀ view ty h, majority_at k view ty h → majority_at k' view ty h;
  ke_signed : ∀ v, v ∈ signed k → v ∈ signed k';
  ke_id : K_id k' = K_id k ∧ K_operator k' = K_operator k ∧ K_Heights k' = K_Heights k;
  ke_final : ∀ t, t ∈ K_finalized k → t ∈ K_finalized k';
}.

Lemma kext_refl k : kext k k.
Proof. split; try done. right. split; [done|lia]. Qed.

Lemma kext_trans a b d : kext a b → kext b d → kext a d.
Proof.
  intros [L1 M1 S1 (I1 & I2 & I3) F1] [L2 M2 S2 (J1 & J2 & J3) F2].
  split; [unfold kle in *; lia|auto|auto|split_and!; congruence|auto].
Qed.

Context (c : ICSCommittee) (q : list Z) (Henv : env_ok c q) (Hthr : ∃ x, x ∈ q ∧ 0 < x).

Section Invariant.
Context (sent : Vote → Prop).

(** [b] bounds the steps of the current view at which votes were signed. *)
Record kinvb (b : Z) (k : KBFT) : Prop := {
  ki_votes : hvs_ok c q sent (K_Votes k);
  ki_cluster : cluster_ok c q (K_ics k);
  ki_view : 0 ≤ K_View k;
  ki_prop : ∀ p, K_Proposal k = Some p → K_ProposalTS k = Prop_Tesseract p;
  ki_noprop : K_Proposal k = None → K_ProposalTS k = None;
  ki_signed : ∀ v, v ∈ signed k → voteType (V_Type v) ∧ V_View v ≤ K_View k ∧
                (V_View v = K_View k → rank (V_Type v) ≤ b);
  ki_once : ∀ v w, v ∈ signed k → w ∈ signed k → V_View v = V_View w → V_Type v = V_Type w → v = w;
  ki_just : ∀ v, v ∈ signed k → V_Type v = PRECOMMIT → majority_at k (V_View v) PREVOTE (V_TSHash v);
  ki_final : ∀ t, t ∈ K_finalized k → ∃ view, majority_at k view PRECOMMIT (TsHash t);
}.
Definition kinv (k : KBFT) : Prop := kinvb (K_Step k) k.

Lemma kinvb_weaken b b' k : b ≤ b' → kinvb b k → kinvb b' k.
Proof.
  intros Hb [? ? ? ? ? Hs ? ? ?]. split; try done.
  intros v Hv. destruct (Hs v Hv) as (? & ? & H). split_and!; try done. intros E%H. lia.
Qed.

(** *** Messages *)
Lemma signed_internal m k v :
  v ∈ signed (sendInternalMessage m k) ↔ v ∈ signed k ∨ any_vote m = Some v.
Proof.
  unfold signed. cbn. rewrite !omap_app, !elem_of_app. cbn.
  destruct (any_vote m) as [w|]; rewrite ?list_elem_of_singleton, ?elem_of_nil; clear; naive_solver.
Qed.

Lemma signed_outbound o k v :
  v ∈ signed (sendOutbound o k) ↔ v ∈ signed k ∨ out_vote (O_msg o) = Some v.
Proof.
  unfold signed. cbn. rewrite !omap_app, !elem_of_app. cbn.
  destruct (out_vote (O_msg o)) as [w|]; rewrite ?list_elem_of_singleton, ?elem_of_nil; clear; naive_solver.
Qed.
Lemma signed_external m k v :
  v ∈ signed (sendExternalMessage m k) ↔ v ∈ signed k ∨ out_vote m = Some v.
Proof. apply signed_outbound. Qed.

(** A message that is no signed vote. *)
Lemma internal_quiet b m k :
  kinvb b k → any_vote m = None → kinvb b (sendInternalMessage m k) ∧ kext k (sendInternalMessage m k).
Proof.
  intros [? ? ? ? ? Hs Ho Hj ?] Hm.
  assert (Hi : ∀ v, v ∈ signed (sendInternalMessage m k) ↔ v ∈ signed k)
    by (intros v; rewrite signed_internal, Hm; naive_solver).
  split; split; try done; try (by setoid_rewrite Hi). right. cbn. lia.
Qed.
Lemma outbound_quiet b o k :
  kinvb b k → out_vote (O_msg o) = None → kinvb b (sendOutbound o k) ∧ kext k (sendOutbound o k).
Proof.
  intros [? ? ? ? ? Hs Ho Hj ?] Hm.
  assert (He : ∀ v, v ∈ signed (sendOutbound o k) ↔ v ∈ signed k)
    by (intros v; rewrite signed_outbound, Hm; naive_solver).
  split; split; try done; try (by setoid_rewrite He). right. cbn. lia.
Qed.

Lemma signVote_fields sign k ty h v :
  signVote sign k ty h = inl v →
  V_Type v = ty ∧ V_View v = K_View k ∧ V_TSHash v = h ∧ V_IsQC v = false.
Proof.
  unfold signVote. destruct (ClusterHasKramaID _ _) as [[i pk] r]. case_match; [done|].
  case_match; [|done]. destruct (sign _) as [sig [e|]]; [done|]. by intros [= <-].
Qed.

(** What [sendVote] does: nothing, or it sends one signed vote. *)
Lemma sendVote_cases ty h internal k :
  sendVote vault ty h internal k = k ∨
  ∃ v m, V_Type v = ty ∧ V_View v = K_View k ∧ V_TSHash v = h ∧ out_vote m = Some v ∧
    (sendVote vault ty h internal k = sendInternalMessage m k ∨
     sendVote vault ty h internal k = sendExternalMessage m k).
Proof.
  unfold sendVote. destruct vault as [sign|]; [|by left].
  destruct (ClusterHasKramaID _ _) as [[i pk] r]. destruct (negb r); [by left|].
  destruct (signVote sign k ty h) as [v|e] eqn:E; [|by left].
  apply signVote_fields in E as (? & ? & ? & Hq). right. exists v.
  destruct internal.
  - exists {| CM_PeerID := K_id k; CM_Recipient := ""; CM_Payload := PayloadVote v |}.
    split_and!; try done; [unfold out_vote; cbn; by rewrite Hq|by left].
  - exists {| CM_PeerID := K_id k; CM_Recipient := Operator (K_ics k); CM_Payload := PayloadVote v |}.
    split_and!; try done; [unfold out_vote; cbn; by rewrite Hq|by right].
Qed.

Lemma sendVote_inv b b' ty h internal k :
  kinvb b k → b ≤ b' → rank ty ≤ b' → voteType ty →
  (∀ v, v ∈ signed k → V_View v = K_View k → V_Type v ≠ ty) →
  (ty = PRECOMMIT → majority_at k (K_View k) PREVOTE h) →
  kinvb b' (sendVote vault ty h internal k) ∧ kext k (sendVote vault ty h internal k).
Proof.
  intros Hk Hb Hr Ht Hnew Hj.
  destruct (sendVote_cases ty h internal k) as [->|(v & m & Hty & Hv & Hh & Hm & Hcase)].
  { split; [exact (kinvb_weaken _ _ _ Hb Hk)|apply kext_refl]. }
  destruct (kinvb_weaken _ _ _ Hb Hk) as [? ? ? ? ? Hs Ho Hju Hf].
  set (k' := sendVote vault ty h internal k) in *.
  assert (Hs' : ∀ w, w ∈ signed k' ↔ w ∈ signed k ∨ w = v).
  { intros w. destruct Hcase as [-> | ->]; rewrite ?signed_internal, ?signed_external, ?Hm, ?(out_any _ _ Hm); naive_solver. }
  assert (Hcore : (K_Votes k', K_ics k', K_View k', K_Step k', K_Proposal k', K_ProposalTS k')
    = (K_Votes k, K_ics k, K_View k, K_Step k, K_Proposal k, K_ProposalTS k) ∧
    (K_id k', K_operator k', K_Heights k', K_finalized k')
    = (K_id k, K_operator k, K_Heights k, K_finalized k)) by (by destruct Hcase as [-> | ->]).
  destruct Hcore as [[= Ev Ei Evw Est Ep Ets] [= Eid Eop Ehe Efi]].
  assert (Hmaj : ∀ view ty h, majority_at k' view ty h ↔ majority_at k view ty h)
    by (intros; unfold majority_at; by rewrite Ev).
  split; split; rewrite ?Ev, ?Ei, ?Evw, ?Ep, ?Ets, ?Efi; try done.
  - intros w [Hw| ->]%Hs'; [by apply Hs|]. rewrite Hty, Hv. split_and!; [done|lia|done].
  - intros w1 w2 [H1| ->]%Hs' [H2| ->]%Hs' E1 E2; [by apply Ho|..|done].
    + exfalso. apply (Hnew w1 H1); congruence.
    + exfalso. apply (Hnew w2 H2); congruence.
  - intros w [Hw| ->]%Hs' Hwt; apply Hmaj; [by apply Hju|]. rewrite Hv, Hh. apply Hj. congruence.
  - setoid_rewrite Hmaj. done.
  - right. rewrite Evw, Est. split; [done|lia].
  - intros view ty' h' Hm'. by apply Hmaj.
  - intros w Hw. apply Hs'. by left.
Qed.

(** The deferred step change at the end of a handler. *)
Lemma later_inv b b' view k :
  kinvb b k → K_View k < view ∨ K_View k = view ∧ b ≤ b' ∧ K_Step k ≤ b' →
  kinv (updateViewStep view b' k) ∧ kext k (updateViewStep view b' k).
Proof.
  intros [? ? ? ? ? Hs Ho Hj Hf] Hle. split.
  - split; try done; cbn; [lia|]. intros v Hv. destruct (Hs v Hv) as (? & ? & H).
    split_and!; try done; [lia|]. intros E. destruct Hle; [lia|]. etrans; [apply H; lia|lia].
  - split; try done. unfold kle. cbn. lia.
Qed.

Lemma step_inv b view k :
  kinvb b k → K_View k ≤ view → (K_View k = view → K_Step k ≤ b) →
  kinv (stepChange (updateViewStep view b k)) ∧ kext k (stepChange (updateViewStep view b k)).
Proof.
  intros Hk Hle Hst. destruct (later_inv b b view k Hk) as [[] []]; [lia|]. by split.
Qed.

Lemma no_vote_at b ty k :
  kinvb b k → b < rank ty → ∀ v, v ∈ signed k → V_View v = K_View k → V_Type v ≠ ty.
Proof. intros Hk Hb v Hv E <-. destruct (ki_signed _ _ Hk v Hv) as (_ & _ & H). specialize (H E). lia. Qed.

(** ** Prevote *)
Lemma enterPrevote_inv k k' h :
  kinv k → enterPrevote vault h (K_View k) k = Ret k' → kinv k' ∧ kext k k'.
Proof.
  intros Hk H. unfold enterPrevote in H.
  case_match eqn:Eg; [injection H as <-; by split; [|apply kext_refl]|].
  apply orb_false_iff in Eg as [_ Eg]. rewrite Z.eqb_refl in Eg. apply Z.leb_gt in Eg.
  assert (Hbody : ∀ h', kinvb ViewStepPrevote (sendVote vault PREVOTE h' (isLeader k (K_View k) (K_id k)) k) ∧
    kext k (sendVote vault PREVOTE h' (isLeader k (K_View k) (K_id k)) k)).
  { intros h'. eapply sendVote_inv; [exact Hk|lia|done|by left| |done].
    by apply (no_vote_at (K_Step k)). }
  assert (Hfin : ∀ h', kinv (stepChange (updateViewStep (K_View k) ViewStepPrevote
      (sendVote vault PREVOTE h' (isLeader k (K_View k) (K_id k)) k))) ∧
    kext k (stepChange (updateViewStep (K_View k) ViewStepPrevote
      (sendVote vault PREVOTE h' (isLeader k (K_View k) (K_id k)) k)))).
  { intros h'. destruct (Hbody h') as [Hi He].
    assert (Hvs : K_View (sendVote vault PREVOTE h' (isLeader k (K_View k) (K_id k)) k) = K_View k ∧
      K_Step (sendVote vault PREVOTE h' (isLeader k (K_View k) (K_id k)) k) = K_Step k).
    { destruct (sendVote_cases PREVOTE h' (isLeader k (K_View k) (K_id k)) k)
        as [->|(? & ? & _ & _ & _ & _ & [-> | ->])]; done. }
    destruct Hvs as [Hv Hs].
    destruct (step_inv ViewStepPrevote (K_View k) _ Hi) as [Hi' He']; [lia|lia|].
    split; [done|by eapply kext_trans]. }
  destruct (K_ProposalTS k) as [l|].
  - destruct (load k (Some l)) as [t| |]; cbn in H; [|discriminate..]. injection H as <-. apply Hfin.
  - cbn in H. injection H as <-. apply Hfin.
Qed.

(** *** Changes the invariant does not see *)
Definition quiet (k k' : KBFT) : Prop :=
  K_Votes k' = K_Votes k ∧ cluster_ok c q (K_ics k') ∧ K_View k' = K_View k ∧
  K_Step k' = K_Step k ∧ K_Proposal k' = K_Proposal k ∧ K_ProposalTS k' = K_ProposalTS k ∧
  K_id k' = K_id k ∧ K_operator k' = K_operator k ∧ K_Heights k' = K_Heights k ∧
  K_finalized k' = K_finalized k ∧ K_self k' = K_self k ∧ K_outbound k' = K_outbound k.

Lemma quiet_inv b k k' : kinvb b k → quiet k k' → kinvb b k' ∧ kext k k'.
Proof.
  intros [? ? ? Hp Hn Hs Ho Hj Hf] (Ev & Hc & Evw & Est & Ep & Ets & Eid & Eop & Ehe & Efi & Ese & Eou).
  assert (Es : signed k' = signed k) by (unfold signed; congruence).
  assert (Hm : ∀ view ty h, majority_at k' view ty h ↔ majority_at k view ty h)
    by (intros; unfold majority_at; by rewrite Ev).
  split; split; rewrite ?Es, ?Ev, ?Evw, ?Ep, ?Ets, ?Efi; try done.
  - intros v Hv Ht. by apply Hm, Hj.
  - setoid_rewrite Hm. done.
  - right. rewrite Evw, Est. split; [done|lia].
  - intros view ty h. by rewrite Hm.
Qed.

Lemma quiet_db k db : kinv k → quiet k (with_db k db).
Proof. intros Hk. split_and!; try done; apply (ki_cluster _ _ Hk). Qed.

Lemma sendQc_inv b ty h k k' :
  kinvb b k → sendQc vault ty h k = Ret k' →
  kinvb b k' ∧ kext k k' ∧ K_View k' = K_View k ∧ K_Step k' = K_Step k ∧
  K_Proposal k' = K_Proposal k ∧ K_ProposalTS k' = K_ProposalTS k ∧ K_Votes k' = K_Votes k ∧
  K_db k' = K_db k ∧ K_heap k' = K_heap k ∧ signed k' = signed k.
Proof.
  intros Hk H. unfold sendQc in H. destruct vault as [sign|]; cbn [is_some negb] in H.
  2: { injection H as <-. split_and!; try done. apply kext_refl. }
  apply bind_Ret in H as ([bits sig] & _ & H). injection H as <-.
  match goal with |- context [sendOutbound ?o k] =>
    destruct (outbound_quiet b o k Hk eq_refl) as [Hi He] end.
  split; [exact Hi|]. split; [exact He|]. split_and!; try done.
  unfold signed. cbn. rewrite omap_app. cbn. by rewrite app_nil_r.
Qed.

(** ** Precommit *)
Lemma same_step ty h internal k :
  K_View (sendVote vault ty h internal k) = K_View k ∧ K_Step (sendVote vault ty h internal k) = K_Step k.
Proof.
  destruct (sendVote_cases ty h internal k) as [->|(? & ? & _ & _ & _ & _ & [-> | ->])]; done.
Qed.

Lemma enterPreCommit_body_inv k k' :
  kinv k → K_Step k < ViewStepPrecommit → enterPreCommit_body vault (K_View k) k = Ret k' →
  kinvb ViewStepPrecommit k' ∧ kext k k' ∧ K_View k' = K_View k ∧ K_Step k' = K_Step k.
Proof.
  intros Hk Hlt H. unfold enterPreCommit_body in H.
  assert (Hk5 : kinvb ViewStepPrecommit k) by (eapply kinvb_weaken; [|exact Hk]; lia).
  destruct (SuperMajority (HVS_Prevotes (K_Votes k) (K_View k))) as [tsHash [|]] eqn:Em.
  2: { injection H as <-. split_and!; try done. apply kext_refl. }
  apply bind_Ret in H as (k1 & H1 & H).
  assert (Hk1 : kinvb (K_Step k) k1 ∧ kext k k1 ∧ K_View k1 = K_View k ∧ K_Step k1 = K_Step k ∧
    K_Votes k1 = K_Votes k ∧ signed k1 = signed k).
  { case_match.
    - destruct (sendQc_inv _ _ _ _ _ Hk H1) as (? & ? & ? & ? & _ & _ & ? & _ & _ & ?). by split_and!.
    - injection H1 as <-. split_and!; try done. apply kext_refl. }
  destruct Hk1 as (Hi1 & He1 & Ev1 & Es1 & Evs1 & Esg1).
  assert (Hi1' : kinvb ViewStepPrecommit k1) by (eapply kinvb_weaken; [|exact Hi1]; lia).
  apply bind_Ret in H as (t & _ & H). destruct (negb (TsCompareHash t tsHash)).
  { apply bind_Ret in H as (p & _ & H). apply bind_Ret in H as (? & _ & H). injection H as <-. by split_and!. }
  apply bind_Ret in H as ([qc|e] & _ & H); [|injection H as <-; by split_and!].
  apply bind_Ret in H as ([db e] & _ & H).
  assert (Hq : quiet k1 (with_db k1 db)) by (apply quiet_db; unfold kinv; by rewrite Es1).
  destruct (quiet_inv _ _ _ Hi1 Hq) as [Hi2 He2].
  destruct e as [e|]; injection H as <-.
  { split_and!; [eapply kinvb_weaken; [|exact Hi2]; lia|by eapply kext_trans|done..]. }
  destruct (sendVote_inv (K_Step k) ViewStepPrecommit PRECOMMIT tsHash
    (isLeader (with_db k1 db) (K_View k) (K_id (with_db k1 db))) (with_db k1 db)) as [Hi3 He3];
    [done|lia|done|by right| |..].
  - apply (no_vote_at (K_Step k)); [exact Hi2|exact Hlt].
  - intros _. unfold majority_at. cbn [K_View K_Votes with_db]. rewrite Ev1, Evs1. exact Em.
  - split_and!; [exact Hi3| | |].
    + eapply kext_trans; [exact He1|]. eapply kext_trans; [exact He2|exact He3].
    + etrans; [apply same_step|exact Ev1].
    + etrans; [apply same_step|exact Es1].
Qed.

Lemma enterPreCommit_inv k k' h :
  kinv k → enterPreCommit vault h (K_View k) k = Ret k' → kinv k' ∧ kext k k'.
Proof.
  intros Hk H. unfold enterPreCommit in H.
  case_match eqn:Eg; [injection H as <-; by split; [|apply kext_refl]|].
  apply orb_false_iff in Eg as [_ Eg]. rewrite Z.eqb_refl in Eg. apply Z.leb_gt in Eg.
  apply bind_Ret in H as (k1 & H1 & H). injection H as <-.
  destruct (enterPreCommit_body_inv k k1 Hk Eg H1) as (Hi & He & Hv & Hs).
  destruct (step_inv ViewStepPrecommit (K_View k) k1 Hi) as [Hi' He']; [lia|lia|].
  split; [done|by eapply kext_trans].
Qed.

(** ** Commit *)
Lemma addDirty_cluster cs h raw : cluster_ok c q cs → cluster_ok c q (AddDirty h raw cs).
Proof.
  intros [Hc [cs' Hq]]. split; [done|]. unfold GetQuorum in *. cbn.
  destruct (quorum cs) as [q0|]; [injection Hq as -> _; by eexists|].
  destruct (foldM _ _ _) as [q1| |]; cbn in *; [|discriminate..].
  destruct (RandomQuorumSize _) as [r| |]; cbn in *; [|discriminate..].
  destruct (go_update q1 _ r) as [q2| |]; cbn in *; [|discriminate..].
  injection Hq as -> _. by eexists.
Qed.

Lemma quiet_trans a b d : quiet a b → quiet b d → quiet a d.
Proof.
  intros (?&?&?&?&?&?&?&?&?&?&?&?) (?&?&?&?&?&?&?&?&?&?&?&?).
  split_and!; try (etrans; eassumption); done.
Qed.

Lemma quiet_heap b k heap : kinvb b k → quiet k (with_heap k heap).
Proof. intros Hk. split_and!; try done; apply (ki_cluster _ _ Hk). Qed.

(** Sealing the tesseract keeps its hash. *)
Lemma updateConsensusInfo_inv b bits sig k e k' t :
  kinvb b k → updateConsensusInfoInTesseracts vault bits sig k = Ret (e, k') →
  load k (K_ProposalTS k) = Ret t →
  quiet k k' ∧ (e = None → ∃ t', load k' (K_ProposalTS k') = Ret t' ∧ TsHash t' = TsHash t).
Proof.
  intros Hk H Ht. unfold updateConsensusInfoInTesseracts in H.
  destruct (FlushEvidence (K_evidence k)) as [[eh data]|e0].
  2: { injection H as <- <-. split; [|done]. split_and!; try done; apply (ki_cluster _ _ Hk). }
  apply bind_Ret in H as (p & _ & H). apply bind_Ret in H as (pt & _ & H).
  set (k1 := with_votes k (K_Votes k) (AddDirty eh data (K_ics k))) in *.
  assert (Hq1 : quiet k k1).
  { split_and!; try done. apply addDirty_cluster, (ki_cluster _ _ Hk). }
  assert (Ht1 : load k1 (K_ProposalTS k1) = Ret t) by exact Ht.
  rewrite Ht1 in H. cbn [mbind res_bind] in H.
  set (qc := {| Qc_Type := PRECOMMIT |}) in H.
  assert (Hts : ∃ l, K_ProposalTS k = Some l) by (destruct (K_ProposalTS k); [by eexists|done]).
  destruct Hts as [l El]. assert (El1 : K_ProposalTS k1 = Some l) by exact El.
  rewrite El1 in H. set (k2 := with_heap k1 _) in H.
  assert (Hq2 : quiet k k2).
  { eapply quiet_trans; [exact Hq1|]. destruct (quiet_inv _ _ _ Hk Hq1). by eapply quiet_heap. }
  destruct (TsSignBytes (TsSetCommitQc t qc)) as [raw|e1]; [|injection H as <- <-; by split].
  apply bind_Ret in H as (sign & _ & H). destruct (sign raw) as [seal [e2|]]; injection H as <- <-.
  { by split. }
  rewrite El. split.
  - eapply quiet_trans; [exact Hq2|]. destruct (quiet_inv _ _ _ Hk Hq2). by eapply quiet_heap.
  - intros _. eexists. split.
    + unfold load. change (K_ProposalTS (with_heap _ _)) with (K_ProposalTS k). rewrite El.
      cbn [K_heap with_heap]. by rewrite lookup_insert_eq.
    + by rewrite ts_hash_seal_by, ts_hash_seal, ts_hash_qc.
Qed.

Lemma quiet_close b k e : kinvb b k → quiet k (Close e k).
Proof. intros Hk. split_and!; try done; apply (ki_cluster _ _ Hk). Qed.

Lemma finalized_inv b k t :
  kinvb b k → (∃ view, majority_at k view PRECOMMIT (TsHash t)) →
  let k' := with_output k (K_outbound k) (K_closed k) (K_finalized k ++ [t]) (K_timeouts k) in
  kinvb b k' ∧ kext k k'.
Proof.
  intros [? ? ? ? ? ? ? ? Hf] Ht k'. split; split; try done.
  - intros t' [Hin| ->%list_elem_of_singleton]%elem_of_app; [by apply Hf|done].
  - right. cbn. lia.
  - intros t' Hin. apply elem_of_app. by left.
Qed.

Lemma finalizeCommit_inv k k' h :
  kinv k → finalizeCommit vault tesseractHandler h k = Ret k' → kinv k' ∧ kext k k'.
Proof.
  intros Hk H. unfold finalizeCommit in H.
  assert (Hsame : Ret k = Ret k' → kinv k' ∧ kext k k') by (intros [= <-]; by split; [|apply kext_refl]).
  case_match; [done|].
  destruct (SuperMajority (HVS_Precommits (K_Votes k) (K_CommitView k))) as [tsHash [|]] eqn:Em;
    [|by apply Hsame].
  case_decide; [by apply Hsame|]. destruct (K_Proposal k) as [p|] eqn:Ep; [|by apply Hsame].
  apply bind_Ret in H as (pt & Hpt & H).
  destruct (TsCompareHash pt tsHash) eqn:Ec; cbn [negb] in H; [|by apply Hsame].
  case_match; [by apply Hsame|]. apply bind_Ret in H as (vs & _ & H).
  apply bind_Ret in H as ([e k1] & Hup & H).
  assert (Hts : load k (K_ProposalTS k) = Ret pt) by (by rewrite (ki_prop _ _ Hk p Ep)).
  destruct (updateConsensusInfo_inv _ _ _ _ _ _ _ Hk Hup Hts) as [Hq Hh].
  destruct (quiet_inv _ _ _ Hk Hq) as [Hi1 He1].
  assert (Est : K_Step k1 = K_Step k) by apply Hq.
  assert (Hclose : ∀ e k2, kinvb (K_Step k) k2 → kext k k2 → K_Step k2 = K_Step k →
    kinv (Close e k2) ∧ kext k (Close e k2)).
  { intros e' k2 Hi2 He2 Es2. destruct (quiet_inv _ _ _ Hi2 (quiet_close _ _ e' Hi2)) as [Hi3 He3].
    split; [unfold kinv; by rewrite <-Es2 in Hi3|by eapply kext_trans]. }
  destruct e as [e|]; [injection H as <-; by apply Hclose|].
  apply bind_Ret in H as (t & Ht & H). destruct Hh as (t' & Ht' & Hth); [done|].
  rewrite Ht in Ht'. injection Ht' as <-.
  destruct (finalized_inv _ k1 (TsCopy t) Hi1) as [Hi2 He2].
  { exists (K_CommitView k). rewrite ts_hash_copy, Hth. apply ts_compare in Ec. rewrite Ec.
    apply (ke_maj _ _ He1). exact Em. }
  destruct (tesseractHandler (TsCopy t)) as [e|]; injection H as <-;
    (apply Hclose; [done|by eapply kext_trans|done]).
Qed.

Lemma enterCommit_body_inv view k k' :
  kinv k → enterCommit_body vault view k = Ret k' →
  kinv k' ∧ kext k k' ∧ K_View k' = K_View k ∧ K_Step k' = K_Step k.
Proof.
  intros Hk H. unfold enterCommit_body in H.
  destruct (SuperMajority (HVS_Precommits (K_Votes k) view)) as [tsHash [|]] eqn:Em; [|done].
  apply bind_Ret in H as ([qc|e] & _ & H).
  2: { injection H as <-. split_and!; try done. apply kext_refl. }
  apply bind_Ret in H as ([db e] & _ & H).
  destruct (quiet_inv _ _ _ Hk (quiet_db _ db Hk)) as [Hi He].
  destruct e as [e|]; [injection H as <-; by split_and!|].
  case_match; [|injection H as <-; by split_and!].
  destruct (sendQc_inv _ _ _ _ _ Hi H) as (Hi' & He' & Ev & Es & _).
  split_and!; [unfold kinv; by rewrite Es|by eapply kext_trans|done|done].
Qed.

(** When it returns, nothing has panicked. *)
Lemma enterCommit_Ret h view k k' :
  enterCommit vault tesseractHandler h view k = Ret k' ↔
  (if negb (areHeightsEqual (K_Heights k) h) || (ViewStepCommit <=? K_Step k) then Ret k
   else k1 ← enterCommit_body vault view k; finalizeCommit vault tesseractHandler h (commit_step view k1)) = Ret k'.
Proof.
  unfold enterCommit. destruct (_ || _); [done|]. destruct (enterCommit_body vault view k); cbn [mbind res_bind]; [done| |done].
  split; [|done]. by intros (? & _ & ?)%bind_Ret.
Qed.
Lemma commit_step_inv view k :
  kinv k → K_Step k < ViewStepCommit → kinv (commit_step view k) ∧ kext k (commit_step view k).
Proof.
  intros Hk Hs. assert (Hb : kinvb ViewStepCommit k) by (eapply kinvb_weaken; [|exact Hk]; lia).
  destruct (step_inv ViewStepCommit (K_View k) k Hb) as [Hi He]; [lia|lia|].
  set (k2 := stepChange (updateViewStep (K_View k) ViewStepCommit k)) in *.
  assert (Hq : quiet k2 (with_commit_view k2 view)) by (split_and!; try done; apply (ki_cluster _ _ Hi)).
  destruct (quiet_inv _ _ _ Hi Hq) as [Hi3 He3]. split; [exact Hi3|by eapply kext_trans].
Qed.
Lemma enterCommit_inv view k k' h :
  kinv k → enterCommit vault tesseractHandler h view k = Ret k' → kinv k' ∧ kext k k'.
Proof.
  intros Hk H. apply enterCommit_Ret in H.
  case_match eqn:Eg; [injection H as <-; by split; [|apply kext_refl]|].
  apply orb_false_iff in Eg as [_ Eg]. apply Z.leb_gt in Eg.
  apply bind_Ret in H as (k1 & H1 & H).
  destruct (enterCommit_body_inv _ _ _ Hk H1) as (Hi1 & He1 & Ev1 & Es1).
  destruct (commit_step_inv view k1) as [Hi2 He2]; [done|lia|].
  destruct (finalizeCommit_inv _ _ _ Hi2 H) as [Hi3 He3]. split; [done|].
  eapply kext_trans; [exact He1|]. by eapply kext_trans.
Qed.
(** What the deferred function hands over while a panic unwinds is certified like
    everything else. *)
Lemma unwound_certified heights view k k' t :
  kinv k → K_Step k < ViewStepCommit → enterCommit_unwinds vault tesseractHandler heights view k = Ret k' →
  t ∈ K_finalized k' → ∃ w, majority_at k' w PRECOMMIT (TsHash t).
Proof.
  intros Hk Hs H Ht. destruct (commit_step_inv view k Hk Hs) as [Hi _].
  destruct (finalizeCommit_inv _ _ _ Hi H) as [Hk' _]. by apply (ki_final _ _ Hk').
Qed.
(** ** Propose and new view *)
Lemma enterPropose_inv view k k' h :
  kinv k → enterPropose vault h view k = Ret k' → kinv k' ∧ kext k k'.
Proof.
  intros Hk H. unfold enterPropose in H.
  case_match eqn:Eg; [injection H as <-; by split; [|apply kext_refl]|].
  apply orb_false_iff in Eg as [[_ Ev]%orb_false_iff Eg]. apply Z.ltb_ge in Ev.
  set (k1 := if negb (is_some vault) then k else _) in H.
  assert (Hk1 : kinvb (K_Step k) k1 ∧ kext k k1 ∧ K_View k1 = K_View k ∧ K_Step k1 = K_Step k).
  { pose proof (kext_refl k). unfold k1. clear H.
    destruct (negb (is_some vault)); [by split_and!|].
    destruct (negb (isLeader _ _ _)); [by split_and!|]. unfold createProposal.
    set (m := {| CM_PeerID := K_id k |}).
    destruct (internal_quiet (K_Step k) m k Hk eq_refl). by split_and!. }
  destruct Hk1 as (Hi1 & He1 & Ev1 & Es1).
  assert (Hle : K_View k1 < view ∨ K_View k1 = view ∧ K_Step k ≤ ViewStepPropose ∧ K_Step k1 ≤ ViewStepPropose).
  { rewrite Ev1, Es1. destruct (Z.eqb_spec (K_View k) view); [|lia].
    cbn in Eg. apply Z.leb_gt in Eg. lia. }
  destruct (later_inv _ _ _ _ Hi1 Hle) as [Hi2 He2].
  assert (Hi2' : kinv (stepChange (updateViewStep view ViewStepPropose k1))) by (by destruct Hi2).
  assert (He2' : kext k (stepChange (updateViewStep view ViewStepPropose k1)))
    by (eapply kext_trans; [exact He1|]; by destruct He2).
  case_match; [|by injection H as <-].
  destruct (enterPrevote_inv _ _ _ Hi2' H) as [Hi3 He3]. split; [done|by eapply kext_trans].
Qed.

(** A new proposal pair, and new vote sets that keep the majorities. *)
Lemma proposal_inv b k p ts :
  kinvb b k → (∀ p', p = Some p' → ts = Prop_Tesseract p') → (p = None → ts = None) →
  kinvb b (with_proposal k p ts) ∧ kext k (with_proposal k p ts).
Proof.
  intros [? ? ? ? ? ? ? ? ?] Hp Hn. split; split; try done. right. cbn. lia.
Qed.

Lemma votes_inv b k votes ics :
  kinvb b k → hvs_ok c q sent votes → cluster_ok c q ics →
  (∀ view ty h, majority_at k view ty h → SuperMajority (getVoteSet votes view ty) = (h, true)) →
  kinvb b (with_votes k votes ics) ∧ kext k (with_votes k votes ics).
Proof.
  intros [? ? ? ? ? Hs Ho Hj Hf] Hv Hc Hm. split; split; try done.
  - intros v Hin Ht. by apply Hm, Hj.
  - intros t Ht. destruct (Hf t Ht) as [view Hmt]. exists view. by apply Hm.
  - right. cbn. lia.
Qed.

Lemma enterNewView_inv view k k' h :
  kinv k → enterNewView vault h view k = Ret k' → kinv k' ∧ kext k k'.
Proof.
  intros Hk H. unfold enterNewView in H.
  case_match eqn:Eg; [injection H as <-; by split; [|apply kext_refl]|].
  apply orb_false_iff in Eg as [[_ Ev]%orb_false_iff Eg]. apply Z.ltb_ge in Ev.
  assert (Hle : K_View k < view ∨ K_View k = view ∧ K_Step k ≤ ViewStepNewView ∧ K_Step k ≤ ViewStepNewView).
  { destruct (Z.eqb_spec (K_View k) view); [|lia]. cbn in Eg.
    apply negb_false_iff, Z.eqb_eq in Eg. right. rewrite Eg. done. }
  destruct (later_inv _ _ _ _ Hk Hle) as [Hi1 He1].
  set (k1 := updateViewStep view ViewStepNewView k) in *. set (k2 := if negb _ then _ else _) in H.
  assert (Hk2 : kinv k2 ∧ kext k1 k2).
  { unfold k2. clear H. destruct (negb (view =? 0)); [|split; [done|apply kext_refl]].
    by apply proposal_inv. }
  destruct Hk2 as [Hi2 He2]. apply bind_Ret in H as (votes & Hv & H).
  destruct (HVS_SetView_Ret c q sent Henv Hthr _ _ _ _ (ki_votes _ _ Hi2) (proj1 (ki_cluster _ _ Hi2)) Hv)
    as [Hvok Hkeep].
  destruct (votes_inv _ k2 votes (K_ics k2) Hi2 Hvok (ki_cluster _ _ Hi2)) as [Hi3 He3].
  { intros vw ty th. unfold majority_at. destruct (getVoteSet (K_Votes k2) vw ty) eqn:E; [|done].
    by rewrite (Hkeep _ _ _ E). }
  destruct (enterPropose_inv view (with_votes k2 votes (K_ics k2)) k' h Hi3 H) as [Hi4 He4].
  split; [done|]. eapply kext_trans; [exact He1|]. eapply kext_trans; [exact He2|]. by eapply kext_trans.
Qed.

(** ** Messages *)
Lemma setProposal_inv p k r :
  kinv k → setProposal vault p k = Ret r → kinv r.2 ∧ kext k r.2.
Proof.
  intros Hk H. unfold setProposal in H.
  destruct (K_Proposal k); [injection H as <-; by split; [|apply kext_refl]|].
  apply bind_Ret in H as (heights & _ & H). apply bind_Ret in H as (bad & _ & H).
  destruct bad; [injection H as <-; by split; [|apply kext_refl]|].
  destruct (proposal_inv _ k (Some p) (Prop_Tesseract p) Hk) as [Hi1 He1]; [by intros ? [= ->]|done|].
  set (k1 := with_proposal _ _ _) in *. set (k2 := if isLeader k1 _ _ then _ else _) in H.
  assert (Hk2 : kinv k2 ∧ kext k1 k2).
  { unfold k2. clear H. destruct (isLeader _ _ _); [|split; [done|apply kext_refl]].
    by apply (outbound_quiet (K_Step k1) _ k1 Hi1). }
  destruct Hk2 as [Hi2 He2]. apply bind_Ret in H as (k3 & H3 & H). injection H as <-. cbn [snd].
  assert (He12 : kext k k2) by (by eapply kext_trans).
  case_match; [|by injection H3 as <-].
  destruct (enterPrevote_inv _ _ _ Hi2 H3) as [Hi3 He3]. split; [done|by eapply kext_trans].
Qed.

Lemma HasMajorityAny_cluster vs cs r : cluster_ok c q cs → HasMajorityAny vs cs = Ret r → cluster_ok c q r.2.
Proof.
  intros Hc H. destruct (cluster_ok_quorum c q Henv cs Hc) as (cs' & Hq & Hc').
  unfold HasMajorityAny in H. destruct vs as [vs|]; [|by injection H as <-].
  revert cs Hc H cs' Hq Hc'. generalize 0. generalize (VS_sum vs).
  induction l as [|x l IH]; intros i cs Hc H cs' Hq Hc'; cbn in H.
  - by injection H as <-.
  - rewrite Hq in H. cbn in H. destruct (go_index q i) as [y| |]; cbn in H; [|discriminate..].
    destruct (x <? y); [injection H as <-; exact Hc'|].
    destruct (cluster_ok_quorum c q Henv cs' Hc') as (cs2 & Hq2 & Hc2).
    exact (IH _ cs' Hc' H cs2 Hq2 Hc2).
Qed.

Lemma ics_quiet b k ics : kinvb b k → cluster_ok c q ics → quiet k (with_votes k (K_Votes k) ics).
Proof. intros Hk Hc. by split_and!. Qed.

Lemma evidence_quiet b k e : kinvb b k → quiet k (with_evidence k e).
Proof. intros Hk. split_and!; try done; apply (ki_cluster _ _ Hk). Qed.
(** The votes of an inbound message or of the engine itself are the only ones
    that reach the vote sets. *)
Lemma countVote_inv v peer k r :
  kinv k → sent v → countVote v peer k = Ret r → kinv r.2 ∧ kext k r.2.
Proof.
  intros Hk Hs H. unfold countVote in H.
  destruct (V_IsQC v && _); [injection H as <-; by split; [|apply kext_refl]|].
  apply bind_Ret in H as ([[[added e] votes] ics] & Hv & H). injection H as <-. cbn [snd].
  assert (Hvotes : hvs_ok c q sent votes ∧ cluster_ok c q ics ∧ hvs_kept (K_Votes k) votes).
  { destruct (V_IsQC v); [by eapply (HVS_AddQC_Ret c q sent Henv Hthr); [apply Hk..| |]|].
    by eapply (HVS_AddVote_Ret c q sent Henv Hthr); [apply Hk..| |]. }
  destruct Hvotes as (Hok & Hc & Hkept).
  destruct (votes_inv (K_Step k) k votes ics Hk Hok Hc) as [Hi1 He1].
  { intros view ty h. by apply hvs_kept_super. }
  set (k1 := with_votes k votes ics) in *.
  destruct (is_some e || negb added); [|by split].
  destruct (quiet_inv _ _ _ Hi1 (evidence_quiet _ k1 (Evidence_AddVote (K_evidence k1) v) Hi1)) as [Hi2 He2].
  split; [exact Hi2|by eapply kext_trans].
Qed.

Lemma afterPrevote_inv v k k' :
  kinv k → afterPrevote vault v k = Ret k' → kinv k' ∧ kext k k'.
Proof.
  intros Hk H. unfold afterPrevote in H. apply bind_Ret in H as ([future k1] & H1 & H).
  assert (Hk1 : kinv k1 ∧ kext k k1).
  { destruct (K_View k <? V_View v).
    - apply bind_Ret in H1 as ([any ics] & Ha & H1). injection H1 as <- <-.
      apply HasMajorityAny_cluster in Ha; [|apply (ki_cluster _ _ Hk)].
      destruct (quiet_inv _ _ _ Hk (ics_quiet _ _ ics Hk Ha)) as [Hi He]. by split.
    - injection H1 as <- <-. split; [done|apply kext_refl]. }
  destruct Hk1 as [Hi1 He1]. destruct future; [by injection H as <-|].
  destruct (Z.eqb_spec (K_View k1) (V_View v)) as [Ev|]; [|by injection H as <-].
  destruct (ViewStepPrevote <=? K_Step k1); [|by injection H as <-]. cbn [andb] in H.
  destruct (SuperMajority _) as [tsHash ok]. destruct (ok && _); [|by injection H as <-].
  rewrite <-Ev in H. destruct (enterPreCommit_inv _ _ _ Hi1 H) as [Hi2 He2].
  split; [done|by eapply kext_trans].
Qed.

Lemma afterPrecommit_inv v k k' :
  kinv k → afterPrecommit vault tesseractHandler v k = Ret k' → kinv k' ∧ kext k k'.
Proof.
  intros Hk H. unfold afterPrecommit in H. destruct (SuperMajority _) as [tsHash [|]].
  - destruct (decide (tsHash = NilHash)); [injection H as <-; by split; [|apply kext_refl]|].
    by eapply enterCommit_inv.
  - destruct (K_View k <=? V_View v); [|injection H as <-; by split; [|apply kext_refl]].
    apply bind_Ret in H as ([any ics] & Ha & H). injection H as <-.
    apply HasMajorityAny_cluster in Ha; [|apply (ki_cluster _ _ Hk)].
    destruct (quiet_inv _ _ _ Hk (ics_quiet _ _ ics Hk Ha)) as [Hi He]. by split.
Qed.

Lemma addVote_inv v peer k r :
  kinv k → sent v → addVote vault tesseractHandler v peer k = Ret r → kinv r.2 ∧ kext k r.2.
Proof.
  intros Hk Hs H. unfold addVote in H.
  destruct (negb _); [injection H as <-; by split; [|apply kext_refl]|].
  apply bind_Ret in H as (k1 & H1 & H).
  assert (Hk1 : kinv k1 ∧ kext k k1).
  { pose proof (kext_refl k). destruct (K_ProposalTS k) as [l|]; [|by injection H1 as <-].
    apply bind_Ret in H1 as (t & _ & H1). destruct (decide _); [by injection H1 as <-|].
    injection H1 as <-.
    destruct (quiet_inv _ _ _ Hk (evidence_quiet _ k (Evidence_AddVote (K_evidence k) v) Hk)).
    by split. }
  destruct Hk1 as [Hi1 He1]. apply bind_Ret in H as ([[added e] k2] & H2 & H).
  destruct (countVote_inv _ _ _ _ Hi1 Hs H2) as [Hi2 He2]. cbn [snd] in *.
  assert (He : kext k k2) by (by eapply kext_trans).
  destruct (is_some e || negb added); [by injection H as <-|].
  apply bind_Ret in H as (k3 & H3 & H). injection H as <-. cbn [snd].
  assert (Hk3 : kinv k3 ∧ kext k2 k3).
  { pose proof (kext_refl k2). destruct (V_Type v); [| |by injection H3 as <-..].
    - by eapply afterPrevote_inv.
    - by eapply afterPrecommit_inv. }
  destruct Hk3. split; [done|by eapply kext_trans].
Qed.

Lemma handleMsg_inv msg k k' :
  kinv k → (∀ v, CM_Payload msg = PayloadVote v → sent v) →
  handleMsg vault tesseractHandler msg k = Ret k' → kinv k' ∧ kext k k'.
Proof.
  intros Hk Hs H. unfold handleMsg in H. pose proof (kext_refl k).
  destruct (CM_Payload msg) as [v|p|p|].
  - apply bind_Ret in H as ([[a e] k1] & H1 & H). injection H as <-.
    by apply (addVote_inv _ _ _ _ Hk (Hs _ eq_refl) H1).
  - apply bind_Ret in H as ([e k1] & H1 & H). injection H as <-. by apply (setProposal_inv _ _ _ Hk H1).
  - injection H as <-. by split.
  - injection H as <-. by split.
Qed.

Lemma handleTimeout_inv ti k k' :
  kinv k → handleTimeout vault ti k = Ret k' → kinv k' ∧ kext k k'.
Proof.
  intros Hk H. unfold handleTimeout in H. pose proof (kext_refl k).
  destruct (_ || _); [by injection H as <-|].
  destruct (TI_Step ti =? ViewStepNewHeight); [by eapply enterNewView_inv|by injection H as <-].
Qed.

(** The votes that reach the vote sets: inbound ones and the engine's own. *)
Lemma kstep_inv k ev k' :
  kinv k → (∀ v, ev_vote ev = Some v → sent v) → (∀ v, v ∈ signed k → sent v) →
  kstep vault tesseractHandler k ev = Ret k' → kinv k' ∧ kext k k'.
Proof.
  intros Hk Hin Hself H. destruct ev as [msg decoded| |ti]; cbn [kstep] in H.
  - destruct (quiet_inv _ _ _ Hk (quiet_heap _ k (K_heap k ∪ decoded) Hk)) as [Hi1 He1].
    destruct (handleMsg_inv msg (with_heap k (K_heap k ∪ decoded)) k' Hi1) as [Hi2 He2]; [|done|].
    { intros v Hv. apply Hin. cbn. unfold any_vote. by rewrite Hv. }
    split; [done|by eapply kext_trans].
  - destruct (K_self k !! K_selfRead k) as [msg|] eqn:E; [|injection H as <-; by split; [|apply kext_refl]].
    set (k1 := with_self k (K_self k) (S (K_selfRead k)) (K_wal k ++ [msg])) in H.
    assert (Hk1 : kinv k1 ∧ kext k k1) by (by apply (quiet_inv _ k k1 Hk); split_and!; try done; apply (ki_cluster _ _ Hk)).
    destruct Hk1 as [Hi1 He1]. destruct (handleMsg_inv msg k1 k' Hi1) as [Hi2 He2]; [|done|].
    { intros v Hv. apply Hself, elem_of_app. left. apply list_elem_of_omap. exists msg.
      split; [by eapply list_elem_of_lookup_2|]. unfold any_vote. by rewrite Hv. }
    split; [done|by eapply kext_trans].
  - by eapply handleTimeout_inv.
Qed.
End Invariant.
End KbftFacts.
