(* ===== verification/KbftSpec.v ===== *)
(** * What the BFT engine guarantees: the theorems

    Everything an engine signs, locks and finalizes over any sequence of
    messages, timeouts and deliveries of its own messages; what each step needs
    before it is taken; and the inputs that make the engine panic. *)

From stdpp Require Import base gmap strings list fin_maps.
From Stdlib Require Import ZArith Lia.
From S2P Require Import Prelude External Types NodeSet Committee Cluster VoteSet Tally VoteSetFacts HeightVoteSet Safety Ticker Kbft KbftFacts Concrete Scenario.

Section Theorems.
Context `{ET : ExtTypes} `{!ExtOps ET} `{!TesseractOps ET}.
Context `{!SafetyStore ET} `{!TesseractParts ET _}.
Context `{!PoloCodec CanonicalVote} `{!PoloCodec SafetyData} `{!PoloCodec ProposalInfo} `{!PoloCodec Evidence}.
Context `{!BitLaws ET} `{!TesseractLaws ET _}.
Context (vault : option (bytes → bytes * option err)) (tesseractHandler : Tesseract → option err).

(** A new engine over a committee [c] with thresholds [q]. *)
Record engine_start (c : ICSCommittee) (q : list Z) (cs : ClusterState) (k0 : KBFT) : Prop := {
  es_started : started c q (NewHeights cs) cs;
  es_view : 0 ≤ CurrentView cs;
  es_new : ∃ operator chains votes evidence db heap,
    NewHeightVoteSet chains (NewHeights cs) cs = Ret votes ∧
    k0 = NewKBFTService operator cs votes evidence db heap;
}.

(** The votes an engine can have counted: those that arrived and its own. *)
Definition known (evs : list kevent) (k : KBFT) (v : Vote) : Prop :=
  v ∈ omap ev_vote evs ∨ v ∈ signed k.

Lemma start_inv c q cs k0 sent : engine_start c q cs k0 → kinv c q sent k0 ∧ signed k0 = [].
Proof.
  intros [[Henv Hcs Hh Hthr] Hv (operator & chains & votes & evidence & db & heap & Hn & ->)].
  destruct (NewHeightVoteSet_ok c q sent Henv Hthr chains (NewHeights cs) cs) as (hvs & Hn' & Hok & _);
    [apply Hcs|done|]. rewrite Hn in Hn'. injection Hn' as <-.
  split; [|done]. split; cbn; try done; intros; match goal with H : _ ∈ [] |- _ => by apply elem_of_nil in H end.
Qed.

Lemma kinv_mono c q (s s' : Vote → Prop) k : (∀ v, s v → s' v) → kinv c q s k → kinv c q s' k.
Proof. intros Hs [Hv ? ? ? ? ? ? ? ?]. split; try done. by eapply hvs_ok_mono. Qed.

Lemma krun_app evs1 evs2 k :
  krun vault tesseractHandler (evs1 ++ evs2) k =
  krun vault tesseractHandler evs1 k ≫= krun vault tesseractHandler evs2.
Proof. unfold krun. by rewrite foldM_app. Qed.

Lemma krun_steps c q (Henv : env_ok c q) (Hthr : ∃ x, x ∈ q ∧ 0 < x) evs evs0 k0 k :
  kinv c q (known evs0 k0) k0 → krun vault tesseractHandler evs k0 = Ret k →
  kinv c q (known (evs0 ++ evs) k) k ∧ kext k0 k.
Proof.
  revert k. induction evs as [|ev evs IH] using rev_ind; intros k Hk H.
  - injection H as <-. rewrite app_nil_r. split; [done|apply kext_refl].
  - rewrite krun_app in H. apply bind_Ret in H as (k1 & H1 & H). destruct (IH k1 Hk H1) as [Hi1 He1].
    unfold krun in H. cbn [foldM] in H. apply bind_Ret in H as (k2 & H2 & H). injection H as ->.
    set (sent := λ v, v ∈ omap ev_vote (evs0 ++ evs ++ [ev]) ∨ v ∈ signed k1).
    assert (Hi : kinv c q sent k1).
    { eapply kinv_mono; [|exact Hi1]. intros v [Hv|Hv]; [|by right]. left.
      rewrite app_assoc, omap_app. apply elem_of_app. by left. }
    destruct (kstep_inv vault tesseractHandler c q Henv Hthr sent k1 ev k Hi) as [Hi2 He2]; [| |done|].
    + intros v Hv. left. rewrite app_assoc, omap_app. apply elem_of_app. right. cbn. rewrite Hv.
      apply list_elem_of_here.
    + intros v Hv. by right.
    + split; [|by eapply kext_trans]. eapply kinv_mono; [|exact Hi2].
      intros v [Hv|Hv]; [by left|right]. by apply (ke_signed _ _ He2).
Qed.

Lemma krun_inv c q cs k0 evs k :
  engine_start c q cs k0 → krun vault tesseractHandler evs k0 = Ret k →
  kinv c q (known evs k) k ∧ kext k0 k.
Proof.
  intros Hst H. pose proof (es_started _ _ _ _ Hst) as [Henv _ _ Hthr].
  apply (krun_steps c q Henv Hthr evs [] k0 k); [|done]. by eapply start_inv.
Qed.

(** A majority of an engine is carried by votes it knows. *)
Lemma engine_majority c q sent k view ty h :
  kinv c q sent k → majority_at k view ty h → ∃ b, majority_for c q view ty sent h b.
Proof.
  intros Hk Hm. unfold majority_at in Hm. destruct (getVoteSet (K_Votes k) view ty) as [vs|] eqn:E; [|done].
  destruct (SuperMajority_majority _ _ _ _ _ _ _ (ho_sets _ _ _ _ (ki_votes _ _ _ _ _ Hk) _ _ _ E) Hm)
    as (b & _ & Hb). by exists b.
Qed.

(** C4. Agreement: two engines of one committee, after any sequences of events,
    have handed tesseracts to their tesseract handlers.  Each was certified in
    some view by precommits; if it is the same view and at some position the
    validators with authentic precommits for two tesseracts weigh less than
    twice the threshold minus the whole position, it is the same tesseract. *)
Theorem finalized_agreement c q cs1 cs2 k01 k02 evs1 evs2 k1 k2 t1 t2 :
  engine_start c q cs1 k01 → engine_start c q cs2 k02 →
  krun vault tesseractHandler evs1 k01 = Ret k1 → krun vault tesseractHandler evs2 k02 = Ret k2 →
  t1 ∈ K_finalized k1 → t2 ∈ K_finalized k2 →
  ∃ view1 view2, majority_at k1 view1 PRECOMMIT (TsHash t1) ∧ majority_at k2 view2 PRECOMMIT (TsHash t2) ∧
    ∀ (faulty : nat → bool) p x, view1 = view2 →
      (∀ (i : nat) v1 v2,
         authentic c view1 PRECOMMIT (λ v, known evs1 k1 v ∨ known evs2 k2 v) (Z.of_nat i) v1 →
         authentic c view1 PRECOMMIT (λ v, known evs1 k1 v ∨ known evs2 k2 v) (Z.of_nat i) v2 →
         V_TSHash v1 ≠ V_TSHash v2 → faulty i = true) →
      q !! p = Some x →
      tally c (Z.of_nat p) faulty < 2 * x - tally c (Z.of_nat p) (λ _, true) →
      TsHash t1 = TsHash t2.
Proof.
  intros Hst1 Hst2 H1 H2 Ht1 Ht2.
  destruct (krun_inv _ _ _ _ _ _ Hst1 H1) as [Hi1 _]. destruct (krun_inv _ _ _ _ _ _ Hst2 H2) as [Hi2 _].
  destruct (ki_final _ _ _ _ _ Hi1 t1 Ht1) as [view1 Hm1].
  destruct (ki_final _ _ _ _ _ Hi2 t2 Ht2) as [view2 Hm2].
  exists view1, view2. split; [done|]. split; [done|]. intros faulty p x <- Hby Hx Hlt.
  destruct (engine_majority _ _ _ _ _ _ _ Hi1 Hm1) as [b1 Hb1].
  destruct (engine_majority _ _ _ _ _ _ _ Hi2 Hm2) as [b2 Hb2].
  exact (majority_for_agree c q view1 PRECOMMIT _ _ _ _ _ b1 b2 faulty p x Hb1 Hb2
           (λ v H, or_introl H) (λ v H, or_intror H) Hby Hx Hlt).
Qed.

(** C5. Finality is certified: whatever an engine hands to its tesseract handler,
    there is a view in which validators reaching every threshold precommitted
    to exactly this tesseract, each with an authentic vote that arrived at the
    engine or that it signed itself. *)
Theorem finalized_certified c q cs k0 evs k t :
  engine_start c q cs k0 → krun vault tesseractHandler evs k0 = Ret k → t ∈ K_finalized k →
  ∃ view b, majority_for c q view PRECOMMIT (known evs k) (TsHash t) b.
Proof.
  intros Hst H Ht. destruct (krun_inv _ _ _ _ _ _ Hst H) as [Hi _].
  destruct (ki_final _ _ _ _ _ Hi t Ht) as [view Hm].
  destruct (engine_majority _ _ _ _ _ _ _ Hi Hm) as [b Hb]. by exists view, b.
Qed.

(** C6. No equivocation: whatever messages and timeouts arrive and in whatever
    order, an engine signs at most one prevote and one precommit per view, and
    never for a view it has not reached. *)
Theorem no_equivocation c q cs k0 evs k v w :
  engine_start c q cs k0 → krun vault tesseractHandler evs k0 = Ret k →
  v ∈ signed k → w ∈ signed k → V_View v = V_View w → V_Type v = V_Type w →
  v = w ∧ voteType (V_Type v) ∧ V_View v ≤ K_View k.
Proof.
  intros Hst H Hv Hw Ev Et. destruct (krun_inv _ _ _ _ _ _ Hst H) as [Hi _].
  destruct (ki_signed _ _ _ _ _ Hi v Hv) as (? & ? & _). split; [|done].
  by apply (ki_once _ _ _ _ _ Hi).
Qed.

(** C7. A precommit is justified: an engine precommits to a tesseract only in a
    view in which validators reaching every threshold have prevoted for it. *)
Theorem precommit_justified c q cs k0 evs k v :
  engine_start c q cs k0 → krun vault tesseractHandler evs k0 = Ret k →
  v ∈ signed k → V_Type v = PRECOMMIT →
  ∃ b, majority_for c q (V_View v) PREVOTE (known evs k) (V_TSHash v) b.
Proof.
  intros Hst H Hv Ht. destruct (krun_inv _ _ _ _ _ _ Hst H) as [Hi _].
  by eapply engine_majority, (ki_just _ _ _ _ _ Hi).
Qed.

(** C16. Progress is monotone: from any state reached on, (view, step) never
    decreases in lexicographic order, no majority, signed vote or finalized
    tesseract is lost, and identity, operator and heights are fixed. *)
Theorem engine_monotone c q cs k0 evs1 evs2 k1 k2 :
  engine_start c q cs k0 → krun vault tesseractHandler evs1 k0 = Ret k1 →
  krun vault tesseractHandler evs2 k1 = Ret k2 →
  (K_View k1 < K_View k2 ∨ K_View k1 = K_View k2 ∧ K_Step k1 ≤ K_Step k2) ∧
  (∀ view ty h, majority_at k1 view ty h → majority_at k2 view ty h) ∧
  (∀ v, v ∈ signed k1 → v ∈ signed k2) ∧ (∀ t, t ∈ K_finalized k1 → t ∈ K_finalized k2) ∧
  K_id k2 = K_id k1 ∧ K_operator k2 = K_operator k1 ∧ K_Heights k2 = K_Heights k1.
Proof.
  intros Hst H1 H2. pose proof (es_started _ _ _ _ Hst) as [Henv _ _ Hthr].
  destruct (krun_inv _ _ _ _ _ _ Hst H1) as [Hi1 _].
  destruct (krun_steps c q Henv Hthr evs2 evs1 k1 k2 Hi1 H2) as [_ [Hle Hm Hs (? & ? & ?) Hf]].
  split_and!; done.
Qed.
(** ** Single steps *)
Lemma SuperMajority_GetQC hvs view ty h :
  SuperMajority (getVoteSet hvs view ty) = (h, true) →
  ∃ vs qc, getVoteSet hvs view ty = Some vs ∧ HVS_GetQC hvs h view ty = Ret (inl qc) ∧
    Qc_Type qc = ty ∧ Qc_View qc = view ∧ Qc_TSHash qc = h.
Proof.
  unfold HVS_GetQC. destruct (getVoteSet hvs view ty) as [vs|]; [|done].
  unfold SuperMajority. destruct (maj23TsHash vs) as [h'|]; [|done]. intros [= ->].
  cbn [deref mbind res_bind]. rewrite decide_True by done. eexists _, _. by split_and!.
Qed.

(** C15. Safety data before the vote: whenever [enterPreCommit] signs, the prevote
    certificate of the current view has been written for the proposal, without
    an error, to the store the engine continues with; the one new vote is a
    precommit for the tesseract of that certificate. *)
Theorem precommit_after_safety k k' heights view v :
  enterPreCommit vault heights view k = Ret k' → K_View k = view → v ∈ signed k' → v ∉ signed k →
  ∃ qc, HVS_GetQC (K_Votes k) (Qc_TSHash qc) view PREVOTE = Ret (inl qc) ∧
    UpdateSafetyInfo (load k) (K_db k) (K_Proposal k) qc = Ret (K_db k', None) ∧
    V_Type v = PRECOMMIT ∧ V_View v = view ∧ V_TSHash v = Qc_TSHash qc.
Proof.
  intros H Hview Hv Hnew. unfold enterPreCommit in H.
  destruct (_ || _); [by injection H as <-|]. apply bind_Ret in H as (k1 & H1 & H). injection H as <-.
  change (v ∈ signed k1) in Hv. unfold enterPreCommit_body in H1.
  destruct (SuperMajority _) as [tsHash [|]] eqn:Em; [|by injection H1 as <-].
  apply bind_Ret in H1 as (k2 & H2 & H1).
  assert (Hk2 : K_Votes k2 = K_Votes k ∧ K_View k2 = K_View k ∧ K_db k2 = K_db k ∧
    K_heap k2 = K_heap k ∧ K_Proposal k2 = K_Proposal k ∧ signed k2 = signed k).
  { destruct (isLeader k view (K_id k)); [|by injection H2 as <-]. unfold sendQc in H2.
    destruct (negb _); [by injection H2 as <-|].
    apply bind_Ret in H2 as ([bits sig] & _ & H2). injection H2 as <-. split_and!; try done.
    unfold signed. cbn. rewrite omap_app. cbn. by rewrite app_nil_r. }
  destruct Hk2 as (Ev & Evw & Ed & Eh & Ep & Es).
  assert (El : load k2 = load k) by (unfold load; by rewrite Eh).
  apply bind_Ret in H1 as (t & _ & H1). destruct (negb _).
  { apply bind_Ret in H1 as (p & _ & H1). apply bind_Ret in H1 as (? & _ & H1). injection H1 as <-. congruence. }
  apply bind_Ret in H1 as ([qc|e] & Hq & H1); [|injection H1 as <-; congruence].
  apply bind_Ret in H1 as ([db e] & Hu & H1). destruct e as [e|]; injection H1 as <-.
  { change (v ∈ signed k2) in Hv. congruence. }
  rewrite Ev, Evw, Hview in Hq. rewrite El, Ed, Ep in Hu.
  destruct (SuperMajority_GetQC _ _ _ _ Em) as (vs & qc' & _ & Hq' & _ & _ & Hh).
  rewrite Hq in Hq'. injection Hq' as <-.
  change (v ∈ signed (sendVote vault PRECOMMIT tsHash (isLeader k2 view (K_id k2)) (with_db k2 db))) in Hv.
  destruct (sendVote_cases vault PRECOMMIT tsHash (isLeader k2 view (K_id k2)) (with_db k2 db))
    as [Hs|(w & m & Hty & Hvw & Hwh & Hm & Hs)].
  { rewrite Hs in Hv. change (v ∈ signed k2) in Hv. congruence. }
  assert (v = w) as ->.
  { assert (v ∈ signed k2 ∨ Some w = Some v) as [Hin|Heq].
    - destruct Hs as [Hs|Hs]; rewrite Hs in Hv.
      + apply signed_internal in Hv. by rewrite (out_any _ _ Hm) in Hv.
      + apply signed_external in Hv. by rewrite Hm in Hv.
    - congruence.
    - by injection Heq. }
  exists qc. rewrite Hh. split_and!; try done.
  - rewrite Hu. assert (Hdb : K_db (sendVote vault PRECOMMIT tsHash (isLeader k2 view (K_id k2)) (with_db k2 db)) = db)
      by (destruct Hs as [-> | ->]; done).
    rewrite <-Hdb at 1. done.
  - rewrite Hvw. cbn. congruence.
Qed.

(** The certificate the engine puts into the tesseract, and the sealed tesseract. *)
Definition commit_qc (k : KBFT) (t : Tesseract) (vs : VoteSet) : Qc :=
  {| Qc_Type := PRECOMMIT; Qc_View := K_View k; Qc_TSHash := TsHash t; Qc_Address := NilAddress;
     Qc_SignerIndices := Some (GetQC vs).1; Qc_Signature := (GetQC vs).2 |}.
Definition sealed (k : KBFT) (t : Tesseract) (vs : VoteSet) (seal : bytes) : Tesseract :=
  TsSetSealBy (TsSetSeal (TsSetCommitQc t (commit_qc k t vs)) seal) (K_id k).

(** The engine can seal: the evidence and the tesseract encode, the vault signs. *)
Record can_seal (k : KBFT) (t : Tesseract) (vs : VoteSet) (seal : bytes) : Prop := {
  cs_evidence : ∃ ev, FlushEvidence (K_evidence k) = inl ev;
  cs_seal : ∃ sign raw, vault = Some sign ∧ sign raw = (seal, None) ∧
              TsSignBytes (TsSetCommitQc t (commit_qc k t vs)) = inl raw;
}.

Lemma updateConsensusInfo_result k p t vs seal :
  K_Proposal k = Some p → K_ProposalTS k = Prop_Tesseract p → load k (Prop_Tesseract p) = Ret t →
  can_seal k t vs seal →
  ∃ k1, updateConsensusInfoInTesseracts vault (GetQC vs).1 (GetQC vs).2 k = Ret (None, k1) ∧
    load k1 (K_ProposalTS k1) = Ret (sealed k t vs seal) ∧ K_finalized k1 = K_finalized k ∧
    K_closed k1 = K_closed k ∧ K_Step k1 = K_Step k.
Proof.
  intros Hp Hts Ht [[[eh data] Hev] (sign & raw & Hv & Hsig & Hraw)].
  unfold updateConsensusInfoInTesseracts. rewrite Hev, Hp. cbn [deref mbind res_bind].
  rewrite Ht. cbn [mbind res_bind].
  change (load (with_votes _ _ _) (K_ProposalTS (with_votes _ _ _))) with (load k (K_ProposalTS k)).
  rewrite Hts, Ht. cbn [mbind res_bind]. cbn [K_ProposalTS with_votes].
  destruct (Prop_Tesseract p) as [l|]; [|done]. rewrite Hts.
  unfold commit_qc in Hraw. rewrite Hraw, Hv. cbn [deref mbind res_bind]. rewrite Hsig.
  cbn [K_ProposalTS with_heap with_votes]. rewrite Hts. eexists. split; [done|]. split; [|done].
  unfold load. cbn [K_ProposalTS with_heap with_votes K_heap]. by rewrite Hts, lookup_insert_eq.
Qed.

(** The engine is at a commit point: the proposal's tesseract has a precommit
    majority in the current view. *)
Record commits (k : KBFT) (t : Tesseract) (vs : VoteSet) (p : Proposal) : Prop := {
  cm_votes : getVoteSet (K_Votes k) (K_View k) PRECOMMIT = Some vs;
  cm_maj : SuperMajority (Some vs) = (TsHash t, true);
  cm_nil : TsHash t ≠ NilHash;
  cm_prop : K_Proposal k = Some p;
  cm_ts : K_ProposalTS k = Prop_Tesseract p;
  cm_load : load k (Prop_Tesseract p) = Ret t;
}.

Lemma finalizeCommit_result heights k p t vs seal :
  areHeightsEqual (K_Heights k) heights = true → K_Step k = ViewStepCommit → K_CommitView k = K_View k → commits k t vs p → can_seal k t vs seal →
  ∃ k', finalizeCommit vault tesseractHandler heights k = Ret k' ∧
    K_finalized k' = K_finalized k ++ [TsCopy (sealed k t vs seal)] ∧
    K_closed k' = K_closed k ++ [tesseractHandler (TsCopy (sealed k t vs seal))] ∧
    K_Step k' = K_Step k.
Proof.
  intros Hh Hstep Hcv [Hvs Hm Hnn Hp Hts Ht] Hseal.
  destruct (updateConsensusInfo_result k p t vs seal Hp Hts Ht Hseal) as (k1 & Hu & Hl & Hf & Hc & Hs).
  unfold finalizeCommit, HVS_Precommits. rewrite Hh, Hcv, Hvs, Hm, decide_False by done.
  rewrite Hp, Ht. cbn [negb mbind res_bind]. rewrite (proj2 (ts_compare t _) eq_refl).
  rewrite Hstep, Z.eqb_refl. cbn [negb orb deref mbind res_bind]. rewrite Hu. cbn [mbind res_bind].
  rewrite Hl. cbn [mbind res_bind].
  destruct (tesseractHandler _) as [e|]; eexists; (split; [done|]); cbn; rewrite Hf, Hc, Hs; by rewrite Hstep.
Qed.

Lemma UpdateSafetyInfo_Ret ld db p t qc :
  ld (Prop_Tesseract p) = Ret t → ∃ db' e, UpdateSafetyInfo ld db (Some p) qc = Ret (db', e).
Proof.
  intros Ht. unfold UpdateSafetyInfo. cbn [deref mbind res_bind]. rewrite Ht. cbn [mbind res_bind].
  match goal with |- context [Ret ?x] => destruct x as [db' e] end. by eexists _, _.
Qed.

(** Committing, for any heights equal to the engine's. *)
Lemma enterCommit_result heights k p t vs seal :
  areHeightsEqual (K_Heights k) heights = true → K_Step k < ViewStepCommit → commits k t vs p → can_seal k t vs seal →
  ∃ k', enterCommit vault tesseractHandler heights (K_View k) k = Ret k' ∧
    K_finalized k' = K_finalized k ++ [TsCopy (sealed k t vs seal)] ∧
    K_closed k' = K_closed k ++ [tesseractHandler (TsCopy (sealed k t vs seal))] ∧
    K_Step k' = ViewStepCommit.
Proof.
  intros Hh Hstep Hcm Hseal. unfold enterCommit. rewrite Hh.
  destruct (Z.leb_spec ViewStepCommit (K_Step k)); [lia|]. cbn [negb orb].
  assert (Hbody : ∃ k1, enterCommit_body vault (K_View k) k = Ret k1 ∧
    commits k1 t vs p ∧ can_seal k1 t vs seal ∧ K_View k1 = K_View k ∧ K_Heights k1 = K_Heights k ∧
    K_finalized k1 = K_finalized k ∧ K_closed k1 = K_closed k ∧ sealed k1 t vs seal = sealed k t vs seal).
  { destruct Hcm as [Hvs Hm Hnn Hp Hts Ht]. unfold enterCommit_body, HVS_Precommits. rewrite Hvs, Hm.
    destruct (SuperMajority_GetQC (K_Votes k) (K_View k) PRECOMMIT (TsHash t)) as (vs' & qc & _ & -> & _);
      [by rewrite Hvs|]. cbn [mbind res_bind]. rewrite Hp.
    destruct (UpdateSafetyInfo_Ret (load k) (K_db k) p t qc Ht) as (db & [e|] & ->); cbn [mbind res_bind].
    - exists (with_db k db). split_and!; try done; destruct Hseal; by split.
    - assert (Hq : ∃ k1, (if isLeader (with_db k db) (K_View k) (K_id (with_db k db))
        then sendQc vault PRECOMMIT (TsHash t) (with_db k db) else Ret (with_db k db)) = Ret k1 ∧
        (k1 = with_db k db ∨ ∃ o, k1 = sendOutbound o (with_db k db))).
      { destruct (isLeader _ _ _); [|by eauto]. unfold sendQc, HVS_Precommits.
        destruct (negb _); [by eauto|]. cbn [K_Votes K_View with_db]. rewrite Hvs.
        cbn [deref mbind res_bind]. eauto. }
      destruct Hq as (k1 & -> & [-> | [m ->]]); eexists; (split; [done|]);
        split_and!; try done; destruct Hseal; by split. }
  destruct Hbody as (k1 & -> & Hcm1 & Hs1 & Ev & Eh & Ef & Ec & Esl). cbn [mbind res_bind].
  set (k2 := commit_step _ _).
  destruct (finalizeCommit_result heights k2 p t vs seal) as (k' & Hr & Hf & Hc & Hst).
  - change (K_Heights k2) with (K_Heights k1). by rewrite Eh.
  - done.
  - exact (eq_sym Ev).
  - destruct Hcm1. by split.
  - destruct Hs1. by split.
  - exists k'. change (sealed k2 t vs seal) with (sealed k1 t vs seal) in *. rewrite Esl in *.
    split; [done|]. rewrite Hf, Hc, Hst. cbn. rewrite Ef, Ec. done.
Qed.
(** Commit terminates in a decision: an engine that has not committed yet and
    has a precommit majority for its proposal's tesseract in the current view
    seals the tesseract, hands it to the tesseract handler exactly once and
    closes with the handler's answer, whatever storing the safety data reports. *)
Theorem commit_finalizes k p t vs seal :
  K_Step k < ViewStepCommit → commits k t vs p → can_seal k t vs seal →
  ∃ k', enterCommit vault tesseractHandler (K_Heights k) (K_View k) k = Ret k' ∧
    K_finalized k' = K_finalized k ++ [TsCopy (sealed k t vs seal)] ∧
    K_closed k' = K_closed k ++ [tesseractHandler (TsCopy (sealed k t vs seal))] ∧
    K_Step k' = ViewStepCommit.
Proof. intros Hstep Hcm Hseal. exact (enterCommit_result _ k p t vs seal (areHeightsEqual_refl _) Hstep Hcm Hseal). Qed.
(** A majority without a proposal crashes the node: when the engine has no
    proposal, a prevote majority in the current view makes [enterPreCommit]
    dereference the missing tesseract, and a precommit majority makes
    [enterCommit] dereference the missing proposal while storing the safety
    data, instead of the nil check that [finalizeCommit] would do. *)
Theorem majority_without_proposal_panics k h :
  K_Proposal k = None → K_ProposalTS k = None →
  (majority_at k (K_View k) PREVOTE h → K_Step k < ViewStepPrecommit →
     ∃ msg, enterPreCommit vault (K_Heights k) (K_View k) k = Panic msg) ∧
  (majority_at k (K_View k) PRECOMMIT h → K_Step k < ViewStepCommit →
     ∃ msg, enterCommit vault tesseractHandler (K_Heights k) (K_View k) k = Panic msg).
Proof.
  intros Hp Hts. split; intros Hm Hs; unfold majority_at in Hm.
  - unfold enterPreCommit. rewrite areHeightsEqual_refl, Z.ltb_irrefl, Z.eqb_refl.
    destruct (Z.leb_spec ViewStepPrecommit (K_Step k)); [lia|]. cbn [negb orb andb].
    unfold enterPreCommit_body, HVS_Prevotes. rewrite Hm.
    destruct (SuperMajority_GetQC _ _ _ _ Hm) as (vs & qc & Hvs & _).
    assert (Hq : ∃ k1, (if isLeader k (K_View k) (K_id k) then sendQc vault PREVOTE h k else Ret k) = Ret k1 ∧
      K_ProposalTS k1 = None).
    { destruct (isLeader _ _ _); [|by eauto]. unfold sendQc, HVS_Prevotes. destruct (negb _); [by eauto|].
      rewrite Hvs. cbn [deref mbind res_bind]. eauto. }
    destruct Hq as (k1 & -> & Hn). cbn [mbind res_bind]. rewrite Hn. by eexists.
  - unfold enterCommit. rewrite areHeightsEqual_refl.
    destruct (Z.leb_spec ViewStepCommit (K_Step k)); [lia|]. cbn [negb orb].
    unfold enterCommit_body, HVS_Precommits. rewrite Hm.
    destruct (SuperMajority_GetQC _ _ _ _ Hm) as (vs & qc & _ & -> & _). cbn [mbind res_bind].
    rewrite Hp. cbn. unfold enterCommit_unwinds, finalizeCommit. change (K_Proposal (commit_step _ k)) with (K_Proposal k).
    change (K_Heights (commit_step _ k)) with (K_Heights k). rewrite areHeightsEqual_refl, Hp. cbn [negb].
    destruct (SuperMajority _) as [th [|]]; [destruct (decide _)|]; by eexists.
Qed.

(** The vote the engine casts at a step, when its vault signs it. *)
Lemma sendVote_signs sign ty h internal k i pk v w :
  vault = Some sign → ClusterHasKramaID (K_ics k) (K_id k) = (i, pk, true) →
  signVote sign k ty h = inl v →
  w ∈ signed (sendVote vault ty h internal k) ↔ w ∈ signed k ∨ w = v.
Proof.
  intros -> Hid Hv. unfold sendVote. rewrite Hid. cbn [negb]. rewrite Hv.
  pose proof (signVote_fields _ _ _ _ _ Hv) as (_ & _ & _ & Hqc). destruct internal.
  - rewrite signed_internal. cbn. naive_solver.
  - rewrite signed_external. unfold out_vote. cbn. rewrite Hqc. naive_solver.
Qed.

(** A proposal is prevoted once: an engine without a proposal that receives one
    for its heights and view before it has prevoted takes it, enters the
    prevote step and signs exactly one vote, a prevote for the proposal's
    tesseract. *)
Theorem proposal_prevoted sign k p t i pk v :
  K_Proposal k = None → load k (Prop_Tesseract p) = Ret t → TsHeights t = K_Heights k →
  Proposal_View p = Ret (K_View k) → K_Step k ≤ ViewStepPropose →
  vault = Some sign → ClusterHasKramaID (K_ics k) (K_id k) = (i, pk, true) →
  signVote sign k PREVOTE (TsHash t) = inl v →
  ∃ k', setProposal vault p k = Ret (None, k') ∧ K_Proposal k' = Some p ∧
    K_ProposalTS k' = Prop_Tesseract p ∧ K_Step k' = ViewStepPrevote ∧ K_View k' = K_View k ∧
    V_Type v = PREVOTE ∧ V_View v = K_View k ∧ V_TSHash v = TsHash t ∧
    ∀ w, w ∈ signed k' ↔ w ∈ signed k ∨ w = v.
Proof.
  intros Hn Ht Hh Hvw Hs Hvault Hid Hv. unfold setProposal, Proposal_Heights.
  rewrite Hn, Ht. cbn [mbind res_bind]. rewrite Hh, areHeightsEqual_refl. cbn [negb].
  rewrite Hvw. cbn [mbind res_bind]. rewrite Z.eqb_refl. cbn [negb].
  destruct (Prop_Tesseract p) as [l|] eqn:El; [|done].
  set (k1 := with_proposal k (Some p) (Some l)). set (k2 := if isLeader k1 _ _ then _ else _).
  assert (Hk2 : k2 = k1 ∨ k2 = sendExternalMessage {| CM_PeerID := K_id k1; CM_Recipient := "";
    CM_Payload := PayloadProposal p |} k1) by (unfold k2; destruct (isLeader _ _ _); auto).
  assert (Hf : (K_Step k2, K_Proposal k2, K_ProposalTS k2, K_View k2, K_Heights k2)
             = (K_Step k, Some p, Some l, K_View k, K_Heights k) ∧ load k2 (Some l) = load k (Some l) ∧
    (K_ics k2, K_id k2) = (K_ics k, K_id k) ∧ (∀ w, w ∈ signed k2 ↔ w ∈ signed k) ∧
    signVote sign k2 PREVOTE (TsHash t) = signVote sign k PREVOTE (TsHash t)).
  { destruct Hk2 as [-> | ->]; (split_and!; [done|done|done| |done]); intros w; [done|].
    rewrite signed_external. cbn. naive_solver. }
  destruct Hf as ([= Est Ep Ets Ev Eh] & El2 & [= Ei Eid] & Hsg & Esv).
  unfold isProposalReceived. rewrite Est, Ep, Ets. destruct (Z.leb_spec (K_Step k) ViewStepPropose); [|lia].
  cbn [is_some andb]. unfold enterPrevote. rewrite areHeightsEqual_refl, Z.ltb_irrefl, Z.eqb_refl, Est.
  destruct (Z.leb_spec ViewStepPrevote (K_Step k)); [exfalso; unfold ViewStepPropose, ViewStepPrevote in *; lia|].
  cbn [negb orb andb]. rewrite Ets, El2, Ht. cbn [mbind res_bind]. eexists. split; [done|].
  set (k3 := sendVote _ _ _ _ _).
  assert (Hk3 : K_Proposal k3 = Some p ∧ K_ProposalTS k3 = Some l ∧ ∀ w, w ∈ signed k3 ↔ w ∈ signed k ∨ w = v).
  { unfold k3. split_and!.
    - destruct (sendVote_cases vault PREVOTE (TsHash t) (isLeader k2 (K_View k2) (K_id k2)) k2)
        as [->|(? & ? & _ & _ & _ & _ & [-> | ->])]; done.
    - destruct (sendVote_cases vault PREVOTE (TsHash t) (isLeader k2 (K_View k2) (K_id k2)) k2)
        as [->|(? & ? & _ & _ & _ & _ & [-> | ->])]; done.
    - intros w. rewrite (sendVote_signs sign _ _ _ k2 i pk v) by congruence. by rewrite Hsg. }
  destruct Hk3 as (Hp3 & Ht3 & Hw3). pose proof (signVote_fields _ _ _ _ _ Hv) as (? & ? & ? & _).
  split_and!; done.
Qed.

(** What never reaches the vote sets: a vote for other heights, and a
    certificate that does not come from the cluster's operator; both leave
    every vote set, view, step and signed vote as they were. *)
Theorem addVote_filters k k' v peer added e :
  addVote vault tesseractHandler v peer k = Ret (added, e, k') →
  AreVoteHeightsEqual (V_Heights v) (K_Heights k) = false ∨ V_IsQC v = true ∧ peer ≠ K_operator k →
  added = false ∧ K_Votes k' = K_Votes k ∧ K_View k' = K_View k ∧ K_Step k' = K_Step k ∧
  signed k' = signed k ∧ K_finalized k' = K_finalized k.
Proof.
  intros H Hc. unfold addVote in H.
  destruct (AreVoteHeightsEqual (V_Heights v) (K_Heights k)); cbn [negb] in H; [|by injection H as <- <- <-].
  destruct Hc as [|[Hqc Hne]]; [done|]. apply bind_Ret in H as (k1 & H1 & H).
  assert (Hk1 : k1 = k ∨ ∃ ev, k1 = with_evidence k ev).
  { destruct (K_ProposalTS k); [|injection H1 as <-; by left].
    apply bind_Ret in H1 as (t & _ & H1). destruct (decide _); injection H1 as <-; [by left|]. right. eauto. }
  unfold countVote in H. rewrite Hqc in H. unfold isLeader in H.
  assert (bool_decide (K_operator k1 = peer) = false) as Eb.
  { apply bool_decide_eq_false. destruct Hk1 as [-> | [ev ->]]; cbn; congruence. }
  rewrite Eb in H. cbn in H. injection H as <- <- <-. by destruct Hk1 as [-> | [ev ->]].
Qed.

(** Timeouts: one for other heights, an earlier view, or an earlier step of
    the view changes nothing, and so does one for any step but [NewHeight]; the
    scheduled [NewHeight] timeout moves an engine that waits in [NewHeight] to
    the propose step of that view and, for the leader, makes it send itself its
    proposal. *)
Theorem timeout_starts_view c q sent k ti :
  env_ok c q → (∃ x, x ∈ q ∧ 0 < x) → kinv c q sent k →
  (TI_Height ti ≠ K_Heights k ∨ TI_View ti < K_View k ∨
   TI_View ti = K_View k ∧ TI_Step ti < K_Step k ∨ TI_Step ti ≠ ViewStepNewHeight →
   handleTimeout vault ti k = Ret k) ∧
  (TI_Height ti = K_Heights k → TI_View ti = K_View k → TI_Step ti = ViewStepNewHeight →
   K_Step k = ViewStepNewHeight → K_Proposal k = None →
   0 ≤ HVS_view (K_Votes k) < 2 ^ 64 → 0 ≤ K_View k < 2 ^ 64 - 2 →
   HVS_view (K_Votes k) ≤ K_View k + 2 →
   ∃ k', handleTimeout vault ti k = Ret k' ∧ K_View k' = K_View k ∧ K_Step k' = ViewStepPropose ∧
     signed k' = signed k ∧ K_Proposal k' = None ∧
     K_self k' = K_self k ++ (if is_some vault && isLeader k (K_View k) (K_id k)
       then [{| CM_PeerID := K_id k; CM_Recipient := "";
                CM_Payload := PayloadProposal (NewProposal (PrepareQc (K_ics k)) (ts (K_ics k))) |}]
       else [])).
Proof.
  intros Henv Hthr Hk. unfold handleTimeout. split.
  - intros Hc. destruct (_ || _) eqn:E; [done|]. apply orb_false_iff in E as [[E1 E2]%orb_false_iff E3].
    apply negb_false_iff, areHeightsEqual_true in E1. apply Z.ltb_ge in E2.
    destruct (Z.eqb_spec (TI_Step ti) ViewStepNewHeight); [|done]. exfalso.
    destruct Hc as [?|[?|[[? ?]|?]]]; [done|lia| |done]. apply andb_false_iff in E3 as [?%Z.eqb_neq|?%Z.ltb_ge]; lia.
  - intros Eh Ev Es Hs Hp Hhv Hvw Hle. rewrite Eh, Ev, Es, Hs.
    rewrite areHeightsEqual_refl, Z.ltb_irrefl, !Z.eqb_refl. cbn [negb orb andb Z.ltb Z.compare].
    change (ViewStepNewHeight <? ViewStepNewHeight) with false.
    unfold enterNewView. rewrite areHeightsEqual_refl, Z.ltb_irrefl, Z.eqb_refl, Hs, Z.eqb_refl.
    cbn [negb orb andb].
    set (k1 := updateViewStep (K_View k) ViewStepNewView k).
    assert (Hn : K_ProposalTS k = None) by (by apply (ki_noprop _ _ _ _ _ Hk)).
    set (k2 := if negb (K_View k =? 0) then _ else _).
    assert (Hk2 : k2 = k1 ∨ k2 = with_proposal k1 None None) by (unfold k2; destruct (negb _); auto).
    destruct (HVS_SetView_ok c q sent Henv Hthr (K_Votes k) (K_ics k) (u64 (K_View k + 1)))
      as (votes & Hsv & _); [apply Hk|apply Hk|lia| |..]; [rewrite u64_small; lia|rewrite u64_small by lia; lia|].
    assert (HVS_SetView (K_Votes k2) (K_ics k2) (u64 (K_View k + 1)) = Ret votes) as ->
      by (by destruct Hk2 as [-> | ->]).
    cbn [mbind res_bind]. unfold enterPropose.
    set (k3 := with_votes k2 votes (K_ics k2)).
    assert (Hf : K_Heights k3 = K_Heights k ∧ K_View k3 = K_View k ∧ K_Step k3 = ViewStepNewView ∧
      K_Proposal k3 = None ∧ K_ProposalTS k3 = None ∧ K_id k3 = K_id k ∧ K_operator k3 = K_operator k ∧
      K_ics k3 = K_ics k ∧ K_self k3 = K_self k ∧ K_outbound k3 = K_outbound k)
      by (unfold k3; destruct Hk2 as [-> | ->]; cbn; rewrite ?Hp, ?Hn; by split_and!).
    destruct Hf as (E1 & E2 & E3 & E4 & E5 & E6 & E7 & E8 & E9 & E10). clearbody k3.
    rewrite E1, E2, E3, areHeightsEqual_refl, Z.ltb_irrefl, Z.eqb_refl. cbn [negb orb andb].
    change (ViewStepPropose <=? ViewStepNewView) with false. cbn iota.
    unfold isLeader, createProposal. rewrite E6, E7, E8.
    destruct (is_some vault); cbn [negb andb]; [destruct (bool_decide _); cbn [negb]|];
      unfold isProposalReceived; cbn; rewrite E4; cbn [is_some andb]; eexists; (split; [done|]);
      unfold signed; cbn; rewrite ?E9, ?E10, ?omap_app, ?app_nil_r; cbn; rewrite ?app_nil_r; split_and!; done.
Qed.
End Theorems.
