(* ===== verification/KbftScenario.v ===== *)
(** * A run of the BFT engine to finality, and the witnesses of its theorems

    The leader "A" of the cluster of [Scenario.v] starts a view, proposes,
    collects prevotes and precommits of five other validators and finalizes. *)

From stdpp Require Import base gmap strings list fin_maps.
From Stdlib Require Import ZArith Lia.
From S2P Require Import Prelude External Types NodeSet Committee Cluster VoteSet Tally VoteSetFacts HeightVoteSet Safety Ticker Kbft KbftFacts KbftSpec Concrete Scenario.

#[local] Existing Instances CE CX CE_bits CCanon CT CT_laws MemStore CParts CSafetyCodec CProposalCodec.

#[local] Instance CEvidence : PoloCodec Evidence := {|
  Polorize e := inl [cbyte (zlen (EV_Votes e))];
  Depolorize raw := inr (EExternal "not needed");
|}.

Definition e_sign (raw : bytes) : bytes * option err := (csign (w_key 0) raw, None).
(** The vault of validator "B". *)
Definition b_sign (raw : bytes) : bytes * option err := (csign (w_key 1) raw, None).
Definition e_handler (t : @Tesseract CE CT) : option err := None.
Definition e_qc : PreparedInfo :=
  {| PI_View := 1; PI_PeerViews := []; PI_SignerIndices := None; PI_Signature := [] |}.
Definition e_ics (self : KramaID) : ClusterState := SetTesseract (Some 1%positive) (SetPrepareQc (Some e_qc)
  (NewICS [1] "cluster" "A" 0 self w_committee {[ (10 : Address) := w_participant ]} [] 1)).
Definition e_heap : gmap positive (@Tesseract CE CT) := {[ 1%positive := w_tess ]}.
Definition e_evidence : Evidence :=
  {| EV_IxHash := 0; EV_Operator := "A"; EV_Votes := []; EV_VoteSet := None |}.
Definition e_votes : HeightVoteSet :=
  match NewHeightVoteSet ["chain"] (NewHeights (e_ics "A")) (e_ics "A") with
  | Ret h => h
  | _ => {| chainIDs := []; HVS_heights := ∅; HVS_view := 0; viewVoteSet := ∅;
            peerCatchupRounds := ∅ |}
  end.
(** An engine of validator [self] under operator "A". *)
Definition e_engine (self : KramaID) : KBFT :=
  NewKBFTService "A" (e_ics self)
    e_votes e_evidence w_db e_heap.
Definition e_start : KBFT := e_engine "A".

Definition e_timeout : timeoutInfo :=
  {| TI_Duration := 100000000; TI_Height := w_heights; TI_View := 1; TI_Step := ViewStepNewHeight |}.
Definition e_in (v : Vote) : kevent :=
  EvInbound {| CM_PeerID := "B"; CM_Recipient := "A"; CM_Payload := PayloadVote v |} ∅.
Definition e_round (ty : ConsensusMsgType) (signers : list Z) : list kevent :=
  (λ n, e_in (w_vote ty 1 7 n)) <$> signers.
Definition e_others : list Z := [1; 2; 4; 5; 6].
Definition e_propose : list kevent := [EvTimeout e_timeout; EvSelf; EvSelf].
Definition e_prevote : list kevent := e_propose ++ e_round PREVOTE e_others.
Definition e_rest : list kevent := [EvSelf] ++ e_round PRECOMMIT e_others.
Definition e_run : list kevent := e_prevote ++ e_rest.

Definition e_state (evs : list kevent) (k0 : KBFT) : KBFT :=
  run_value k0 (krun (Some e_sign) e_handler evs k0).

Definition e_returns (evs : list kevent) (k0 : KBFT) : bool :=
  returns (krun (Some e_sign) e_handler evs k0).
Lemma e_state_run evs k0 :
  e_returns evs k0 = true → krun (Some e_sign) e_handler evs k0 = Ret (e_state evs k0).
Proof. apply run_value_run. Qed.

Lemma krun_rest evs1 evs2 k0 k1 k2 :
  krun (Some e_sign) e_handler evs1 k0 = Ret k1 → krun (Some e_sign) e_handler (evs1 ++ evs2) k0 = Ret k2 →
  krun (Some e_sign) e_handler evs2 k1 = Ret k2.
Proof. intros H1 H. rewrite krun_app, H1 in H. exact H. Defined.

(** The run ends with the tesseract sealed and handed over, and the engine closed. *)
Example e_run_finalizes :
  krun (Some e_sign) e_handler e_run e_start = Ret (e_state e_run e_start) ∧
  TsHash <$> K_finalized (e_state e_run e_start) = [7] ∧
  K_closed (e_state e_run e_start) = [None] ∧ K_Step (e_state e_run e_start) = ViewStepCommit.
Proof.
  split; [apply e_state_run; vm_compute; reflexivity|]. split; [|split]; vm_compute; reflexivity.
Qed.

Lemma e_engine_start self : engine_start w_committee w_quorum (e_ics self) (e_engine self).
Proof.
  destruct w_started as [Henv Hcs Hh Hthr]. split.
  - split; [exact Henv| |exact Hh|exact Hthr]. split; [reflexivity|]. eexists. vm_compute. reflexivity.
  - vm_compute. discriminate.
  - exists "A"%string, ["chain"%string], e_votes, e_evidence, w_db, e_heap. split; reflexivity.
Defined.

(** A validator that is not the leader: the proposal and the votes arrive. *)
Definition e_proposal : Proposal :=
  {| Prop_Type := PROPOSAL; Prop_PrepareQc := Some e_qc; Prop_Tesseract := Some 1%positive |}.
Definition e_propose_in : kevent :=
  EvInbound {| CM_PeerID := "A"; CM_Recipient := ""; CM_Payload := PayloadProposal e_proposal |}
    {[ 1%positive := w_tess ]}.
Definition e_cert (ty : ConsensusMsgType) : kevent :=
  EvInbound {| CM_PeerID := "A"; CM_Recipient := "";
               CM_Payload := PayloadVote (w_qc ty 1 7 [0; 1; 2; 4; 5; 6]) |} ∅.
Definition e_follow : list kevent := [e_propose_in; e_cert PREVOTE; e_cert PRECOMMIT].

Lemma e_leader_run : krun (Some e_sign) e_handler e_run e_start = Ret (e_state e_run e_start).
Proof. apply e_state_run. vm_compute. reflexivity. Defined.
Lemma e_follower_run :
  krun (Some e_sign) e_handler e_follow (e_engine "B") = Ret (e_state e_follow (e_engine "B")).
Proof. apply e_state_run. vm_compute. reflexivity. Defined.
Lemma e_prevote_run : krun (Some e_sign) e_handler e_prevote e_start = Ret (e_state e_prevote e_start).
Proof. apply e_state_run. vm_compute. reflexivity. Defined.
Lemma e_rest_run :
  krun (Some e_sign) e_handler e_rest (e_state e_prevote e_start) = Ret (e_state e_run e_start).
Proof. exact (krun_rest e_prevote e_rest _ _ _ e_prevote_run e_leader_run). Defined.

(** The hash of every vote of the two runs is that of the tesseract. *)
Definition e_hashes (evs : list kevent) (k : KBFT) : bool :=
  forallb (λ v, @V_TSHash CE v =? 7) (omap ev_vote evs ++ signed k).
Lemma e_known_hash evs k v : e_hashes evs k = true → known evs k v → V_TSHash v = 7.
Proof.
  unfold e_hashes, known. rewrite <-elem_of_app. intros H Hv. rewrite forallb_forall in H.
  apply Z.eqb_eq, H, list_elem_of_In, Hv.
Defined.

Definition head_or {A} (d : A) (l : list A) : A := match l with x :: _ => x | [] => d end.
Definition e_final (evs : list kevent) (k0 : KBFT) : @Tesseract CE CT :=
  head_or w_tess (K_finalized (e_state evs k0)).

Lemma finalized_agreement_witness :
  e_final e_run e_start ∈ K_finalized (e_state e_run e_start) ∧
  e_final e_follow (e_engine "B") ∈ K_finalized (e_state e_follow (e_engine "B")) ∧
  ∃ view1 view2 : Z, (view1 = view2 →
    TsHash (e_final e_run e_start) = TsHash (e_final e_follow (e_engine "B"))).
Proof.
  assert (H1 : e_final e_run e_start ∈ K_finalized (e_state e_run e_start))
    by (apply list_elem_of_In; vm_compute; left; reflexivity).
  assert (H2 : e_final e_follow (e_engine "B") ∈ K_finalized (e_state e_follow (e_engine "B")))
    by (apply list_elem_of_In; vm_compute; left; reflexivity).
  split; [exact H1|]. split; [exact H2|].
  destruct (finalized_agreement (Some e_sign) e_handler w_committee w_quorum (e_ics "A") (e_ics "B")
    e_start (e_engine "B") e_run e_follow _ _ _ _ (e_engine_start "A") (e_engine_start "B")
    e_leader_run e_follower_run H1 H2) as (view1 & view2 & _ & _ & Hag).
  exists view1, view2. intros Heq. apply (Hag (λ _, false) 0%nat 3 Heq).
  - intros i v1 v2 [Hk1 _] [Hk2 _] Hne. exfalso. apply Hne.
    assert (Hall : ∀ v, known e_run (e_state e_run e_start) v ∨
      known e_follow (e_state e_follow (e_engine "B")) v → V_TSHash v = 7).
    { intros v [Hv|Hv]; eapply e_known_hash; [|exact Hv| |exact Hv]; vm_compute; reflexivity. }
    by rewrite (Hall v1 Hk1), (Hall v2 Hk2).
  - reflexivity.
  - vm_compute. reflexivity.
Defined.

Lemma finalized_certified_witness :
  ∃ view b, majority_for w_committee w_quorum view PRECOMMIT
    (known e_follow (e_state e_follow (e_engine "B"))) 7 b.
Proof.
  apply (finalized_certified (Some e_sign) e_handler w_committee w_quorum (e_ics "B") (e_engine "B") e_follow
    (e_state e_follow (e_engine "B")) (e_final e_follow (e_engine "B")) (e_engine_start "B") e_follower_run).
  apply list_elem_of_In. vm_compute. left. reflexivity.
Defined.

Definition e_signed (evs : list kevent) (k0 : KBFT) (i : nat) : Vote :=
  default (w_vote PREVOTE 0 0 0) (signed (e_state evs k0) !! i).
Lemma e_signed_in evs k0 i :
  is_some (signed (e_state evs k0) !! i) = true → e_signed evs k0 i ∈ signed (e_state evs k0).
Proof.
  intros H%is_some_true. destruct H as [v Hv]. unfold e_signed. rewrite Hv. by eapply list_elem_of_lookup_2.
Defined.

Lemma no_equivocation_witness :
  V_Type (e_signed e_run e_start 0) = PREVOTE ∧ V_View (e_signed e_run e_start 0) = 1 ∧
  V_View (e_signed e_run e_start 0) ≤ K_View (e_state e_run e_start).
Proof.
  split; [vm_compute; reflexivity|]. split; [vm_compute; reflexivity|].
  assert (Hin : e_signed e_run e_start 0 ∈ signed (e_state e_run e_start))
    by (apply e_signed_in; vm_compute; reflexivity).
  destruct (no_equivocation (Some e_sign) e_handler w_committee w_quorum (e_ics "A") e_start e_run _ _ _
    (e_engine_start "A") e_leader_run Hin Hin eq_refl eq_refl) as (_ & _ & H). exact H.
Defined.

Lemma precommit_justified_witness :
  ∃ b, majority_for w_committee w_quorum 1 PREVOTE (known e_run (e_state e_run e_start)) 7 b.
Proof.
  destruct (precommit_justified (Some e_sign) e_handler w_committee w_quorum (e_ics "A") e_start e_run
    (e_state e_run e_start) (e_signed e_run e_start 1) (e_engine_start "A") e_leader_run) as [b Hb].
  - apply e_signed_in. vm_compute. reflexivity.
  - vm_compute. reflexivity.
  - exists b. exact Hb.
Defined.

Lemma engine_monotone_witness :
  majority_at (e_state e_run e_start) 1 PREVOTE 7 ∧
  K_Heights (e_state e_run e_start) = K_Heights (e_state e_prevote e_start).
Proof.
  destruct (engine_monotone (Some e_sign) e_handler w_committee w_quorum (e_ics "A") e_start e_prevote
    e_rest (e_state e_prevote e_start) (e_state e_run e_start) (e_engine_start "A") e_prevote_run e_rest_run)
    as (_ & Hm & _ & _ & _ & _ & Hh).
  split; [|exact Hh]. apply Hm. vm_compute. reflexivity.
Defined.

(** ** Witnesses of the single steps *)
Definition is_Ret {A} (r : res A) : bool := match r with Ret _ => true | _ => false end.
Definition or_else {A} (d : A) (r : res A) : A := match r with Ret a => a | _ => d end.
Lemma or_else_Ret {A} (d : A) r : is_Ret r = true → r = Ret (or_else d r).
Proof. by destruct r. Defined.
Lemma or_else_triple {A B C} (d : A * B * C) r :
  is_Ret r = true → r = Ret ((or_else d r).1.1, (or_else d r).1.2, (or_else d r).2).
Proof. by destruct r as [[[a b] c]| |]. Defined.
Lemma default_Some {A} (d : A) o : is_some o = true → o = Some (default d o).
Proof. by destruct o. Defined.

Definition e_few : list kevent := e_propose ++ e_round PREVOTE [1; 2; 4; 5].
Definition e_polka : KBFT :=
  with_votes (e_state e_few e_start) (K_Votes (e_state e_prevote e_start))
    (K_ics (e_state e_prevote e_start)).
Definition e_locked : KBFT :=
  or_else e_polka (enterPreCommit (Some e_sign) (K_Heights e_polka) 1 e_polka).
Definition e_precommit : Vote := default (w_vote PREVOTE 0 0 0) (signed e_locked !! 1%nat).

Lemma precommit_after_safety_witness :
  ∃ qc, UpdateSafetyInfo (load e_polka) (K_db e_polka) (K_Proposal e_polka) qc = Ret (K_db e_locked, None) ∧
    V_TSHash e_precommit = Qc_TSHash qc.
Proof.
  destruct (precommit_after_safety (Some e_sign) e_polka e_locked (K_Heights e_polka) 1 e_precommit)
    as (qc & _ & Hu & _ & _ & Hh).
  - apply or_else_Ret. vm_compute. reflexivity.
  - vm_compute. reflexivity.
  - apply (list_elem_of_lookup_2 _ 1). apply default_Some. vm_compute. reflexivity.
  - intros Hin. assert (Hall : forallb (λ v, bool_decide (@V_Type CE v = PREVOTE)) (signed e_polka) = true)
      by (vm_compute; reflexivity).
    rewrite forallb_forall in Hall. apply list_elem_of_In, Hall, bool_decide_eq_true in Hin.
    revert Hin. vm_compute. discriminate.
  - exists qc. split; [exact Hu|exact Hh].
Defined.

Definition e_ready : KBFT :=
  with_votes (e_state e_prevote e_start) (K_Votes (e_state e_run e_start)) (K_ics (e_state e_run e_start)).
Definition e_vs : VoteSet :=
  default (NewVoteSet w_heights 1 PRECOMMIT w_cs) (getVoteSet (K_Votes e_ready) 1 PRECOMMIT).
Definition e_seal : bytes := csign (w_key 0) [cbyte 7].

Lemma e_ready_commits : commits e_ready w_tess e_vs e_proposal.
Proof.
  split.
  - apply default_Some. vm_compute. reflexivity.
  - vm_compute. reflexivity.
  - vm_compute. discriminate.
  - vm_compute. reflexivity.
  - vm_compute. reflexivity.
  - vm_compute. reflexivity.
Defined.
Lemma e_ready_seals : can_seal (Some e_sign) e_ready w_tess e_vs e_seal.
Proof.
  split.
  - eexists. vm_compute. reflexivity.
  - exists e_sign, [cbyte 7]. split; [reflexivity|]. split; [reflexivity|]. vm_compute. reflexivity.
Defined.

Lemma commit_finalizes_witness :
  ∃ k', enterCommit (Some e_sign) e_handler (K_Heights e_ready) (K_View e_ready) e_ready = Ret k' ∧
    K_finalized k' = K_finalized e_ready ++ [TsCopy (sealed e_ready w_tess e_vs e_seal)].
Proof.
  destruct (commit_finalizes (Some e_sign) e_handler e_ready e_proposal w_tess e_vs e_seal)
    as (k' & He & Hf & _ & _).
  - vm_compute. reflexivity.
  - exact e_ready_commits.
  - exact e_ready_seals.
  - exists k'. split; [exact He|exact Hf].
Defined.

Definition e_headless : KBFT :=
  with_votes e_start (K_Votes (e_state e_run e_start)) (K_ics (e_state e_run e_start)).
Lemma majority_without_proposal_panics_witness :
  (∃ msg, enterPreCommit (Some e_sign) (K_Heights e_headless) 1 e_headless = Panic msg) ∧
  ∃ msg, enterCommit (Some e_sign) e_handler (K_Heights e_headless) 1 e_headless = Panic msg.
Proof.
  destruct (majority_without_proposal_panics (Some e_sign) e_handler e_headless 7 eq_refl eq_refl) as [H1 H2].
  split.
  - apply H1; vm_compute; reflexivity.
  - apply H2; vm_compute; reflexivity.
Defined.

Definition e_first_vote : Vote :=
  match signVote e_sign (e_engine "B") PREVOTE 7 with inl v => v | inr _ => w_vote PREVOTE 0 0 0 end.
Definition e_received : KBFT := with_heap (e_engine "B") e_heap.
Lemma proposal_prevoted_witness :
  ∃ k', setProposal (Some e_sign) e_proposal e_received = Ret (None, k') ∧ e_first_vote ∈ signed k'.
Proof.
  destruct (proposal_prevoted (Some e_sign) e_handler e_sign e_received e_proposal w_tess 1 (w_key 1) e_first_vote)
    as (k' & He & _ & _ & _ & _ & _ & _ & _ & Hs).
  - vm_compute. reflexivity.
  - vm_compute. reflexivity.
  - vm_compute. reflexivity.
  - vm_compute. reflexivity.
  - vm_compute. discriminate.
  - reflexivity.
  - vm_compute. reflexivity.
  - vm_compute. reflexivity.
  - exists k'. split; [exact He|]. apply Hs. right. reflexivity.
Defined.

Definition e_forged : bool * option err * KBFT :=
  or_else (true, None, e_engine "B")
    (addVote (Some e_sign) e_handler (w_qc PREVOTE 1 7 [0; 1; 2; 4; 5; 6]) "C" (e_engine "B")).
Lemma addVote_filters_witness :
  e_forged.1.1 = false ∧ K_Votes e_forged.2 = K_Votes (e_engine "B").
Proof.
  destruct (addVote_filters (Some e_sign) e_handler (e_engine "B") e_forged.2
    (w_qc PREVOTE 1 7 [0; 1; 2; 4; 5; 6]) "C" e_forged.1.1 e_forged.1.2) as (Ha & Hv & _).
  - apply or_else_triple. vm_compute. reflexivity.
  - right. split; [reflexivity|]. vm_compute. discriminate.
  - split; [exact Ha|exact Hv].
Defined.

Lemma timeout_starts_view_witness :
  ∃ k', handleTimeout (Some e_sign) e_timeout e_start = Ret k' ∧ K_Step k' = ViewStepPropose ∧
    length (K_self k') = 1%nat.
Proof.
  destruct (timeout_starts_view (Some e_sign) w_committee w_quorum (λ _, True) e_start e_timeout) as [_ H].
  - exact (st_env _ _ _ _ w_started).
  - exact (st_threshold _ _ _ _ w_started).
  - exact (proj1 (start_inv w_committee w_quorum (e_ics "A") e_start (λ _, True) (e_engine_start "A"))).
  - destruct H as (k' & He & _ & Hs & _ & _ & Hl).
    + vm_compute. reflexivity.
    + vm_compute. reflexivity.
    + reflexivity.
    + reflexivity.
    + reflexivity.
    + vm_compute. split; [discriminate|reflexivity].
    + vm_compute. split; [discriminate|reflexivity].
    + vm_compute. discriminate.
    + exists k'. split; [exact He|]. split; [exact Hs|]. rewrite Hl. vm_compute. reflexivity.
Defined.

(** Precommits of another view crash the engine: when they reach a majority,
    [enterCommit] looks for their certificate in the vote set of its own view,
    which has none. *)
Example other_view_majority_panics :
  krun (Some e_sign) e_handler
    (e_prevote ++ [EvSelf] ++ ((λ n, e_in (w_vote PRECOMMIT 3 7 n)) <$> [1; 2; 3; 4; 5; 6])) e_start
  = Panic "nil pointer dereference".
Proof. vm_compute. reflexivity. Qed.
