(* ===== verification/KbftLoop.v ===== *)
(** * The engine's goroutine and its ticker: [KBFT.Start], [KBFT.handler]

    The loop receives from five channels, the ticker's routine runs beside it,
    and neither fixes an order: a history is any sequence of the receives that
    are ready.  What leaves the loop is not modelled by [Kbft]: a close request,
    the end of the context, and the closed inbound channel.

    In [Kbft] a send never blocks.  The theorems here show that this loses
    nothing: a running engine stays in the view it was made for, and sends a few
    messages into channels that hold a thousand. *)

From stdpp Require Import base gmap strings list fin_maps.
From Stdlib Require Import ZArith Lia.
From S2P Require Import Prelude External Types NodeSet Committee Cluster VoteSet Tally VoteSetFacts HeightVoteSet Safety Ticker Kbft KbftFacts KbftSpec Concrete Scenario KbftScenario.

Section Loop.
Context `{ET : ExtTypes} `{!ExtOps ET} `{!TesseractOps ET}.
Context `{!SafetyStore ET} `{!TesseractParts ET _}.
Context `{!PoloCodec CanonicalVote} `{!PoloCodec SafetyData} `{!PoloCodec ProposalInfo} `{!PoloCodec Evidence}.
Context (vault : option (bytes → bytes * option err)) (tesseractHandler : Tesseract → option err).

Record Loop := {
  L_k : KBFT;
  L_ticker : Ticker;
  (** of [K_timeouts], those the ticker's routine has received *)
  L_ticked : nat;
  (** the indices in [T_tock] of the values the loop has received *)
  L_tocked : list nat;
  (** what [handler] returned, and [Start] sends on [exitChan] *)
  L_exit : option (option err);
}.

Inductive loop_event :=
| LoopClose (i : nat)
| LoopDone (e : err)
| LoopInboundClosed
| LoopInbound (msg : ConsensusMessage) (decoded : gmap positive Tesseract)
| LoopSelf
| LoopTock (i : nat)
| TickerReceives
| TickerFires
| TickerQuits.

(** [Start] up to the loop *)
Definition loop_start (k : KBFT) : Loop :=
  {| L_k := scheduleView k; L_ticker := NewTicker; L_ticked := 0; L_tocked := []; L_exit := None |}.

Definition with_kbft (l : Loop) (k : KBFT) : Loop :=
  {| L_k := k; L_ticker := L_ticker l; L_ticked := L_ticked l; L_tocked := L_tocked l; L_exit := L_exit l |}.
Definition with_ticker (l : Loop) (t : Ticker) (ticked : nat) : Loop :=
  {| L_k := L_k l; L_ticker := t; L_ticked := ticked; L_tocked := L_tocked l; L_exit := L_exit l |}.

(** Leaving the loop runs the deferred function. *)
Definition leave (l : Loop) (e : option err) : Loop :=
  {| L_k := L_k l; L_ticker := Ticker_Close (Ticker_Stop (L_ticker l)); L_ticked := L_ticked l;
     L_tocked := L_tocked l; L_exit := Some e |}.

(** The event the engine handles, if it is one of the loop's and ready. *)
Definition received (l : Loop) (ev : loop_event) : option (Loop * kevent) :=
  match ev with
  | LoopInbound msg decoded => Some (l, EvInbound msg decoded)
  | LoopSelf => _ ← K_self (L_k l) !! K_selfRead (L_k l); Some (l, EvSelf)
  | LoopTock i =>
      if decide (i ∈ L_tocked l) then None
      else ti ← T_tock (L_ticker l) !! i;
           Some ({| L_k := L_k l; L_ticker := L_ticker l; L_ticked := L_ticked l;
                    L_tocked := i :: L_tocked l; L_exit := L_exit l |}, EvTimeout ti)
  | _ => None
  end.

(** One receive of [handler]; [None] when it is not ready.  A close request waits
    in a goroutine of its own, so any of them may come first. *)
Definition handler_step (l : Loop) (ev : loop_event) : res (option Loop) :=
  match L_exit l with
  | Some _ => Ret None
  | None =>
      match ev with
      | LoopClose i => Ret (leave l <$> K_closed (L_k l) !! i)
      | LoopDone e => Ret (Some (leave l (Some e)))
      | LoopInboundClosed => Ret (Some (leave l None))
      | _ => match received l ev with
             | Some (l', kev) => k ← kstep vault tesseractHandler (L_k l) kev; Ret (Some (with_kbft l' k))
             | None => Ret None
             end
      end
  end.

Definition loop_step (l : Loop) (ev : loop_event) : res (option Loop) :=
  match ev with
  | TickerReceives =>
      Ret (ti ← K_timeouts (L_k l) !! L_ticked l;
           t ← ticker_step (L_ticker l) (TickReceived ti);
           Some (with_ticker l t (S (L_ticked l))))
  | TickerFires => Ret (t ← ticker_step (L_ticker l) TimerFired; Some (with_ticker l t (L_ticked l)))
  | TickerQuits => Ret (t ← ticker_step (L_ticker l) QuitReceived; Some (with_ticker l t (L_ticked l)))
  | _ => handler_step l ev
  end.

Fixpoint loop_run (l : Loop) (evs : list loop_event) : res (option Loop) :=
  match evs with
  | [] => Ret (Some l)
  | ev :: rest =>
      o ← loop_step l ev;
      match o with Some l' => loop_run l' rest | None => Ret None end
  end.

(** ** What a message may change

    [selfRoom] and [outRoom] bound what has been sent on the two channels once a
    step of the view is reached; a proposal that is not set yet may still be
    forwarded. *)
Definition selfs (k : KBFT) : Z := zlen (K_self k).
Definition outs (k : KBFT) : Z :=
  zlen (K_outbound k) + match K_Proposal k with None => 1 | Some _ => 0 end.
Definition selfRoom (s : Z) : Z := if s <=? 2 then 0 else s - 2.
Definition outRoom (s : Z) : Z :=
  if s <=? 1 then 1 else if s <=? 3 then 2 else if s <=? 4 then 3 else if s <=? 5 then 5 else 6.

Definition fixed (k k' : KBFT) : Prop :=
  K_Heights k' = K_Heights k ∧ K_View k' = K_View k ∧ K_timeouts k' = K_timeouts k.
Definition unended (k k' : KBFT) : Prop := K_finalized k' = K_finalized k ∧ K_closed k' = K_closed k.
(** one close request, with at most one tesseract before it *)
Definition ended (k k' : KBFT) : Prop :=
  ∃ e ts, K_closed k' = K_closed k ++ [e] ∧ K_finalized k' = K_finalized k ++ ts ∧
    (length ts ≤ 1)%nat ∧ (e = None → ts ≠ []).

(** Within a step: at most [a] and [b] messages more. *)
Record mild (a b : Z) (k k' : KBFT) : Prop := {
  mi_fixed : fixed k k';
  mi_step : K_Step k' = K_Step k;
  mi_open : unended k k';
  mi_self : selfs k' ≤ selfs k + a;
  mi_out : outs k' ≤ outs k + b;
}.
(** From a message to the next. *)
Record progress (k k' : KBFT) : Prop := {
  pr_fixed : fixed k k';
  pr_step : K_Step k ≤ K_Step k' ≤ Z.max (K_Step k) ViewStepCommit;
  pr_self : selfs k' - selfRoom (K_Step k') ≤ selfs k - selfRoom (K_Step k);
  pr_out : outs k' - outRoom (K_Step k') ≤ outs k - outRoom (K_Step k);
  pr_end : unended k k' ∨ K_Step k < ViewStepCommit ∧ K_Step k' = ViewStepCommit ∧ ended k k';
}.

Lemma mild_refl k : mild 0 0 k k.
Proof. repeat split; lia. Qed.
Lemma mild_trans a b a' b' k k1 k2 : mild a b k k1 → mild a' b' k1 k2 → mild (a + a') (b + b') k k2.
Proof.
  intros [(? & ? & ?) ? [? ?] ? ?] [(? & ? & ?) ? [? ?] ? ?].
  split; [unfold fixed; split_and!; congruence|congruence|split; congruence|lia|lia].
Qed.
Lemma mild_weaken a b a' b' k k' : mild a b k k' → a ≤ a' → b ≤ b' → mild a' b' k k'.
Proof. intros [? ? ? ? ?] ? ?. split; try done; lia. Qed.
Lemma mild_progress k k' : mild 0 0 k k' → progress k k'.
Proof. intros [? E ? ? ?]. split; rewrite ?E; try done; [lia..|by left]. Qed.
Lemma progress_refl k : progress k k.
Proof. apply mild_progress, mild_refl. Qed.
Lemma ended_unended k k1 k2 : ended k k1 → unended k1 k2 → ended k k2.
Proof. intros (e & ts & ? & ? & ? & ?) [? ?]. exists e, ts. split_and!; first [done|congruence]. Qed.
Lemma unended_ended k k1 k2 : unended k k1 → ended k1 k2 → ended k k2.
Proof. intros [? ?] (e & ts & ? & ? & ? & ?). exists e, ts. split_and!; first [done|congruence]. Qed.
Lemma unended_trans k k1 k2 : unended k k1 → unended k1 k2 → unended k k2.
Proof. intros [? ?] [? ?]. split; congruence. Qed.
Lemma progress_trans k k1 k2 : progress k k1 → progress k1 k2 → progress k k2.
Proof.
  intros [(? & ? & ?) ? ? ? E1] [(? & ? & ?) ? ? ? E2]. split; [unfold fixed; split_and!; congruence|lia..|].
  destruct E1 as [E1|(? & ? & E1)], E2 as [E2|(? & ? & E2)]; [left|right|right|lia].
  - by eapply unended_trans.
  - split_and!; [lia|done|by eapply unended_ended].
  - split_and!; [lia|lia|by eapply ended_unended].
Qed.
(** Reaching a later step, with what the step leaves room for. *)
Lemma mild_step a b k k1 s :
  mild a b k k1 → K_Step k ≤ s ≤ ViewStepCommit →
  a ≤ selfRoom s - selfRoom (K_Step k) → b ≤ outRoom s - outRoom (K_Step k) →
  progress k (stepChange (updateViewStep (K_View k) s k1)).
Proof.
  intros [(? & ? & ?) ? [? ?] ? ?] ? ? ?. unfold selfs, outs in *.
  split; [done|cbn; lia|unfold selfs; cbn; lia|unfold outs; cbn; lia|by left].
Qed.
Ltac rooms := unfold selfRoom, outRoom, ViewStepNewHeight, ViewStepNewView, ViewStepPropose, ViewStepPrevote,
  ViewStepPrecommit, ViewStepCommit in *; repeat case_match; lia.
(** A change of fields that none of this mentions. *)
Ltac mild_by := split; [by split_and!|done|by split|unfold selfs, outs; cbn; try lia..].

(** ** The handlers *)
Lemma internal_mild m k : mild 1 0 k (sendInternalMessage m k).
Proof. split; try (repeat split; done); unfold selfs, outs; cbn; unfold zlen; rewrite ?length_app; cbn; lia. Qed.
Lemma external_mild o k : mild 0 1 k (sendOutbound o k).
Proof. split; try (repeat split; done); unfold selfs, outs; cbn; unfold zlen; rewrite ?length_app; cbn; lia. Qed.

Lemma sendVote_mild ty h internal k : mild 1 1 k (sendVote vault ty h internal k).
Proof.
  destruct (sendVote_cases vault ty h internal k) as [->|(v & m & _ & _ & _ & _ & [-> | ->])];
    (eapply mild_weaken; [apply mild_refl || apply internal_mild || apply external_mild|lia|lia]).
Qed.
Lemma sendQc_mild ty h k k' : sendQc vault ty h k = Ret k' → mild 0 1 k k'.
Proof.
  unfold sendQc. destruct (negb _); [intros [= <-]; eapply mild_weaken; [apply mild_refl|lia|lia]|].
  intros ([bits sig] & _ & H)%bind_Ret. injection H as <-. apply external_mild.
Qed.

Lemma enterPrevote_progress h k k' : enterPrevote vault h (K_View k) k = Ret k' → progress k k'.
Proof.
  unfold enterPrevote. case_match eqn:Eg; [intros [= <-]; apply progress_refl|].
  apply orb_false_iff in Eg as [_ Eg]. rewrite Z.eqb_refl in Eg. apply Z.leb_gt in Eg.
  intros (k1 & H1 & H)%bind_Ret. injection H as <-.
  assert (Hm : mild 1 1 k k1).
  { destruct (K_ProposalTS k); [apply bind_Ret in H1 as (t & _ & H1)|]; injection H1 as <-; apply sendVote_mild. }
  eapply (mild_step 1 1); [exact Hm| | |]; rooms.
Qed.

Lemma enterPreCommit_body_mild k k' : enterPreCommit_body vault (K_View k) k = Ret k' → mild 1 2 k k'.
Proof.
  unfold enterPreCommit_body. destruct (SuperMajority _) as [h [|]];
    [|intros [= <-]; eapply mild_weaken; [apply mild_refl|lia|lia]].
  intros (k1 & H1 & H)%bind_Ret.
  assert (Hm : mild 0 1 k k1).
  { destruct (isLeader _ _ _); [by eapply sendQc_mild|]. injection H1 as <-.
    eapply mild_weaken; [apply mild_refl|lia|lia]. }
  assert (Hw : mild 1 2 k k1) by (eapply mild_weaken; [exact Hm|lia|lia]).
  apply bind_Ret in H as (t & _ & H). case_match.
  { apply bind_Ret in H as (p & _ & H). apply bind_Ret in H as (? & _ & H). by injection H as <-. }
  apply bind_Ret in H as ([qc|e] & _ & H); [|by injection H as <-].
  apply bind_Ret in H as ([db e] & _ & H).
  assert (Hdb : mild 0 1 k (with_db k1 db)) by (eapply (mild_trans 0 1 0 0); [exact Hm|mild_by]).
  destruct e; injection H as <-; [eapply mild_weaken; [exact Hdb|lia|lia]|].
  eapply (mild_trans 0 1 1 1); [exact Hdb|apply sendVote_mild].
Qed.
Lemma enterPreCommit_progress h k k' : enterPreCommit vault h (K_View k) k = Ret k' → progress k k'.
Proof.
  unfold enterPreCommit. case_match eqn:Eg; [intros [= <-]; apply progress_refl|].
  apply orb_false_iff in Eg as [_ Eg]. rewrite Z.eqb_refl in Eg. apply Z.leb_gt in Eg.
  intros (k1 & H1 & H)%bind_Ret. injection H as <-. apply enterPreCommit_body_mild in H1 as Hm.
  eapply (mild_step 1 2); [exact Hm| | |]; rooms.
Qed.

Lemma updateConsensusInfo_mild bits sig k e k' :
  updateConsensusInfoInTesseracts vault bits sig k = Ret (e, k') → mild 0 0 k k'.
Proof.
  unfold updateConsensusInfoInTesseracts. destruct (FlushEvidence _) as [[eh data]|e0]; [|intros [= <- <-]; apply mild_refl].
  intros (p & _ & (pt & _ & (t & _ & H)%bind_Ret)%bind_Ret)%bind_Ret.
  destruct (TsSignBytes _) as [raw|e1]; [|injection H as <- <-; cbn; destruct (K_ProposalTS k); mild_by].
  apply bind_Ret in H as (sign & _ & H). destruct (sign raw) as [seal [e2|]]; injection H as <- <-;
    cbn; destruct (K_ProposalTS k) eqn:E; cbn; rewrite ?E; mild_by.
Qed.

(** In the commit step at most one tesseract is handed over, and one close request
    made. *)
Lemma finalizeCommit_end h k k' : finalizeCommit vault tesseractHandler h k = Ret k' →
  fixed k k' ∧ K_Step k' = K_Step k ∧ selfs k' ≤ selfs k ∧ outs k' ≤ outs k ∧ (unended k k' ∨ ended k k').
Proof.
  unfold finalizeCommit. intros H.
  assert (Hsame : Ret k = Ret k' → fixed k k' ∧ K_Step k' = K_Step k ∧ selfs k' ≤ selfs k ∧ outs k' ≤ outs k ∧
    (unended k k' ∨ ended k k')) by (intros [= <-]; split_and!; [done|done|lia|lia|by left]).
  case_match; [done|]. destruct (SuperMajority _) as [th [|]]; [|by apply Hsame].
  case_decide; [by apply Hsame|]. destruct (K_Proposal k) as [p|]; [|by apply Hsame].
  apply bind_Ret in H as (pt & _ & H). case_match; [by apply Hsame|]. case_match; [by apply Hsame|].
  apply bind_Ret in H as (vs & _ & H). apply bind_Ret in H as ([e k1] & Hu & H).
  apply updateConsensusInfo_mild in Hu as [Hf Hst [Hfin Hcl] Hs Ho].
  assert (Hclose : ∀ e ts k2, k2 = Close e (with_output k1 (K_outbound k1) (K_closed k1) (K_finalized k1 ++ ts) (K_timeouts k1)) →
    (length ts ≤ 1)%nat → (e = None → ts ≠ []) →
    fixed k k2 ∧ K_Step k2 = K_Step k ∧ selfs k2 ≤ selfs k ∧ outs k2 ≤ outs k ∧ (unended k k2 ∨ ended k k2)).
  { intros e' ts k2 -> Hl Hn. unfold selfs, outs in *. cbn. split_and!; [exact Hf|done|lia|lia|]. right. exists e', ts.
    cbn. by rewrite Hfin, Hcl. }
  destruct e as [e|].
  { injection H as <-. apply (Hclose (Some e) []); [|cbn; lia|done]. unfold Close. cbn. by rewrite app_nil_r. }
  apply bind_Ret in H as (t & _ & H).
  destruct (tesseractHandler (TsCopy t)) as [e|]; injection H as <-; (eapply Hclose; [done|cbn; lia|done]).
Qed.

Lemma enterCommit_body_mild view k k' : enterCommit_body vault view k = Ret k' → mild 0 1 k k'.
Proof.
  unfold enterCommit_body. destruct (SuperMajority _) as [h [|]]; [|done].
  assert (H0 : mild 0 1 k k) by (eapply mild_weaken; [apply mild_refl|lia|lia]).
  intros ([qc|e] & _ & H)%bind_Ret; [|by injection H as <-]. apply bind_Ret in H as ([db e] & _ & H).
  assert (Hdb : mild 0 0 k (with_db k db)) by mild_by.
  assert (Hw : mild 0 1 k (with_db k db)) by (eapply mild_weaken; [exact Hdb|lia|lia]).
  destruct e; [by injection H as <-|]. destruct (isLeader _ _ _); [|by injection H as <-].
  apply sendQc_mild in H. by eapply (mild_trans 0 0 0 1).
Qed.
Lemma enterCommit_progress h view k k' : enterCommit vault tesseractHandler h view k = Ret k' → progress k k'.
Proof.
  rewrite enterCommit_Ret. case_match eqn:Eg; [intros [= <-]; apply progress_refl|].
  apply orb_false_iff in Eg as [_ Eg]. apply Z.leb_gt in Eg. intros (k1 & H1 & H)%bind_Ret.
  apply enterCommit_body_mild in H1 as Hm.
  apply finalizeCommit_end in H as (Hf & Hst & Hs & Ho & He).
  destruct Hm as [(Hh1 & Hv1 & Ht1) Hst1 Hu1 Hs1 Ho1], Hf as (Hh2 & Hv2 & Ht2).
  unfold selfs, outs in *. cbn in Hh2, Hv2, Ht2, Hst, Hs, Ho.
  split; [unfold fixed; split_and!; congruence|lia|unfold selfs; rewrite Hst; rooms|unfold outs; rewrite Hst; rooms|].
  destruct He as [He|He]; [left; by eapply (unended_trans k k1)|right].
  split_and!; [lia|done|by eapply (unended_ended k k1)].
Qed.

(** ** Proposals and the first timeout *)
Lemma enterPropose_progress h k k' : enterPropose vault h (K_View k) k = Ret k' → progress k k'.
Proof.
  unfold enterPropose. case_match eqn:Eg; [intros [= <-]; apply progress_refl|].
  apply orb_false_iff in Eg as [_ Eg]. rewrite Z.eqb_refl in Eg. apply Z.leb_gt in Eg.
  set (k1 := if negb (is_some vault) then k else _). intros H.
  assert (Hm : mild 1 0 k k1).
  { unfold k1, createProposal. repeat case_match; try apply internal_mild; (eapply mild_weaken; [apply mild_refl|lia|lia]). }
  set (k2 := stepChange _) in H. assert (Hp : progress k k2) by (eapply (mild_step 1 0); [exact Hm| | |]; rooms).
  case_match; [|by injection H as <-]. eapply progress_trans; [exact Hp|].
  by apply (enterPrevote_progress h k2).
Qed.
Lemma enterNewView_progress h k k' : enterNewView vault h (K_View k) k = Ret k' → progress k k'.
Proof.
  unfold enterNewView. case_match eqn:Eg; [intros [= <-]; apply progress_refl|].
  apply orb_false_iff in Eg as [_ Eg]. rewrite Z.eqb_refl in Eg. cbn in Eg. apply negb_false_iff, Z.eqb_eq in Eg.
  intros (votes & _ & H)%bind_Ret. set (k1 := if negb (K_View k =? 0) then _ else _) in H.
  set (k2 := with_votes k1 votes (K_ics k1)) in H.
  assert (Hp : progress k k2).
  { unfold k2, k1, updateViewStep. destruct (negb _); (split; [repeat split|..]); unfold selfs, outs; cbn; try (by left); rewrite ?Eg; rooms. }
  assert (Evk : K_View k2 = K_View k) by (unfold k2, k1; destruct (negb _); done).
  eapply progress_trans; [exact Hp|]. apply (enterPropose_progress h k2). by rewrite Evk.
Qed.
Lemma setProposal_progress p k e k' : setProposal vault p k = Ret (e, k') → progress k k'.
Proof.
  unfold setProposal. destruct (K_Proposal k) eqn:Ep; [intros [= <- <-]; apply progress_refl|].
  intros (hs & _ & (bad & _ & H)%bind_Ret)%bind_Ret. destruct bad; [injection H as <- <-; apply progress_refl|].
  apply bind_Ret in H as (k3 & H3 & H). injection H as <- <-.
  set (k2 := if isLeader _ _ _ then _ else _) in H3.
  assert (Hp : progress k k2).
  { apply mild_progress. unfold k2. destruct (isLeader _ _ _); mild_by; unfold selfs, outs; cbn; unfold zlen;
      rewrite ?Ep, ?length_app; cbn; lia. }
  eapply progress_trans; [exact Hp|]. case_match; [|injection H3 as <-; apply progress_refl].
  by apply enterPrevote_progress in H3.
Qed.

(** ** Votes *)
Lemma countVote_mild v peer k a e k' : countVote v peer k = Ret (a, e, k') → mild 0 0 k k'.
Proof.
  unfold countVote. case_match; [intros [= <- <- <-]; apply mild_refl|].
  intros ([[[added e'] votes] ics] & _ & Hr)%bind_Ret. injection Hr as <- <- <-. case_match; mild_by.
Qed.
Lemma afterPrevote_progress v k k' : afterPrevote vault v k = Ret k' → progress k k'.
Proof.
  unfold afterPrevote. intros ([future k1] & H1 & H)%bind_Ret.
  assert (Hm : mild 0 0 k k1).
  { destruct (_ <? _); [|injection H1 as <- <-; apply mild_refl].
    apply bind_Ret in H1 as ([any ics] & _ & H1). injection H1 as <- <-. mild_by. }
  eapply progress_trans; [by apply mild_progress|]. clear H1 Hm.
  destruct future; [injection H as <-; apply progress_refl|].
  destruct (_ && _) eqn:Eg; [|injection H as <-; apply progress_refl].
  apply andb_true_iff in Eg as [Ev%Z.eqb_eq _]. destruct (SuperMajority _) as [h ok].
  case_match; [|injection H as <-; apply progress_refl]. rewrite <-Ev in H. by apply enterPreCommit_progress in H.
Qed.
Lemma afterPrecommit_progress v k k' : afterPrecommit vault tesseractHandler v k = Ret k' → progress k k'.
Proof.
  unfold afterPrecommit. destruct (SuperMajority _) as [h [|]].
  - case_decide; [intros [= <-]; apply progress_refl|]. apply enterCommit_progress.
  - case_match; [|intros [= <-]; apply progress_refl].
    intros ([any ics] & _ & Hr)%bind_Ret. injection Hr as <-. apply mild_progress. mild_by.
Qed.
Lemma addVote_progress v peer k a e k' : addVote vault tesseractHandler v peer k = Ret (a, e, k') → progress k k'.
Proof.
  unfold addVote. destruct (negb _); [intros [= <- <- <-]; apply progress_refl|].
  intros (k1 & H1 & H)%bind_Ret.
  assert (Hm : mild 0 0 k k1).
  { destruct (K_ProposalTS k); [|injection H1 as <-; apply mild_refl].
    apply bind_Ret in H1 as (t & _ & H1). injection H1 as <-. destruct (decide _); mild_by. }
  eapply progress_trans; [by apply mild_progress|]. apply bind_Ret in H as ([[added e'] k2] & H2 & H).
  apply countVote_mild in H2. eapply progress_trans; [by apply mild_progress|].
  destruct (is_some e' || negb added); [injection H as <- <- <-; apply progress_refl|].
  apply bind_Ret in H as (k3 & H3 & H). injection H as <- <- <-.
  destruct (V_Type v); try (injection H3 as <-; apply progress_refl);
    [by eapply afterPrevote_progress|by eapply afterPrecommit_progress].
Qed.

(** An engine that is only given timeouts of its view makes progress. *)
Lemma kstep_progress k ev k' :
  (∀ ti, ev = EvTimeout ti → TI_View ti = K_View k) →
  kstep vault tesseractHandler k ev = Ret k' → progress k k'.
Proof.
  assert (Hmsg : ∀ msg k k', handleMsg vault tesseractHandler msg k = Ret k' → progress k k').
  { intros msg k0 k0' H. unfold handleMsg in H. destruct (CM_Payload msg); try (injection H as <-; apply progress_refl).
    - apply bind_Ret in H as ([[a e] k1] & Hb & [= <-]). by eapply addVote_progress.
    - apply bind_Ret in H as ([e k1] & Hb & [= <-]). by eapply setProposal_progress. }
  intros Ht H. destruct ev as [msg decoded| |ti]; cbn [kstep] in H.
  - apply Hmsg in H. eapply progress_trans; [|exact H]. apply mild_progress. mild_by.
  - destruct (K_self k !! K_selfRead k) as [msg|]; [|injection H as <-; apply progress_refl].
    apply Hmsg in H. eapply progress_trans; [|exact H]. apply mild_progress. mild_by.
  - specialize (Ht ti eq_refl). unfold handleTimeout in H. destruct (_ || _); [injection H as <-; apply progress_refl|].
    case_match; [|injection H as <-; apply progress_refl]. rewrite Ht in H. by apply enterNewView_progress in H.
Qed.

(** ** The loop *)
Section Run.
Context (operator : KramaID) (cs : ClusterState) (votes : HeightVoteSet) (evidence : Evidence) (db : DB)
  (heap : gmap positive Tesseract).
Notation k0 := (scheduleView (NewKBFTService operator cs votes evidence db heap)).
Notation armed := {| TI_Duration := 100000000; TI_Height := NewHeights cs; TI_View := CurrentView cs;
                     TI_Step := ViewStepNewHeight |}.

Definition only_armed (kev : kevent) : Prop := ∀ ti, kev = EvTimeout ti → ti = armed.
(** Everything the ticker holds is the timeout armed by [Start]. *)
Definition ticker_armed (t : Ticker) : Prop :=
  Forall (λ ti, ti = armed) (T_tock t) ∧ (T_timer t ≠ None → T_info t = armed).
Record loop_ok (evs : list loop_event) (l : Loop) : Prop := {
  lo_progress : progress k0 (L_k l);
  lo_run : ∃ kevs, Forall only_armed kevs ∧ krun vault tesseractHandler kevs k0 = Ret (L_k l);
  lo_ticker : ticker_armed (L_ticker l);
  lo_exit : L_exit l = Some None → LoopInboundClosed ∈ evs ∨ None ∈ K_closed (L_k l);
}.

Lemma ticker_step_armed t ev t' :
  ticker_armed t → (∀ ti, ev = TickReceived ti → ti = armed) → ticker_step t ev = Some t' → ticker_armed t'.
Proof.
  intros [Hf Hi] Hev H. destruct ev as [new| | |]; cbn [ticker_step] in H; unfold timeoutRoutine in H;
    try (destruct (T_quit t); [done|]).
  - specialize (Hev new eq_refl). destruct (acceptTimeout _ _); injection H as <-; by split.
  - destruct (T_timer t) as [d|]; [|done]. injection H as <-. split; [|done]. cbn.
    apply Forall_app. split; [done|]. apply Forall_singleton. by apply Hi.
  - destruct (T_isClosed t); [|done]. injection H as <-. by split.
  - injection H as <-. unfold Ticker_Close. by destruct (T_isClosed t).
Qed.
Lemma leave_ok evs l e :
  loop_ok evs l → (e = None → LoopInboundClosed ∈ evs ∨ None ∈ K_closed (L_k l)) → loop_ok evs (leave l e).
Proof.
  intros [? ? [Hf Hi] ?] He. split; [done|done| |by intros [= ->]; apply He].
  unfold leave, Ticker_Close. cbn. by destruct (T_isClosed (L_ticker l)).
Qed.
Lemma with_ticker_ok evs l t n : loop_ok evs l → ticker_armed t → loop_ok evs (with_ticker l t n).
Proof. intros [? ? ? ?] ?. by split. Qed.

Lemma received_step evs l ev l' kev k :
  loop_ok evs l → L_exit l = None → received l ev = Some (l', kev) →
  kstep vault tesseractHandler (L_k l) kev = Ret k → loop_ok evs (with_kbft l' k).
Proof.
  intros [Hp (kevs & Hk & Hrun) [Hf Hi] He] Hex Hr Hs.
  assert (Hl : L_ticker l' = L_ticker l ∧ L_exit l' = None ∧ only_armed kev).
  { destruct ev; cbn in Hr; try done.
    - by injection Hr as <- <-.
    - destruct (K_self (L_k l) !! _); [|done]. by injection Hr as <- <-.
    - destruct (decide _); [done|]. destruct (T_tock (L_ticker l) !! i) as [ti|] eqn:E; [|done]. injection Hr as <- <-.
      split_and!; [done|done|]. intros ti' [= <-]. by apply (proj1 (Forall_lookup _ _) Hf i). }
  destruct Hl as (Et & Ex & Ha). split; cbn [L_k L_ticker L_exit with_kbft].
  - eapply progress_trans; [exact Hp|]. apply kstep_progress in Hs; [done|]. intros ti ->.
    rewrite (Ha ti eq_refl). cbn [TI_View]. symmetry. apply (pr_fixed _ _ Hp).
  - exists (kevs ++ [kev]). split; [by apply Forall_app; split; [|apply Forall_singleton]|].
    rewrite krun_app, Hrun. unfold krun. cbn [mbind res_bind foldM]. by rewrite Hs.
  - by rewrite Et.
  - by rewrite Ex.
Qed.
Lemma loop_step_ok evs l ev l' :
  loop_ok evs l → ev ∈ evs → loop_step l ev = Ret (Some l') → loop_ok evs l'.
Proof.
  intros Hl Hin H.
  assert (Hrec : L_exit l = None → handler_step l ev = Ret (Some l') → loop_ok evs l').
  { intros Ex Hs. unfold handler_step in Hs. rewrite Ex in Hs.
    assert (Hr : match received l ev with
                 | Some (l', kev) => k ← kstep vault tesseractHandler (L_k l) kev; Ret (Some (with_kbft l' k))
                 | None => Ret None end = Ret (Some l') → loop_ok evs l').
    { intros Hr. destruct (received l ev) as [[l1 kev]|] eqn:E; [|done]. apply bind_Ret in Hr as (k & Hk & Hr).
      injection Hr as <-. by eapply received_step. }
    destruct ev; try by apply Hr.
    - destruct (K_closed (L_k l) !! i) as [e|] eqn:E; [|done]. injection Hs as <-. apply leave_ok; [done|].
      intros ->. right. by eapply list_elem_of_lookup_2.
    - injection Hs as <-. by apply leave_ok.
    - injection Hs as <-. apply leave_ok; [done|]. by left. }
  destruct ev; try (cbn [loop_step] in H; unfold handler_step in Hrec, H; destruct (L_exit l); [done|by apply Hrec]).
  all: cbn [loop_step] in H; injection H as H.
  - apply bind_Some in H as (ti & E & H). apply bind_Some in H as (t & Et & H). injection H as <-.
    apply with_ticker_ok; [done|]. eapply (ticker_step_armed _ (TickReceived ti)); [apply Hl| |exact Et]. intros ti' [= <-].
    destruct (pr_fixed _ _ (lo_progress _ _ Hl)) as (_ & _ & Ht). rewrite Ht in E. cbn in E.
    destruct (L_ticked l); [by injection E|done].
  - apply bind_Some in H as (t & Et & H). injection H as <-.
    apply with_ticker_ok; [done|]. by eapply (ticker_step_armed _ TimerFired); [apply Hl| |exact Et].
  - apply bind_Some in H as (t & Et & H). injection H as <-.
    apply with_ticker_ok; [done|]. by eapply (ticker_step_armed _ QuitReceived); [apply Hl| |exact Et].
Qed.

Lemma loop_run_ok all evs l l' :
  loop_ok all l → (∀ ev, ev ∈ evs → ev ∈ all) → loop_run l evs = Ret (Some l') → loop_ok all l'.
Proof.
  revert l. induction evs as [|ev evs IH]; intros l Hl Hin H; [by injection H as <-|].
  cbn [loop_run] in H. apply bind_Ret in H as ([l1|] & H1 & H); [|done].
  apply (IH l1); [|intros; by apply Hin, list_elem_of_further|done].
  eapply loop_step_ok; [exact Hl|apply Hin, list_elem_of_here|done].
Qed.
Lemma loop_start_ok all : loop_ok all (loop_start (NewKBFTService operator cs votes evidence db heap)).
Proof.
  split; cbn [L_k L_ticker L_exit loop_start]; [apply progress_refl| |by split|done].
  by exists [].
Qed.

(** C17. A running engine stays in the view it was made for: its one timeout is the
    one armed by [Start].  It never has more than four messages for itself and six
    for the network, in channels that hold a thousand, so no send of its goroutine
    blocks; it makes at most one close request, and hands over at most one
    tesseract.  [Start] returns without an error only after handing one over, or
    when the slot has closed the inbound channel; and what the engine does is a
    run of [Kbft], of which the theorems about the engine speak. *)
Theorem loop_bounded evs l :
  loop_run (loop_start (NewKBFTService operator cs votes evidence db heap)) evs = Ret (Some l) →
  K_View (L_k l) = CurrentView cs ∧ zlen (K_self (L_k l)) ≤ 4 ∧ zlen (K_outbound (L_k l)) ≤ 6 ∧
  (length (K_closed (L_k l)) ≤ 1)%nat ∧ (length (K_finalized (L_k l)) ≤ 1)%nat ∧
  (L_exit l = Some None → LoopInboundClosed ∈ evs ∨ ∃ t, K_finalized (L_k l) = [t]) ∧
  (L_exit l = None → K_closed (L_k l) ≠ [] → ∃ l', loop_step l (LoopClose 0) = Ret (Some l') ∧ is_Some (L_exit l')) ∧
  ∃ kevs, Forall only_armed kevs ∧ krun vault tesseractHandler kevs k0 = Ret (L_k l).
Proof.
  intros H. assert (Hl : loop_ok evs l) by (eapply loop_run_ok; [apply loop_start_ok|done|exact H]).
  destruct Hl as [[(_ & Hv & _) [_ Hst] Hs Ho He] Hrun _ Hex].
  assert (Hself : zlen (K_self (L_k l)) ≤ 4 ∧ zlen (K_outbound (L_k l)) ≤ 6).
  { unfold selfs, outs in Hs, Ho. cbn in Hs, Ho, Hst. unfold zlen in *. cbn in Hs, Ho. split; [clear Ho|clear Hs; destruct (K_Proposal (L_k l))]; rooms. }
  assert (Hend : (K_finalized (L_k l) = [] ∧ K_closed (L_k l) = []) ∨
    ∃ e ts, K_closed (L_k l) = [e] ∧ K_finalized (L_k l) = ts ∧ (length ts ≤ 1)%nat ∧ (e = None → ts ≠ [])).
  { destruct He as [[? ?]|(_ & _ & e & ts & ? & ? & ? & ?)]; [by left|right]. by exists e, ts. }
  split_and!; [done|apply Hself|apply Hself| | | | |done].
  - destruct Hend as [[_ ->]|(e & ts & -> & _)]; cbn; lia.
  - destruct Hend as [[-> _]|(e & ts & _ & -> & ? & _)]; cbn; lia.
  - intros [Hi|Hn]%Hex; [by left|right]. destruct Hend as [[_ E]|(e & ts & E & -> & Hlen & Hne)]; rewrite E in Hn.
    { by apply elem_of_nil in Hn. }
    apply list_elem_of_singleton in Hn as <-. specialize (Hne eq_refl). destruct ts as [|t [|]]; cbn in Hlen; [done| |lia].
    by exists t.
  - intros Ex Hne. destruct (K_closed (L_k l)) as [|e cl] eqn:E; [done|]. exists (leave l e).
    cbn [loop_step]. unfold handler_step. rewrite Ex, E. split; [done|by eexists].
Qed.
End Run.
End Loop.

(** ** Witness: the leader's engine, from its start to its end *)
#[local] Existing Instances CE CX CE_bits CCanon CT CT_laws MemStore CParts CSafetyCodec CProposalCodec CEvidence.
Definition e_loop_event (ev : kevent) : loop_event :=
  match ev with EvInbound m d => LoopInbound m d | EvSelf => LoopSelf | EvTimeout _ => LoopTock 0 end.
Definition e_loop_events : list loop_event :=
  [TickerReceives; TickerFires] ++ (e_loop_event <$> e_run) ++ [LoopClose 0; TickerQuits].
Definition e_loop_end : option Loop :=
  match loop_run (Some e_sign) e_handler (loop_start e_start) e_loop_events with Ret o => o | _ => None end.
Definition e_loop_seen (l : Loop) : list Hash * option (option err) * Z * nat * nat * bool :=
  (TsHash <$> K_finalized (L_k l), L_exit l, K_View (L_k l), length (K_self (L_k l)), length (K_outbound (L_k l)),
   T_quit (L_ticker l)).

Lemma loop_bounded_witness :
  ∃ l, loop_run (Some e_sign) e_handler (loop_start e_start) e_loop_events = Ret (Some l) ∧
    e_loop_seen l = ([7], Some None, 1, 3%nat, 3%nat, true) ∧
    (LoopInboundClosed ∈ e_loop_events ∨ ∃ t, K_finalized (L_k l) = [t]).
Proof.
  assert (Hs : e_loop_seen <$> e_loop_end = Some ([7], Some None, 1, 3%nat, 3%nat, true)) by (vm_compute; reflexivity).
  apply fmap_Some in Hs as (l & El & Hs).
  assert (H : loop_run (Some e_sign) e_handler (loop_start e_start) e_loop_events = Ret (Some l)).
  { revert El. unfold e_loop_end. destruct (loop_run _ _ _ _) as [o| |]; [by intros ->|done..]. }
  exists l. split; [exact H|]. split; [by symmetry|].
  apply (loop_bounded (Some e_sign) e_handler "A" (e_ics "A") e_votes e_evidence w_db e_heap e_loop_events l H).
  by injection Hs.
Defined.
