(* ===== verification/FinalSpec.v ===== *)
(** * From an agreement to a certificate: the engine, its vote sets and the check

    An engine that receives votes one by one, as the leader of a cluster does,
    keeps vote sets whose recorded majorities are aggregates of signatures it has
    checked.  So what it seals a tesseract with is what [verifyQc] accepts. *)

From stdpp Require Import base gmap strings list fin_maps.
From Stdlib Require Import ZArith Lia.
From S2P Require Import Prelude External Types NodeSet Committee Cluster Validation VoteSet Tally VoteSetFacts ValidationSpec Scenario VoteSetSpec HeightVoteSet Safety Ticker Kbft KbftFacts KbftSpec Concrete KbftScenario CertificateSpec.

(** ** The vote sets of all views *)
Section Views.
Context `{ET : ExtTypes} `{EX : !ExtOps ET} `{!BitLaws ET} `{!PoloCodec CanonicalVote}.
Context (c : ICSCommittee) (q : list Z) (sent : Vote → Prop).
Context (Henv : env_ok c q) (Hthr : ∃ x, x ∈ q ∧ 0 < x).

(** Every set was filled by votes, and its certificate is an aggregate of them. *)
Definition aggregated (hvs : HeightVoteSet) : Prop :=
  ∀ view vt vs, getVoteSet hvs view vt = Some vs → direct c vs ∧ recorded c view vt vs.

Lemma new_set_aggregated heights view vt cs :
  direct c (NewVoteSet heights view vt cs) ∧ recorded c view vt (NewVoteSet heights view vt cs).
Proof. split; [by apply (map_Forall_empty (M := gmap Hash))|by intros ? [=]]. Qed.
Lemma addView_aggregated hvs cs view hvs' :
  aggregated hvs → addView hvs cs view = Ret hvs' → aggregated hvs'.
Proof.
  intros Ha. unfold addView. destruct (viewVoteSet hvs !! view); [done|]. intros [= <-] view' vt vs.
  unfold getVoteSet. cbn. rewrite lookup_insert. case_decide as E; [|by apply Ha].
  destruct E. destruct vt; intros [= <-]; apply new_set_aggregated.
Qed.
Lemma addViews_aggregated fuel hvs cs r view hvs' :
  aggregated hvs → addViews fuel hvs cs r view = Ret hvs' → aggregated hvs'.
Proof.
  revert hvs r. induction fuel as [|fuel IH]; intros hvs r Ha H; cbn [addViews] in H.
  - destruct (view <? r); [by injection H as <-|done].
  - destruct (view <? r); [by injection H as <-|]. apply bind_Ret in H as (hvs1 & H1 & H).
    apply (IH hvs1 (u64 (r + 1))); [|done]. destruct (is_some _); [by injection H1 as <-|by eapply addView_aggregated].
Qed.
Lemma SetView_aggregated hvs cs view hvs' :
  aggregated hvs → HVS_SetView hvs cs view = Ret hvs' → aggregated hvs'.
Proof.
  intros Ha. unfold HVS_SetView. destruct (_ && _); [done|]. intros (hvs1 & H1 & H)%bind_Ret. injection H as <-.
  exact (addViews_aggregated _ _ _ _ _ _ Ha H1).
Qed.

Lemma callVoteSet_aggregated hvs cs v r :
  (∀ view vt vs, getVoteSet hvs view vt = Some vs → vs_ok c q view vt sent vs) → cluster_ok c q cs → sent v → aggregated hvs →
  callVoteSet (λ vs cs, AddVote vs cs (Some v)) hvs cs v = Ret r → aggregated r.1.2.
Proof.
  intros Hok Hcs Hs Ha H. unfold callVoteSet in H. destruct (getVoteSet hvs _ _) as [vs0|] eqn:Hg; [|done].
  cbn [deref mbind res_bind] in H. apply bind_Ret in H as ([[[a e] vs1] cs1] & Hv & H). injection H as <-.
  intros view vt vs. cbn [fst snd]. rewrite (getVoteSet_put q Hthr _ _ _ vs0) by done. case_decide as E; [|by apply Ha].
  destruct E as [-> ->]. intros [= <-]. destruct (Ha _ _ _ Hg) as [Hd Hr].
  apply (AddVote_recorded c q (V_View v) (V_Type v) sent) in Hv; [done|done|by apply Hok|done|done|done|by intros ? [= <-]].
Qed.
Lemma AddVote_aggregated hvs cs v peer r :
  hvs_ok c q sent hvs → cluster_ok c q cs → sent v → aggregated hvs →
  HVS_AddVote hvs cs v peer = Ret r → aggregated r.1.2.
Proof.
  intros Hok Hcs Hs Ha H. unfold HVS_AddVote in H. destruct (getVoteSet hvs _ _) as [vs0|] eqn:Hg.
  { eapply callVoteSet_aggregated; [apply Hok|exact Hcs|exact Hs|exact Ha|exact H]. }
  destruct (_ <? _); [|by injection H as <-]. apply bind_Ret in H as (hvs1 & H1 & H).
  pose proof (addView_aggregated _ _ _ _ Ha H1) as Ha1.
  destruct (decide (voteType (V_Type v))) as [Hvt|Hvt].
  2: { unfold callVoteSet in H. destruct (getVoteSet _ (V_View v) _) eqn:E in H; [by apply getVoteSet_type in E|].
       by cbn in H. }
  assert (Hok2 : hvs_ok c q sent hvs1).
  { destruct (addView_ok c q sent Henv Hthr hvs cs (V_View v) Hok (proj1 Hcs)) as (h & He & Hh & _);
      [by eapply getVoteSet_None|]. rewrite H1 in He. by injection He as <-. }
  apply callVoteSet_aggregated in H; [exact H|apply Hok2|exact Hcs|exact Hs|exact Ha1].
Qed.
End Views.

(** ** The engine *)
Section Engine.
Context `{ET : ExtTypes} `{EX : !ExtOps ET} `{!TesseractOps ET}.
Context `{!SafetyStore ET} `{!TesseractParts ET _}.
Context `{!PoloCodec CanonicalVote} `{!PoloCodec SafetyData} `{!PoloCodec ProposalInfo} `{!PoloCodec Evidence}.
Context `{!BitLaws ET} `{!TesseractLaws ET _}.
Context (vault : option (bytes → bytes * option err)) (tesseractHandler : Tesseract → option err).

(** A message that is no certificate. *)
Definition plain_msg (m : ConsensusMessage) : Prop := ∀ v, any_vote m = Some v → V_IsQC v = false.
Definition plain (ev : kevent) : Prop := ∀ v, ev_vote ev = Some v → V_IsQC v = false.

(** The votes stay, and the engine sends itself no certificate. *)
Definition calm (k k' : KBFT) : Prop :=
  K_Votes k' = K_Votes k ∧ (Forall plain_msg (K_self k) → Forall plain_msg (K_self k')).
Lemma calm_refl k : calm k k.
Proof. by split. Qed.
Lemma calm_trans k k1 k2 : calm k k1 → calm k1 k2 → calm k k2.
Proof. intros [E1 H1] [E2 H2]. split; [congruence|auto]. Qed.
Ltac calm_by := solve [apply calm_refl | by split].

Lemma sendVote_calm ty h internal k : calm k (sendVote vault ty h internal k).
Proof.
  destruct (sendVote_cases vault ty h internal k) as [->|(v & m & _ & _ & _ & Hm & [-> | ->])]; [calm_by| |calm_by].
  split; [done|]. intros Hf. cbn. apply Forall_app. split; [done|]. apply Forall_singleton. intros w Hw.
  rewrite (out_any _ _ Hm) in Hw. injection Hw as <-. unfold out_vote in Hm.
  destruct (CM_Payload m); try done. destruct (V_IsQC v0) eqn:E; [done|]. by injection Hm as <-.
Qed.
Lemma sendQc_calm ty h k k' : sendQc vault ty h k = Ret k' → calm k k'.
Proof.
  unfold sendQc. destruct (negb _); [intros [= <-]; calm_by|].
  intros ([bits sig] & _ & H)%bind_Ret. injection H as <-. calm_by.
Qed.
Lemma enterPrevote_calm h view k k' : enterPrevote vault h view k = Ret k' → calm k k'.
Proof.
  unfold enterPrevote. case_match; [intros [= <-]; calm_by|]. intros (k1 & H1 & H2)%bind_Ret. injection H2 as <-.
  assert (Hm : calm k k1).
  { destruct (K_ProposalTS k); [apply bind_Ret in H1 as (t & _ & H1)|]; injection H1 as <-; apply sendVote_calm. }
  eapply calm_trans; [exact Hm|calm_by].
Qed.
Lemma enterPreCommit_calm h view k k' : enterPreCommit vault h view k = Ret k' → calm k k'.
Proof.
  unfold enterPreCommit. destruct (_ || _); [intros [= <-]; calm_by|]. intros (k1 & H & H2)%bind_Ret. injection H2 as <-.
  eapply (calm_trans k k1); [|calm_by]. unfold enterPreCommit_body in H. destruct (SuperMajority _) as [th [|]]; [|injection H as <-; calm_by].
  apply bind_Ret in H as (k2 & H2 & H).
  assert (Hm : calm k k2) by (destruct (isLeader _ _ _); [by eapply sendQc_calm|injection H2 as <-; calm_by]).
  eapply calm_trans; [exact Hm|]. clear Hm H2. apply bind_Ret in H as (t & _ & H). case_match.
  { apply bind_Ret in H as (p & _ & H). apply bind_Ret in H as (? & _ & H). injection H as <-; calm_by. }
  apply bind_Ret in H as ([qc|e] & _ & H); [|injection H as <-; calm_by].
  apply bind_Ret in H as ([db e] & _ & H). destruct e; injection H as <-; [calm_by|].
  eapply (calm_trans _ (with_db k2 db)); [calm_by|apply sendVote_calm].
Qed.
Lemma updateConsensusInfo_calm bits sig k e k' :
  updateConsensusInfoInTesseracts vault bits sig k = Ret (e, k') → calm k k'.
Proof.
  unfold updateConsensusInfoInTesseracts. destruct (FlushEvidence _) as [[eh data]|e0]; [|intros [= <- <-]; calm_by].
  intros (p & _ & (pt & _ & (t & _ & H)%bind_Ret)%bind_Ret)%bind_Ret.
  destruct (TsSignBytes _) as [raw|e1]; [|injection H as <- <-; cbn; destruct (K_ProposalTS k); calm_by].
  apply bind_Ret in H as (sign & _ & H). destruct (sign raw) as [seal [e2|]]; injection H as <- <-;
    cbn; destruct (K_ProposalTS k) eqn:E; cbn; rewrite ?E; calm_by.
Qed.
Lemma finalizeCommit_calm h k k' : finalizeCommit vault tesseractHandler h k = Ret k' → calm k k'.
Proof.
  unfold finalizeCommit. intros H. destruct (negb (areHeightsEqual _ _)); [done|].
  destruct (SuperMajority _) as [th [|]]; [|injection H as <-; calm_by].
  destruct (decide _); [injection H as <-; calm_by|]. destruct (K_Proposal k) as [p|]; [|injection H as <-; calm_by].
  apply bind_Ret in H as (pt & _ & H). destruct (negb _); [injection H as <-; calm_by|].
  destruct (_ || _); [injection H as <-; calm_by|].
  apply bind_Ret in H as (vs & _ & H). apply bind_Ret in H as ([e k1] & Hu & H).
  eapply calm_trans; [by eapply updateConsensusInfo_calm|].
  destruct e as [e|]; [injection H as <-; calm_by|]. apply bind_Ret in H as (t & _ & H).
  destruct (tesseractHandler _); injection H as <-; calm_by.
Qed.
Lemma enterCommit_calm h view k k' : enterCommit vault tesseractHandler h view k = Ret k' → calm k k'.
Proof.
  rewrite enterCommit_Ret. destruct (_ || _); [intros [= <-]; calm_by|]. intros (k1 & H1 & H)%bind_Ret.
  apply finalizeCommit_calm in H. eapply (calm_trans k k1); [|eapply calm_trans; [|exact H]; calm_by].
  unfold enterCommit_body in H1. destruct (SuperMajority _) as [th [|]]; [|done].
  apply bind_Ret in H1 as ([qc|e] & _ & H1); [|injection H1 as <-; calm_by].
  apply bind_Ret in H1 as ([db e] & _ & H1). destruct e; [injection H1 as <-; calm_by|].
  destruct (isLeader _ _ _); [|injection H1 as <-; calm_by].
  apply sendQc_calm in H1. by eapply (calm_trans k (with_db k db)).
Qed.
Lemma enterPropose_calm h view k k' : enterPropose vault h view k = Ret k' → calm k k'.
Proof.
  unfold enterPropose. destruct (_ || _); [intros [= <-]; calm_by|].
  set (k1 := if negb (is_some vault) then k else _). intros H.
  assert (Hm : calm k k1).
  { unfold k1, createProposal. clear H. repeat case_match; try calm_by. split; [done|]. intros Hf. cbn.
    apply Forall_app. split; [done|]. by apply Forall_singleton. }
  eapply calm_trans; [exact Hm|]. destruct (isProposalReceived _); [|injection H as <-; calm_by].
  apply enterPrevote_calm in H. eapply calm_trans; [|exact H]. calm_by.
Qed.
Lemma setProposal_calm p k e k' : setProposal vault p k = Ret (e, k') → calm k k'.
Proof.
  unfold setProposal. destruct (K_Proposal k); [intros [= <- <-]; calm_by|].
  intros (hs & _ & (bad & _ & H)%bind_Ret)%bind_Ret. destruct bad; [injection H as <- <-; calm_by|].
  apply bind_Ret in H as (k3 & H3 & H). injection H as <- <-. set (k2 := if isLeader _ _ _ then _ else _) in H3.
  assert (Hp : calm k k2) by (unfold k2; destruct (isLeader _ _ _); calm_by).
  eapply calm_trans; [exact Hp|]. destruct (_ && _); [|injection H3 as <-; calm_by]. by apply enterPrevote_calm in H3.
Qed.
Lemma afterPrevote_calm v k k' : afterPrevote vault v k = Ret k' → calm k k'.
Proof.
  unfold afterPrevote. intros ([future k1] & H1 & H)%bind_Ret.
  assert (Hm : calm k k1).
  { destruct (_ <? _); [|injection H1 as <- <-; calm_by].
    apply bind_Ret in H1 as ([any ics] & _ & H1). injection H1 as <- <-. calm_by. }
  eapply calm_trans; [exact Hm|]. destruct future; [injection H as <-; calm_by|].
  destruct (_ && _); [|injection H as <-; calm_by]. destruct (SuperMajority _) as [h ok].
  destruct (_ && _); [|injection H as <-; calm_by]. by apply enterPreCommit_calm in H.
Qed.
Lemma afterPrecommit_calm v k k' : afterPrecommit vault tesseractHandler v k = Ret k' → calm k k'.
Proof.
  unfold afterPrecommit. destruct (SuperMajority _) as [h [|]].
  - destruct (decide _); [intros [= <-]; calm_by|]. apply enterCommit_calm.
  - destruct (_ <=? _); [|intros [= <-]; calm_by].
    intros ([any ics] & _ & H)%bind_Ret. injection H as <-. calm_by.
Qed.

Section Counted.
Context (c : ICSCommittee) (q : list Z) (Henv : env_ok c q) (Hthr : ∃ x, x ∈ q ∧ 0 < x).

Definition counted (k : KBFT) : Prop := aggregated c (K_Votes k) ∧ Forall plain_msg (K_self k).
Lemma calm_counted k k' : counted k → calm k k' → counted k'.
Proof. intros [Ha Hf] [E H]. split; [by rewrite E|by apply H]. Qed.

Lemma enterNewView_counted h view k k' : counted k → enterNewView vault h view k = Ret k' → counted k'.
Proof.
  intros Hk. unfold enterNewView. destruct (_ || _); [by intros [= <-]|].
  set (k1 := if negb (view =? 0) then _ else _). intros (votes & Hv & H)%bind_Ret.
  assert (E : K_Votes k1 = K_Votes k ∧ K_self k1 = K_self k) by (unfold k1; destruct (negb _); done).
  destruct E as [E1 E2]. rewrite E1 in Hv. apply enterPropose_calm in H. eapply calm_counted; [|exact H].
  split; cbn; [by eapply SetView_aggregated; [apply Hk|exact Hv]|rewrite E2; apply Hk].
Qed.
Lemma countVote_counted sent v peer k r :
  kinv c q sent k → sent v → V_IsQC v = false → counted k → countVote v peer k = Ret r → counted r.2.
Proof.
  intros Hi Hs Hq [Ha Hf] H. unfold countVote in H. rewrite Hq in H. cbn [andb] in H.
  apply bind_Ret in H as ([[[added e] votes] ics] & Hv & H). injection H as <-.
  apply (AddVote_aggregated c q sent Henv Hthr) in Hv; [|apply Hi|apply Hi|done|done].
  cbn [fst snd] in *. case_match; by split.
Qed.
Lemma addVote_counted sent v peer k r :
  kinv c q sent k → sent v → V_IsQC v = false → counted k →
  addVote vault tesseractHandler v peer k = Ret r → counted r.2.
Proof.
  intros Hi Hs Hq Hk H. unfold addVote in H. destruct (negb _); [by injection H as <-|].
  apply bind_Ret in H as (k1 & H1 & H).
  assert (Hk1 : k1 = k ∨ k1 = with_evidence k (Evidence_AddVote (K_evidence k) v)).
  { destruct (K_ProposalTS k); [|injection H1 as <-; by left]. apply bind_Ret in H1 as (t & _ & H1).
    injection H1 as <-. destruct (decide _); [by left|by right]. }
  assert (Hc1 : kinv c q sent k1 ∧ counted k1).
  { destruct Hk1 as [-> | ->]; [done|]. split; [|exact Hk].
    exact (proj1 (quiet_inv _ _ _ _ _ _ Hi (evidence_quiet _ _ _ _ _ _ Hi))). }
  apply bind_Ret in H as ([[added e] k2] & H2 & H).
  apply (countVote_counted sent) in H2; [|by apply Hc1|done|done|by apply Hc1]. cbn [snd] in H2.
  destruct (_ || _); [by injection H as <-|]. apply bind_Ret in H as (k3 & H3 & H). injection H as <-. cbn [snd].
  destruct (V_Type v); try by injection H3 as <-.
  - eapply calm_counted; [exact H2|by eapply afterPrevote_calm].
  - eapply calm_counted; [exact H2|by eapply afterPrecommit_calm].
Qed.

Lemma kstep_counted sent ev k k' :
  kinv c q sent k → (∀ v, ev_vote ev = Some v → sent v) → (∀ v, v ∈ signed k → sent v) → plain ev →
  counted k → kstep vault tesseractHandler k ev = Ret k' → counted k'.
Proof.
  intros Hi Hin Hself Hp Hk H.
  assert (Hmsg : ∀ msg k1, kinv c q sent k1 → counted k1 → (∀ v, any_vote msg = Some v → sent v ∧ V_IsQC v = false) →
    handleMsg vault tesseractHandler msg k1 = Ret k' → counted k').
  { intros msg k1 Hi1 Hk1 Hv Hm. unfold handleMsg in Hm. unfold any_vote in Hv.
    destruct (CM_Payload msg); try by injection Hm as <-.
    - destruct (Hv _ eq_refl). apply bind_Ret in Hm as ([[a e] k2] & Hb & [= <-]).
      by apply (addVote_counted sent) in Hb.
    - apply bind_Ret in Hm as ([e k2] & Hb & [= <-]). eapply calm_counted; [exact Hk1|by eapply setProposal_calm]. }
  destruct ev as [msg decoded| |ti]; cbn [kstep] in H.
  - apply Hmsg in H; [exact H| |exact Hk|].
    + exact (proj1 (quiet_inv _ _ _ _ _ _ Hi (quiet_heap _ _ _ _ _ (K_heap k ∪ decoded) Hi))).
    + intros v Hv. by split; [apply Hin|apply Hp].
  - destruct (K_self k !! K_selfRead k) as [msg|] eqn:E; [|by injection H as <-].
    apply Hmsg in H; [exact H| |exact Hk|intros v Hv; split].
    + apply (quiet_inv _ _ _ _ k _ Hi). split_and!; try done; apply (ki_cluster _ _ _ _ _ Hi).
    + apply Hself, elem_of_app. left. apply list_elem_of_omap. exists msg. split; [by eapply list_elem_of_lookup_2|done].
    + by apply (proj1 (Forall_lookup _ _) (proj2 Hk) _ _ E).
  - unfold handleTimeout in H. destruct (_ || _); [by injection H as <-|].
    case_match; [|by injection H as <-]. by eapply enterNewView_counted.
Qed.
End Counted.

Lemma krun_counted c q cs k0 evs k :
  engine_start c q cs k0 → Forall plain evs → krun vault tesseractHandler evs k0 = Ret k → counted c k.
Proof.
  intros Hst. pose proof (es_started _ _ _ _ Hst) as [Henv _ _ Hthr].
  revert k. induction evs as [|ev evs IH] using rev_ind; intros k Hp H.
  - injection H as <-. destruct (es_new _ _ _ _ Hst) as (op & chains & votes & evi & db & heap & Hn & ->).
    split; [|by constructor]. unfold NewHeightVoteSet, Reset in Hn. apply bind_Ret in Hn as (hvs1 & H1 & Hn).
    injection Hn as <-. apply (addView_aggregated c) in H1; [exact H1|]. intros view vt vs. unfold getVoteSet. cbn.
    by rewrite lookup_empty.
  - apply Forall_app in Hp as [Hp Hev]. apply Forall_cons in Hev as [Hev _]. rewrite krun_app in H.
    apply bind_Ret in H as (k1 & H1 & H). unfold krun in H. cbn [foldM] in H. apply bind_Ret in H as (k2 & H2 & H).
    injection H as <-. destruct (krun_inv _ _ _ _ _ _ _ _ Hst H1) as [Hi1 _].
    apply (kstep_counted c q Henv Hthr (λ v, v ∈ omap ev_vote (evs ++ [ev]) ∨ v ∈ signed k1)) in H2; [exact H2| | |by right|exact Hev|].
    + eapply kinv_mono; [|exact Hi1]. intros v [Hv|Hv]; [|by right]. left. rewrite omap_app. apply elem_of_app. by left.
    + intros v Hv. left. rewrite omap_app. apply elem_of_app. right. cbn. rewrite Hv. apply list_elem_of_here.
    + by apply IH.
Qed.

(** The engine's state [k1] when a single precommit has just completed a majority
    for its proposal in the current view: [addVote] goes on to [enterCommit]. *)
Lemma addVote_completes k v peer votes ics p t vs :
  V_IsQC v = false → V_Type v = PRECOMMIT → V_View v = K_View k → V_TSHash v = TsHash t →
  AreVoteHeightsEqual (V_Heights v) (K_Heights k) = true →
  HVS_AddVote (K_Votes k) (K_ics k) v peer = Ret (true, None, votes, ics) →
  commits (with_votes k votes ics) t vs p →
  addVote vault tesseractHandler v peer k =
    (k' ← enterCommit vault tesseractHandler (K_Heights k) (K_View k) (with_votes k votes ics); Ret (true, None, k')).
Proof.
  intros Hq Hty Hvw Hh Hhe Hadd [Hvs Hmaj Hnn Hprop Hts Hload]. cbn [K_Votes K_View with_votes] in Hvs.
  unfold addVote. rewrite Hhe. cbn [negb].
  assert (Hl : ∃ l, K_ProposalTS k = Some l).
  { change (K_ProposalTS (with_votes k votes ics)) with (K_ProposalTS k) in Hts. rewrite Hts. unfold load in Hload.
    destruct (Prop_Tesseract p); [by eexists|done]. }
  destruct Hl as [l El]. change (K_ProposalTS (with_votes k votes ics)) with (K_ProposalTS k) in Hts.
  rewrite Hts in El. rewrite Hts, El.
  change (load (with_votes k votes ics)) with (load k) in Hload. rewrite El in Hload. rewrite Hload. cbn [mbind res_bind].
  rewrite decide_True by done. unfold countVote. rewrite Hq. cbn [andb]. rewrite Hadd. cbn [mbind res_bind is_some negb orb].
  rewrite Hty. unfold afterPrecommit. cbn [K_Votes with_votes]. unfold HVS_Precommits. rewrite Hvw, Hvs, Hmaj.
  by rewrite decide_False by done.
Qed.

(** The certificate it has recorded: signatures of validators that reach every
    threshold. *)
Lemma completed_certificate `{!AggregateLaws ET EX} c q cs k0 evs k v peer votes ics p t vs :
  engine_start c q cs k0 → Forall plain evs → krun vault tesseractHandler evs k0 = Ret k →
  HVS_AddVote (K_Votes k) (K_ics k) v peer = Ret (true, None, votes, ics) →
  commits (with_votes k votes ics) t vs p →
  ∃ b sigs, maj23VoteSet vs = Some b ∧ BitsSize b = totalNodes c ∧
    maj23aggSignature vs = (CryptoAggregateSignatures sigs).1 ∧
    Forall2 (signed_for c (K_View k) PRECOMMIT (TsHash t)) (GetTrueIndices b) sigs ∧
    reaches c q (λ i, GetIndex b (Z.of_nat i)).
Proof.
  intros Hst Hp Hrun Hadd [Hvs Hmaj _ _ _ _]. cbn [K_Votes K_View with_votes] in Hvs.
  pose proof (es_started _ _ _ _ Hst) as [Henv _ _ Hthr].
  destruct (krun_inv _ _ _ _ _ _ _ _ Hst Hrun) as [Hi _]. destruct (krun_counted _ _ _ _ _ _ Hst Hp Hrun) as [Ha _].
  apply (kinv_mono _ _ _ (λ w, known evs k w ∨ w = v)) in Hi; [|by left].
  pose proof (AddVote_aggregated c q _ Henv Hthr _ _ v peer _ (ki_votes _ _ _ _ _ Hi) (ki_cluster _ _ _ _ _ Hi)
    (or_intror eq_refl) Ha Hadd) as Ha1.
  destruct (HVS_AddVote_Ret c q _ Henv Hthr _ _ v peer _ _ _ _ (ki_votes _ _ _ _ _ Hi) (ki_cluster _ _ _ _ _ Hi)
    (or_intror eq_refl) Hadd) as (Hok & _ & _).
  destruct (Ha1 _ _ _ Hvs) as [_ Hrec]. destruct (ho_sets _ _ _ _ Hok _ _ _ Hvs) as [_ Hm].
  unfold SuperMajority in Hmaj. unfold maj_ok in Hm.
  destruct (maj23TsHash vs) as [h'|] eqn:Em; [|done]. injection Hmaj as ->.
  destruct (Hrec _ Em) as (b & sigs & Hb & Hbs & Hsig & Hsigs).
  destruct Hm as (b2 & Hb2 & _ & Hreach & _). assert (b2 = b) as -> by congruence. by exists b, sigs.
Qed.

(** C9. The vote that completes a precommit majority produces a certificate that
    everyone accepts: an engine that was given votes one by one, from anybody and
    in any order, and has not committed, finalizes its proposal's tesseract when
    a vote completes a majority for it in the current view; if nobody voted
    otherwise, the commit certificate it seals the tesseract with is accepted by
    every node with the same committee, whose thresholds for the accounts it does
    not exclude are those of the vote sets ([fetched_thresholds_cover]). *)
Theorem finalized_certificate_verifies `{!AggregateLaws ET EX} c q cs k0 evs k v peer votes ics p t vs seal :
  engine_start c q cs k0 → Forall plain evs → krun vault tesseractHandler evs k0 = Ret k →
  V_IsQC v = false → V_Type v = PRECOMMIT → V_View v = K_View k → V_TSHash v = TsHash t →
  AreVoteHeightsEqual (V_Heights v) (K_Heights k) = true → K_Step k < ViewStepCommit →
  HVS_AddVote (K_Votes k) (K_ics k) v peer = Ret (true, None, votes, ics) →
  let k1 := with_votes k votes ics in
  commits k1 t vs p → can_seal vault k1 t vs seal →
  (∃ b, maj23VoteSet vs = Some b ∧ GetTrueIndices (votesBitArray vs) = GetTrueIndices b) →
  ∃ k', addVote vault tesseractHandler v peer k = Ret (true, None, k') ∧
    K_finalized k' = K_finalized k ++ [TsCopy (sealed k1 t vs seal)] ∧
    ∀ addrs excluded rs, size c = zlen addrs + 1 → RandomSet c = Ret (Some rs) → thresholds_cover c q addrs excluded →
      verifyQc VerifyAggregateSignature addrs excluded (K_View k) c (commit_qc k1 t vs) = Ret (true, None).
Proof.
  intros Hst Hp Hrun Hq Hty Hvw Hh Hhe Hstep Hadd k1 Hcm Hseal (b & Hb & Hbits).
  pose proof (es_started _ _ _ _ Hst) as [Henv _ _ Hthr].
  destruct (enterCommit_result vault tesseractHandler (K_Heights k) k1 p t vs seal) as (k' & He & Hf & _);
    [apply areHeightsEqual_refl|done|done|done|].
  exists k'. split; [|split; [exact Hf|]].
  - rewrite (addVote_completes k v peer votes ics p t vs) by done. change (K_View k1) with (K_View k) in He. fold k1. by rewrite He.
  - intros addrs excluded rs Hsz Hrs Hcover.
    destruct (completed_certificate c q cs k0 evs k v peer votes ics p t vs Hst Hp Hrun Hadd Hcm)
      as (b' & sigs & Hb' & Hbs & Hsig & Hsigs & Hreach). assert (b' = b) as -> by congruence.
    pose proof (recorded_verifies c q _ PRECOMMIT _ b sigs addrs excluded rs Henv Hthr Hreach Hsz Hrs Hcover Hbs Hsigs) as Hver.
    rewrite <-Hsig in Hver. rewrite <-Hver. by apply (verifyQc_bits addrs excluded (K_View k) c PRECOMMIT).
Qed.
End Engine.

(** ** Witness: the leader's last precommit *)
#[local] Existing Instances CE CX CE_bits CCanon CT CT_laws MemStore CParts CSafetyCodec CProposalCodec CEvidence.
Definition e_before_run : list kevent := e_prevote ++ [EvSelf] ++ e_round PRECOMMIT [1; 2; 4; 5].
Definition e_before : KBFT := e_state e_before_run e_start.
Definition e_last : Vote := w_vote PRECOMMIT 1 7 6.
Definition e_counted : bool * option err * HeightVoteSet * ClusterState :=
  or_else (false, None, K_Votes e_before, K_ics e_before)
    (HVS_AddVote (K_Votes e_before) (K_ics e_before) e_last "B").
Definition e_after : KBFT := with_votes e_before e_counted.1.2 e_counted.2.
Definition e_last_vs : VoteSet :=
  default (NewVoteSet w_heights 1 PRECOMMIT w_cs) (getVoteSet (K_Votes e_after) 1 PRECOMMIT).

Lemma e_counted_run : HVS_AddVote (K_Votes e_before) (K_ics e_before) e_last "B" =
  Ret (true, None, e_counted.1.2, e_counted.2).
Proof.
  rewrite (or_else_Ret (false, None, K_Votes e_before, K_ics e_before) (HVS_AddVote (K_Votes e_before) (K_ics e_before) e_last "B"))
    by (vm_compute; reflexivity).
  fold e_counted. assert (E : (e_counted.1.1.1, e_counted.1.1.2) = (true, None)) by (vm_compute; reflexivity).
  destruct e_counted as [[[a e] vs] cs]. cbn in *. by injection E as -> ->.
Defined.
Lemma e_after_commits : commits e_after w_tess e_last_vs e_proposal.
Proof.
  split.
  - apply default_Some. vm_compute. reflexivity.
  - vm_compute. reflexivity.
  - vm_compute. discriminate.
  - vm_compute. reflexivity.
  - vm_compute. reflexivity.
  - vm_compute. reflexivity.
Defined.
Lemma e_after_seals : can_seal (Some e_sign) e_after w_tess e_last_vs e_seal.
Proof.
  split.
  - eexists. vm_compute. reflexivity.
  - exists e_sign, [cbyte 7]. split; [reflexivity|]. split; [reflexivity|]. vm_compute. reflexivity.
Defined.

Lemma finalized_certificate_verifies_witness :
  ∃ k', addVote (Some e_sign) e_handler e_last "B" e_before = Ret (true, None, k') ∧
    K_finalized k' = K_finalized e_before ++ [TsCopy (sealed e_after w_tess e_last_vs e_seal)] ∧
    verifyQc VerifyAggregateSignature [(10 : @Address CE)] (λ _, false) (K_View e_before) w_committee
      (commit_qc e_after w_tess e_last_vs) = Ret (true, None).
Proof.
  destruct (finalized_certificate_verifies (Some e_sign) e_handler (AggregateLaws0 := CX_aggregates)
              w_committee w_quorum (e_ics "A") e_start e_before_run e_before e_last "B" e_counted.1.2 e_counted.2
              e_proposal w_tess e_last_vs e_seal) as (k' & Ha & Hf & Hv).
  - apply e_engine_start.
  - repeat (apply Forall_cons; split; [by intros v [= <-]|]). by apply Forall_nil.
  - apply e_state_run. vm_compute. reflexivity.
  - reflexivity.
  - reflexivity.
  - vm_compute. reflexivity.
  - vm_compute. reflexivity.
  - vm_compute. reflexivity.
  - vm_compute. reflexivity.
  - exact e_counted_run.
  - exact e_after_commits.
  - exact e_after_seals.
  - eexists. split; vm_compute; reflexivity.
  - exists k'. split; [exact Ha|]. split; [exact Hf|]. apply (Hv [(10 : @Address CE)] (λ _, false) w_set1).
    + reflexivity.
    + reflexivity.
    + apply w_covers.
Defined.
