(* ===== verification/Tracker.v ===== *)
(** * The tesseract tracker: [tsEventTracker] in [krama_engine.go]

    A validator that finalized a tesseract posts an event with the message to
    broadcast; the same tesseract received from the network posts one without.
    The goroutine cancels the two against each other, and every 300 ms broadcasts
    what is still waiting and has expired. *)

From stdpp Require Import base gmap list fin_maps.
From Stdlib Require Import ZArith Lia.
From S2P Require Import Prelude External.

Section Tracker.
Context `{ET : ExtTypes} {TesseractMsg : Type}.

(** [utils.TSTrackerEvent]; times are numbers. *)
Record TSTrackerEvent := {
  TE_TSHash : Hash;
  TE_Msg : option TesseractMsg;
  TE_ExpiryTime : Z;
}.

(** [k.tsTracker] and the messages handed to [BroadcastTesseract], whose error is
    only logged. *)
Record Tracker := {
  tsTracker : gmap Hash TSTrackerEvent;
  T_broadcast : list (Hash * TesseractMsg);
}.
Definition newTracker : Tracker := {| tsTracker := ∅; T_broadcast := [] |}.

Definition expired (now : Z) (e : TSTrackerEvent) : bool := TE_ExpiryTime e <? now.
(** One iteration of the loop over the map. *)
Definition expireEvent (now : Z) (t : Tracker) (e : TSTrackerEvent) : Tracker :=
  if expired now e then
    {| tsTracker := delete (TE_TSHash e) (tsTracker t);
       T_broadcast := T_broadcast t ++ match TE_Msg e with Some m => [(TE_TSHash e, m)] | None => [] end |}
  else t.

(** What the goroutine receives; an event of another type is skipped. *)
Inductive tracker_event :=
| TrTick (now : Z)
| TrEvent (e : option TSTrackerEvent).

(** Go walks the map in some order; [order] is the list of its values. *)
Definition trackerTick (now : Z) (order : list TSTrackerEvent) (t : Tracker) : Tracker :=
  foldl (expireEvent now) t order.
Definition tsEventTracker (ev : tracker_event) (t : Tracker) : Tracker :=
  match ev with
  | TrTick now => trackerTick now (map_to_list (tsTracker t)).*2 t
  | TrEvent None => t
  | TrEvent (Some e) =>
      match tsTracker t !! TE_TSHash e with
      | Some _ => {| tsTracker := delete (TE_TSHash e) (tsTracker t); T_broadcast := T_broadcast t |}
      | None => {| tsTracker := <[TE_TSHash e := e]> (tsTracker t); T_broadcast := T_broadcast t |}
      end
  end.
Definition tracker_run (evs : list tracker_event) (t : Tracker) : Tracker := foldl (λ t ev, tsEventTracker ev t) t evs.

(** ** One tesseract on its own *)
(** What the tracker promises for a tesseract: at most one event is waiting, and
    the message goes out when it has expired without a second one. *)
Definition waitingStep (h : Hash) (s : option TSTrackerEvent * list TesseractMsg) (ev : tracker_event)
    : option TSTrackerEvent * list TesseractMsg :=
  match ev with
  | TrTick now =>
      match s.1 with
      | Some e => if expired now e then (None, s.2 ++ match TE_Msg e with Some m => [m] | None => [] end) else s
      | None => s
      end
  | TrEvent (Some e) => if decide (TE_TSHash e = h) then (match s.1 with Some _ => None | None => Some e end, s.2) else s
  | TrEvent None => s
  end.

Definition about (h : Hash) (l : list (Hash * TesseractMsg)) : list TesseractMsg := (filter (λ p, p.1 = h) l).*2.
Definition projection (h : Hash) (t : Tracker) : option TSTrackerEvent * list TesseractMsg :=
  (tsTracker t !! h, about h (T_broadcast t)).
(** Every event is kept under its own hash. *)
Definition keyed (t : Tracker) : Prop := ∀ h e, tsTracker t !! h = Some e → TE_TSHash e = h.

Lemma about_app h l1 l2 : about h (l1 ++ l2) = about h l1 ++ about h l2.
Proof. unfold about. by rewrite filter_app, fmap_app. Qed.

Lemma expireEvent_keyed now t e : keyed t → keyed (expireEvent now t e).
Proof.
  intros Hk h e' H. unfold expireEvent in H. destruct (expired now e); [|by apply Hk].
  cbn in H. apply lookup_delete_Some in H as [_ H]. by apply Hk.
Qed.
(** The loop leaves the events it has not reached where they are. *)
Lemma trackerTick_projection now order t h :
  keyed t → NoDup (TE_TSHash <$> order) →
  (∀ e, e ∈ order → tsTracker t !! TE_TSHash e = Some e) →
  keyed (trackerTick now order t) ∧
  projection h (trackerTick now order t)
  = if decide (h ∈ TE_TSHash <$> order) then waitingStep h (projection h t) (TrTick now) else projection h t.
Proof.
  unfold trackerTick. revert t. induction order as [|e order IH]; intros t Hk Hnd Hin.
  { cbn. by rewrite decide_False by (apply not_elem_of_nil). }
  cbn [foldl fmap list_fmap]. apply NoDup_cons in Hnd as [He Hnd].
  destruct (IH (expireEvent now t e)) as [Hk' Hp].
  - by apply expireEvent_keyed.
  - done.
  - intros e' He'. unfold expireEvent. destruct (expired now e); [|apply Hin; by right]. cbn.
    rewrite lookup_delete_ne; [apply Hin; by right|]. intros Heq. apply He. rewrite Heq. by apply list_elem_of_fmap_2.
  - split; [done|]. rewrite Hp. clear Hp Hk' IH. pose proof (Hin e ltac:(left)) as Hte.
    destruct (decide (h = TE_TSHash e)) as [->|Hne].
    + rewrite decide_False by done. rewrite decide_True by left. unfold projection, expireEvent. cbn [waitingStep fst snd].
      rewrite Hte. destruct (expired now e); cbn [tsTracker T_broadcast]; [|by rewrite Hte].
      rewrite lookup_delete_eq, about_app. f_equal. f_equal. destruct (TE_Msg e); [|done].
      unfold about. rewrite filter_cons_True by done. done.
    + assert (Hpe : projection h (expireEvent now t e) = projection h t).
      { unfold projection, expireEvent. destruct (expired now e); [|done]. cbn [tsTracker T_broadcast].
        rewrite lookup_delete_ne, about_app by done. f_equal. destruct (TE_Msg e); [|by rewrite app_nil_r].
        unfold about. rewrite (filter_cons_False _ (_, _)) by (cbn; congruence). by rewrite app_nil_r. }
      rewrite Hpe. destruct (decide (h ∈ TE_TSHash <$> order)) as [H|H].
      * rewrite decide_True by (by right). done.
      * rewrite decide_False; [done|]. by intros [?|?]%elem_of_cons.
Qed.

Lemma tracker_step_projection ev t h :
  keyed t → keyed (tsEventTracker ev t) ∧ projection h (tsEventTracker ev t) = waitingStep h (projection h t) ev.
Proof.
  intros Hk. destruct ev as [now|[e|]]; cbn [tsEventTracker]; [|..|done].
  - assert (Hval : TE_TSHash <$> (map_to_list (tsTracker t)).*2 = (map_to_list (tsTracker t)).*1).
    { rewrite <-list_fmap_compose. apply list_fmap_ext. intros i [h' e] Hl. cbn.
      apply Hk, elem_of_map_to_list. by eapply list_elem_of_lookup_2. }
    destruct (trackerTick_projection now (map_to_list (tsTracker t)).*2 t h) as [Hk' ->].
    + done.
    + rewrite Hval. apply NoDup_fst_map_to_list.
    + intros e He. apply list_elem_of_fmap in He as ([h' e'] & -> & He). apply elem_of_map_to_list in He. cbn.
      by rewrite (Hk _ _ He).
    + split; [done|]. case_decide as Hd; [done|]. rewrite Hval in Hd. unfold projection. cbn.
      destruct (tsTracker t !! h) as [e|] eqn:E; [|done]. exfalso. apply Hd, list_elem_of_fmap.
      exists (h, e). split; [done|]. by apply elem_of_map_to_list.
  - unfold projection. destruct (tsTracker t !! TE_TSHash e) as [e0|] eqn:E; split; cbn [tsTracker T_broadcast waitingStep fst snd].
    + intros h' e' H; cbn in H. apply lookup_delete_Some in H as [_ H]. by apply Hk.
    + case_decide as Hd; [subst h; by rewrite lookup_delete_eq, E|by rewrite lookup_delete_ne].
    + intros h' e' H; cbn in H. apply lookup_insert_Some in H as [[<- <-]|[_ H]]; [done|by apply Hk].
    + case_decide as Hd; [subst h; by rewrite lookup_insert_eq, E|by rewrite lookup_insert_ne].
Qed.

(** C29. The tracker treats every tesseract on its own: whatever events and ticks
    arrive in whatever order, what is waiting for a tesseract and what has been
    broadcast of it is what the two-state machine of that tesseract says: a
    second event cancels a waiting one, and a waiting event that expires sends
    its message, once. *)
Theorem tracker_refines evs h :
  projection h (tracker_run evs newTracker) = foldl (waitingStep h) (None, []) evs.
Proof.
  assert (Hk : keyed newTracker) by (intros h' e; cbn; by rewrite lookup_empty).
  change (None, []) with (projection h newTracker). revert Hk. generalize newTracker.
  induction evs as [|ev evs IH]; intros t Hk; [done|]. cbn.
  destruct (tracker_step_projection ev t h Hk) as [Hk' <-]. by apply IH.
Qed.
End Tracker.
