(* ===== verification/Slots.v ===== *)
(** * Slots and account locks: [types/slots.go]

    The table of running clusters and of the accounts they have locked.  A slot is
    shared by pointer between the table and the handlers, so slots live in a
    heap; a channel is the list of what was sent on it.  The [RWMutex] makes each
    method atomic. *)

From stdpp Require Import base gmap strings list fin_maps.
From Stdlib Require Import ZArith Lia.
From S2P Require Import Prelude External Types NodeSet Committee Cluster.

Inductive SlotType : Set := OperatorSlot | ValidatorSlot.
#[export] Instance SlotType_eq_dec : EqDecision SlotType.
Proof. solve_decision. Defined.

Section Slots.
Context `{ET : ExtTypes} `{!ExtOps ET}.

(** The execution, new-ICS, outbound and stop channels are only used by other
    goroutines and are left out. *)
Record Slot := {
  SL_SlotType : SlotType;
  SL_cs : option ClusterState;
  SL_ps : gmap Address LockType;
  SL_Msgs : list ConsensusMessage;
  SL_BftInbound : list ConsensusMessage;
  SL_BftInboundClosed : bool;
  SL_Stage : Z;
}.
Definition NewSlot (slotType : SlotType) (ps : gmap Address LockType) : Slot :=
  {| SL_SlotType := slotType; SL_cs := None; SL_ps := ps; SL_Msgs := []; SL_BftInbound := [];
     SL_BftInboundClosed := false; SL_Stage := 0 |}.

(** A full channel is served by a goroutine that sends later; a send on a closed
    channel panics. *)
Definition ForwardMsgToKBFTHandler (info : option Slot) (msg : ConsensusMessage) : res (option Slot) :=
  match info with
  | None => Ret None
  | Some s =>
      if SL_BftInboundClosed s then Panic "send on closed channel"
      else Ret (Some {| SL_SlotType := SL_SlotType s; SL_cs := SL_cs s; SL_ps := SL_ps s;
                        SL_Msgs := SL_Msgs s; SL_BftInbound := SL_BftInbound s ++ [msg];
                        SL_BftInboundClosed := false; SL_Stage := SL_Stage s |})
  end.
(** The buffer holds 100 messages; the next one is dropped.  [SL_Msgs] is what
    the buffer holds. *)
Definition ForwardMsgToICSHandler (info : option Slot) (msg : ConsensusMessage) : option Slot :=
  match info with
  | None => None
  | Some s =>
      Some (if zlen (SL_Msgs s) <? 100
            then {| SL_SlotType := SL_SlotType s; SL_cs := SL_cs s; SL_ps := SL_ps s;
                    SL_Msgs := SL_Msgs s ++ [msg]; SL_BftInbound := SL_BftInbound s;
                    SL_BftInboundClosed := SL_BftInboundClosed s; SL_Stage := SL_Stage s |}
            else s)
  end.
Definition Slot_ClusterState (info : option Slot) : res (option ClusterState) :=
  s ← deref info; Ret (SL_cs s).
Definition Slot_ClusterID (info : option Slot) : res ClusterID :=
  s ← deref info; cs ← deref (SL_cs s); Ret (CS_ClusterID cs).
Definition UpdateClusterState (s : Slot) (cs : option ClusterState) : Slot :=
  {| SL_SlotType := SL_SlotType s; SL_cs := cs; SL_ps := SL_ps s; SL_Msgs := SL_Msgs s;
     SL_BftInbound := SL_BftInbound s; SL_BftInboundClosed := SL_BftInboundClosed s;
     SL_Stage := SL_Stage s |}.
Definition closeInbound (s : Slot) : Slot :=
  {| SL_SlotType := SL_SlotType s; SL_cs := SL_cs s; SL_ps := SL_ps s; SL_Msgs := SL_Msgs s;
     SL_BftInbound := SL_BftInbound s; SL_BftInboundClosed := true;
     SL_Stage := SL_Stage s |}.
(** [slot.Stage.CompareAndSwap(old, new)] *)
Definition StageCompareAndSwap (s : Slot) (old new : Z) : bool * Slot :=
  if SL_Stage s =? old
  then (true, {| SL_SlotType := SL_SlotType s; SL_cs := SL_cs s; SL_ps := SL_ps s; SL_Msgs := SL_Msgs s;
                 SL_BftInbound := SL_BftInbound s; SL_BftInboundClosed := SL_BftInboundClosed s;
                 SL_Stage := new |})
  else (false, s).

Record LockInfo := {
  LI_lockType : LockType;
  LI_clusterID : ClusterID;
}.
#[export] Instance LockInfo_eq_dec : EqDecision LockInfo.
Proof. solve_decision. Defined.

Record Slots := {
  slots : gmap ClusterID positive;
  slotHeap : gmap positive Slot;
  availableOperatorSlots : Z;
  availableValidatorSlots : Z;
  activeAccounts : gmap Address (list LockInfo);
}.
Definition NewSlots (operatorSlots validatorSlots : Z) : Slots :=
  {| slots := ∅; slotHeap := ∅; availableOperatorSlots := operatorSlots;
     availableValidatorSlots := validatorSlots; activeAccounts := ∅ |}.
Definition set_active (s : Slots) (m : gmap Address (list LockInfo)) : Slots :=
  {| slots := slots s; slotHeap := slotHeap s; availableOperatorSlots := availableOperatorSlots s;
     availableValidatorSlots := availableValidatorSlots s; activeAccounts := m |}.

(** Go walks [addrs] in any order; the answer is the same for each. *)
Definition conflicts (active required : LockType) : bool :=
  bool_decide (active = MutateLock)
  || bool_decide (active = ReadLock) && bool_decide (required = MutateLock).
Fixpoint anyActive (m : gmap Address (list LockInfo)) (addrs : list (Address * LockType)) : res bool :=
  match addrs with
  | [] => Ret false
  | (addr, requiredLock) :: rest =>
      match m !! addr with
      | None => anyActive m rest
      | Some activeLock =>
          l ← go_index activeLock 0;
          if conflicts (LI_lockType l) requiredLock then Ret true else anyActive m rest
      end
  end.
Definition areAccountsActive (s : Slots) (addrs : gmap Address LockType) : res bool :=
  anyActive (activeAccounts s) (map_to_list addrs).

Definition addLock (m : gmap Address (list LockInfo)) (addr : Address) (lockInfo : LockInfo)
    : gmap Address (list LockInfo) :=
  <[addr := default [] (m !! addr) ++ [lockInfo]]> m.
Definition addActiveAccount (s : Slots) (addr : Address) (lockInfo : LockInfo) : Slots :=
  set_active s (addLock (activeAccounts s) addr lockInfo).

Definition AddActiveAccount (s : Slots) (addr : Address) (lockType : LockType) (clusterID : ClusterID)
    : res (bool * Slots) :=
  active ← areAccountsActive s {[ addr := lockType ]};
  Ret (if active : bool then (false, s)
       else (true, addActiveAccount s addr {| LI_lockType := lockType; LI_clusterID := clusterID |})).

(** The loop of [ClearActiveAccount]: [m] is the length of the local slice
    [infos], whose backing array [arr] is the one the map's slice keeps its own,
    unchanged length on. *)
Fixpoint clearLoop (fuel : nat) (clusterID : ClusterID) (arr : list LockInfo) (m i : nat)
    : list LockInfo :=
  match fuel with
  | O => arr
  | S fuel' =>
      if (m <=? i)%nat then arr
      else match arr !! i, arr !! pred m with
           | Some info, Some lst =>
               if decide (LI_clusterID info ≠ clusterID) then clearLoop fuel' clusterID arr m (S i)
               else clearLoop fuel' clusterID (<[i := lst]> arr) (pred m) (S i)
           | _, _ => arr
           end
  end.
Definition ClearActiveAccount (s : Slots) (addr : Address) (clusterID : ClusterID) : Slots :=
  let infos := default [] (activeAccounts s !! addr) in
  match infos with
  | [] => s
  | [_] => set_active s (delete addr (activeAccounts s))
  | _ => set_active s (<[addr := clearLoop (length infos) clusterID infos (length infos) 0]>
                         (activeAccounts s))
  end.

Definition decrementSlots (slotType : SlotType) (s : Slots) : Slots :=
  {| slots := slots s; slotHeap := slotHeap s;
     availableOperatorSlots := match slotType with
       | OperatorSlot => availableOperatorSlots s - 1 | ValidatorSlot => availableOperatorSlots s end;
     availableValidatorSlots := match slotType with
       | OperatorSlot => availableValidatorSlots s | ValidatorSlot => availableValidatorSlots s - 1 end;
     activeAccounts := activeAccounts s |}.
Definition incrementSlots (slotType : SlotType) (s : Slots) : Slots :=
  {| slots := slots s; slotHeap := slotHeap s;
     availableOperatorSlots := match slotType with
       | OperatorSlot => availableOperatorSlots s + 1 | ValidatorSlot => availableOperatorSlots s end;
     availableValidatorSlots := match slotType with
       | OperatorSlot => availableValidatorSlots s | ValidatorSlot => availableValidatorSlots s + 1 end;
     activeAccounts := activeAccounts s |}.
Definition areSlotsAvailable (s : Slots) (slotType : SlotType) : bool :=
  match slotType with
  | OperatorSlot => 0 <? availableOperatorSlots s
  | ValidatorSlot => 0 <? availableValidatorSlots s
  end.

Definition put_slot (s : Slots) (id : ClusterID) (slot : Slot) : positive * Slots :=
  let l := fresh (dom (slotHeap s)) in
  (l, {| slots := <[id := l]> (slots s); slotHeap := <[l := slot]> (slotHeap s);
         availableOperatorSlots := availableOperatorSlots s;
         availableValidatorSlots := availableValidatorSlots s; activeAccounts := activeAccounts s |}).

Definition CreateSlotAndLockAccounts (s : Slots) (clusterID : ClusterID) (slotType : SlotType)
    (locks : gmap Address LockType) : res (option positive * Slots) :=
  active ← areAccountsActive s locks;
  if active : bool then Ret (None, s)
  else
    let '(l, s1) := put_slot s clusterID (NewSlot slotType locks) in
    let s2 := decrementSlots slotType s1 in
    Ret (Some l, foldl (λ s '(addr, lockType),
                    addActiveAccount s addr {| LI_lockType := lockType; LI_clusterID := clusterID |})
                  s2 (map_to_list locks)).

Definition GetSlot (s : Slots) (id : ClusterID) : option Slot :=
  l ← slots s !! id; slotHeap s !! l.

(** Closing a closed channel panics; every slot is closed at most once, as it
    leaves the table with it. *)
Definition CleanupSlot (s : Slots) (id : ClusterID) : res Slots :=
  match slots s !! id with
  | None => Ret s
  | Some l =>
      slot ← deref (slotHeap s !! l);
      let m := foldl (λ m addr, delete addr m) (activeAccounts s) (map_to_list (SL_ps slot)).*1 in
      if SL_BftInboundClosed slot then Panic "close of closed channel"
      else Ret (incrementSlots (SL_SlotType slot)
             {| slots := delete id (slots s); slotHeap := <[l := closeInbound slot]> (slotHeap s);
                availableOperatorSlots := availableOperatorSlots s;
                availableValidatorSlots := availableValidatorSlots s; activeAccounts := m |})
  end.
End Slots.
