(* ===== verification/SlotsSpec.v ===== *)
(** * What the slot table guarantees: the theorems

    The locks of an account for which only read and mutate locks were asked are
    one writer's or all readers'.  While only writers lock, no cluster ID is used
    twice and a direct lock is only cleared by its owner, slots never share an
    account and the slot counters are exact; the runs at the end show what each of
    these conditions is for. *)

From stdpp Require Import base gmap strings list fin_maps relations.
From Stdlib Require Import ZArith Lia.
From S2P Require Import Prelude External Types NodeSet Committee Cluster Concrete Slots.

Section Theorems.
Context `{ET : ExtTypes} `{!ExtOps ET}.

Definition plain (lt : LockType) : Prop := lt = MutateLock ∨ lt = ReadLock.

(** One writer alone, or only readers. *)
Definition exclusive (l : list LockInfo) : Prop :=
  (∃ i, l = [i] ∧ LI_lockType i = MutateLock) ∨
  l ≠ [] ∧ Forall (λ i, LI_lockType i = ReadLock) l.

Definition table_ok (m : gmap Address (list LockInfo)) : Prop :=
  ∀ a l, m !! a = Some l → exclusive l.

Lemma exclusive_head l : exclusive l → ∃ i rest, l = i :: rest ∧ plain (LI_lockType i).
Proof.
  intros [(i & -> & Hi)|[Hne Hf]]; [exists i, []; split; [done|by left]|].
  destruct l as [|i rest]; [done|]. exists i, rest. split; [done|]. right.
  by apply Forall_cons in Hf as [? _].
Qed.

(** ** The conflict test *)
Definition clashes (m : gmap Address (list LockInfo)) (p : Address * LockType) : Prop :=
  ∃ i rest, m !! p.1 = Some (i :: rest) ∧ conflicts (LI_lockType i) p.2 = true.

Lemma anyActive_spec m addrs :
  table_ok m → ∃ b : bool, anyActive m addrs = Ret b ∧ (b = true ↔ Exists (clashes m) addrs).
Proof.
  intros Hm. induction addrs as [|[addr req] addrs (b & He & Hb)]; cbn [anyActive].
  { exists false. split; [done|]. by rewrite Exists_nil. }
  destruct (m !! addr) as [l|] eqn:E.
  - destruct (exclusive_head l (Hm _ _ E)) as (i & rest & -> & _). cbn [go_index].
    change (go_index (i :: rest) 0) with (@Ret LockInfo i). cbn [mbind res_bind].
    destruct (conflicts (LI_lockType i) req) eqn:Ec.
    + exists true. split; [done|]. split; [|done]. intros _. apply Exists_cons. left. by exists i, rest.
    + exists b. split; [done|]. rewrite Exists_cons, Hb. split; [by right|].
      intros [(j & r & Hj & Hc)|H]; [|done]. cbn in Hj, Hc. rewrite E in Hj. injection Hj as <- <-. congruence.
  - exists b. split; [done|]. rewrite Exists_cons, Hb. split; [by right|].
    intros [(j & r & Hj & _)|H]; [|done]. cbn in Hj. congruence.
Qed.

(** For one account, whatever the other accounts hold. *)
Lemma anyActive_false m addrs a lt l :
  anyActive m addrs = Ret false → (a, lt) ∈ addrs → m !! a = Some l →
  ∃ i rest, l = i :: rest ∧ conflicts (LI_lockType i) lt = false.
Proof.
  induction addrs as [|[a' req] addrs IH]; intros H Hin Hl; [by apply elem_of_nil in Hin|]. cbn [anyActive] in H.
  apply elem_of_cons in Hin as [[= -> ->]|Hin].
  - rewrite Hl in H. apply bind_Ret in H as (i & Hi & H). apply go_index_Ret in Hi as [_ Hi].
    destruct l as [|j rest]; [done|]. injection Hi as ->. exists i, rest. split; [done|].
    by destruct (conflicts _ _).
  - destruct (m !! a') as [l'|]; [|by apply IH]. apply bind_Ret in H as (i & _ & H).
    destruct (conflicts _ _); [done|by apply IH].
Qed.

(** ** Adding locks that do not clash *)
Lemma exclusive_add i rest lt id :
  exclusive (i :: rest) → plain lt → conflicts (LI_lockType i) lt = false →
  exclusive ((i :: rest) ++ [{| LI_lockType := lt; LI_clusterID := id |}]).
Proof.
  intros Hx Hp Hn. unfold conflicts in Hn. apply orb_false_iff in Hn as [H1%bool_decide_eq_false H2].
  destruct Hx as [(j & [= -> ->] & Hj)|[_ Hf]]; [done|].
  apply Forall_cons in Hf as Hi. destruct Hi as [Hi _]. rewrite bool_decide_eq_true_2 in H2 by done. cbn in H2.
  apply bool_decide_eq_false in H2. destruct Hp as [?| ->]; [done|]. right. split; [done|].
  apply Forall_app. split; [done|by apply Forall_singleton].
Qed.
Lemma exclusive_one lt id : plain lt → exclusive [{| LI_lockType := lt; LI_clusterID := id |}].
Proof. intros [->| ->]; [left; eauto|]. right. split; [done|by apply Forall_singleton]. Qed.
Lemma addLock_ok m a lt id :
  table_ok m → plain lt → ¬ clashes m (a, lt) →
  table_ok (addLock m a {| LI_lockType := lt; LI_clusterID := id |}).
Proof.
  intros Hm Hp Hc a' l. unfold addLock. rewrite lookup_insert. case_decide as Ha; [|by apply Hm].
  subst a'. intros [= <-]. destruct (m !! a) as [l|] eqn:E; cbn.
  - destruct (exclusive_head l (Hm _ _ E)) as (i & rest & -> & _).
    apply exclusive_add; [by apply (Hm a)|done|]. destruct (conflicts (LI_lockType i) lt) eqn:Ec; [|done].
    destruct Hc. by exists i, rest.
  - by apply exclusive_one.
Qed.

Lemma addLock_ne m a a' i : a ≠ a' → addLock m a i !! a' = m !! a'.
Proof. intros H. unfold addLock. by rewrite lookup_insert_ne. Qed.

Definition addLocks (m : gmap Address (list LockInfo)) (id : ClusterID) (ps : list (Address * LockType))
    : gmap Address (list LockInfo) :=
  foldl (λ m '(a, lt), addLock m a {| LI_lockType := lt; LI_clusterID := id |}) m ps.

Lemma addLocks_active s id ps :
  foldl (λ s '(addr, lt), addActiveAccount s addr {| LI_lockType := lt; LI_clusterID := id |}) s ps
  = set_active s (addLocks (activeAccounts s) id ps).
Proof.
  revert s. induction ps as [|[a lt] ps IH]; intros s; [by destruct s|]. cbn. by rewrite IH.
Qed.

Lemma addLocks_ok m id ps :
  table_ok m → NoDup ps.*1 → Forall (λ p, plain p.2) ps → ¬ Exists (clashes m) ps →
  table_ok (addLocks m id ps).
Proof.
  revert m. induction ps as [|[a lt] ps IH]; intros m Hm Hnd Hp Hc; [done|].
  cbn in Hnd. apply NoDup_cons in Hnd as [Ha Hnd]. apply Forall_cons in Hp as [Hlt Hp].
  rewrite Exists_cons in Hc. cbn. apply IH; [|done|done|].
  - apply addLock_ok; [done|exact Hlt|tauto].
  - intros Hex. apply Hc. right. apply Exists_exists in Hex as ([a' lt'] & Hin & i & rest & Hl & Hcf).
    apply Exists_exists. exists (a', lt'). split; [done|]. exists i, rest. split; [|done]. cbn in *.
    rewrite addLock_ne in Hl; [done|]. intros ->. apply Ha. apply list_elem_of_fmap. by exists (a', lt').
Qed.

Lemma addLocks_lookup m id ps a :
  NoDup ps.*1 → addLocks m id ps !! a =
    match (list_to_map ps : gmap Address LockType) !! a with
    | Some lt => Some (default [] (m !! a) ++ [{| LI_lockType := lt; LI_clusterID := id |}])
    | None => m !! a
    end.
Proof.
  revert m. induction ps as [|[x lt] ps IH]; intros m Hnd; [done|]. cbn in Hnd. apply NoDup_cons in Hnd as [Hx Hnd].
  change (addLocks m id ((x, lt) :: ps)) with (addLocks (addLock m x {| LI_lockType := lt; LI_clusterID := id |}) id ps).
  rewrite IH by done. cbn [list_to_map foldr uncurry fst snd]. rewrite lookup_insert. case_decide as Hd.
  - subst x. rewrite (not_elem_of_list_to_map_1 ps a) by done. unfold addLock. by rewrite lookup_insert_eq.
  - by rewrite addLock_ne by done.
Qed.

(** ** One account *)
Definition account_ok (m : gmap Address (list LockInfo)) (a : Address) : Prop := ∀ l, m !! a = Some l → exclusive l.

Lemma create_account s id ty locks o s' a :
  account_ok (activeAccounts s) a → (∀ lt, locks !! a = Some lt → plain lt) →
  CreateSlotAndLockAccounts s id ty locks = Ret (o, s') → account_ok (activeAccounts s') a.
Proof.
  intros Ha Hp. unfold CreateSlotAndLockAccounts, areAccountsActive. intros (b & Hany & H)%bind_Ret.
  destruct b; [by injection H as _ <-|]. destruct (put_slot s id (NewSlot ty locks)) as [l s1] eqn:E.
  rewrite addLocks_active in H. injection H as _ <-. unfold put_slot in E. injection E as _ <-.
  intros x. cbn [activeAccounts set_active]. change (activeAccounts (decrementSlots ty _)) with (activeAccounts s).
  rewrite addLocks_lookup by apply NoDup_fst_map_to_list. rewrite list_to_map_to_list.
  destruct (locks !! a) as [lt|] eqn:El; [|apply Ha]. intros [= <-]. specialize (Hp _ eq_refl).
  destruct (activeAccounts s !! a) as [y|] eqn:Ey; cbn [from_option Datatypes.id]; [|by apply exclusive_one].
  destruct (anyActive_false _ _ a lt y Hany) as (i & rest & -> & Hc); [by apply elem_of_map_to_list|done|].
  apply exclusive_add; [by apply Ha|done|done].
Qed.

(** ** Clearing *)
Lemma clearLoop_Forall P fuel id arr m i : Forall P arr → Forall P (clearLoop fuel id arr m i) ∧
  length (clearLoop fuel id arr m i) = length arr.
Proof.
  revert arr m i. induction fuel as [|fuel IH]; intros arr m i Hf; cbn [clearLoop]; [done|].
  destruct (m <=? i)%nat; [done|]. destruct (arr !! i) as [x|] eqn:Ei; [|done].
  destruct (arr !! pred m) as [y|] eqn:Em; [|done]. case_decide; [by apply IH|].
  destruct (IH (<[i:=y]> arr) (pred m) (S i)) as [H1 H2].
  - apply Forall_insert; [done|]. by eapply Forall_lookup_1.
  - by rewrite length_insert in H2.
Qed.

Lemma clearLoop_readers fuel id arr m i :
  arr ≠ [] → Forall (λ i, LI_lockType i = ReadLock) arr → exclusive (clearLoop fuel id arr m i).
Proof.
  intros Hne Hf. right. destruct (clearLoop_Forall _ fuel id arr m i Hf) as [H1 H2].
  split; [|done]. intros Hn. rewrite Hn in H2. by destruct arr.
Qed.

Lemma clear_account s a id a' :
  account_ok (activeAccounts s) a' → account_ok (activeAccounts (ClearActiveAccount s a id)) a'.
Proof.
  intros Hm l'. unfold ClearActiveAccount. destruct (activeAccounts s !! a) as [l|] eqn:E; cbn [from_option Datatypes.id]; [|apply Hm].
  destruct l as [|x [|y l]]; [apply Hm|..].
  - cbn [activeAccounts set_active]. rewrite lookup_delete. case_decide; [done|]. apply Hm.
  - set (infos := x :: y :: l) in *. cbn [activeAccounts set_active]. rewrite lookup_insert. case_decide as Ha; [|by apply Hm].
    intros <-%(inj Some). subst a'. destruct (Hm _ E) as [(j & Hj & _)|[_ Hf]]; [by unfold infos in Hj|].
    by apply clearLoop_readers.
Qed.
Lemma ClearActiveAccount_ok s a id : table_ok (activeAccounts s) → table_ok (activeAccounts (ClearActiveAccount s a id)).
Proof. intros Hm a'. apply clear_account. exact (Hm a'). Qed.
Lemma add_account s a lt id b s' a' :
  account_ok (activeAccounts s) a' → (a' = a → plain lt) → AddActiveAccount s a lt id = Ret (b, s') →
  account_ok (activeAccounts s') a'.
Proof.
  intros Ha Hp. unfold AddActiveAccount, areAccountsActive. rewrite map_to_list_singleton. intros (act & Hany & H)%bind_Ret.
  destruct act; injection H as _ <-; [done|]. intros l. cbn [activeAccounts addActiveAccount set_active]. unfold addLock.
  rewrite lookup_insert. case_decide as Hd; [|apply Ha]. subst a'. intros [= <-]. specialize (Hp eq_refl).
  destruct (activeAccounts s !! a) as [y|] eqn:Ey; cbn [from_option Datatypes.id]; [|by apply exclusive_one].
  destruct (anyActive_false _ _ a lt y Hany) as (i & rest & -> & Hc); [by left|done|].
  apply exclusive_add; [by apply Ha|done|done].
Qed.
Lemma cleanup_account s id s' a :
  account_ok (activeAccounts s) a → CleanupSlot s id = Ret s' → account_ok (activeAccounts s') a.
Proof.
  intros Ha. unfold CleanupSlot. destruct (slots s !! id) as [l|]; [|by intros [= <-]].
  intros (slot & _ & H)%bind_Ret. destruct (SL_BftInboundClosed slot); [done|]. injection H as <-. intros x.
  assert (E : ∀ s0, activeAccounts (incrementSlots (SL_SlotType slot) s0) = activeAccounts s0) by (by destruct (SL_SlotType slot)).
  rewrite E. cbn [activeAccounts]. set (addrs := (map_to_list (SL_ps slot)).*1). generalize addrs (activeAccounts s) Ha. clear.
  intros addrs. induction addrs as [|y addrs IH]; intros m Ha; cbn; [apply Ha|]. apply IH. intros l.
  rewrite lookup_delete. case_decide; [done|apply Ha].
Qed.

(** ** The slots of the table *)
Record slots_ok (s : Slots) : Prop := {
  sk_table : table_ok (activeAccounts s);
  sk_heap : ∀ id l, slots s !! id = Some l →
    ∃ slot, slotHeap s !! l = Some slot ∧ SL_BftInboundClosed slot = false;
  sk_inj : ∀ id id' l, slots s !! id = Some l → slots s !! id' = Some l → id = id';
}.

Inductive slot_op :=
| OpCreate (id : ClusterID) (ty : SlotType) (locks : gmap Address LockType)
| OpCleanup (id : ClusterID)
| OpAdd (a : Address) (lt : LockType) (id : ClusterID)
| OpClear (a : Address) (id : ClusterID).
Definition slot_step (s : Slots) (op : slot_op) : res Slots :=
  match op with
  | OpCreate id ty locks => '(_, s') ← CreateSlotAndLockAccounts s id ty locks; Ret s'
  | OpCleanup id => CleanupSlot s id
  | OpAdd a lt id => '(_, s') ← AddActiveAccount s a lt id; Ret s'
  | OpClear a id => Ret (ClearActiveAccount s a id)
  end.
Definition slots_run (ops : list slot_op) (s : Slots) : res Slots := foldM slot_step ops s.
Definition plain_op (op : slot_op) : Prop :=
  match op with
  | OpCreate _ _ locks => ∀ a lt, locks !! a = Some lt → plain lt
  | OpAdd _ lt _ => plain lt
  | _ => True
  end.

Lemma put_slot_ok s id slot :
  slots_ok s → SL_BftInboundClosed slot = false → slots_ok (put_slot s id slot).2 ∧
  slotHeap s !! (put_slot s id slot).1 = None.
Proof.
  intros [Ht Hh Hi] Hc. unfold put_slot. cbn [fst snd]. set (l := fresh (dom (slotHeap s))).
  assert (Hl : slotHeap s !! l = None) by (apply not_elem_of_dom, is_fresh).
  split; [|done]. split; cbn; [done| |].
  - intros id' l'. rewrite lookup_insert. case_decide as Hd.
    + intros [= <-]. exists slot. by rewrite lookup_insert_eq.
    + intros Hs. destruct (Hh _ _ Hs) as (sl & Hsl & ?). exists sl. rewrite lookup_insert_ne; [done|congruence].
  - intros id1 id2 l'. rewrite !lookup_insert. repeat case_decide; try congruence.
    + intros [= <-] Hs. destruct (Hh _ _ Hs) as (? & ? & _). congruence.
    + intros Hs [= <-]. destruct (Hh _ _ Hs) as (? & ? & _). congruence.
    + apply Hi.
Qed.

Lemma create_spec s id ty locks :
  slots_ok s → ∃ b : bool, areAccountsActive s locks = Ret b ∧
    (b = true ↔ Exists (clashes (activeAccounts s)) (map_to_list locks)) ∧
    CreateSlotAndLockAccounts s id ty locks =
    Ret (if b then (None, s)
         else (Some (put_slot s id (NewSlot ty locks)).1,
               set_active (decrementSlots ty (put_slot s id (NewSlot ty locks)).2)
                 (addLocks (activeAccounts s) id (map_to_list locks)))).
Proof.
  intros Hs. destruct (anyActive_spec (activeAccounts s) (map_to_list locks) (sk_table _ Hs)) as (b & He & Hb).
  exists b. split; [exact He|]. split; [exact Hb|]. unfold CreateSlotAndLockAccounts.
  unfold areAccountsActive. rewrite He. cbn [mbind res_bind]. destruct b; [done|].
  destruct (put_slot s id (NewSlot ty locks)) as [l s1] eqn:Ep. cbn [fst snd].
  rewrite addLocks_active. unfold put_slot in Ep. injection Ep as <- <-. done.
Qed.

Lemma set_active_ok s m : slots_ok s → table_ok m → slots_ok (set_active s m).
Proof. intros [? ? ?] ?. by split. Qed.

Lemma decrement_ok s ty : slots_ok s → slots_ok (decrementSlots ty s).
Proof. intros [? ? ?]. by split. Qed.

Lemma deleteAll_lookup {V} (m : gmap Address V) addrs a :
  foldl (λ m addr, delete addr m) m addrs !! a = if decide (a ∈ addrs) then None else m !! a.
Proof.
  revert m. induction addrs as [|x addrs IH]; intros m; cbn; [done|]. rewrite IH.
  destruct (decide (a = x)) as [->|Hne].
  - rewrite lookup_delete_eq. rewrite (decide_True (P := x ∈ x :: addrs)) by apply list_elem_of_here.
    by case_decide.
  - rewrite lookup_delete_ne by done. repeat case_decide; set_solver.
Qed.

Lemma cleanup_spec s id :
  slots_ok s → CleanupSlot s id = Ret s ∧ slots s !! id = None ∨
  ∃ l slot, slots s !! id = Some l ∧ slotHeap s !! l = Some slot ∧
    CleanupSlot s id = Ret (incrementSlots (SL_SlotType slot)
      {| slots := delete id (slots s); slotHeap := <[l := closeInbound slot]> (slotHeap s);
         availableOperatorSlots := availableOperatorSlots s;
         availableValidatorSlots := availableValidatorSlots s;
         activeAccounts := foldl (λ m addr, delete addr m) (activeAccounts s)
                             (map_to_list (SL_ps slot)).*1 |}).
Proof.
  intros [Ht Hh Hi]. unfold CleanupSlot. destruct (slots s !! id) as [l|] eqn:E; [right|by left].
  destruct (Hh _ _ E) as (slot & Hsl & Hc). exists l, slot. rewrite Hsl. cbn [deref mbind res_bind].
  by rewrite Hc.
Qed.

Lemma cleanup_ok s id s' : slots_ok s → CleanupSlot s id = Ret s' → slots_ok s'.
Proof.
  intros Hs H. destruct (cleanup_spec s id Hs) as [[He _]|(l & slot & Hl & Hsl & He)];
    rewrite H in He; injection He as ->; [done|].
  destruct Hs as [Ht Hh Hi]. split.
  - assert (Ht' : table_ok (foldl (λ m addr, delete addr m) (activeAccounts s) (map_to_list (SL_ps slot)).*1)).
    { intros a x. rewrite deleteAll_lookup. case_decide; [done|]. apply Ht. }
    by destruct (SL_SlotType slot).
  - intros id' l'. assert (Hne : delete id (slots s) !! id' = Some l' →
      ∃ sl, <[l:=closeInbound slot]> (slotHeap s) !! l' = Some sl ∧ SL_BftInboundClosed sl = false).
    { rewrite lookup_delete_Some. intros [Hne H']. destruct (Hh _ _ H') as (sl & ? & ?). exists sl.
      rewrite lookup_insert_ne; [done|]. intros <-. apply Hne. by eapply Hi. }
    by destruct (SL_SlotType slot).
  - intros id1 id2 l'. assert (Hj : delete id (slots s) !! id1 = Some l' → delete id (slots s) !! id2 = Some l' → id1 = id2).
    { rewrite !lookup_delete_Some. intros [_ H1] [_ H2]. by eapply Hi. }
    by destruct (SL_SlotType slot).
Qed.

Lemma AddActiveAccount_ok s a lt id :
  table_ok (activeAccounts s) → plain lt →
  ∃ b s', AddActiveAccount s a lt id = Ret (b, s') ∧ table_ok (activeAccounts s') ∧
    (s' = s ∨ ∃ m, s' = set_active s m).
Proof.
  intros Ht Hp. unfold AddActiveAccount, areAccountsActive.
  destruct (anyActive_spec (activeAccounts s) (map_to_list {[ a := lt ]}) Ht) as (b & -> & Hb).
  cbn [mbind res_bind]. destruct b; (eexists _, _; split; [done|]); [by split; [|left]|].
  split; [|right; by eexists]. apply addLock_ok; [done|done|]. intros Hc.
  assert (false = true); [|done]. apply Hb. rewrite map_to_list_singleton. by apply Exists_cons; left.
Qed.
Lemma slot_step_ok s op : slots_ok s → plain_op op → ∃ s', slot_step s op = Ret s' ∧ slots_ok s'.
Proof.
  intros Hs Hp. destruct op as [id ty locks|id|a lt id|a id]; cbn [slot_step].
  - destruct (create_spec s id ty locks Hs) as (b & _ & Hb & ->). cbn [mbind res_bind].
    destruct b; [by exists s|]. eexists. split; [done|]. apply set_active_ok.
    + apply decrement_ok. by apply put_slot_ok.
    + apply addLocks_ok; [apply Hs|apply NoDup_fst_map_to_list| |].
      * apply Forall_forall. intros [a lt] Hin%elem_of_map_to_list. by apply (Hp a).
      * intros H%Hb. done.
  - destruct (cleanup_spec s id Hs) as [[He _]|(l & slot & _ & _ & He)]; rewrite He; eexists; (split; [done|]);
      by eapply cleanup_ok.
  - destruct (AddActiveAccount_ok s a lt id (sk_table _ Hs) Hp) as (b & s' & -> & Ht & Hc). exists s'. split; [done|].
    destruct Hc as [-> | [m ->]]; [done|by apply set_active_ok].
  - eexists. split; [done|]. pose proof (ClearActiveAccount_ok s a id (sk_table _ Hs)) as Ht.
    revert Ht. unfold ClearActiveAccount. destruct (default [] _) as [|? [|? ?]]; [done|..];
      intros Ht; by apply set_active_ok.
Qed.

Lemma NewSlots_ok n m : slots_ok (NewSlots n m).
Proof. split; cbn; [intros a l|intros id l|intros id id' l]; by rewrite lookup_empty. Qed.

(** The lock table never mixes writers and readers: after any sequence of slot
    creations and clean-ups and of direct lock and clear calls, with read and
    mutate locks, no call has panicked and the locks recorded for an account are
    one mutate lock or a non-empty list of read locks. *)
Theorem account_locks_exclusive n m ops :
  Forall plain_op ops → ∃ s, slots_run ops (NewSlots n m) = Ret s ∧
    ∀ a l, activeAccounts s !! a = Some l → exclusive l.
Proof.
  intros Hf. assert (H : ∃ s, slots_run ops (NewSlots n m) = Ret s ∧ slots_ok s).
  { generalize (NewSlots_ok n m). generalize (NewSlots n m).
    induction Hf as [|op ops Hop Hf IH]; intros s Hs; [by exists s|].
    destruct (slot_step_ok s op Hs Hop) as (s1 & H1 & Hs1). destruct (IH s1 Hs1) as (s2 & H2 & Hs2).
    exists s2. split; [|done]. unfold slots_run in *. cbn [foldM]. by rewrite H1. }
  destruct H as (s & Hr & Hs). exists s. split; [done|]. apply (sk_table _ Hs).
Qed.

(** ** Writers only

    The histories in which only mutate locks are asked for, a slot is created under
    a cluster ID that is not in the table, and an account is cleared only by
    whoever locked it directly; [D] is what is locked directly. *)
Inductive writers_run (n m : Z) : gset Address → Slots → Prop :=
| wr_new : writers_run n m ∅ (NewSlots n m)
| wr_create D s id ty locks o s' :
    writers_run n m D s → slots s !! id = None → (∀ a lt, locks !! a = Some lt → lt = MutateLock) →
    CreateSlotAndLockAccounts s id ty locks = Ret (o, s') → writers_run n m D s'
| wr_cleanup D s id s' : writers_run n m D s → CleanupSlot s id = Ret s' → writers_run n m D s'
| wr_add D s a id (added : bool) s' :
    writers_run n m D s → AddActiveAccount s a MutateLock id = Ret (added, s') →
    writers_run n m (if added then {[a]} ∪ D else D) s'
| wr_clear D s a id :
    writers_run n m D s → a ∈ D → writers_run n m (D ∖ {[a]}) (ClearActiveAccount s a id).

(** The types of the slots in the table, and how many are of one type. *)
Definition slot_types (s : Slots) : gmap ClusterID SlotType :=
  omap (λ l, SL_SlotType <$> slotHeap s !! l) (slots s).
Definition slot_count (s : Slots) (ty : SlotType) : Z :=
  Z.of_nat (base.size (filter (λ p, p.2 = ty) (slot_types s))).

Lemma slot_types_lookup s id : slot_types s !! id = SL_SlotType <$> GetSlot s id.
Proof. unfold slot_types, GetSlot. rewrite lookup_omap. by destruct (slots s !! id). Qed.

Lemma count_insert (T : gmap ClusterID SlotType) id ty ty' :
  T !! id = None →
  base.size (filter (λ p, p.2 = ty') (<[id := ty]> T))
  = ((if decide (ty = ty') then 1 else 0) + base.size (filter (λ p, p.2 = ty') T))%nat.
Proof.
  intros Hn. case_decide as Hd.
  - rewrite map_filter_insert_True by done. rewrite map_size_insert_None; [done|].
    rewrite map_lookup_filter_None. by left.
  - rewrite map_filter_insert_False by done. by rewrite delete_id by done.
Qed.

Lemma count_delete (T : gmap ClusterID SlotType) id ty ty' :
  T !! id = Some ty →
  base.size (filter (λ p, p.2 = ty') T)
  = ((if decide (ty = ty') then 1 else 0) + base.size (filter (λ p, p.2 = ty') (delete id T)))%nat.
Proof.
  intros Hs. rewrite <-(count_insert (delete id T) id ty ty') by apply lookup_delete_eq.
  by rewrite insert_delete_id.
Qed.

Definition writer (id : ClusterID) : LockInfo := {| LI_lockType := MutateLock; LI_clusterID := id |}.

Record writers_ok (n m : Z) (D : gset Address) (s : Slots) : Prop := {
  wk_slots : slots_ok s;
  wk_held : ∀ a l, activeAccounts s !! a = Some l → ∃ id, l = [writer id] ∧
    (a ∈ D ∨ ∃ slot, GetSlot s id = Some slot ∧ SL_ps slot !! a = Some MutateLock);
  wk_locked : ∀ id slot a lt, GetSlot s id = Some slot → SL_ps slot !! a = Some lt →
    activeAccounts s !! a = Some [writer id] ∧ a ∉ D;
  wk_direct : ∀ a, a ∈ D → is_Some (activeAccounts s !! a);
  wk_op : availableOperatorSlots s + slot_count s OperatorSlot = n;
  wk_val : availableValidatorSlots s + slot_count s ValidatorSlot = m;
}.

Lemma addLocks_writers m id ps a :
  NoDup ps.*1 → (∀ p, p ∈ ps → p.2 = MutateLock ∧ m !! p.1 = None) →
  addLocks m id ps !! a = if decide (a ∈ ps.*1) then Some [writer id] else m !! a.
Proof.
  revert m. induction ps as [|[x lt] ps IH]; intros m Hnd Hps; [done|].
  cbn in Hnd. apply NoDup_cons in Hnd as [Hx Hnd].
  destruct (Hps (x, lt)) as [Hlt Hn]; [apply list_elem_of_here|]. cbn in Hlt, Hn. subst lt.
  change (addLocks m id ((x, MutateLock) :: ps)) with (addLocks (addLock m x (writer id)) id ps).
  rewrite IH; [|done|].
  - cbn [fmap list_fmap fst]. destruct (decide (a = x)) as [->|Hne].
    + rewrite (decide_False (P := x ∈ ps.*1)) by done.
      rewrite (decide_True (P := x ∈ x :: ps.*1)) by apply list_elem_of_here.
      unfold addLock. by rewrite lookup_insert_eq, Hn.
    + rewrite addLock_ne by done. repeat case_decide; set_solver.
  - intros [y lt] Hin. destruct (Hps (y, lt)) as [H1 H2]; [by apply list_elem_of_further|].
    split; [done|]. cbn in *. rewrite addLock_ne; [done|]. intros ->. apply Hx.
    apply list_elem_of_fmap. by exists (y, lt).
Qed.

Lemma GetSlot_create s id slot m ty id' :
  slots_ok s →
  GetSlot (set_active (decrementSlots ty (put_slot s id slot).2) m) id' =
  if decide (id' = id) then Some slot else GetSlot s id'.
Proof.
  intros [_ Hh _]. unfold GetSlot, put_slot. cbn. case_decide as Hd.
  - subst. rewrite lookup_insert_eq. cbn. by rewrite lookup_insert_eq.
  - rewrite lookup_insert_ne by done. destruct (slots s !! id') as [l|] eqn:E; [|done]. cbn.
    destruct (Hh _ _ E) as (sl & Hsl & _). rewrite lookup_insert_ne; [done|].
    intros <-. apply elem_of_dom_2 in Hsl. by apply is_fresh in Hsl.
Qed.

Lemma create_writers n m D s id ty locks o s' :
  writers_ok n m D s → slots s !! id = None → (∀ a lt, locks !! a = Some lt → lt = MutateLock) →
  CreateSlotAndLockAccounts s id ty locks = Ret (o, s') → writers_ok n m D s'.
Proof.
  intros [Hs Hheld Hlocked Hdir Hop Hval] Hid Hlocks H.
  destruct (create_spec s id ty locks Hs) as (b & _ & Hb & He). rewrite He in H.
  destruct b; [by injection H as _ <-|]. injection H as _ <-.
  set (ps := map_to_list locks) in *. set (s2 := set_active _ _).
  assert (Hfree : ∀ p, p ∈ ps → p.2 = MutateLock ∧ activeAccounts s !! p.1 = None).
  { intros [a lt] Hin. pose proof Hin as Hl%elem_of_map_to_list. split; [by eapply Hlocks|].
    cbn. destruct (activeAccounts s !! a) as [l|] eqn:E; [|done].
    destruct (Hheld _ _ E) as (id' & -> & _). assert (false = true); [|done].
    apply Hb, Exists_exists. exists (a, lt). split; [done|]. by exists (writer id'), []. }
  assert (Hact : ∀ a, activeAccounts s2 !! a = if decide (a ∈ ps.*1) then Some [writer id] else activeAccounts s !! a).
  { intros a. apply addLocks_writers; [apply NoDup_fst_map_to_list|done]. }
  assert (Hin : ∀ a, a ∈ ps.*1 ↔ locks !! a = Some MutateLock).
  { intros a. rewrite list_elem_of_fmap. split.
    - intros ([a' lt] & -> & Hl%elem_of_map_to_list). cbn. rewrite Hl. f_equal. by eapply Hlocks.
    - intros Hl. exists (a, MutateLock). split; [done|]. by apply elem_of_map_to_list. }
  pose proof (λ id', GetSlot_create s id (NewSlot ty locks) (addLocks (activeAccounts s) id ps) ty id' Hs) as Hget.
  fold s2 in Hget.
  assert (Hnone : GetSlot s id = None) by (unfold GetSlot; by rewrite Hid).
  assert (Hty : slot_types s2 = <[id := ty]> (slot_types s)).
  { apply map_eq. intros id'. rewrite slot_types_lookup, Hget, lookup_insert, slot_types_lookup.
    repeat case_decide; by subst. }
  assert (Hcount : ∀ ty', slot_count s2 ty' = (if decide (ty = ty') then 1 else 0) + slot_count s ty').
  { intros ty'. unfold slot_count. rewrite Hty, count_insert by (by rewrite slot_types_lookup, Hnone).
    case_decide; lia. }
  split.
  - apply set_active_ok; [by apply decrement_ok, put_slot_ok|]. intros a l Hl. change (activeAccounts s2 !! a = Some l) in Hl.
    rewrite Hact in Hl. case_decide; [|by apply (sk_table _ Hs a)]. injection Hl as <-. left. by exists (writer id).
  - intros a l Hl. rewrite Hact in Hl. case_decide as Ha.
    + injection Hl as <-. exists id. split; [done|]. right. exists (NewSlot ty locks). rewrite Hget, decide_True by done.
      split; [done|]. by apply Hin.
    + destruct (Hheld a l Hl) as (id' & -> & [HD|(slot & Hg & Hp)]); exists id'; (split; [done|]); [by left|right].
      exists slot. rewrite Hget, decide_False; [done|]. intros ->. congruence.
  - intros id' slot a lt Hg Hp. rewrite Hget in Hg. rewrite Hact. case_decide as Hd.
    + injection Hg as <-. subst id'. assert (Ha : a ∈ ps.*1) by (apply Hin; cbn in Hp; by rewrite <-(Hlocks _ _ Hp)).
      rewrite decide_True by done. split; [done|]. intros HD. apply Hdir in HD as [l Hl].
      apply list_elem_of_fmap in Ha as (p & -> & Hp'). destruct (Hfree p Hp') as [_ Hn]. congruence.
    + rewrite decide_False; [by eapply Hlocked|]. intros Ha.
      apply list_elem_of_fmap in Ha as (p & -> & Hp'). destruct (Hfree p Hp') as [_ Hn].
      destruct (Hlocked _ _ _ _ Hg Hp). congruence.
  - intros a HD. rewrite Hact. case_decide; [by eexists|by apply Hdir].
  - rewrite Hcount. destruct ty; case_decide; try done; cbn; lia.
  - rewrite Hcount. destruct ty; case_decide; try done; cbn; lia.
Qed.

Lemma cleanup_writers n m D s id s' : writers_ok n m D s → CleanupSlot s id = Ret s' → writers_ok n m D s'.
Proof.
  intros [Hs Hheld Hlocked Hdir Hop Hval] H. pose proof (cleanup_ok s id s' Hs H) as Hs'.
  destruct (cleanup_spec s id Hs) as [[He _]|(l & slot & Hl & Hsl & He)];
    rewrite H in He; injection He as ->; [done|].
  set (s1 := {| slots := _ |}) in *. set (ty := SL_SlotType slot) in *.
  assert (Hgid : GetSlot s id = Some slot) by (unfold GetSlot; by rewrite Hl).
  assert (Hget : ∀ id', GetSlot (incrementSlots ty s1) id' = if decide (id' = id) then None else GetSlot s id').
  { intros id'. unfold GetSlot. cbn. case_decide as Hd; [subst; by rewrite lookup_delete_eq|].
    rewrite lookup_delete_ne by done. destruct (slots s !! id') as [l'|] eqn:E; [|done]. cbn.
    rewrite lookup_insert_ne; [done|]. intros <-. apply Hd. by eapply (sk_inj _ Hs). }
  assert (Hact : ∀ a, activeAccounts (incrementSlots ty s1) !! a =
    if decide (is_Some (SL_ps slot !! a)) then None else activeAccounts s !! a).
  { intros a. cbn. rewrite deleteAll_lookup. apply decide_ext. rewrite list_elem_of_fmap. split.
    - intros ([a' lt] & -> & Hin%elem_of_map_to_list). by eexists.
    - intros [lt Hlt]. exists (a, lt). split; [done|]. by apply elem_of_map_to_list. }
  assert (Hty : slot_types (incrementSlots ty s1) = delete id (slot_types s)).
  { apply map_eq. intros id'. rewrite slot_types_lookup, Hget, lookup_delete, slot_types_lookup.
    repeat case_decide; by subst. }
  assert (Hcount : ∀ ty', slot_count s ty' = (if decide (ty = ty') then 1 else 0) + slot_count (incrementSlots ty s1) ty').
  { intros ty'. unfold slot_count. rewrite Hty, (count_delete (slot_types s) id ty ty')
      by (by rewrite slot_types_lookup, Hgid). case_decide; lia. }
  split; [done|..].
  - intros a x. rewrite Hact. case_decide as Hd; [done|]. intros Hx.
    destruct (Hheld a x Hx) as (id' & -> & [HD|(sl & Hg & Hp)]); exists id'; (split; [done|]); [by left|right].
    exists sl. rewrite Hget, decide_False; [done|]. intros ->. rewrite Hgid in Hg. injection Hg as <-. apply Hd. by eexists.
  - intros id' sl a lt Hg Hp. rewrite Hget in Hg. case_decide as Hd; [done|]. rewrite Hact.
    destruct (Hlocked _ _ _ _ Hg Hp) as [Ha HD]. rewrite decide_False; [done|]. intros [lt' Hlt'].
    destruct (Hlocked _ _ _ _ Hgid Hlt') as [Hb _]. rewrite Ha in Hb. by injection Hb.
  - intros a HD. rewrite Hact, decide_False; [by apply Hdir|]. intros [lt Hlt]. by destruct (Hlocked _ _ _ _ Hgid Hlt).
  - rewrite Hcount in Hop. revert Hop. destruct ty; case_decide; try done; cbn; lia.
  - rewrite Hcount in Hval. revert Hval. destruct ty; case_decide; try done; cbn; lia.
Qed.

(** Direct locks and their release. *)
Lemma set_active_get s m id : GetSlot (set_active s m) id = GetSlot s id.
Proof. done. Qed.
Lemma set_active_count s m ty : slot_count (set_active s m) ty = slot_count s ty.
Proof. done. Qed.
Lemma add_writers n m D s a id (added : bool) s' :
  writers_ok n m D s → AddActiveAccount s a MutateLock id = Ret (added, s') →
  writers_ok n m (if added then {[a]} ∪ D else D) s'.
Proof.
  intros [Hs Hheld Hlocked Hdir Hop Hval] H.
  destruct (AddActiveAccount_ok s a MutateLock id (sk_table _ Hs)) as (b & s2 & H2 & Ht & _); [by left|].
  rewrite H in H2. injection H2 as <- <-. unfold AddActiveAccount, areAccountsActive in H.
  rewrite map_to_list_singleton in H. apply bind_Ret in H as (act & Hany & H).
  destruct act; injection H as <- <-; [done|].
  assert (Hn : activeAccounts s !! a = None).
  { destruct (activeAccounts s !! a) as [l|] eqn:E; [|done]. destruct (Hheld _ _ E) as (id' & -> & _).
    destruct (anyActive_false _ _ a MutateLock [writer id'] Hany) as (i & rest & [= <- _] & Hc); [by left|done|done]. }
  assert (Hact : ∀ a', activeAccounts (addActiveAccount s a (writer id)) !! a'
                       = if decide (a' = a) then Some [writer id] else activeAccounts s !! a').
  { intros a'. cbn. unfold addLock. rewrite Hn. rewrite lookup_insert. repeat case_decide; by subst. }
  split; [by apply set_active_ok|..].
  - intros a' l. rewrite Hact. case_decide as Hd.
    + intros [= <-]. exists id. split; [done|]. left. set_solver.
    + intros Hl. destruct (Hheld _ _ Hl) as (id' & -> & [?|?]); exists id'; (split; [done|]); [left; set_solver|by right].
  - intros id' slot a' lt Hg Hp. rewrite Hact. destruct (Hlocked _ _ _ _ Hg Hp) as [Hl HD].
    rewrite decide_False by congruence. split; [done|]. intros [->%elem_of_singleton|?]%elem_of_union; congruence.
  - intros a' Ha. rewrite Hact. case_decide; [by eexists|]. apply Hdir. set_solver.
  - exact Hop.
  - exact Hval.
Qed.
Lemma clear_writers n m D s a id :
  writers_ok n m D s → a ∈ D → writers_ok n m (D ∖ {[a]}) (ClearActiveAccount s a id).
Proof.
  intros [Hs Hheld Hlocked Hdir Hop Hval] Ha. pose proof (ClearActiveAccount_ok s a id (sk_table _ Hs)) as Ht.
  destruct (Hdir a Ha) as [l Hl]. destruct (Hheld _ _ Hl) as (id0 & -> & _).
  unfold ClearActiveAccount in *. rewrite Hl in Ht |- *. cbn [from_option Datatypes.id] in *.
  split; [by apply set_active_ok|..]; cbn [activeAccounts set_active].
  - intros a' l'. rewrite lookup_delete_Some. intros [Hne Hl']. destruct (Hheld _ _ Hl') as (id' & -> & [?|?]);
      exists id'; (split; [done|]); [left; set_solver|by right].
  - intros id' slot a' lt Hg Hp. destruct (Hlocked _ _ _ _ Hg Hp) as [Hl' HD]. split; [|set_solver].
    apply lookup_delete_Some. split; [|done]. congruence.
  - intros a' [Ha' Hne]%elem_of_difference. rewrite lookup_delete_ne by set_solver. by apply Hdir.
  - exact Hop.
  - exact Hval.
Qed.
Lemma writers_run_ok n m D s : writers_run n m D s → writers_ok n m D s.
Proof.
  induction 1 as [|D s id ty locks o s' _ IH Hid Hl Hc|D s id s' _ IH Hc|D s a id added s' _ IH Hc|D s a id _ IH Ha].
  - assert (H0 : slot_types (NewSlots n m) = ∅).
    { apply map_eq. intros id. rewrite slot_types_lookup. unfold GetSlot. cbn. by rewrite !lookup_empty. }
    split; try apply NewSlots_ok; cbn; try (intros *; by rewrite ?lookup_empty).
    all: unfold slot_count; rewrite H0, map_filter_empty, map_size_empty; lia.
  - by eapply create_writers.
  - by eapply cleanup_writers.
  - by eapply add_writers.
  - by apply clear_writers.
Qed.

(** C40. Writers never share an account: in every history of the slot table in which
    only mutate locks are asked for, no slot is created under a cluster ID that is
    still in the table, and [ClearActiveAccount] is only called for accounts that
    [AddActiveAccount] locked, two slots in the table never have an account in
    common, an account is locked exactly while a slot or a direct lock holds it,
    never both, and the two slot counters plus the slots in the table stay what
    they were at the start. *)
Theorem writers_disjoint n m D s :
  writers_run n m D s →
  (∀ id1 id2 s1 s2 a, GetSlot s id1 = Some s1 → GetSlot s id2 = Some s2 →
     a ∈ dom (SL_ps s1) → a ∈ dom (SL_ps s2) → id1 = id2) ∧
  (∀ a, a ∈ dom (activeAccounts s) ↔ a ∈ D ∨ ∃ id slot, GetSlot s id = Some slot ∧ a ∈ dom (SL_ps slot)) ∧
  (∀ id slot a, GetSlot s id = Some slot → a ∈ dom (SL_ps slot) → a ∉ D) ∧
  availableOperatorSlots s + slot_count s OperatorSlot = n ∧
  availableValidatorSlots s + slot_count s ValidatorSlot = m.
Proof.
  intros [Hs Hheld Hlocked Hdir Hop Hval]%writers_run_ok. split_and!; [| | |done|done].
  - intros id1 id2 s1 s2 a H1 H2 [lt1 Ha1]%elem_of_dom [lt2 Ha2]%elem_of_dom.
    destruct (Hlocked _ _ _ _ H1 Ha1) as [Hb _].
    destruct (Hlocked _ _ _ _ H2 Ha2) as [Hb2 _]. rewrite Hb2 in Hb. by injection Hb.
  - intros a. split.
    + intros [l Hl]%elem_of_dom. destruct (Hheld _ _ Hl) as (id & _ & [?|(slot & Hg & Hp)]); [by left|right].
      exists id, slot. split; [done|]. apply elem_of_dom. by eexists.
    + intros [Ha|(id & slot & Hg & [lt Hp]%elem_of_dom)]; apply elem_of_dom; [by apply Hdir|].
      eexists. by eapply Hlocked.
  - intros id slot a Hg [lt Hp]%elem_of_dom. by eapply Hlocked.
Qed.

(** Clearing an account does not look at whose lock it is: with one holder
    the entry is dropped for whatever cluster is named; with several the number
    of entries stays, so no lock is ever released. *)
Theorem ClearActiveAccount_ignores_holder s a id :
  (∀ i, activeAccounts s !! a = Some [i] → activeAccounts (ClearActiveAccount s a id) !! a = None) ∧
  (∀ i j l, activeAccounts s !! a = Some (i :: j :: l) →
     ∃ l', activeAccounts (ClearActiveAccount s a id) !! a = Some l' ∧ length l' = S (S (length l))).
Proof.
  unfold ClearActiveAccount. split; [intros i Hi|intros i j l Hl].
  - rewrite Hi. cbn. by rewrite lookup_delete_eq.
  - rewrite Hl. cbn [from_option Datatypes.id activeAccounts set_active]. rewrite lookup_insert_eq.
    eexists. split; [done|].
    by destruct (clearLoop_Forall (λ _, True) (length (i :: j :: l)) id (i :: j :: l)
      (length (i :: j :: l)) 0 ltac:(by apply Forall_true)) as [_ ->].
Qed.

(** Cleaning up a slot drops every lock on its accounts, other readers' too. *)
Lemma cleanup_forgets s id slot a s' :
  slots_ok s → GetSlot s id = Some slot → a ∈ dom (SL_ps slot) → CleanupSlot s id = Ret s' →
  activeAccounts s' !! a = None.
Proof.
  intros Hs Hg [lt Ha]%elem_of_dom H.
  destruct (cleanup_spec s id Hs) as [[_ Hn]|(l & slot' & Hl & Hsl & He)]; unfold GetSlot in Hg.
  - by rewrite Hn in Hg.
  - rewrite Hl in Hg. cbn in Hg. rewrite Hsl in Hg. injection Hg as ->. rewrite H in He. injection He as ->.
    cbn. rewrite deleteAll_lookup, decide_True; [done|]. apply list_elem_of_fmap. exists (a, lt).
    split; [done|]. by apply elem_of_map_to_list.
Qed.
End Theorems.

(** ** Witnesses, and what readers break *)
#[local] Existing Instances CE CX.

Definition w_lock (lt : LockType) (addrs : list Z) : gmap (@Address CE) LockType :=
  list_to_map ((λ a, (a, lt)) <$> addrs).
Definition w_table : Slots := NewSlots 3 3.
Definition w_create (id : ClusterID) (lt : LockType) (addrs : list Z) (s : Slots) : Slots :=
  match CreateSlotAndLockAccounts s id ValidatorSlot (w_lock lt addrs) with Ret (_, s') => s' | _ => s end.
Definition w_clean (id : ClusterID) (s : Slots) : Slots :=
  match CleanupSlot s id with Ret s' => s' | _ => s end.

Definition w_ops : list slot_op :=
  [OpCreate "c1" ValidatorSlot (w_lock ReadLock [1; 2]); OpCreate "c2" OperatorSlot (w_lock ReadLock [2]);
   OpCreate "c3" OperatorSlot (w_lock MutateLock [2; 3]); OpAdd 3 MutateLock "c4"; OpClear 2 "c1";
   OpCleanup "c2"].
Lemma account_locks_exclusive_witness :
  ∃ s, slots_run w_ops w_table = Ret s ∧ exclusive [{| LI_lockType := MutateLock; LI_clusterID := "c4" |}].
Proof.
  destruct (account_locks_exclusive 3 3 w_ops) as (s & Hr & Hx).
  - assert (Hl : ∀ lt addrs a x, plain lt → w_lock lt addrs !! a = Some x → plain x).
    { intros lt addrs a x Hp Hx. apply elem_of_list_to_map_2, list_elem_of_fmap in Hx as (y & [= _ ->] & _).
      exact Hp. }
    assert (Hp : plain MutateLock ∧ plain ReadLock) by (split; [by left|by right]). destruct Hp.
    unfold w_ops. repeat (apply Forall_cons; split); try done; intros a x; by apply Hl.
  - exists s. split; [exact Hr|]. apply (Hx 3).
    apply (Ret_seen (λ s, activeAccounts s !! (3 : @Address CE)) _ _ _ Hr). vm_compute. reflexivity.
Defined.

Definition w_direct (a : Z) (id : ClusterID) (s : Slots) : Slots :=
  match AddActiveAccount s (a : @Address CE) MutateLock id with Ret (_, s') => s' | _ => s end.
Definition w_two : Slots := w_direct 4 "sync" (w_create "c2" MutateLock [3] (w_create "c1" MutateLock [1; 2] w_table)).
Lemma w_two_run : writers_run 3 3 ({[ (4 : @Address CE) ]} ∪ ∅) w_two.
Proof.
  assert (Hm : ∀ addrs a lt, w_lock MutateLock addrs !! a = Some lt → lt = MutateLock).
  { intros addrs a x Hx. by apply elem_of_list_to_map_2, list_elem_of_fmap in Hx as (y & [= _ ->] & _). }
  apply (wr_add 3 3 ∅ (w_create "c2" MutateLock [3] (w_create "c1" MutateLock [1; 2] w_table)) (4 : @Address CE) "sync"%string true); [|reflexivity].
  eapply (wr_create 3 3 _ (w_create "c1" MutateLock [1; 2] w_table) "c2"%string ValidatorSlot (w_lock MutateLock [3]));
    [|reflexivity|apply Hm|reflexivity].
  eapply (wr_create 3 3 _ w_table "c1"%string ValidatorSlot (w_lock MutateLock [1; 2])); [apply wr_new|reflexivity|apply Hm|].
  reflexivity.
Defined.
Lemma writers_disjoint_witness :
  availableValidatorSlots w_two + slot_count w_two ValidatorSlot = 3 ∧
  4 ∈ dom (activeAccounts w_two) ∧
  ∀ id, is_Some (GetSlot w_two id) → (∃ slot, GetSlot w_two id = Some slot ∧ 1 ∈ dom (SL_ps slot)) → id = "c1"%string.
Proof.
  destruct (writers_disjoint 3 3 _ w_two w_two_run) as (Hd & Hl & _ & _ & Hv).
  split; [exact Hv|]. split; [apply Hl; left; set_solver|]. intros id _ (slot & Hg & Ha).
  eapply (Hd id "c1"%string); [exact Hg|reflexivity|exact Ha|]. apply elem_of_dom. eexists. vm_compute. reflexivity.
Defined.

(** What the conditions are for.  A second slot under the ID of a running cluster
    replaces the first, whose accounts stay locked and whose place is never given
    back; clearing an account that a slot holds lets another slot share it; and a
    lock that is neither read nor mutate lets every later one in behind it. *)
Example reused_id_leaks_slot :
  let s := w_clean "c1" (w_create "c1" MutateLock [2] (w_create "c1" MutateLock [1] w_table)) in
  (GetSlot s "c1" = None ∧ availableValidatorSlots s = 2) ∧ activeAccounts s !! 1 = Some [writer "c1"].
Proof. split; [split|]; vm_compute; reflexivity. Qed.
Example clear_lets_two_share :
  let s := w_create "c2" MutateLock [1] (ClearActiveAccount (w_create "c1" MutateLock [1] w_table) 1 "x") in
  (λ id, (λ sl, SL_ps sl !! 1) <$> GetSlot s id) <$> ["c1"; "c2"]%string = [Some (Some MutateLock); Some (Some MutateLock)].
Proof. vm_compute. reflexivity. Qed.
Example no_lock_lets_all_in :
  let s := w_create "c3" MutateLock [1] (w_create "c2" MutateLock [1] (w_create "c1" NoLock [1] w_table)) in
  option_map (map LI_lockType) (activeAccounts s !! 1) = Some [NoLock; MutateLock; MutateLock].
Proof. vm_compute. reflexivity. Qed.

Lemma ClearActiveAccount_ignores_holder_witness :
  activeAccounts (ClearActiveAccount w_two 3 "someone else") !! 3 = None.
Proof. apply (proj1 (ClearActiveAccount_ignores_holder w_two 3 "someone else") (writer "c2")). reflexivity. Defined.

(** Two readers; the first leaves and a writer gets in while the second still
    reads; the second leaves and another writer gets in beside the first. *)
Definition w_readers : Slots := w_create "r2" ReadLock [1] (w_create "r1" ReadLock [1] w_table).
Definition w_writer1 : Slots := w_create "w1" MutateLock [1] (w_clean "r1" w_readers).
Definition w_writer2 : Slots := w_create "w2" MutateLock [1] (w_clean "r2" w_writer1).
Definition w_holds (s : Slots) (id : ClusterID) (a : Z) : option LockType :=
  slot ← GetSlot s id; SL_ps slot !! (a : @Address CE).
Example readers_let_two_writers_in :
  (w_holds w_writer1 "r2" 1, w_holds w_writer1 "w1" 1) = (Some ReadLock, Some MutateLock) ∧
  (w_holds w_writer2 "w1" 1, w_holds w_writer2 "w2" 1) = (Some MutateLock, Some MutateLock).
Proof. vm_compute. done. Qed.
