(* ===== verification/Engine.v ===== *)
(** * The Krama engine: [krama_engine.go], [handler.go], [ics_handler.go], [message_dispatcher.go]

    The state of the engine and the handlers of its event loop.  Slots are shared
    by pointer between the table and the goroutine of their cluster; a slot's
    cluster state is reached through the slot and the vote set it points to is
    kept next to it, under the slot's address.  Tesseracts are pointers into a
    heap.  What the engine gives to other parts (messages, router calls, started
    agreements, requests to close a slot) is logged in the state; what it asks of
    the run-time environment (fresh identifiers, the clock, random peers, the
    outcome of a connection) is a function of the number of questions asked so
    far.  A handler's error is only logged by its caller. *)

From stdpp Require Import base gmap strings list fin_maps sorting.
From Stdlib Require Import ZArith Lia.
From S2P Require Import Prelude Effect External Chain Types NodeSet Committee Cluster Validation VoteSet HeightVoteSet Sortition Execution Safety Views Ticker Kbft Slots.

(** The run-time environment. *)
Class Runtime := {
  GenerateClusterID : nat → ClusterID + err;
  (** [time.Now()] in seconds *)
  TimeNow : nat → Z;
  (** [randomizer.GetRandomNodes(count, exempted)] *)
  RandomNodesOf : nat → Z → list KramaID → list KramaID + err;
  (** [utils.GetRandomNumbers(count, max)] *)
  GetRandomNumbers : nat → Z → Z → gset Z;
  (** the error of [transport.ConnectToDirectPeer] and [transport.SendMessage] *)
  ConnectError : nat → KramaID → ClusterID → option err;
  SendError : nat → KramaID → option err;
}.

Section Engine.
Context `{ET : ExtTypes} `{EX : !ExtOps ET} `{TO : !TesseractOps ET} `{IX : !InteractionOps ET EX}.
Context `{TV : !TesseractView ET EX TO} `{CH : !Chain ET EX TO IX} `{XE : !Execution ET EX TO IX CH}.
Context `{ST : !SafetyStore ET} `{TP : !TesseractParts ET TO} `{RT : !Runtime}.

(** The payload of a PROPOSAL message. *)
Record ProposalMsg := {
  PM_Type : ConsensusMsgType;
  PM_PrepareQc : option PreparedInfo;
  PM_Tesseract : option Tesseract;
  PM_Interactions : list Interaction;
  PM_Receipts : option TsReceipts;
  PM_CommitInfo : TsCommitInfo;
}.

Context `{!PoloCodec CanonicalVote} `{!PoloCodec SafetyData} `{!PoloCodec ProposalInfo}.
Context `{!PoloCodec (Z * Views)} `{!PoloCodec Prepare} `{!PoloCodec Prepared} `{!PoloCodec Vote}.
Context `{!PoloCodec ProposalMsg} `{!PoloCodec Evidence}.
(** [common.NewInteractionsWithLeaderCheck(true, ...)] *)
Context (NewInteractions : list Interaction → TsInteractions).
(** [Interactions.IxList()] *)
Context (TsIxList : TsInteractions → list Interaction).
Context (sign : bytes → bytes * option err).
Context (signatureVerifier : bytes → bytes → list bytes → bool * option err).
(** [crypto.VerifyMultiSig(signature, messages, publicKeys)] *)
Context (VerifyMultiSig : bytes → list bytes → list bytes → bool * option err).
Context (vrfEvaluate : Z → (Z * bytes) + err).
Context (self : KramaID) (trustedPeers : list KramaID) (debugMode : bool).

Definition trustedPeersPresent : bool := 0 <? zlen trustedPeers.

(** ** State *)
Inductive action :=
| ASent (recipient : KramaID) (msg : ICSMSG)
| ABroadcast (msg : ICSMSG)
| ARegisterRouter (clusterID : ClusterID) (nodeset : ICSCommittee)
| ACloseRouter (clusterID : ClusterID)
| ADeletePeers (peers : list KramaID)
| ABroadcastTesseract (t : Tesseract)
| APostTracker (t : Tesseract).

Record Engine := {
  E_view : Z;
  E_slots : Slots;
  E_futureMsg : list ICSMSG;
  E_db : DB;
  E_world : World;
  E_heap : gmap positive Tesseract;
  (** [cs.voteSet], by the address of the slot *)
  E_votes : gmap positive HeightVoteSet;
  E_accountLocks : gmap Address LockType;
  (** running [icsHandler] goroutines: cluster and slot *)
  E_handlers : list (ClusterID * positive);
  (** slots with a send on [NewICSChan] waiting *)
  E_newICS : list positive;
  (** agreements started, with the address of the slot *)
  E_bfts : list (positive * KBFT);
  (** [icsCloseCh] *)
  E_closing : list ClusterID;
  E_out : list action;
  E_asked : nat;
}.

(** Field updates. *)
Definition with_view (v : Z) (k : Engine) : Engine :=
  {| E_view := v; E_slots := E_slots k; E_futureMsg := E_futureMsg k; E_db := E_db k; E_world := E_world k;
     E_heap := E_heap k; E_votes := E_votes k; E_accountLocks := E_accountLocks k;
     E_handlers := E_handlers k; E_newICS := E_newICS k; E_bfts := E_bfts k; E_closing := E_closing k;
     E_out := E_out k; E_asked := E_asked k |}.
Definition with_slots (s : Slots) (k : Engine) : Engine :=
  {| E_view := E_view k; E_slots := s; E_futureMsg := E_futureMsg k; E_db := E_db k; E_world := E_world k;
     E_heap := E_heap k; E_votes := E_votes k; E_accountLocks := E_accountLocks k;
     E_handlers := E_handlers k; E_newICS := E_newICS k; E_bfts := E_bfts k; E_closing := E_closing k;
     E_out := E_out k; E_asked := E_asked k |}.
Definition with_future (l : list ICSMSG) (k : Engine) : Engine :=
  {| E_view := E_view k; E_slots := E_slots k; E_futureMsg := l; E_db := E_db k; E_world := E_world k;
     E_heap := E_heap k; E_votes := E_votes k; E_accountLocks := E_accountLocks k;
     E_handlers := E_handlers k; E_newICS := E_newICS k; E_bfts := E_bfts k; E_closing := E_closing k;
     E_out := E_out k; E_asked := E_asked k |}.
Definition with_stores (db : DB) (w : World) (k : Engine) : Engine :=
  {| E_view := E_view k; E_slots := E_slots k; E_futureMsg := E_futureMsg k; E_db := db; E_world := w;
     E_heap := E_heap k; E_votes := E_votes k; E_accountLocks := E_accountLocks k;
     E_handlers := E_handlers k; E_newICS := E_newICS k; E_bfts := E_bfts k; E_closing := E_closing k;
     E_out := E_out k; E_asked := E_asked k |}.
Definition with_theap (heap : gmap positive Tesseract) (k : Engine) : Engine :=
  {| E_view := E_view k; E_slots := E_slots k; E_futureMsg := E_futureMsg k; E_db := E_db k; E_world := E_world k;
     E_heap := heap; E_votes := E_votes k; E_accountLocks := E_accountLocks k;
     E_handlers := E_handlers k; E_newICS := E_newICS k; E_bfts := E_bfts k; E_closing := E_closing k;
     E_out := E_out k; E_asked := E_asked k |}.
Definition with_votesets (m : gmap positive HeightVoteSet) (k : Engine) : Engine :=
  {| E_view := E_view k; E_slots := E_slots k; E_futureMsg := E_futureMsg k; E_db := E_db k; E_world := E_world k;
     E_heap := E_heap k; E_votes := m; E_accountLocks := E_accountLocks k;
     E_handlers := E_handlers k; E_newICS := E_newICS k; E_bfts := E_bfts k; E_closing := E_closing k;
     E_out := E_out k; E_asked := E_asked k |}.
Definition with_handlers (hs : list (ClusterID * positive)) (ls : list positive) (k : Engine) : Engine :=
  {| E_view := E_view k; E_slots := E_slots k; E_futureMsg := E_futureMsg k; E_db := E_db k; E_world := E_world k;
     E_heap := E_heap k; E_votes := E_votes k; E_accountLocks := E_accountLocks k;
     E_handlers := hs; E_newICS := ls; E_bfts := E_bfts k; E_closing := E_closing k;
     E_out := E_out k; E_asked := E_asked k |}.
Definition with_bfts (l : list (positive * KBFT)) (k : Engine) : Engine :=
  {| E_view := E_view k; E_slots := E_slots k; E_futureMsg := E_futureMsg k; E_db := E_db k; E_world := E_world k;
     E_heap := E_heap k; E_votes := E_votes k; E_accountLocks := E_accountLocks k;
     E_handlers := E_handlers k; E_newICS := E_newICS k; E_bfts := l; E_closing := E_closing k;
     E_out := E_out k; E_asked := E_asked k |}.
Definition with_closing (l : list ClusterID) (k : Engine) : Engine :=
  {| E_view := E_view k; E_slots := E_slots k; E_futureMsg := E_futureMsg k; E_db := E_db k; E_world := E_world k;
     E_heap := E_heap k; E_votes := E_votes k; E_accountLocks := E_accountLocks k;
     E_handlers := E_handlers k; E_newICS := E_newICS k; E_bfts := E_bfts k; E_closing := l;
     E_out := E_out k; E_asked := E_asked k |}.
Definition with_out (l : list action) (n : nat) (k : Engine) : Engine :=
  {| E_view := E_view k; E_slots := E_slots k; E_futureMsg := E_futureMsg k; E_db := E_db k; E_world := E_world k;
     E_heap := E_heap k; E_votes := E_votes k; E_accountLocks := E_accountLocks k;
     E_handlers := E_handlers k; E_newICS := E_newICS k; E_bfts := E_bfts k; E_closing := E_closing k;
     E_out := l; E_asked := n |}.

(** ** Talking to the environment *)
Definition log_action (a : action) : eff Engine () := modify (λ k, with_out (E_out k ++ [a]) (E_asked k) k).
Definition ask {A} (f : nat → A) : eff Engine A :=
  n ← gets E_asked; _ ← modify (λ k, with_out (E_out k) (S n) k); mret (f n).
Definition ask_or {A} (f : nat → A + err) : eff Engine A := r ← ask f; lift_or r.
Definition SendMessage (recipient : KramaID) (msg : ICSMSG) : eff Engine () :=
  e ← ask (λ n, SendError n recipient);
  match e with Some e => raise e | None => log_action (ASent recipient msg) end.

(** ** Slots *)
Definition set_msgs (ms : list ConsensusMessage) (s : Slot) : Slot :=
  {| SL_SlotType := SL_SlotType s; SL_cs := SL_cs s; SL_ps := SL_ps s; SL_Msgs := ms;
     SL_BftInbound := SL_BftInbound s; SL_BftInboundClosed := SL_BftInboundClosed s;
     SL_Stage := SL_Stage s |}.
(** [slot.Msgs <- msg] *)
Definition push_msg (m : ConsensusMessage) (s : Slot) : Slot := set_msgs (SL_Msgs s ++ [m]) s.
(** The fields a handler may assign; the accounts of a slot are those of [NewSlot]. *)
Definition assign_slot (old : option Slot) (s : Slot) : Slot :=
  {| SL_SlotType := SL_SlotType s; SL_cs := SL_cs s; SL_ps := match old with Some o => SL_ps o | None => SL_ps s end;
     SL_Msgs := SL_Msgs s; SL_BftInbound := SL_BftInbound s; SL_BftInboundClosed := SL_BftInboundClosed s;
     SL_Stage := SL_Stage s |}.
Definition write_slot (l : positive) (slot : Slot) (s : Slots) : Slots :=
  {| slots := slots s; slotHeap := <[l := assign_slot (slotHeap s !! l) slot]> (slotHeap s);
     availableOperatorSlots := availableOperatorSlots s;
     availableValidatorSlots := availableValidatorSlots s; activeAccounts := activeAccounts s |}.
Definition read_slot (l : positive) : eff Engine Slot :=
  o ← gets (λ k, slotHeap (E_slots k) !! l); lift (deref o).
Definition update_slot (l : positive) (slot : Slot) : eff Engine () :=
  modify (λ k, with_slots (write_slot l slot (E_slots k)) k).
(** [k.slots.GetSlot(id)], the pointer. *)
Definition find_slot (id : ClusterID) : eff Engine (option positive) := gets (λ k, slots (E_slots k) !! id).
Definition read_cs (l : positive) : eff Engine ClusterState :=
  slot ← read_slot l; lift (deref (SL_cs slot)).
Definition write_cs (l : positive) (cs : ClusterState) : eff Engine () :=
  slot ← read_slot l; update_slot l (UpdateClusterState slot (Some cs)).
Definition create_slot (id : ClusterID) (ty : SlotType) (locks : gmap Address LockType)
    : eff Engine (option positive) :=
  s ← gets E_slots;
  '(o, s') ← lift (CreateSlotAndLockAccounts s id ty locks);
  _ ← modify (with_slots s'); mret o.
Definition cleanup_slot (id : ClusterID) : eff Engine () :=
  s ← gets E_slots; s' ← lift (CleanupSlot s id); modify (with_slots s').
(** [go k.icsHandler(ctx, clusterID)]; the goroutine looks the slot up itself and
    dereferences it. *)
Definition spawn_handler (clusterID : ClusterID) : eff Engine () :=
  o ← find_slot clusterID; l ← lift (deref o);
  modify (λ k, with_handlers (E_handlers k ++ [(clusterID, l)]) (E_newICS k) k).
(** [slot.NewICSChan <- clusterID] *)
Definition signal_new_ics (l : positive) : eff Engine () :=
  modify (λ k, with_handlers (E_handlers k) (E_newICS k ++ [l]) k).
(** A function that works on a cluster state and its vote set. *)
Definition on_cluster {A} (l : positive) (m : eff Cluster A) : eff Engine A :=
  cs ← read_cs l; vs ← gets (λ k, E_votes k !! l);
  '(c, r) ← lift (m {| CL_cs := cs; CL_voteSet := vs |});
  _ ← write_cs l (CL_cs c);
  _ ← modify (λ k, with_votesets (partial_alter (λ _, CL_voteSet c) l (E_votes k)) k);
  lift_or r.
Definition load_ts (p : option positive) : eff Engine Tesseract :=
  l ← lift (deref p); o ← gets (λ k, E_heap k !! l); lift (deref o).
Definition alloc_ts (t : Tesseract) : eff Engine positive :=
  l ← gets (λ k, fresh (dom (E_heap k)));
  _ ← modify (λ k, with_theap (<[l := t]> (E_heap k)) k); mret l.

(** ** The prepare phase *)
Definition prepared_for (msg : Prepare) : eff Engine Prepared :=
  k ← gets id;
  lift_res (createPreparedMsg sign (E_world k) (E_db k) (E_accountLocks k) msg).

Definition enqueueFutureMsg (msg : ICSMSG) : eff Engine () :=
  modify (λ k, with_future (E_futureMsg k ++ [msg]) k).
Definition dequeueFutureMsg : eff Engine () :=
  q ← gets E_futureMsg; q' ← lift (go_slice q 1 (zlen q)); modify (with_future q').

Definition answerPrepare (msg : ICSMSG) (prepare : Prepare) : eff Engine () :=
  preparedMsg ← prepared_for prepare;
  rawData ← lift_or (wrap_err "failed to polorize ics message" (Polorize preparedMsg));
  SendMessage (IM_Sender msg) (NewICSMsg self (IM_ClusterID msg) MSG_PREPARED rawData).
Definition handlePrepare (msg : ICSMSG) (prepare : Prepare) : eff Engine () :=
  v ← gets E_view;
  if v =? Pr_View prepare then answerPrepare msg prepare
  else
    _ ← (if u64 (Pr_View prepare - v) =? 1 then enqueueFutureMsg msg else skip);
    raise (ENew "invalid view").

(** The sets after the node has answered itself. *)
Definition answerSelf (preparedMsg : Prepared) (o : option NodeSet) : res (option NodeSet) :=
  match o with
  | None => Ret None
  | Some ns =>
      ns' ← foldM (λ ns '(index, info),
        if decide (NI_ID info = self)
        then ns1 ← UpdateViewInfo ns index (Some preparedMsg); Ret (UpdateResponse ns1 index true)
        else Ret ns) (ranged ns) ns;
      Ret (Some ns')
  end.
(** Everybody else, once each. *)
Definition requestedNodes (sets : list (option NodeSet)) : list KramaID :=
  foldl (λ acc id, if decide (id = self ∨ id ∈ acc) then acc else acc ++ [id]) []
    (sets ≫= λ o, match o with Some ns => KramaIDs ns | None => [] end).

(** One goroutine per node; the nodes that could not be connected to. *)
Definition requestNode (clusterID : ClusterID) (payload : bytes) (unresponded : list KramaID) (id : KramaID)
    : eff Engine (list KramaID) :=
  e ← ask (λ n, ConnectError n id clusterID);
  match e with
  | Some _ => mret (unresponded ++ [id])
  | None =>
      _ ← attempt (SendMessage id (NewICSMsg self clusterID MSG_PREPARE payload));
      mret unresponded
  end.

Definition sendPrepareMsg (l : positive) (msg : Prepare) : eff Engine () :=
  cs ← read_cs l;
  payload ← lift_or (wrap_err "failed to polorize prepare msg" (Polorize msg));
  preparedMsg ← prepared_for msg;
  sets ← lift (mapM_res (answerSelf preparedMsg) (Sets (committee cs)));
  _ ← write_cs l (set_committee (with_sets (committee cs) sets) cs);
  unresponded ← for_fold (requestedNodes (Sets (committee cs))) (requestNode (CS_ClusterID cs) payload) [];
  if 0 <? zlen unresponded then log_action (ADeletePeers unresponded) else skip.

Definition getTrustedPeers (count : Z) : eff Engine (list KramaID) :=
  randomNumbers ← ask (λ n, GetRandomNumbers n count (zlen trustedPeers));
  mret (omap (λ '(i, p), if decide (i ∈ randomNumbers) then Some p else None)
          (imap (λ i p, (Z.of_nat i, p)) trustedPeers)).

Definition getStochasticNodes (count : Z) (exemptedNodes : list KramaID) : eff Engine (list KramaID + err) :=
  ask (λ n, RandomNodesOf n count exemptedNodes).
Definition sendPrepare (l : positive) : eff Engine () :=
  cs ← read_cs l;
  let prepareMsg := {| Pr_View := CurrentView cs; Pr_Ixns := IxHashes (ixns cs);
                       Pr_Ps := Participants_Addrs (Participants cs) |} in
  _ ← (if trustedPeersPresent
       then ids ← getTrustedPeers 10; cs ← read_cs l; write_cs l (set_trusted ids cs) else skip);
  cs ← read_cs l;
  let '(contextNodes, _, _) := DistinctNodes self (Sets (committee cs)) in
  r ← getStochasticNodes StochasticSetSize contextNodes;
  stochasticNodes ← lift_or match r with
    | inr e => inr (EWrap e "unable to retrieve random nodes") | inl ids => inl ids end;
  w ← gets E_world;
  publicKeys ← lift_or match SM_GetPublicKeys w stochasticNodes with
    | inr e => inr (EWrap e "failed to fetch the public key of random nodes.") | inl ks => inl ks end;
  set ← lift (NewNodeSet stochasticNodes publicKeys StochasticSetSize);
  cs' ← lift (ClusterUpdateNodeSet cs (StochasticSetPosition (committee cs)) (Some set));
  _ ← write_cs l cs';
  _ ← attempt (sendPrepareMsg l prepareMsg);
  skip.

(** ** Starting an agreement *)
(** [NewKBFTService] on the slot's cluster; a nil vote set panics. *)
Definition start_bft (l : positive) (op : KramaID) : eff Engine () :=
  cs ← read_cs l;
  ixHash ← lift (IxnHash cs);
  evidence ← lift (NewEvidence ixHash (Operator cs) (ClusterSize cs));
  o ← gets (λ k, E_votes k !! l); voteset ← lift (deref o);
  modify (λ k, with_bfts (E_bfts k ++ [(l, NewKBFTService op cs voteset evidence (E_db k) (E_heap k))]) k).

(** The checks on the message and its record in the committee; the slot and its
    cluster state when both quorums are reached. *)
Definition recordPrepared (clusterID : ClusterID) (msg : Prepared) (sender : KramaID)
    : eff Engine (option (positive * ClusterState)) :=
  v ← gets E_view;
  if negb (v =? Pd_View msg) then raise (ENew "invalid view") else
  o ← find_slot clusterID; l ← lift (deref o);
  cs ← read_cs l;
  let '(valIndex, publicKey, conflictingVote) := ClusterHasKramaID cs sender in
  if conflictingVote : bool then raise (ECommon "ErrConflictingVote") else
  if valIndex =? -1 then raise (ECommon "ErrPublicKeyNotFound") else
  signBytes ← lift_or (Prepared_SignBytes msg);
  let '(verified, e) := Verify signBytes (Pd_Signature msg) publicKey in
  if negb verified || is_some e then raise (ECommon "ErrSignatureVerificationFailed") else
  k ← gets id;
  '(cs1, e1) ← lift (updateHighestVI signatureVerifier (E_world k) (E_db k) cs (Pd_Infos msg));
  _ ← write_cs l cs1;
  _ ← check (wrap_nil "failed to update highest view info" e1);
  c ← lift (UpdateNodePreparedMsg (committee cs1) sender msg);
  let cs2 := set_committee c cs1 in
  _ ← write_cs l cs2;
  contextQuorum ← lift (ClusterIsContextQuorum cs2);
  if negb contextQuorum then mret None else
  randomQuorum ← lift (ClusterIsRandomQuorum cs2);
  mret (if randomQuorum : bool then Some (l, cs2) else None).

(** The proposal, once per slot: is the agreement to be started? *)
Definition propose (l : positive) (cs : ClusterState) : eff Engine bool :=
  slot ← read_slot l;
  let '(swapped, slot) := StageCompareAndSwap slot 0 1 in
  _ ← update_slot l slot;
  if negb swapped then mret false else
  k ← gets id;
  lockedTS ← lift_res (lockedTesseracts (E_world k) (E_db k) (localViewInfo cs) (highestViewInfo cs) 0 ∅);
  match lockedTS with
  | None => mret false
  | Some lockedTS =>
      ts ← on_cluster l (createProposalTS vrfEvaluate self trustedPeersPresent debugMode (E_world k)
                           (E_view k) lockedTS);
      cs ← read_cs l;
      prepareQc ← lift_res (createPrepareQc cs);
      p ← alloc_ts ts;
      _ ← write_cs l (SetTesseract (Some p) (SetPrepareQc (Some prepareQc) cs));
      mret true
  end.
Definition handlePrepared (clusterID : ClusterID) (msg : Prepared) (sender : KramaID) : eff Engine () :=
  o ← recordPrepared clusterID msg sender;
  match o with
  | None => skip
  | Some (l, cs) => go_on ← propose l cs; if go_on : bool then start_bft l self else skip
  end.

(** The views of every signer; an error is only logged. *)
Definition mergeViews (w : World) (db : DB) (views : list Views) (cs : ClusterState) : res ClusterState :=
  foldM (λ cs '(peerIndex, info),
    _ ← GetKramaID (committee cs) (i32 peerIndex);
    '(cs', _) ← updateHighestVI signatureVerifier w db cs info; Ret cs')
    (imap (λ i v, (Z.of_nat i, v)) views) cs.

Definition handleProposal (l : positive) (proposal : Proposal) : eff Engine () :=
  _ ← lift (Proposal_View proposal);
  qc ← lift (deref (Prop_PrepareQc proposal));
  trueIndices ← lift (match PI_SignerIndices qc with Some b => Ret (GetTrueIndices b) | None => NilTrueIndices end);
  rawMsgs ← lift_res (rawPreparedMsgs qc trueIndices);
  cs ← read_cs l;
  '(r, c) ← lift (UpdateValidatorResponse (committee cs) trueIndices []);
  let cs := set_committee c cs in
  _ ← write_cs l cs;
  publicKeys ← lift_or match r with
    | inr e => inr (EWrap e "failed to update node responses") | inl ks => inl ks end;
  contextQuorum ← lift (ClusterIsContextQuorum cs);
  if negb contextQuorum then raise (ECommon "ErrContextQuorumFailed") else
  randomQuorum ← lift (ClusterIsRandomQuorum cs);
  if negb randomQuorum then raise (ECommon "ErrRandomQuorumFailed") else
  let '(verified, e) := VerifyMultiSig (PI_Signature qc) rawMsgs publicKeys in
  _ ← check (wrap_nil "failed to verify prepare QC" e);
  if negb verified
  then raise (EWrap (ECommon "ErrSignatureVerificationFailed") "failed to verify prepare QC") else
  k ← gets id;
  cs ← lift (mergeViews (E_world k) (E_db k) (PI_PeerViews qc) cs);
  _ ← write_cs l cs;
  ts ← load_ts (Prop_Tesseract proposal);
  transition ← lift_or match SM_LoadTransitionObjects (E_world k) (Ixs_Participants (TsIxns ts)) with
    | inr e => inr (EWrap e "failed to load transition objects") | inl t => inl t end;
  let '(transition, r) := ExecuteAndValidate (E_world k) ts transition in
  ts' ← lift_or r;
  p ← lift (deref (Prop_Tesseract proposal));
  _ ← modify (λ k, with_theap (<[p := ts']> (E_heap k)) k);
  write_cs l (SetStateTransition transition cs).

(** ** Creating a cluster *)
Definition new_cluster_state (op : KramaID) (ixns : Interactions) (clusterID : ClusterID)
    : eff Engine ClusterState :=
  reqTime ← ask TimeNow;
  k ← gets id;
  lift_res (loadClusterState self (E_world k) (E_db k) (E_accountLocks k) (E_view k) op ixns clusterID reqTime).
Definition check_interactions (ixns : Interactions) : eff Engine () :=
  w ← gets E_world; check (validateInteractions w ixns).
Definition eligible (peerID : KramaID) (ixns : Interactions) : eff Engine bool :=
  gets (λ k, isOperatorEligible self (E_world k) (E_view k) peerID ixns).

Definition createICS (clusterID : ClusterID) (ixns : Interactions) (locks : gmap Address LockType)
    : eff Engine positive :=
  o ← create_slot clusterID OperatorSlot locks;
  l ← lift_or match o with None => inr (ECommon "ErrSlotsFull") | Some l => inl l end;
  cs ← new_cluster_state self ixns clusterID;
  slot ← read_slot l;
  _ ← update_slot l (UpdateClusterState slot (Some cs));
  _ ← check_interactions ixns;
  _ ← log_action (ARegisterRouter clusterID (committee cs));
  mret l.

(** After [createICS]: the cluster's goroutine, or the clean-up. *)
Definition launchICS (clusterID : ClusterID) (ixns : Interactions) (locks : gmap Address LockType)
    : eff Engine () :=
  r ← attempt (createICS clusterID ixns locks);
  match r with
  | inr e => _ ← cleanup_slot clusterID; raise e
  | inl l => _ ← spawn_handler clusterID; signal_new_ics l
  end.

Definition createICSForProposal (sender : KramaID) (msg : Proposal) : eff Engine () :=
  ts ← load_ts (Prop_Tesseract msg);
  o ← create_slot (TsClusterID ts) ValidatorSlot (TsAccountLocks ts);
  l ← lift_or match o with None => inr (ENew "failed to create slot") | Some l => inl l end;
  ok ← eligible sender (TsIxns ts);
  if negb ok then raise (ECommon "ErrOperatorNotEligible") else
  cs ← new_cluster_state (TsOperator ts) (TsIxns ts) (TsClusterID ts);
  cs ← lift (ClusterExcludeParticipants cs (TsExcludedAccounts ts));
  info ← lift (deref (TsCommit ts));
  w ← gets E_world;
  pk ← lift_or (SM_GetPublicKeys w (CI_RandomSet info));
  set ← lift (NewNodeSet (CI_RandomSet info) pk (CI_RandomSetSizeWithoutDelta info));
  cs ← lift (ClusterUpdateNodeSet cs (StochasticSetPosition (committee cs)) (Some set));
  voteset ← lift (NewHeightVoteSet [] (NewHeights cs) cs);
  _ ← modify (λ k, with_votesets (<[l := voteset]> (E_votes k)) k);
  slot ← read_slot l;
  _ ← update_slot l (UpdateClusterState slot (Some cs));
  _ ← check_interactions (TsIxns ts);
  _ ← spawn_handler (TsClusterID ts);
  slot ← read_slot l;
  update_slot l (push_msg {| CM_PeerID := sender; CM_Recipient := ""%string; CM_Payload := PayloadProposal msg |} slot).

(** ** Messages *)
(** [Proposal.ProposalMsg()], of the proposal and the tesseract it points to *)
Definition Proposal_ProposalMsg (p : Proposal) (t : Tesseract) : ProposalMsg :=
  {| PM_Type := Prop_Type p; PM_PrepareQc := Prop_PrepareQc p; PM_Tesseract := Some t;
     PM_Interactions := TsIxList (GetInteractions t); PM_Receipts := Some (GetReceipts t);
     PM_CommitInfo := GetCommitInfo t |}.
Definition ProposalMsg_Bytes (pmsg : ProposalMsg) : bytes + err :=
  wrap_err "failed to polorize proposal message" (Polorize pmsg).
Definition ProposalMsg_FromBytes (rawData : bytes) : ProposalMsg + err :=
  wrap_err "failed to depolorize proposal message" (Depolorize rawData).
Definition proposalBytes (p : Proposal) (t : Tesseract) : bytes + err := ProposalMsg_Bytes (Proposal_ProposalMsg p t).
(** [ProposalMsg.Proposal()] *)
Definition decode_proposal (pm : ProposalMsg) : eff Engine Proposal :=
  rs ← lift (deref (PM_Receipts pm));
  t ← lift (deref (PM_Tesseract pm));
  p ← alloc_ts (WithIxnAndReceipts t (NewInteractions (PM_Interactions pm)) rs (PM_CommitInfo pm));
  mret {| Prop_Type := PM_Type pm; Prop_PrepareQc := PM_PrepareQc pm; Prop_Tesseract := Some p |}.

Definition forward_prepared (msg : ICSMSG) (p : Prepared) : eff Engine () :=
  o ← find_slot (IM_ClusterID msg);
  match o with
  | None => skip
  | Some l =>
      slot ← read_slot l;
      slot' ← lift (deref (ForwardMsgToICSHandler (Some slot)
        {| CM_PeerID := IM_Sender msg; CM_Recipient := ""%string; CM_Payload := PayloadPrepared p |}));
      update_slot l slot'
  end.
Definition forward_to_kbft (l : positive) (m : ConsensusMessage) : eff Engine () :=
  slot ← read_slot l; o ← lift (ForwardMsgToKBFTHandler (Some slot) m);
  slot' ← lift (deref o); update_slot l slot'.
Definition forward_vote (msg : ICSMSG) (v : Vote) : eff Engine () :=
  o ← find_slot (IM_ClusterID msg);
  match o with
  | None => skip
  | Some l => forward_to_kbft l
      {| CM_PeerID := IM_Sender msg; CM_Recipient := ""%string; CM_Payload := PayloadVote v |}
  end.
Definition admit_proposal (msg : ICSMSG) (pm : ProposalMsg) : eff Engine () :=
  proposal ← decode_proposal pm;
  r ← attempt (createICSForProposal (IM_Sender msg) proposal);
  match r with
  | inl _ => skip
  | inr _ => _ ← log_action (ACloseRouter (IM_ClusterID msg)); cleanup_slot (IM_ClusterID msg)
  end.

Definition handleConsensusMessage (msg : ICSMSG) : eff Engine () :=
  match IM_MsgType msg with
  | MSG_PREPARE =>
      match Depolorize (IM_Payload msg) with
      | inr _ => skip
      | inl prepare => _ ← attempt (handlePrepare msg prepare); skip
      end
  | MSG_PREPARED =>
      match Depolorize (IM_Payload msg) with inr _ => skip | inl prepared => forward_prepared msg prepared end
  | MSG_PROPOSAL =>
      match ProposalMsg_FromBytes (IM_Payload msg) with inr _ => skip | inl pm => admit_proposal msg pm end
  | MSG_VOTEMSG =>
      match Vote_FromBytes (IM_Payload msg) with inr _ => skip | inl vote => forward_vote msg vote end
  | MSG_OTHER _ => skip
  end.

Definition handleOutboundMessage (clusterID : ClusterID) (msg : ConsensusMessage) : eff Engine () :=
  k ← gets id;
  r ← lift (ConsensusMessage_ICSMsg proposalBytes (λ p, l ← deref p; deref (E_heap k !! l)) msg clusterID);
  match r with
  | inr _ => skip
  | inl icsMsg =>
      _ ← (if decide (CM_Recipient msg = ""%string) then log_action (ABroadcast icsMsg) else skip);
      _ ← attempt (SendMessage (CM_Recipient msg) icsMsg); skip
  end.

(** ** The event loop *)
Definition handleFailedView (t : Tesseract) : eff Engine () :=
  clusterID ← ask_or GenerateClusterID;
  launchICS clusterID (TsIxns t) (PX_AccountLocks (TsConsensusInfo t)).

(** The batches of the pool; a cluster that cannot be created ends the loop. *)
Fixpoint handleBatches (batches : list Interactions) : eff Engine () :=
  match batches with
  | [] => skip
  | ixs :: rest =>
      r ← ask GenerateClusterID;
      match r with
      | inr _ => handleBatches rest
      | inl clusterID =>
          ok ← eligible self ixs;
          if negb ok then handleBatches rest
          else
            r ← attempt (launchICS clusterID ixs (Ixs_Locks ixs));
            match r with inr _ => skip | inl _ => handleBatches rest end
      end
  end.

Definition handleFutureMsgs (futureMsg : list ICSMSG) : eff Engine () :=
  for_each futureMsg (λ msg, _ ← handleConsensusMessage msg; dequeueFutureMsg).
Definition handleFailedViews : eff Engine () :=
  proposedTS ← gets (λ k, match GetFailedViewTS (E_db k) with inl l => l | inr _ => [] end);
  for_each proposedTS (λ t,
    ok ← eligible self (TsIxns t);
    if negb ok then skip else _ ← attempt (handleFailedView t); skip).
Definition handleNewView (batches : list Interactions) : eff Engine () :=
  futureMsg ← gets E_futureMsg;
  _ ← handleFutureMsgs futureMsg;
  _ ← handleFailedViews;
  handleBatches batches.

Inductive event :=
| EvTick (viewID : Z) (batches : list Interactions)
| EvMessage (msg : ICSMSG)
| EvClose.
Definition handler (ev : event) : eff Engine () :=
  match ev with
  | EvTick viewID batches => _ ← modify (with_view viewID); handleNewView batches
  | EvMessage msg => handleConsensusMessage msg
  | EvClose =>
      q ← gets E_closing;
      match q with
      | [] => skip
      | clusterID :: rest =>
          _ ← modify (with_closing rest);
          _ ← log_action (ACloseRouter clusterID);
          cleanup_slot clusterID
      end
  end.

(** ** The goroutine of a cluster *)
Inductive ics_event :=
| IcsTimeout
| IcsOutbound (msg : ConsensusMessage)
| IcsNewICS
| IcsBftStop (e : option err)
| IcsMsg.

(** One iteration: does the loop go on? *)
Definition ics_body (clusterID : ClusterID) (l : positive) (ev : ics_event) : eff Engine bool :=
  match ev with
  | IcsTimeout => slot ← read_slot l; mret (negb (SL_Stage slot =? 0))
  | IcsOutbound msg => cs ← read_cs l; _ ← handleOutboundMessage (CS_ClusterID cs) msg; mret true
  | IcsNewICS =>
      r ← attempt (sendPrepare l); mret match r with inl _ => true | inr _ => false end
  | IcsBftStop _ => mret false
  | IcsMsg =>
      slot ← read_slot l;
      match SL_Msgs slot with
      | [] => mret true
      | msg :: rest =>
          _ ← update_slot l (set_msgs rest slot);
          match CM_Payload msg with
          | PayloadPrepared m => _ ← attempt (handlePrepared clusterID m (CM_PeerID msg)); mret true
          | PayloadProposal m =>
              r ← (if decide (SL_SlotType slot = ValidatorSlot) then attempt (handleProposal l m)
                   else mret (inl () : () + err));
              match r with
              | inr _ => mret false
              | inl _ =>
                  slot ← read_slot l;
                  let '(_, slot) := StageCompareAndSwap slot 0 1 in
                  _ ← update_slot l slot;
                  _ ← start_bft l (CM_PeerID msg);
                  _ ← forward_to_kbft l msg;
                  mret true
              end
          | _ => _ ← forward_to_kbft l msg; mret true
          end
      end
  end.
Definition icsHandler (clusterID : ClusterID) (l : positive) (ev : ics_event) : eff Engine () :=
  go_on ← ics_body clusterID l ev;
  if go_on : bool then skip
  else modify (λ k, with_closing (E_closing k ++ [clusterID])
         (with_handlers (filter (λ h, h ≠ (clusterID, l)) (E_handlers k)) (E_newICS k) k)).

(** ** A finished agreement *)
Definition deleteSafety (addr : Address) : eff Engine () :=
  modify (λ k, with_stores (DeleteSafetyData (E_db k) addr).1 (E_world k) k).
Definition finalizedTesseractHandler (tesseract : option Tesseract) : eff Engine () :=
  match tesseract with
  | None => raise (ENew "failed to finalize tesseract")
  | Some t =>
      o ← find_slot (TsClusterID t);
      match o with
      | None => raise (ENew "nil slot")
      | Some l =>
          cs ← read_cs l;
          k ← gets id;
          let '(w, e) := L_AddTesseractWithState (E_world k) (dirty cs) t (CS_Transition cs) in
          _ ← modify (λ k, with_stores (E_db k) w k);
          _ ← check e;
          _ ← for_each (map_to_list (Participants cs)).*1 deleteSafety;
          _ ← lift_or (TsBytes t);
          _ ← log_action (if decide (TsOperator t = self) then ABroadcastTesseract t else APostTracker t);
          modify (λ k, with_stores (E_db k) (foldl SM_RemoveCachedObject (E_world k) (TsAddresses t)) k)
      end
  end.

(** ** Calls of other modules *)
Definition Engine_AddActiveAccount (addr : Address) (lockType : LockType) (clusterID : ClusterID) : eff Engine bool :=
  s ← gets E_slots; '(added, s') ← lift (AddActiveAccount s addr lockType clusterID);
  _ ← modify (with_slots s'); mret added.
Definition Engine_ClearActiveAccount (addr : Address) (clusterID : ClusterID) : eff Engine () :=
  s ← gets E_slots; modify (with_slots (ClearActiveAccount s addr clusterID)).
End Engine.
