(* ===== verification/EngineFacts.v ===== *)
(** * Facts about the engine's handlers

    What a handler may change, method by method: [framed R] lists the elementary
    changes a preorder [R] on engine states must allow, and every handler is then
    [only R].  The two handlers that touch the queue of future messages are
    treated apart. *)

From stdpp Require Import base gmap strings list fin_maps sorting.
From Stdlib Require Import ZArith Lia Relations.
From S2P Require Import Prelude Effect External Chain Types NodeSet Committee Cluster Validation VoteSet HeightVoteSet Sortition Execution Safety Views Ticker Kbft Slots Engine.

Section Frame.
Context `{ET : ExtTypes} `{EX : !ExtOps ET} `{TO : !TesseractOps ET} `{IX : !InteractionOps ET EX}.
Context `{TV : !TesseractView ET EX TO} `{CH : !Chain ET EX TO IX} `{XE : !Execution ET EX TO IX CH}.
Context `{ST : !SafetyStore ET} `{TP : !TesseractParts ET TO} `{RT : !Runtime}.
Context `{!PoloCodec CanonicalVote} `{!PoloCodec SafetyData} `{!PoloCodec ProposalInfo}.
Context `{!PoloCodec (Z * Views)} `{!PoloCodec Prepare} `{!PoloCodec Prepared} `{!PoloCodec Vote}.
Context `{!PoloCodec ProposalMsg} `{!PoloCodec Evidence}.
Context (NewInteractions : list Interaction → TsInteractions).
Context (TsIxList : TsInteractions → list Interaction).
Context (sign : bytes → bytes * option err).
Context (signatureVerifier : bytes → bytes → list bytes → bool * option err).
Context (VerifyMultiSig : bytes → list bytes → list bytes → bool * option err).
Context (vrfEvaluate : Z → (Z * bytes) + err).
Context (self : KramaID) (trustedPeers : list KramaID) (debugMode : bool).

(** Which locks are asked for: those of interactions, of tesseracts of failed
    views and of proposals. *)
Context (ok_locks : gmap Address LockType → Prop).
Context (ixs_ok : ∀ ixs, ok_locks (Ixs_Locks ixs)) (ts_ok : ∀ t, ok_locks (TsAccountLocks t)).
Context (px_ok : ∀ t, ok_locks (PX_AccountLocks (TsConsensusInfo t))).

Record framed (R : relation Engine) : Prop := {
  fr_pre : PreOrder R;
  fr_out : ∀ k l n, R k (with_out l n k);
  fr_heap : ∀ k h, R k (with_theap h k);
  fr_votes : ∀ k m, R k (with_votesets m k);
  fr_handlers : ∀ k hs ls, R k (with_handlers hs ls k);
  fr_stores : ∀ k db w, R k (with_stores db w k);
  fr_closing : ∀ k l, R k (with_closing l k);
  fr_write : ∀ k l slot, R k (with_slots (write_slot l slot (E_slots k)) k);
  fr_create : ∀ k id ty locks o s, ok_locks locks →
    CreateSlotAndLockAccounts (E_slots k) id ty locks = Ret (o, s) → R k (with_slots s k);
  fr_cleanup : ∀ k id s, CleanupSlot (E_slots k) id = Ret s → R k (with_slots s k);
}.

Context (R : relation Engine) (Hfr : framed R).
#[local] Instance frame_preorder : PreOrder R := fr_pre R Hfr.

#[local] Hint Extern 1 (R _ _) =>
  first [ apply (fr_out R Hfr) | apply (fr_heap R Hfr) | apply (fr_votes R Hfr) | apply (fr_handlers R Hfr)
        | apply (fr_stores R Hfr) | apply (fr_closing R Hfr) | apply (fr_write R Hfr)
        | etransitivity; [apply (fr_handlers R Hfr)|apply (fr_closing R Hfr)] ] : eff.
#[local] Hint Extern 1 (only _ (modify _)) => apply only_modify; intros ? : eff.
#[local] Hint Extern 1 (only _ skip) => apply only_ret : eff.
Lemma only_log a : only R (log_action a).
Proof. unfold log_action. only_steps. Qed.
Lemma only_ask {A} (f : nat → A) : only R (ask f).
Proof. unfold ask. only_steps. Qed.
#[local] Hint Resolve only_log only_ask : eff.
Lemma only_ask_or {A} (f : nat → A + err) : only R (ask_or f).
Proof. unfold ask_or. only_steps. Qed.
Lemma only_send r m : only R (SendMessage r m).
Proof. unfold SendMessage. only_steps. Qed.
Lemma only_read_slot l : only R (read_slot l).
Proof. unfold read_slot. only_steps. Qed.
Lemma only_update_slot l slot : only R (update_slot l slot).
Proof. unfold update_slot. only_steps. Qed.
Lemma only_find_slot i : only R (find_slot i).
Proof. unfold find_slot. only_steps. Qed.
#[local] Hint Resolve only_ask_or only_send only_read_slot only_update_slot only_find_slot : eff.
Lemma only_read_cs l : only R (read_cs l).
Proof. unfold read_cs. only_steps. Qed.
Lemma only_write_cs l cs : only R (write_cs l cs).
Proof. unfold write_cs. only_steps. Qed.
Lemma only_create id ty locks : ok_locks locks → only R (create_slot id ty locks).
Proof.
  intros Hl s s' r. unfold create_slot, mbind, eff_bind, gets, lift, modify, mret, eff_ret.
  destruct (CreateSlotAndLockAccounts _ _ _ _) as [[o t]| |] eqn:E; [|done|done].
  intros [= <- _]. by eapply (fr_create R Hfr).
Qed.
Lemma only_cleanup id : only R (cleanup_slot id).
Proof.
  intros s s' r. unfold cleanup_slot, mbind, eff_bind, gets, lift, modify.
  destruct (CleanupSlot _ _) as [t| |] eqn:E; [|done|done].
  intros [= <- _]. by eapply (fr_cleanup R Hfr).
Qed.
#[local] Hint Resolve only_read_cs only_write_cs only_create only_cleanup : eff.
Lemma only_spawn id : only R (spawn_handler id).
Proof. unfold spawn_handler. only_steps. Qed.
Lemma only_signal l : only R (signal_new_ics l).
Proof. unfold signal_new_ics. only_steps. Qed.
Lemma only_on_cluster {A} l (m : eff Cluster A) : only R (on_cluster l m).
Proof. unfold on_cluster. only_steps. Qed.
Lemma only_load p : only R (load_ts p).
Proof. unfold load_ts. only_steps. Qed.
Lemma only_alloc t : only R (alloc_ts t).
Proof. unfold alloc_ts. only_steps. Qed.
#[local] Hint Resolve only_spawn only_signal only_on_cluster only_load only_alloc : eff.

Lemma only_prepared_for p : only R (prepared_for sign p).
Proof. unfold prepared_for. only_steps. Qed.
Lemma only_request c p u i : only R (requestNode self c p u i).
Proof. unfold requestNode. only_steps. Qed.
#[local] Hint Resolve only_prepared_for only_request : eff.
Lemma only_answer m p : only R (answerPrepare sign self m p).
Proof. unfold answerPrepare. only_steps. Qed.
Lemma only_sendPrepareMsg l p : only R (sendPrepareMsg sign self l p).
Proof. unfold sendPrepareMsg. only_steps. Qed.
Lemma only_trusted n : only R (getTrustedPeers trustedPeers n).
Proof. unfold getTrustedPeers. only_steps. Qed.
#[local] Hint Resolve only_answer only_sendPrepareMsg only_trusted : eff.
Lemma only_sendPrepare l : only R (sendPrepare sign self trustedPeers l).
Proof. unfold sendPrepare. only_steps. Qed.
#[local] Hint Resolve only_sendPrepare : eff.
Lemma only_recordPrepared c m s : only R (recordPrepared signatureVerifier c m s).
Proof. unfold recordPrepared. only_steps. Qed.
Lemma only_propose l cs : only R (propose vrfEvaluate self trustedPeers debugMode l cs).
Proof. unfold propose. only_steps. Qed.
Lemma only_handleProposal l p : only R (handleProposal signatureVerifier VerifyMultiSig l p).
Proof. unfold handleProposal. only_steps. Qed.
Lemma only_new_cluster op ixs c : only R (new_cluster_state self op ixs c).
Proof. unfold new_cluster_state. only_steps. Qed.
Lemma only_check_interactions ixs : only R (check_interactions ixs).
Proof. unfold check_interactions. only_steps. Qed.
Lemma only_eligible p ixs : only R (eligible self p ixs).
Proof. unfold eligible. only_steps. Qed.
#[local] Hint Resolve only_recordPrepared only_propose only_handleProposal only_new_cluster only_check_interactions
  only_eligible : eff.
Lemma only_createICS c ixs locks : ok_locks locks → only R (createICS self c ixs locks).
Proof. intros Hl. unfold createICS. only_steps. Qed.
#[local] Hint Resolve only_createICS : eff.
Lemma only_launch c ixs locks : ok_locks locks → only R (launchICS self c ixs locks).
Proof. intros Hl. unfold launchICS. only_steps. Qed.
Lemma only_create_for_proposal s p : only R (createICSForProposal self s p).
Proof. unfold createICSForProposal. only_steps. Qed.
Lemma only_decode pm : only R (decode_proposal NewInteractions pm).
Proof. unfold decode_proposal. only_steps. Qed.
#[local] Hint Resolve only_launch only_create_for_proposal only_decode : eff.
Lemma only_forward_prepared m p : only R (forward_prepared m p).
Proof. unfold forward_prepared. only_steps. Qed.
Lemma only_forward_kbft l m : only R (forward_to_kbft l m).
Proof. unfold forward_to_kbft. only_steps. Qed.
#[local] Hint Resolve only_forward_prepared only_forward_kbft : eff.
Lemma only_forward_vote m v : only R (forward_vote m v).
Proof. unfold forward_vote. only_steps. Qed.
Lemma only_admit m pm : only R (admit_proposal NewInteractions self m pm).
Proof. unfold admit_proposal. only_steps. Qed.
Lemma only_outbound c m : only R (handleOutboundMessage TsIxList c m).
Proof. unfold handleOutboundMessage. only_steps. Qed.
Lemma only_failed_view t : only R (handleFailedView self t).
Proof. unfold handleFailedView. only_steps. Qed.
#[local] Hint Resolve only_forward_vote only_admit only_outbound only_failed_view : eff.
Lemma only_batches bs : only R (handleBatches self bs).
Proof. induction bs as [|b bs IH]; cbn [handleBatches]; only_steps. Qed.
Lemma only_failed_views : only R (handleFailedViews self).
Proof. unfold handleFailedViews. only_steps. Qed.
Lemma only_finalized o : only R (finalizedTesseractHandler self o).
Proof. unfold finalizedTesseractHandler, deleteSafety. only_steps. Qed.

(** ** Starting an agreement *)
Section Start.
Context (R_bfts : ∀ k l, R k (with_bfts l k)).
#[local] Hint Resolve R_bfts : eff.
Lemma only_start_bft l op : only R (start_bft l op).
Proof. unfold start_bft. only_steps. Qed.
#[local] Hint Resolve only_start_bft : eff.
Lemma only_handlePrepared c m s :
  only R (handlePrepared signatureVerifier vrfEvaluate self trustedPeers debugMode c m s).
Proof. unfold handlePrepared. only_steps. Qed.
#[local] Hint Resolve only_handlePrepared : eff.
Lemma only_ics c l ev :
  only R (icsHandler TsIxList sign signatureVerifier VerifyMultiSig vrfEvaluate self trustedPeers debugMode c l ev).
Proof. unfold icsHandler, ics_body. only_steps. Qed.
End Start.

(** ** The queue of future messages *)
Context (R_future : ∀ k l, R k (with_future l k)) (R_view : ∀ k v, R k (with_view v k)).
#[local] Hint Resolve R_future R_view only_batches only_failed_views : eff.
Lemma only_handlePrepare m p : only R (handlePrepare sign self m p).
Proof. unfold handlePrepare, enqueueFutureMsg. only_steps. Qed.
#[local] Hint Resolve only_handlePrepare : eff.
Lemma only_message m : only R (handleConsensusMessage NewInteractions sign self m).
Proof. unfold handleConsensusMessage. only_steps. Qed.
#[local] Hint Resolve only_message : eff.
Lemma only_new_view bs : only R (handleNewView NewInteractions sign self bs).
Proof. unfold handleNewView, handleFutureMsgs, dequeueFutureMsg. only_steps. Qed.
#[local] Hint Resolve only_new_view : eff.
Lemma only_handler ev : only R (handler NewInteractions sign self ev).
Proof. unfold handler. only_steps. Qed.
End Frame.
