(* ===== verification/EngineSpec.v ===== *)
(** * What the engine guarantees: the theorems

    Its event loop and the goroutines of its clusters, for every order of events.
    Each theorem is about runs that return; what makes a run panic is stated
    where the code has such a case. *)

From stdpp Require Import base gmap strings list fin_maps sorting.
From Stdlib Require Import ZArith Lia Relations.
From S2P Require Import Prelude Effect External Chain Types NodeSet Committee Cluster Validation VoteSet HeightVoteSet Sortition Execution Safety Views Ticker Kbft Slots SlotsSpec Engine EngineFacts.

Section Engine.
Context `{ET : ExtTypes} `{EX : !ExtOps ET} `{TO : !TesseractOps ET} `{IX : !InteractionOps ET EX}.
Context `{TV : !TesseractView ET EX TO} `{CH : !Chain ET EX TO IX} `{XE : !Execution ET EX TO IX CH}.
Context `{ST : !SafetyStore ET} `{TP : !TesseractParts ET TO} `{RT : !Runtime}.
Context `{!PoloCodec CanonicalVote} `{!PoloCodec SafetyData} `{!PoloCodec ProposalInfo}.
Context `{!PoloCodec (Z * Views)} `{!PoloCodec Prepare} `{!PoloCodec Prepared} `{!PoloCodec Vote}.
Context `{!PoloCodec ProposalMsg} `{!PoloCodec Evidence}.
Context (NewInteractions : list Interaction → TsInteractions).
Context (TsIxList : TsInteractions → list Interaction).
Context (sign : bytes → bytes * option err).
Context (signatureVerifier : bytes → bytes → list bytes → bool * option err).
Context (VerifyMultiSig : bytes → list bytes → list bytes → bool * option err).
Context (vrfEvaluate : Z → (Z * bytes) + err).
Context (self : KramaID) (trustedPeers : list KramaID) (debugMode : bool).

(** The methods at one set of parameters. *)
Notation message := (handleConsensusMessage NewInteractions sign self).
Notation main := (handler NewInteractions sign self).
Notation cluster_step :=
  (icsHandler TsIxList sign signatureVerifier VerifyMultiSig vrfEvaluate self trustedPeers debugMode).

(** A proposal survives the network: its message decodes to the same proposal,
    with a new copy of the tesseract. *)
Theorem proposal_roundtrip `{!PoloRoundTrip ProposalMsg} p t raw k :
  proposalBytes TsIxList p t = inl raw →
  WithIxnAndReceipts t (NewInteractions (TsIxList (GetInteractions t))) (GetReceipts t) (GetCommitInfo t) = t →
  ∃ pm l, ProposalMsg_FromBytes raw = inl pm ∧ E_heap k !! l = None ∧
    decode_proposal NewInteractions pm k =
      Ret (with_theap (<[l := t]> (E_heap k)) k,
           inl {| Prop_Type := Prop_Type p; Prop_PrepareQc := Prop_PrepareQc p; Prop_Tesseract := Some l |}).
Proof.
  intros Hb Ht. unfold proposalBytes, ProposalMsg_Bytes in Hb. set (pm := Proposal_ProposalMsg _ _ _) in Hb.
  destruct (Polorize pm) as [raw'|] eqn:E; [|done]. injection Hb as ->.
  exists pm, (fresh (dom (E_heap k))). split; [|split].
  - unfold ProposalMsg_FromBytes. by rewrite (depolorize_polorize _ _ E).
  - apply not_elem_of_dom, is_fresh.
  - unfold decode_proposal. rewrite (bind_run _ _ _ k (GetReceipts t)), (bind_run _ _ _ k t) by done.
    unfold pm, Proposal_ProposalMsg. cbn [PM_Interactions PM_CommitInfo]. rewrite Ht. reflexivity.
Qed.

(** ** Future messages *)
(** A PREPARE for the view after [v]. *)
Definition future_of (v : Z) (msg : ICSMSG) : bool :=
  match IM_MsgType msg with
  | MSG_PREPARE =>
      match Depolorize (IM_Payload msg) with
      | inl prepare => u64 (Pr_View prepare - v) =? 1
      | inr _ => false
      end
  | _ => false
  end.

(** Nothing but the queue and what follows from it moves. *)
Definition same_queue (k k' : Engine) : Prop := E_view k' = E_view k ∧ E_futureMsg k' = E_futureMsg k.
Lemma same_queue_framed : framed (λ _, True) same_queue.
Proof.
  split; try done. split; [done|]. intros a b c [H1 H2] [H3 H4]. split; congruence.
Qed.

Lemma message_queue m k k' r :
  message m k = Ret (k', r) →
  E_view k' = E_view k ∧ E_futureMsg k' = E_futureMsg k ++ (if future_of (E_view k) m then [m] else []).
Proof.
  pose proof same_queue_framed as Hf.
  assert (Hsame : ∀ (f : eff Engine ()), only same_queue f → f k = Ret (k', r) →
    E_view k' = E_view k ∧ E_futureMsg k' = E_futureMsg k ++ []).
  { intros f Ho Hk. destruct (Ho _ _ _ Hk) as [-> ->]. by rewrite app_nil_r. }
  unfold handleConsensusMessage, future_of. destruct (IM_MsgType m).
  - destruct (Depolorize (IM_Payload m)) as [p|e]; [|apply Hsame, only_ret, Hf].
    rewrite attempt_skip. intros [[x Hx] _]. revert Hx. unfold handlePrepare. rewrite gets_bind.
    destruct (Z.eqb_spec (E_view k) (Pr_View p)) as [Hv|Hv]; intros Hx.
    + rewrite <-Hv, Z.sub_diag. change (u64 0 =? 1) with false. cbn iota. rewrite app_nil_r.
      by apply (only_answer _ _ _ _ Hf) in Hx.
    + destruct (u64 (Pr_View p - E_view k) =? 1); injection Hx as <- _; [done|]. by rewrite app_nil_r.
  - destruct (Depolorize (IM_Payload m)); apply Hsame; [apply (only_forward_prepared _ _ Hf)|apply only_ret, Hf].
  - destruct (ProposalMsg_FromBytes (IM_Payload m)); apply Hsame; [|apply only_ret, Hf].
    by apply (only_admit _ _ (λ _, True)).
  - destruct (Vote_FromBytes (IM_Payload m)); apply Hsame; [apply (only_forward_vote _ _ Hf)|apply only_ret, Hf].
  - apply Hsame, only_ret, Hf.
Qed.

Lemma message_quiet m : quiet (message m).
Proof.
  unfold handleConsensusMessage, forward_prepared, forward_vote, forward_to_kbft, admit_proposal, decode_proposal,
    alloc_ts, log_action, cleanup_slot, find_slot, read_slot, update_slot. quiets.
Qed.

(** What a PREPARE for the current view is answered with: the node's views, signed,
    to its sender; nothing when the answer cannot be made. *)
Definition is_prepare (m : ICSMSG) : Prop := IM_MsgType m = MSG_PREPARE.
Definition reply (k : Engine) (m : ICSMSG) : option (KramaID * ICSMSG) :=
  match Depolorize (IM_Payload m) with
  | inl prepare =>
      if E_view k =? Pr_View prepare then
        match createPreparedMsg sign (E_world k) (E_db k) (E_accountLocks k) prepare with
        | Ret (inl preparedMsg) =>
            match Polorize preparedMsg with
            | inl raw => Some (IM_Sender m, NewICSMsg self (IM_ClusterID m) MSG_PREPARED raw)
            | inr _ => None
            end
        | _ => None
        end
      else None
  | inr _ => None
  end.
(** The network is asked once for each message and takes it or fails. *)
Definition sent (k : Engine) (p : KramaID * ICSMSG) : Engine :=
  let '(recipient, m) := p in
  with_out (match SendError (E_asked k) recipient with Some _ => E_out k | None => E_out k ++ [ASent recipient m] end)
    (S (E_asked k)) k.

Lemma send_sent recipient m k k' r : SendMessage recipient m k = Ret (k', r) → k' = sent k (recipient, m).
Proof.
  unfold SendMessage, ask, sent, log_action, raise, modify, gets, mbind, eff_bind, mret, eff_ret. cbn.
  destruct (SendError _ _); intros [= <- _]; done.
Qed.
Lemma with_future_sent q k acts : with_future q (foldl sent k acts) = foldl sent (with_future q k) acts.
Proof. revert k. induction acts as [|[to m] acts IH]; intros k; [done|]. cbn. apply IH. Qed.
Lemma with_future_id q k : E_futureMsg k = q → with_future q k = k.
Proof. intros <-. by destruct k. Qed.
Lemma sent_future k acts : E_futureMsg (foldl sent k acts) = E_futureMsg k.
Proof. revert k. induction acts as [|[to m] acts IH]; intros k; [done|]. cbn. by rewrite IH. Qed.
(** Answering changes neither the view nor what the answers are made of. *)
Definition answers_alike (k k' : Engine) : Prop :=
  E_view k' = E_view k ∧ E_world k' = E_world k ∧ E_db k' = E_db k ∧ E_accountLocks k' = E_accountLocks k.
Lemma sent_alike k q acts : answers_alike k (foldl sent (with_future q k) acts).
Proof.
  enough (H : ∀ k1, answers_alike k k1 → answers_alike k (foldl sent k1 acts)) by (apply H; done).
  induction acts as [|[to m] acts IH]; intros k1 H; [done|]. by apply IH.
Qed.
Lemma reply_alike k k' m : answers_alike k k' → reply k' m = reply k m.
Proof. intros (Hv & Hw & Hd & Hl). unfold reply. by rewrite Hv, Hw, Hd, Hl. Qed.

Lemma answer_sends m p k k' r :
  Depolorize (IM_Payload m) = inl p → E_view k = Pr_View p →
  answerPrepare sign self m p k = Ret (k', r) → k' = foldl sent k (omap (reply k) [m]).
Proof.
  intros Hd Hv. unfold answerPrepare, prepared_for. cbn [omap list_omap]. unfold reply. rewrite Hd, Hv, Z.eqb_refl.
  intros [(k1 & pd & Hp & H)|(e & Hp & _)]%bind_cases; rewrite gets_bind in Hp; cbn [id] in Hp;
    unfold lift_res in Hp; destruct (createPreparedMsg _ _ _ _ _) as [[pd'|e']| |]; try done.
  - injection Hp as <- <-. apply bind_cases in H as [(k2 & raw & Hr & H)|(e & Hr & _)];
      destruct (Polorize pd'); try done; [|by injection Hr as <- _]. injection Hr as <- <-. cbn. by eapply send_sent.
  - by injection Hp as <- _.
Qed.
Lemma prepare_message m k k' r :
  is_prepare m → message m k = Ret (k', r) →
  r = inl () ∧
  k' = foldl sent (with_future (E_futureMsg k ++ (if future_of (E_view k) m then [m] else [])) k) (omap (reply k) [m]).
Proof.
  unfold is_prepare, handleConsensusMessage, future_of. intros ->.
  destruct (Depolorize (IM_Payload m)) as [p|e] eqn:Ed.
  2: { intros [= <- <-]. split; [done|]. cbn [omap list_omap]. unfold reply. rewrite Ed. by rewrite with_future_id by by rewrite app_nil_r. }
  intros H. assert (r = inl ()) as ->.
  { apply bind_cases in H as [(k1 & u & _ & H)|(e & H & _)]; [by injection H|by apply quiet_attempt in H]. }
  split; [done|]. apply attempt_skip in H as [[x H] _]. unfold handlePrepare in H. rewrite gets_bind in H.
  destruct (Z.eqb_spec (E_view k) (Pr_View p)) as [Hv|Hv].
  - rewrite <-Hv, Z.sub_diag. change (u64 0 =? 1) with false. cbn iota. rewrite with_future_id by by rewrite app_nil_r.
    by eapply answer_sends.
  - cbn [omap list_omap]. unfold reply. rewrite Ed, (proj2 (Z.eqb_neq _ _) Hv). cbn [foldl].
    destruct (u64 (Pr_View p - E_view k) =? 1); injection H as <- _; [done|].
    by rewrite with_future_id by by rewrite app_nil_r.
Qed.

(** Every queued message is handled once; those for a later view come back behind. *)
Lemma requeue_loop l kept k k' r :
  Forall is_prepare l → E_futureMsg k = l ++ kept → handleFutureMsgs NewInteractions sign self l k = Ret (k', r) →
  r = inl () ∧ k' = foldl sent (with_future (kept ++ filter (λ m, future_of (E_view k) m) l) k) (omap (reply k) l).
Proof.
  intros Hl. unfold handleFutureMsgs. revert kept k. induction Hl as [|m l Hm Hl IH]; intros kept k Hk; cbn [for_each].
  - intros [= <- <-]. cbn. by rewrite app_nil_r, with_future_id.
  - intros [(k2 & [] & Hstep & Hrun)|(e & Hstep & _)]%bind_cases.
    2: { apply bind_cases in Hstep as [(k1 & [] & _ & Hd)|(e' & Hm' & _)].
         - unfold dequeueFutureMsg in Hd. rewrite gets_bind in Hd.
           apply bind_cases in Hd as [(? & ? & _ & [=])|(? & Hd & _)]. by apply quiet_lift in Hd.
         - by apply message_quiet in Hm'. }
    apply bind_inl in Hstep as (k1 & [] & E & Hd). apply (prepare_message _ _ _ _ Hm) in E as [_ ->].
    set (f := if future_of (E_view k) m then [m] else []) in *.
    unfold dequeueFutureMsg in Hd. rewrite gets_bind in Hd. unfold mbind, eff_bind, lift in Hd.
    rewrite sent_future in Hd. cbn [E_futureMsg with_future] in Hd. rewrite Hk in Hd.
    assert (Hs : go_slice (((m :: l) ++ kept) ++ f) 1 (zlen (((m :: l) ++ kept) ++ f)) = Ret (l ++ kept ++ f)).
    { rewrite <-app_assoc. change ((m :: l) ++ ?x) with (m :: l ++ x).
      unfold go_slice, zlen. cbn [length]. rewrite (proj2 (Z.ltb_ge (Z.of_nat (S (length (l ++ kept ++ f)))) 1)) by lia.
      rewrite Z.ltb_irrefl. cbn [orb Z.ltb]. rewrite Nat2Z.id. cbn. by rewrite firstn_all. }
    rewrite Hs in Hd. injection Hd as <-. rewrite with_future_sent in Hrun.
    change (with_future (l ++ kept ++ f) (with_future ?q k)) with (with_future (l ++ kept ++ f) k) in Hrun.
    assert (Ha := sent_alike k (l ++ kept ++ f) (omap (reply k) [m])).
    set (k1 := foldl sent _ _) in Hrun.
    assert (Ek1 : k1 = foldl sent (with_future (l ++ kept ++ f) k) (omap (reply k) [m])) by reflexivity.
    clearbody k1. rewrite <-Ek1 in Ha.
    apply (IH (kept ++ f)) in Hrun as [-> ->]; [|rewrite Ek1; by rewrite sent_future].
    split; [done|].
    assert (Hr : omap (reply k1) l = omap (reply k) l).
    { apply list_omap_ext, Forall2_same_length_lookup_2; [done|]. intros i x y Hx Hy. rewrite Hx in Hy. injection Hy as <-.
      by apply reply_alike. }
    rewrite Hr, (proj1 Ha), Ek1, with_future_sent.
    change (with_future ?q (with_future _ k)) with (with_future q k). rewrite <-foldl_app, <-omap_app. cbn [app].
    f_equal. f_equal. rewrite <-app_assoc. f_equal. unfold f. rewrite filter_cons. by destruct (future_of (E_view k) m).
Qed.

Lemma future_prepare v m : future_of v m → is_prepare m.
Proof. unfold future_of, is_prepare. by destruct (IM_MsgType m). Qed.

(** C23. Future messages: a PREPARE for the view after the current one is kept, in
    order of arrival, one for the current view is answered at once, and nothing
    else is done with either.  When the next view starts, every kept message is
    handled exactly once, in order and before anything else of the view: those for
    the new view are answered, each with one attempt to send the node's signed
    views to its sender, and the failed views and batches then run on the state
    with exactly these answers sent; a message is kept again only if it is for the
    view after the new one, so nothing in the queue is ever stale.  No other event
    touches the queue. *)
Theorem future_messages ev k k' r :
  Forall is_prepare (E_futureMsg k) → main ev k = Ret (k', r) →
  Forall is_prepare (E_futureMsg k') ∧
  match ev with
  | EvTick v batches =>
      let k1 := with_view v k in
      let queue := filter (λ m, future_of v m) (E_futureMsg k) in
      E_view k' = v ∧ E_futureMsg k' = queue ∧
      (_ ← handleFailedViews self; handleBatches self batches)
        (foldl sent (with_future queue k1) (omap (reply k1) (E_futureMsg k))) = Ret (k', r)
  | EvMessage m =>
      let queue := E_futureMsg k ++ (if future_of (E_view k) m then [m] else []) in
      E_view k' = E_view k ∧ E_futureMsg k' = queue ∧
      (is_prepare m → r = inl () ∧ k' = foldl sent (with_future queue k) (omap (reply k) [m]))
  | EvClose => E_view k' = E_view k ∧ E_futureMsg k' = E_futureMsg k
  end.
Proof.
  pose proof same_queue_framed as Hf. intros Hq. destruct ev as [v batches|m|]; cbn [handler].
  - rewrite modify_bind. unfold handleNewView. rewrite gets_bind. set (k0 := with_view v k).
    intros [(k1 & [] & E & Hrest)|(e & E & _)]%bind_cases;
      apply (requeue_loop _ [] k0) in E as [E ->]; try done; [|by rewrite app_nil_r..].
    cbn [app] in *. assert (Hs : same_queue (foldl sent (with_future (filter (λ m, future_of (E_view k0) m) (E_futureMsg k0)) k0)
      (omap (reply k0) (E_futureMsg k0))) k').
    { revert r Hrest. enough (Ho : only same_queue (_ ← handleFailedViews self; handleBatches self batches))
        by (intros r' Hm; exact (Ho _ _ _ Hm)).
      apply only_bind; [apply Hf|by apply (only_failed_views _ (λ _, True))|]. intros _.
      by apply (only_batches _ (λ _, True)). }
    destruct Hs as [Hv Hs]. rewrite sent_future in Hs. rewrite Hv, Hs.
    split; [|split; [apply (sent_alike k0)|split; [done|exact Hrest]]].
    apply Forall_forall. intros m [Hm _]%list_elem_of_filter. by apply (future_prepare v).
  - intros H. pose proof (message_queue _ _ _ _ H) as [Hv Hf']. split; [|split_and!; [done|done|]].
    + rewrite Hf'. apply Forall_app. split; [done|]. destruct (future_of _ m) eqn:E; [|done].
      apply Forall_singleton, (future_prepare (E_view k)). by rewrite E.
    + intros Hm. by apply prepare_message.
  - intros H. assert (Ho : only same_queue (main EvClose)).
    + cbn [handler]. apply only_bind; [apply Hf|apply only_gets, Hf|]. intros [|c q]; [apply only_ret, Hf|].
      apply only_bind; [apply Hf| |intros _].
      * apply only_modify. done.
      * apply only_bind; [apply Hf|apply (only_log _ _ Hf)|intros _; apply (only_cleanup _ _ Hf)].
    + destruct (Ho _ _ _ H) as [Hv Hs]. by rewrite Hs.
Qed.

(** ** Account locks *)
(** What can happen on a node, in any order: the event loop, an iteration of the
    goroutine of a cluster, an agreement that hands over its tesseract, and the
    calls other modules make to lock and clear an account.  The caller of a
    handler logs its error. *)
Inductive system_event :=
| SysMain (ev : event)
| SysCluster (clusterID : ClusterID) (l : positive) (ev : ics_event)
| SysFinalized (t : option Tesseract)
| SysAddActive (addr : Address) (lockType : LockType) (clusterID : ClusterID)
| SysClearActive (addr : Address) (clusterID : ClusterID).
Definition system_step (ev : system_event) : eff Engine () :=
  match ev with
  | SysMain ev => main ev
  | SysCluster c l ev => cluster_step c l ev
  | SysFinalized t => finalizedTesseractHandler self t
  | SysAddActive a lt c => _ ← Engine_AddActiveAccount a lt c; skip
  | SysClearActive a c => Engine_ClearActiveAccount a c
  end.
Definition system_run (evs : list system_event) : eff Engine () :=
  for_each evs (λ ev, _ ← attempt (system_step ev); skip).
(** The slot behind a pointer. *)
Definition slot_at (k : Engine) (l : positive) : option Slot := slotHeap (E_slots k) !! l.
Lemma slot_at_write k l slot l' :
  slot_at (with_slots (write_slot l slot (E_slots k)) k) l'
  = if decide (l = l') then Some (assign_slot (slot_at k l) slot) else slot_at k l'.
Proof. unfold slot_at. cbn. apply lookup_insert. Qed.

(** Some slot, running or finished, was created with a lock on [a] that is
    neither read nor mutate. *)
Definition odd_slot (a : Address) (s : Slots) : Prop :=
  ∃ p slot lt, slotHeap s !! p = Some slot ∧ SL_ps slot !! a = Some lt ∧ ¬ plain lt.
Definition odd_call (a : Address) (ev : system_event) : Prop :=
  match ev with SysAddActive a' lt _ => a' = a ∧ ¬ plain lt | _ => False end.

Lemma odd_slot_write a s l slot : odd_slot a s → odd_slot a (write_slot l slot s).
Proof.
  intros (p & sl & lt & Hp & Hlt & Hn). destruct (decide (l = p)) as [<-|Hne].
  - exists l, (assign_slot (Some sl) slot), lt. split; [|by split]. cbn. by rewrite lookup_insert_eq, Hp.
  - exists p, sl, lt. split; [|by split]. cbn. by rewrite lookup_insert_ne.
Qed.
Lemma odd_slot_create a s id ty locks o s' :
  CreateSlotAndLockAccounts s id ty locks = Ret (o, s') →
  (odd_slot a s → odd_slot a s') ∧
  (o = None ∧ s' = s ∨ (∀ lt, locks !! a = Some lt → ¬ plain lt → odd_slot a s')).
Proof.
  unfold CreateSlotAndLockAccounts. intros (b & _ & H)%bind_Ret. destruct b; [injection H as <- <-; by split; [|left]|].
  destruct (put_slot s id (NewSlot ty locks)) as [l s1] eqn:E. rewrite addLocks_active in H. injection H as _ <-.
  unfold put_slot in E. injection E as <- <-. set (l := fresh (dom (slotHeap s))).
  assert (Hl : slotHeap s !! l = None) by (apply not_elem_of_dom, is_fresh). split.
  - intros (p & sl & lt & Hp & ?). exists p, sl, lt. split; [|done].
    assert (p ≠ l) by congruence. destruct ty; cbn; by rewrite lookup_insert_ne.
  - right. intros lt Hlt Hn. exists l, (NewSlot ty locks), lt. split; [|done]. destruct ty; cbn; apply lookup_insert_eq.
Qed.
Lemma odd_slot_cleanup a s id s' : CleanupSlot s id = Ret s' → odd_slot a s → odd_slot a s'.
Proof.
  unfold CleanupSlot. destruct (slots s !! id) as [l|]; [|by intros [= <-]].
  intros (slot & Hsl & H)%bind_Ret (p & sl & lt & Hp & ?). destruct (SL_BftInboundClosed slot); [done|].
  injection H as <-. destruct (slotHeap s !! l) as [x|] eqn:E; [|done]. injection Hsl as ->.
  destruct (decide (l = p)) as [<-|Hne].
  - rewrite E in Hp. injection Hp as ->. exists l, (closeInbound sl), lt. split; [|done].
    destruct (SL_SlotType sl); cbn; apply lookup_insert_eq.
  - exists p, sl, lt. split; [|done]. destruct (SL_SlotType slot); cbn; by rewrite lookup_insert_ne.
Qed.

(** The locks of [a] stay in order, unless an odd lock is asked for it. *)
Definition in_order (a : Address) (k : Engine) : Prop :=
  odd_slot a (E_slots k) ∨ account_ok (activeAccounts (E_slots k)) a.
Definition locks_kept (a : Address) (k k' : Engine) : Prop :=
  (odd_slot a (E_slots k) → odd_slot a (E_slots k')) ∧ (in_order a k → in_order a k').
Lemma locks_framed a : framed (λ _, True) (locks_kept a).
Proof.
  split; try (intros; split; intros Ht; exact Ht).
  - split; [intros k; by split|]. intros k1 k2 k3 [A1 B1] [A2 B2]. split; tauto.
  - intros k l slot. pose proof (odd_slot_write a (E_slots k) l slot) as H. split; [exact H|].
    intros [Ho|Ho]; [left; exact (H Ho)|right; exact Ho].
  - intros k id ty locks o s _ H. destruct (odd_slot_create a _ _ _ _ _ _ H) as [Hm Ho]. split; [exact Hm|].
    intros [?|Ha]; [left; by apply Hm|]. destruct Ho as [[_ ->]|Ho]; [by right|].
    destruct (locks !! a) as [lt|] eqn:El.
    + destruct (decide (lt = MutateLock ∨ lt = ReadLock)) as [Hp|Hp]; [right|left; by eapply Ho].
      eapply create_account; [exact Ha| |exact H]. intros lt' Hlt. rewrite El in Hlt. by injection Hlt as <-.
    + right. eapply create_account; [exact Ha| |exact H]. by rewrite El.
  - intros k id s H. pose proof (odd_slot_cleanup a _ _ _ H) as Hm. split; [exact Hm|].
    intros [Ho|Ha]; [left; exact (Hm Ho)|right]. by eapply cleanup_account.
Qed.
#[local] Instance locks_kept_preorder a : PreOrder (locks_kept a) := fr_pre _ _ (locks_framed a).

Lemma system_step_locks a ev k k' r :
  system_step ev k = Ret (k', r) → ¬ odd_call a ev → locks_kept a k k'.
Proof.
  intros H Hev. pose proof (locks_framed a) as Hf. destruct ev as [ev|c l ev|t|x lt c|x c]; cbn [system_step] in H.
  - refine (only_handler _ _ _ (λ _, True) _ _ _ _ Hf _ _ _ _ _ _ H); try done; intros ? ?; by split.
  - refine (only_ics _ _ _ _ _ _ _ _ (λ _, True) _ Hf _ _ _ _ _ _ _ H). intros ? ?; by split.
  - by apply (only_finalized _ (λ _, True) _ Hf) in H.
  - unfold Engine_AddActiveAccount in H. apply bind_cases in H as [(k1 & b & H & Hs)|(e & H & _)].
    2: { exfalso. rewrite gets_bind in H. unfold mbind, eff_bind, lift in H. by destruct (AddActiveAccount _ _ _ _) as [[]| |]. }
    injection Hs as <- _. rewrite gets_bind in H. unfold mbind, eff_bind, lift in H.
    destruct (AddActiveAccount _ _ _ _) as [[b' s]| |] eqn:E; [|done..]. injection H as <- _.
    assert (Hh : slotHeap s = slotHeap (E_slots k)).
    { unfold AddActiveAccount in E. apply bind_Ret in E as (act & _ & E). by destruct act; injection E as _ <-. }
    split; unfold in_order, odd_slot; cbn [E_slots with_slots]; rewrite Hh; [done|].
    intros [Ho|Ha]; [by left|]. destruct (decide (lt = MutateLock ∨ lt = ReadLock)) as [Hp|Hp].
    + right. eapply add_account; [exact Ha| |exact E]. by intros _.
    + right. eapply add_account; [exact Ha| |exact E]. intros ->. by destruct Hev.
  - unfold Engine_ClearActiveAccount in H. rewrite gets_bind in H. injection H as <- _.
    assert (Hh : slotHeap (ClearActiveAccount (E_slots k) x c) = slotHeap (E_slots k)).
    { unfold ClearActiveAccount. by destruct (default _ _) as [|? [|]]. }
    split; unfold in_order, odd_slot; cbn [E_slots with_slots]; rewrite Hh; [done|].
    intros [Ho|Ha]; [by left|right]. by apply clear_account.
Qed.

Lemma odd_calls a evs :
  Forall (λ ev, ¬ odd_call a ev) evs ∨ ∃ lt c, SysAddActive a lt c ∈ evs ∧ ¬ plain lt.
Proof.
  induction evs as [|ev evs [IH|(lt & c & Hin & Hn)]]; [by left| |right; exists lt, c; split; [by right|done]].
  assert (Hd : odd_call a ev ∨ ¬ odd_call a ev).
  { destruct ev as [| | |a' lt c|]; cbn; try (by right; intros []).
    destruct (decide (a' = a ∧ lt ≠ MutateLock ∧ lt ≠ ReadLock)) as [(? & ? & ?)|Hn]; [left|right].
    - split; [done|]. by intros [?|?].
    - intros [? Hp]. apply Hn. split_and!; [done|intros ->; apply Hp; by left|intros ->; apply Hp; by right]. }
  destruct Hd as [Hd|Hd]; [|by left; constructor]. right. destruct ev as [| | |a' lt c|]; try done.
  destruct Hd as [-> Hn]. exists lt, c. split; [by left|done].
Qed.

(** C18. Account locks of a whole node: whatever messages, view changes, cluster
    events, finalized tesseracts and lock calls happen in whatever order, the locks
    recorded for an account are one mutate lock or a non-empty list of read locks,
    unless a lock that is neither was asked for that very account: by a slot, which
    a PROPOSAL from the network may create with any lock, or by a call of
    [AddActiveAccount].  What is asked for other accounts does not matter. *)
Theorem engine_locks_exclusive evs k k' r a l :
  (∀ l0, activeAccounts (E_slots k) !! a = Some l0 → exclusive l0) →
  system_run evs k = Ret (k', r) →
  activeAccounts (E_slots k') !! a = Some l →
  exclusive l ∨
  (∃ p slot lt, slot_at k' p = Some slot ∧ SL_ps slot !! a = Some lt ∧ ¬ plain lt) ∨
  (∃ lt c, SysAddActive a lt c ∈ evs ∧ ¬ plain lt).
Proof.
  intros Hk Hrun Hl. destruct (odd_calls a evs) as [Hno|?]; [|by right; right].
  assert (Hin : in_order a k') ; [|destruct Hin as [Ho|Ha]; [right; by left|left; by apply Ha]].
  assert (Hok : in_order a k) by (by right). clear Hk Hl.
  revert k Hok Hrun. induction Hno as [|ev evs Hev _ IH]; intros k Hok Hrun; [by injection Hrun as <- _|].
  apply bind_cases in Hrun as [(k1 & [] & H1 & H2)|(e & H1 & _)].
  2: { by apply (quiet_bind _ _ (quiet_attempt _) (λ _, quiet_ret _)) in H1. }
  apply attempt_skip in H1 as [[x H1] _]. eapply IH; [|exact H2]. by eapply system_step_locks.
Qed.

(** ** Starting an agreement *)
Notation prepared := (handlePrepared signatureVerifier vrfEvaluate self trustedPeers debugMode).

Definition same_bfts (k k' : Engine) : Prop := E_bfts k' = E_bfts k.
Lemma same_bfts_framed : framed (λ _, True) same_bfts.
Proof. split; try done. split; [done|]. intros a b c H1 H2. unfold same_bfts in *. congruence. Qed.

Lemma read_slot_inl l (k k' : Engine) slot :
  read_slot l k = Ret (k', inl slot) ↔ k' = k ∧ slot_at k l = Some slot.
Proof.
  unfold read_slot, slot_at. rewrite gets_bind, lift_inl. destruct (_ !! l); cbn; split; intros [-> H]; try done.
  - by injection H as ->.
  - by injection H as ->.
Qed.
Lemma read_cs_inl l (k k' : Engine) cs :
  read_cs l k = Ret (k', inl cs) → k' = k ∧ ∃ slot, slot_at k l = Some slot ∧ SL_cs slot = Some cs.
Proof.
  unfold read_cs. intros (k1 & slot & H1 & H2)%bind_inl. apply read_slot_inl in H1 as [-> H1].
  apply lift_inl in H2 as [-> H2]. split; [done|]. exists slot. split; [done|].
  destruct (SL_cs slot); [|done]. by injection H2 as ->.
Qed.
Lemma write_cs_inl l cs (k k' : Engine) u :
  write_cs l cs k = Ret (k', inl u) →
  ∃ slot, slot_at k l = Some slot ∧
    k' = with_slots (write_slot l (UpdateClusterState slot (Some cs)) (E_slots k)) k.
Proof.
  unfold write_cs, update_slot. intros (k1 & slot & H1 & H2)%bind_inl. apply read_slot_inl in H1 as [-> H1].
  apply modify_inl in H2 as ->. by exists slot.
Qed.
(** What the leader has checked when the agreement of slot [l] is started. *)
Record quorum_reached (k : Engine) (clusterID : ClusterID) (msg : Prepared) (sender : KramaID)
    (l : positive) (cs2 : ClusterState) : Prop := {
  qr_view : Pd_View msg = E_view k;
  qr_slot : slots (E_slots k) !! clusterID = Some l;
  qr_member : ∃ slot cs index key raw cs1 c,
    slot_at k l = Some slot ∧ SL_cs slot = Some cs ∧
    ClusterHasKramaID cs sender = (index, key, false) ∧ index ≠ -1 ∧
    Prepared_SignBytes msg = inl raw ∧ Verify raw (Pd_Signature msg) key = (true, None) ∧
    updateHighestVI signatureVerifier (E_world k) (E_db k) cs (Pd_Infos msg) = Ret (cs1, None) ∧
    UpdateNodePreparedMsg (committee cs1) sender msg = Ret c ∧ cs2 = set_committee c cs1;
  qr_quorums : ClusterIsContextQuorum cs2 = Ret true ∧ ClusterIsRandomQuorum cs2 = Ret true;
}.

Lemma recordPrepared_quorum clusterID msg sender k k' l cs2 :
  recordPrepared signatureVerifier clusterID msg sender k = Ret (k', inl (Some (l, cs2))) →
  quorum_reached k clusterID msg sender l cs2.
Proof.
  unfold recordPrepared. rewrite gets_bind. destruct (Z.eqb_spec (E_view k) (Pd_View msg)) as [Hv|]; [|done].
  cbn [negb]. unfold find_slot. intros H.
  apply bind_inl in H as (k1 & o & Ho & H). eff_atom Ho. apply bind_inl in H as (k1 & l0 & Hl & H). eff_atom Hl.
  apply bind_inl in H as (k1 & cs & Hcs & H). apply read_cs_inl in Hcs as [-> (slot & Hslot & Hcs)].
  destruct (ClusterHasKramaID cs sender) as [[index key] conflict] eqn:Ehas.
  destruct conflict; [done|]. destruct (Z.eqb_spec index (-1)) as [|Hidx]; [done|].
  apply bind_inl in H as (k1 & raw & Hraw & H). eff_atom Hraw.
  destruct (Verify raw (Pd_Signature msg) key) as [verified e] eqn:Ever.
  destruct verified, e; cbn [negb orb is_some] in H; try done.
  apply bind_inl in H as (k1 & k0 & Hk & H). eff_atom Hk. cbn [id] in H.
  apply bind_inl in H as (k1 & [cs1 e1] & Hup & H). eff_atom Hup.
  apply bind_inl in H as (k1 & ? & _ & H). apply bind_inl in H as (k2 & ? & Hc & H). eff_atom Hc.
  destruct e1 as [e1|]; [done|].
  apply bind_inl in H as (k2 & c & Hset & H). eff_atom Hset. apply bind_inl in H as (k2 & ? & _ & H).
  apply bind_inl in H as (k3 & cq & Hcq & H). eff_atom Hcq. destruct cq; [|done]. cbn [negb] in H.
  apply bind_inl in H as (k3 & rq & Hrq & H). eff_atom Hrq. destruct rq; [|done].
  injection H as _ <- <-. split; [done| | |done].
  - destruct (slots (E_slots k) !! clusterID); [|done]. by injection Hl as ->.
  - exists slot, cs, index, key, raw, cs1, c. split_and!; done.
Qed.

(** [write_cs] and what comes before the proposal keep the rest of the slot. *)
Definition same_stage (l : positive) (k k' : Engine) : Prop :=
  slots (E_slots k') = slots (E_slots k) ∧ activeAccounts (E_slots k') = activeAccounts (E_slots k) ∧
  E_bfts k' = E_bfts k ∧ E_handlers k' = E_handlers k ∧ E_closing k' = E_closing k ∧
  (∀ slot, slot_at k l = Some slot → ∃ slot', slot_at k' l = Some slot' ∧
     SL_Stage slot' = SL_Stage slot ∧ SL_Msgs slot' = SL_Msgs slot).
#[local] Instance same_stage_preorder l : PreOrder (same_stage l).
Proof.
  split.
  - intros k. split_and!; try done. intros slot H. by exists slot.
  - intros a b c (?&?&?&?&?&Hab) (?&?&?&?&?&Hbc). split_and!; try congruence.
    intros slot Hsl. destruct (Hab _ Hsl) as (s1 & Hs1 & ? & ?). destruct (Hbc _ Hs1) as (s2 & Hs2 & ? & ?).
    exists s2. split_and!; congruence.
Qed.
Lemma only_write_stage l l' cs : only (same_stage l) (write_cs l' cs).
Proof.
  intros k k' r H. apply bind_cases in H as [(k1 & slot & Hr & H)|(e & Hr & _)].
  - apply read_slot_inl in Hr as [-> Hr]. injection H as <- _. split_and!; try done.
    intros slot0 H0. rewrite slot_at_write. case_decide as Hd; [subst l'|by exists slot0].
    eexists. split; [done|]. rewrite H0 in Hr. by injection Hr as ->.
  - unfold read_slot in Hr. rewrite gets_bind in Hr. by apply quiet_lift in Hr.
Qed.
Lemma only_record_stage l c m s : only (same_stage l) (recordPrepared signatureVerifier c m s).
Proof.
  pose proof only_write_stage. unfold recordPrepared, find_slot, read_cs, read_slot. only_steps.
Qed.

(** The table, the agreements and the goroutines are the same. *)
Definition holds_on (k k' : Engine) : Prop :=
  slots (E_slots k') = slots (E_slots k) ∧ activeAccounts (E_slots k') = activeAccounts (E_slots k) ∧
  E_bfts k' = E_bfts k ∧ E_handlers k' = E_handlers k ∧ E_closing k' = E_closing k.

Lemma same_stage_modify l (f : Engine → Engine) :
  (∀ k, E_slots (f k) = E_slots k) → (∀ k, E_bfts (f k) = E_bfts k) → (∀ k, E_handlers (f k) = E_handlers k) →
  (∀ k, E_closing (f k) = E_closing k) → only (same_stage l) (modify f).
Proof.
  intros Hs Hb Hh Hc. apply only_modify. intros k. unfold same_stage, slot_at. rewrite Hs, Hb, Hh, Hc.
  split_and!; try done. intros slot H. by exists slot.
Qed.
Lemma only_on_cluster_stage l {A} (m : eff Cluster A) : only (same_stage l) (on_cluster l m).
Proof.
  pose proof (only_write_stage l l). pose proof (same_stage_modify l).
  unfold on_cluster, read_cs, read_slot. only_steps.
Qed.

(** The proposal sets the stage, whatever comes of it. *)
Lemma propose_stage l cs k k' r slot :
  slot_at k l = Some slot → propose vrfEvaluate self trustedPeers debugMode l cs k = Ret (k', r) →
  holds_on k k' ∧ ∃ slot', slot_at k' l = Some slot' ∧ SL_Stage slot' = (if SL_Stage slot =? 0 then 1 else SL_Stage slot) ∧
    SL_Msgs slot' = SL_Msgs slot ∧ (SL_Stage slot ≠ 0 → r = inl false).
Proof.
  intros Hslot. unfold propose. intros [(k1 & s1 & Hr & H)|(e & Hr & _)]%bind_cases.
  2: { unfold read_slot in Hr. rewrite gets_bind in Hr. by apply quiet_lift in Hr. }
  apply read_slot_inl in Hr as [-> Hr]. rewrite Hslot in Hr. injection Hr as <-.
  unfold StageCompareAndSwap in H. destruct (Z.eqb_spec (SL_Stage slot) 0) as [H0|H0].
  - unfold update_slot in H. rewrite modify_bind in H. cbn [negb] in H. revert H.
    match goal with |- ?m ?k1 = _ → _ => enough (Ho : only (same_stage l) m); [intros H; specialize (Ho _ _ _ H)|] end.
    + destruct Ho as (?&?&?&?&?&Ho). destruct (Ho _ ltac:(by rewrite slot_at_write, decide_True)) as (s' & Hs' & Hst & Hm).
      split; [by split_and!|]. exists s'. rewrite Hst, Hm. done.
    + pose proof (only_write_stage l l). pose proof (@only_on_cluster_stage l). pose proof (same_stage_modify l).
      unfold read_cs, read_slot, alloc_ts. only_steps.
  - unfold update_slot in H. rewrite modify_bind in H. cbn [negb] in H. injection H as <- <-.
    split; [by split_and!|]. exists (assign_slot (Some slot) slot). by rewrite slot_at_write, decide_True, Hslot.
Qed.

(** The slot [l] of a cluster, past its first stage, with the messages [ms] waiting. *)
Definition taken (clusterID : ClusterID) (l : positive) (ms : list ConsensusMessage) (k : Engine) : Prop :=
  slots (E_slots k) !! clusterID = Some l ∧
  ∃ slot, slot_at k l = Some slot ∧ SL_Stage slot ≠ 0 ∧ SL_Msgs slot = ms.
Lemma taken_prepared c l ms m s k k' r :
  taken c l ms k → prepared c m s k = Ret (k', r) → holds_on k k' ∧ taken c l ms k'.
Proof.
  intros [Hs (slot & Hslot & Hst & Hm)]. unfold handlePrepared.
  intros [(k1 & o & Hp & H)|(e & Hp & _)]%bind_cases;
    pose proof (only_record_stage l _ _ _ _ _ _ Hp) as (Hs1&Ha1&Hb1&Hh1&Hc1&Hl1);
    destruct (Hl1 _ Hslot) as (slot1 & Hslot1 & Hst1 & Hm1).
  2: { split; [by split_and!|]. split; [congruence|]. exists slot1. split_and!; congruence. }
  destruct o as [[l1 cs]|].
  2: { injection H as <- _. split; [by split_and!|]. split; [congruence|]. exists slot1. split_and!; congruence. }
  apply recordPrepared_quorum in Hp. pose proof (qr_slot _ _ _ _ _ _ Hp) as Hl. rewrite Hs in Hl. injection Hl as <-.
  apply bind_cases in H as [(k2 & go_on & Hpr & H)|(e & Hpr & _)];
    destruct (propose_stage _ _ _ _ _ _ Hslot1 Hpr) as ((Hs2&Ha2&Hb2&Hh2&Hc2) & slot2 & Hslot2 & Hst2 & Hm2 & Hgo);
    specialize (Hgo ltac:(congruence)); [|done].
  injection Hgo as ->. injection H as <- _. split; [split_and!; congruence|]. split; [congruence|].
  exists slot2. rewrite Hst2, (proj2 (Z.eqb_neq _ _)) by congruence. split_and!; congruence.
Qed.
(** PREPARED messages of one cluster, in the order they are handled. *)
Definition prepared_run (clusterID : ClusterID) (msgs : list (Prepared * KramaID)) : eff Engine () :=
  for_each msgs (λ '(msg, sender), _ ← attempt (prepared clusterID msg sender); skip).
Lemma taken_run c l ms msgs k k' r :
  taken c l ms k → prepared_run c msgs k = Ret (k', r) → holds_on k k' ∧ taken c l ms k'.
Proof.
  unfold prepared_run. revert k. induction msgs as [|[m s] msgs IH]; intros k Hk Hrun.
  - injection Hrun as <- _. split; [by split_and!|done].
  - cbn [for_each] in Hrun. apply bind_cases in Hrun as [(k2 & [] & H1 & H2)|(e & H1 & _)].
    2: { by apply (quiet_bind _ _ (quiet_attempt _) (λ _, quiet_ret _)) in H1. }
    apply attempt_skip in H1 as [[x H1] _]. destruct (taken_prepared _ _ _ _ _ _ _ _ Hk H1) as [(?&?&?&?&?) Hk2].
    destruct (IH _ Hk2 H2) as [(?&?&?&?&?) Hk']. split; [split_and!; congruence|done].
Qed.

(** An agreement is started as the last thing, or nothing is changed. *)
Lemma start_bft_adds l op k k' r :
  start_bft l op k = Ret (k', r) → E_bfts k' ≠ E_bfts k →
  r = inl () ∧ ∃ kb, k' = with_bfts (E_bfts k ++ [(l, kb)]) k ∧ K_operator kb = op.
Proof.
  intros H Hne. destruct r as [[]|e].
  2: { exfalso. revert H. unfold start_bft, read_cs, read_slot. apply quiet_bind; [quiets|intros; quiets]. }
  split; [done|]. unfold start_bft in H.
  apply bind_inl in H as (k3 & cs3 & Hcs & H). apply read_cs_inl in Hcs as [-> _].
  eff_steps H. eexists. split; [done|]. done.
Qed.

(** C14. The leader starts an agreement only with a quorum, and once for a slot: a
    PREPARED message that makes an agreement start was for the current view, came
    from a member of the committee with a valid signature, completed the quorum of
    every participant's context and of the random set, and found the stage of its
    slot 0; exactly one agreement is added, for that slot and led by the node, the
    stage is 1 from then on, and whatever PREPARED messages of the cluster follow,
    no other agreement is started. *)
Theorem handlePrepared_starts clusterID msg sender k k' r :
  prepared clusterID msg sender k = Ret (k', r) → E_bfts k' ≠ E_bfts k →
  r = inl () ∧ ∃ l cs slot slot' kb, quorum_reached k clusterID msg sender l cs ∧
    slot_at k l = Some slot ∧ SL_Stage slot = 0 ∧
    E_bfts k' = E_bfts k ++ [(l, kb)] ∧ K_operator kb = self ∧
    slot_at k' l = Some slot' ∧ SL_Stage slot' = 1 ∧
    ∀ msgs k'' r'', prepared_run clusterID msgs k' = Ret (k'', r'') → E_bfts k'' = E_bfts k'.
Proof.
  pose proof same_bfts_framed as Hf. unfold handlePrepared. intros H Hne.
  apply bind_cases in H as [(k1 & o & Hp & H)|(e & Hp & _)].
  2: { by apply (only_recordPrepared _ _ _ Hf) in Hp. }
  destruct o as [[l cs]|].
  2: { injection H as <- _. destruct Hne. exact (only_recordPrepared _ _ _ Hf _ _ _ _ _ _ Hp). }
  pose proof (only_record_stage l _ _ _ _ _ _ Hp) as (Hs1 & _ & Hb & _ & _ & Hst).
  apply recordPrepared_quorum in Hp as Hq.
  destruct (qr_member _ _ _ _ _ _ Hq) as (slot & cs0 & index & key & raw & cs1 & c & Hslot & _).
  destruct (Hst _ Hslot) as (slot1 & Hslot1 & Hst1 & _).
  apply bind_cases in H as [(k2 & go_on & Hpr & H)|(e & Hpr & _)];
    destruct (propose_stage _ _ _ _ _ _ Hslot1 Hpr) as ((Hs2 & _ & Hb2 & _) & slot2 & Hslot2 & Hst2 & _ & Hgo); [|congruence].
  destruct go_on; [|injection H as <- _; congruence].
  destruct (Z.eqb_spec (SL_Stage slot1) 0) as [H0|H0]; [|by specialize (Hgo H0)].
  apply start_bft_adds in H as [-> (kb & -> & Hop)]; [|congruence].
  split; [done|]. exists l, cs, slot, slot2, kb. split_and!; try done; [congruence|cbn; congruence|].
  intros msgs k'' r'' Hrun. eapply (taken_run _ l (SL_Msgs slot2)) in Hrun as [(_ & _ & Hbs & _) _]; [exact Hbs|].
  split; [|exists slot2; split_and!; [done|lia|done]].
  cbn. rewrite Hs2, Hs1. exact (qr_slot _ _ _ _ _ _ Hq).
Qed.

(** ** A cluster whose proposal failed *)
Definition is_prepared (m : ConsensusMessage) : Prop := ∃ p, CM_Payload m = PayloadPrepared p.
(** The slot [l] of a cluster is taken but no timeout closes it. *)
Definition stalled (clusterID : ClusterID) (l : positive) (k : Engine) : Prop :=
  slots (E_slots k) !! clusterID = Some l ∧
  ∃ slot, slot_at k l = Some slot ∧ SL_Stage slot ≠ 0 ∧ Forall is_prepared (SL_Msgs slot).
Lemma stalled_prepared c l m s k k' r :
  stalled c l k → prepared c m s k = Ret (k', r) → holds_on k k' ∧ stalled c l k'.
Proof.
  intros [Hs (slot & Hslot & Hst & Hm)] H.
  destruct (taken_prepared c l (SL_Msgs slot) _ _ _ _ _ ltac:(split; [done|by exists slot]) H) as [Hh [Hs' (sl & ? & ? & Hms)]].
  split; [exact Hh|]. split; [exact Hs'|]. exists sl. by rewrite Hms.
Qed.

(** The timeouts of the cluster and the messages waiting in its slot. *)
Definition waiting (ev : ics_event) : Prop := ev = IcsTimeout ∨ ev = IcsMsg.
Definition cluster_run (clusterID : ClusterID) (l : positive) (evs : list ics_event) : eff Engine () :=
  for_each evs (λ ev, _ ← attempt (cluster_step clusterID l ev); skip).

Lemma stalled_step c l ev k k' r :
  waiting ev → stalled c l k → cluster_step c l ev k = Ret (k', r) → holds_on k k' ∧ stalled c l k'.
Proof.
  intros Hev Hk. pose proof Hk as [Hs (slot & Hslot & Hst & Hm)]. assert (Hsame : holds_on k k) by by split_and!.
  assert (Hread : read_slot l k = Ret (k, inl slot)) by by apply read_slot_inl.
  unfold icsHandler, ics_body. destruct Hev as [->| ->]; cbn [mbind].
  - intros [(k1 & b & Hb & H)|(e & Hb & _)]%bind_cases; rewrite (bind_run _ _ _ _ _ Hread) in Hb; [|done].
    injection Hb as <- <-. rewrite (proj2 (Z.eqb_neq _ _) Hst) in H. by injection H as <- _.
  - intros [(k1 & b & Hb & H)|(e & Hb & _)]%bind_cases; rewrite (bind_run _ _ _ _ _ Hread) in Hb.
    2: { destruct (SL_Msgs slot) as [|m ms] eqn:Em; [done|]. apply Forall_cons in Hm as [[p Hpay] _].
         unfold update_slot in Hb. rewrite modify_bind, Hpay in Hb.
         by apply (quiet_bind _ _ (quiet_attempt _) (λ _, quiet_ret _)) in Hb. }
    destruct (SL_Msgs slot) as [|m ms] eqn:Em; [by injection Hb as <- <-; injection H as <- _|].
    apply Forall_cons in Hm as [[p Hpay] Hm]. unfold update_slot in Hb. rewrite modify_bind, Hpay in Hb.
    apply bind_inl in Hb as (k2 & x & Hp & Hb). injection Hb as <- <-. injection H as <- _.
    unfold attempt in Hp. destruct (prepared _ _ _ _) as [[k3 y]| |] eqn:E; [|done..]. injection Hp as -> _.
    apply (stalled_prepared _ l) in E as [(?&?&?&?&?) Hk2]; [split; [by split_and!|done]|].
    split; [done|]. eexists. rewrite slot_at_write, decide_True by done. done.
Qed.

(** C24. A cluster whose proposal fails is stuck for ever: once the quorum of PREPARED
    messages has been recorded without an agreement being started (the proposal
    was refused, an account's tesseract is missing or is ahead), its timeouts and
    all further PREPARED messages change nothing: no agreement is started, the
    cluster's goroutine does not end, its slot stays in the table and its
    accounts stay locked. *)
Theorem failed_proposal_stalls clusterID msg sender l cs k k0 k1 r evs k' r' slot :
  recordPrepared signatureVerifier clusterID msg sender k = Ret (k0, inl (Some (l, cs))) →
  prepared clusterID msg sender k = Ret (k1, r) → E_bfts k1 = E_bfts k →
  slot_at k l = Some slot → Forall is_prepared (SL_Msgs slot) →
  Forall waiting evs → cluster_run clusterID l evs k1 = Ret (k', r') →
  E_bfts k' = E_bfts k ∧ E_handlers k' = E_handlers k ∧ E_closing k' = E_closing k ∧
  slots (E_slots k') !! clusterID = Some l ∧ activeAccounts (E_slots k') = activeAccounts (E_slots k).
Proof.
  intros Hrec Hprep Hb Hslot Hm Hevs Hrun.
  assert (H1 : holds_on k k1 ∧ stalled clusterID l k1).
  { pose proof (only_record_stage l _ _ _ _ _ _ Hrec) as (Hs1&Ha1&Hb1&Hh1&Hc1&Hl1).
    destruct (Hl1 _ Hslot) as (slot1 & Hslot1 & Hst1 & Hm1).
    apply recordPrepared_quorum in Hrec as Hq. pose proof (qr_slot _ _ _ _ _ _ Hq) as Hl.
    unfold handlePrepared in Hprep. rewrite (bind_run _ _ _ _ _ Hrec) in Hprep.
    apply bind_cases in Hprep as [(k2 & go_on & Hpr & H)|(e & Hpr & _)];
      destruct (propose_stage _ _ _ _ _ _ Hslot1 Hpr) as ((Hs2&Ha2&Hb2&Hh2&Hc2) & slot2 & Hslot2 & Hst2 & Hm2 & _);
      assert (Hn2 : SL_Stage slot2 ≠ 0) by (rewrite Hst2; by destruct (Z.eqb_spec (SL_Stage slot1) 0)).
    - destruct go_on.
      + exfalso. unfold start_bft in H. destruct r as [[]|e].
        * apply bind_inl in H as (k3 & cs3 & Hcs & H). apply read_cs_inl in Hcs as [-> _]. eff_steps H.
          apply (f_equal length) in Hb. cbn in Hb. rewrite Hb2, Hb1, length_app in Hb. cbn in Hb. lia.
        * revert H. unfold read_cs, read_slot. apply quiet_bind; [quiets|intros; quiets].
      + injection H as <- _. split; [split_and!; congruence|]. split; [congruence|].
        exists slot2. by rewrite Hm2, Hm1.
    - split; [split_and!; congruence|]. split; [congruence|]. exists slot2. by rewrite Hm2, Hm1. }
  destruct H1 as [Hh Hk1]. clear Hrec Hprep Hb Hslot Hm.
  enough (H2 : holds_on k1 k' ∧ stalled clusterID l k').
  { destruct Hh as (?&?&?&?&?), H2 as [(?&?&?&?&?) [? _]]. split_and!; congruence. }
  clear Hh. revert k1 Hk1 Hrun. induction Hevs as [|ev evs Hev Hevs IH]; intros k1 Hk1 Hrun.
  - injection Hrun as <- _. split; [by split_and!|done].
  - apply bind_cases in Hrun as [(k2 & [] & H1 & H2)|(e & H1 & _)].
    2: { by apply (quiet_bind _ _ (quiet_attempt _) (λ _, quiet_ret _)) in H1. }
    apply attempt_skip in H1 as [[x H1] _]. destruct (stalled_step _ _ _ _ _ _ Hev Hk1 H1) as [(?&?&?&?&?) Hk2].
    destruct (IH _ Hk2 H2) as [(?&?&?&?&?) Hk']. split; [split_and!; congruence|done].
Qed.
End Engine.
