(* ===== verification/ConcreteEngine.v ===== *)
(** * A concrete node for the witnesses of the engine's theorems

    Tesseracts that keep every argument of their constructor, a chain state with
    the contexts of two accounts and a set of known tesseracts, an execution that
    leaves its transition alone, a network that delivers everything, and codecs.
    Hashes, bit arrays and signatures are those of [Concrete.v]. *)

From stdpp Require Import base gmap strings list countable sorting.
From Stdlib Require Import ZArith Lia Strings.Byte.
From S2P Require Import Prelude Effect External Chain Types Concrete NodeSet Committee Cluster Validation VoteSet HeightVoteSet Scenario ConcreteChain Sortition Execution Safety Views Ticker Kbft Slots Engine.

#[local] Existing Instances CE CX CE_bits CCanon.

(** ** Tesseracts *)
Record XTesseract := {
  xt_ps : gmap Z (@PState CE);
  xt_ixh : Z; xt_rh : Z; xt_epoch : Z; xt_time : Z; xt_used : Z; xt_limit : Z;
  xt_poxt : @PoXtData CE;
  xt_sealer : KramaID;
  xt_ixs : list Z;
  xt_receipts : Z;
  xt_commit : @CommitInfo CE;
  xt_seal : bytes;
}.
Definition xt_hash (t : XTesseract) : Z := xt_ixh t + 100 * xt_rh t + 10000 * @CI_View CE (xt_commit t).
Definition xt_set_commit (ci : @CommitInfo CE) (t : XTesseract) : XTesseract :=
  {| xt_ps := xt_ps t; xt_ixh := xt_ixh t; xt_rh := xt_rh t; xt_epoch := xt_epoch t; xt_time := xt_time t;
     xt_used := xt_used t; xt_limit := xt_limit t; xt_poxt := xt_poxt t; xt_sealer := xt_sealer t;
     xt_ixs := xt_ixs t; xt_receipts := xt_receipts t; xt_commit := ci; xt_seal := xt_seal t |}.
Definition xt_sealed (s : bytes) (k : KramaID) (t : XTesseract) : XTesseract :=
  {| xt_ps := xt_ps t; xt_ixh := xt_ixh t; xt_rh := xt_rh t; xt_epoch := xt_epoch t; xt_time := xt_time t;
     xt_used := xt_used t; xt_limit := xt_limit t; xt_poxt := xt_poxt t; xt_sealer := k;
     xt_ixs := xt_ixs t; xt_receipts := xt_receipts t; xt_commit := xt_commit t; xt_seal := s |}.
Definition xt_set_receipts (t : XTesseract) (r : Z) : XTesseract :=
  {| xt_ps := xt_ps t; xt_ixh := xt_ixh t; xt_rh := xt_rh t; xt_epoch := xt_epoch t; xt_time := xt_time t;
     xt_used := xt_used t; xt_limit := xt_limit t; xt_poxt := xt_poxt t; xt_sealer := xt_sealer t;
     xt_ixs := xt_ixs t; xt_receipts := r; xt_commit := xt_commit t; xt_seal := xt_seal t |}.
Definition xt_set_qc (t : XTesseract) (q : @Qc CE) : XTesseract :=
  let ci := xt_commit t in
  xt_set_commit (@Build_CommitInfo CE (Some q) (CI_RandomSet ci) (CI_RandomSetSizeWithoutDelta ci)
    (CI_Operator ci) (CI_ClusterID ci) (CI_View ci)) t.

Definition xt_locks (t : XTesseract) : gmap Z LockType := @PX_AccountLocks CE (xt_poxt t).
Definition xt_info (t : XTesseract) : @PoXtData CE :=
  let p := xt_poxt t in
  @Build_PoXtData CE (PX_Proposer p) (PX_View p) (PX_LastCommit p) (xt_locks t) (PX_ICSSeed p) (PX_ICSProof p).

Definition XTO : TesseractOps CE :=
  @Build_TesseractOps CE XTesseract xt_hash (λ t, @PS_Height CE <$> xt_ps t) (λ t h, xt_hash t =? h)
    (λ t, @CI_ClusterID CE (xt_commit t)) xt_locks (λ t, zlen (xt_ixs t))
    (λ t, inl [cbyte (xt_hash t)]) xt_set_qc (λ t s, xt_sealed s (xt_sealer t) t)
    (λ t k, xt_sealed (xt_seal t) k t) (λ t, t).
Lemma XTO_laws : TesseractLaws CE XTO.
Proof. split; try done. intros t h. cbn. by rewrite Z.eqb_eq. Qed.

Definition XTV : TesseractView CE CX XTO := @Build_TesseractView CE CX XTO
  (λ t, (map_to_list (xt_ps t)).*1) (λ t, xt_ps t) (λ _ _, false) (λ t, @CI_View CE (xt_commit t))
  (λ t, Some (xt_commit t))
  (λ t a, match xt_ps t !! a with Some p => @PS_Height CE p | None => 0 end)
  (λ t a, match xt_ps t !! a with Some p => @PS_TransitiveLink CE p | None => 0 end)
  xt_time (λ t, xt_ixs t) xt_ixh xt_rh (λ t, @CI_Operator CE (xt_commit t)) (λ _, []).

(** ** The chain *)
Record XWorld := { xw_contexts : gmap Z (list KramaID); xw_known : gmap Z XTesseract }.

Definition XCH : Chain CE CX XTO CIX := @Build_Chain CE CX XTO CIX
  XWorld 0 Z
  (λ w a, match xw_contexts w !! a with
          | Some _ => inl (@Build_AccountMetaInfo CE 0 4 0 0 1 1)
          | None => inr (ECommon "ErrAccountNotFound") end)
  (λ w a, match xw_contexts w !! a with
          | Some ids => inl (1, ids, [], c_keys ids, [])
          | None => inr (ECommon "ErrAccountNotFound") end)
  (λ _ ids, inl (c_keys ids))
  (λ w a _, match xw_contexts w !! a with
            | Some ids => inl (ids, [])
            | None => inr (ECommon "ErrAccountNotFound") end)
  (λ w a, inl (is_some (xw_contexts w !! a)))
  (λ w _, inl 100)
  (λ w _ _, inl 1)
  (λ _ a, inl (a : Z)) (λ _, inl 100) (λ _ _, inl 10)
  (λ w _ _, inl true)
  (λ w _, (true, None))
  (λ o cost, (cost <=? o, None))
  (λ o _, inl o)
  (λ o _, false)
  (λ w h _ _, match xw_known w !! h with Some t => inl t | None => inr (ECommon "ErrKeyNotFound") end)
  (λ w _ _, false)
  (λ l, bool_decide (l ≠ MutateLock))
  c_sort (λ a b, (a : Z) <? b).

Definition XPoxt : Type := @PoXtData CE.
Definition XXE : Execution CE CX XTO CIX XCH := @Build_Execution CE CX XTO CIX XCH
  Z (λ _, 5) id (λ r, inl r)
  unit (λ _ _, 1) (λ _ _, 1) (λ _, [])
  (λ _ _, inl tt) (λ _ tr _ _, (tr, inl tt)) (λ _, true)
  (λ ps _, @P_LockType CE <$> ps) (λ ps, (map_to_list ps).*1)
  xt_receipts xt_epoch xt_used xt_limit xt_info
  (λ t, @Build_ExecutionContext CE (omap (@PS_ContextDelta CE) (xt_ps t)) (CI_ClusterID (xt_commit t)) (xt_time t))
  xt_set_receipts (λ _, inl [])
  (λ ps ixh rh epoch time used limit poxt sealer ixs rs ci,
     {| xt_ps := ps; xt_ixh := ixh; xt_rh := rh; xt_epoch := epoch; xt_time := time; xt_used := used;
        xt_limit := limit; xt_poxt := poxt; xt_sealer := sealer; xt_ixs := ixs; xt_receipts := rs;
        xt_commit := ci; xt_seal := [] |})
  (λ w _ t _, ({| xw_contexts := xw_contexts w; xw_known := <[xt_hash t := t]> (xw_known w) |}, None))
  (λ w _, w).
Lemma XXE_laws : ExecutionLaws CE CX XTO CIX XTV XCH XXE.
Proof. by split. Qed.

(** ** The environment and the codecs *)
Definition XRT : Runtime := {|
  GenerateClusterID n := inl (String (Ascii.ascii_of_nat (65 + n)) "");
  TimeNow _ := 0;
  RandomNodesOf _ _ _ := inl ["X"; "Y"; "Z"]%string;
  GetRandomNumbers _ _ _ := ∅;
  ConnectError _ _ _ := None;
  SendError _ _ := None;
|}.

#[export] Instance locktype_countable : Countable LockType.
Proof.
  apply (inj_countable' (λ l, match l with MutateLock => inl 0 | ReadLock => inl 1 | NoLock => inl 2
                                        | OtherLock n => inr n end : Z + Z)
           (λ c, match c with inl 0 => MutateLock | inl 1 => ReadLock | inl _ => NoLock | inr n => OtherLock n end)).
  by intros [].
Defined.
#[export] Instance cview_eq_dec : EqDecision (@ViewInfo CE).
Proof.
  refine (λ a b, cast_if (decide ((VI_Addr a : Z, VI_LastView a, VI_CurrentLock a, VI_Qc a)
    = (VI_Addr b : Z, VI_LastView b, VI_CurrentLock b, VI_Qc b)))).
  - abstract (destruct a, b; cbn in *; congruence).
  - abstract (intros ->; done).
Defined.
#[export] Instance cview_countable : Countable (@ViewInfo CE).
Proof.
  apply (inj_countable' (λ v, (@VI_Addr CE v : Z, @VI_LastView CE v, @VI_CurrentLock CE v, @VI_Qc CE v))
           (λ '(a, v, l, q), @Build_ViewInfo CE a v l q)). by intros [].
Defined.

Definition XViews : PoloCodec (Z * @Views CE) := codec_of (Z * option (list (@ViewInfo CE))).
Definition XPrepare : PoloCodec (@Prepare CE) := {|
  Polorize p := inl (pos_bytes (encode (Pr_View p, Pr_Ixns p : list Z, Pr_Ps p : list Z)));
  Depolorize raw := match decode (A := Z * list Z * list Z) (bytes_pos raw) with
                    | Some (v, i, a) => inl (@Build_Prepare CE v i a)
                    | None => inr (EExternal "invalid encoding")
                    end;
|}.
Definition XPrepared : PoloCodec (@Prepared CE) := {|
  Polorize p := inl (pos_bytes (encode (Pd_View p, Pd_Infos p, Pd_Signature p)));
  Depolorize raw := match decode (A := Z * option (list (@ViewInfo CE)) * list Byte.byte) (bytes_pos raw) with
                    | Some (v, i, s) => inl (@Build_Prepared CE v i s)
                    | None => inr (EExternal "invalid encoding")
                    end;
|}.

(** The tesseract's parts travel with it. *)
Definition XTP : TesseractParts CE XTO := @Build_TesseractParts CE XTO (list Z) Z (@CommitInfo CE)
  xt_ixs xt_receipts xt_commit (λ t _ r ci, xt_set_commit ci (xt_set_receipts t r))
  (λ raw, match decode (bytes_pos raw) with
          | Some q => inl q | None => inr (EExternal "invalid commit info") end).
