(* ===== verification/GenesisScenario.v ===== *)
(** * A concrete genesis, and the witnesses of its theorems

    A state object is its address; everything succeeds. *)

From stdpp Require Import base gmap strings list fin_maps pretty.
From Stdlib Require Import ZArith Lia.
From S2P Require Import Prelude Effect External Chain Types Concrete NodeSet Committee Cluster ConcreteChain Execution Genesis GenesisSpec ConcreteEngine.

#[local] Existing Instances CE CX CIX XTO XTV XCH XXE.

Definition XGC : GenesisChain CE CX XTO CIX XCH XXE := @Build_GenesisChain CE CX XTO CIX XCH XXE
  1 [5] 0 1 2 3
  (λ s, Z.of_nat (String.length s)) (λ a, pretty (a : Z)) (λ _, None)
  (λ h, pretty (h : Z)) (λ s, Z.of_nat (String.length s)) (λ _, [])
  (OtherMsgType 0) [] 0
  (string * Z * list (Z * Z)) () (λ i, i.1.1) (λ i, i.1.2) (λ i, i.2) (λ _, ())
  (λ _ a _ _, a) (λ o, o) (λ o _ _, (o, None)) (λ o, (o, None)) (λ o _, (o, None))
  (λ o _ _, (o, inl 1)) (λ o _ _, o) (λ o, (o, inl (100 - o))) (λ o, o) (λ _, [])
  (λ m a, m !! a) (λ _, ())
  (λ _ _ _, inl (IxLogicDeploy, 0)) (λ _ _ o _, (o, inl None))
  (λ w _ _ t _ _, ({| xw_contexts := xw_contexts w; xw_known := <[xt_hash t := t]> (xw_known w) |}, None)).
Lemma XGC_laws : GenesisLaws CE CX XTO CIX XCH XXE XGC.
Proof. by split. Qed.
#[local] Existing Instances XGC XGC_laws.

(** Two accounts, a logic, and an asset that one of them operates. *)
Definition g_account (a : Z) : AccountSetupArgs :=
  {| AS_Address := a; AS_AccType := 2; AS_BehaviouralContext := ["A"]%string; AS_RandomContext := [] |}.
Definition g_file : GenesisFile := {|
  GF_SargaAccount := g_account 1;
  GF_Accounts := [g_account 10; g_account 20];
  GF_AssetAccounts := [{| AA_AssetInfo := ("MOI"%string, 10, [(20, 100)]); AA_BehaviouralContext := []; AA_RandomContext := [] |}];
  GF_Logics := [{| LS_Name := "Guard"; LS_Callsite := "Setup"; LS_Calldata := []; LS_Manifest := [Byte.x01];
                   LS_BehaviouralContext := []; LS_RandomContext := [] |}];
|}.
Definition g_setup : eff (@World CE CX XTO CIX XCH) () := SetupGenesis 0 "seed" "proof" (inl []) (λ _, inl g_file).
Definition g_world : @World CE CX XTO CIX XCH := {| xw_contexts := ∅; xw_known := ∅ |}.
Definition g_after : @World CE CX XTO CIX XCH := match g_setup g_world with Ret (w, _) => w | _ => g_world end.
Lemma genesis_setup_witness :
  ∃ f tr, parseGenesisFile (inl []) (λ _, inl g_file) = inl f ∧ dom tr = ({[ 1; 10; 20; 5; 3 ]} : gset (@Address CE)) ∧
    xw_known g_after !! xt_hash (genesisOf 0 "seed" "proof" tr) = Some (genesisOf 0 "seed" "proof" tr).
Proof.
  destruct (genesis_setup 0 "seed" "proof" (inl []) (λ _, inl g_file) g_world g_after (inl ())) as (f & Hf & Hor).
  - vm_compute. reflexivity.
  - injection Hf as <-. destruct Hor as [[[m Hm] _]|(_ & tr & Hd & _ & Ha)]; [discriminate Hm|].
    exists g_file, tr. split; [reflexivity|]. split; [etransitivity; [exact Hd|vm_compute; reflexivity]|].
    pose proof (eq_sym (f_equal fst Ha) : g_after = _) as Hg. rewrite Hg. exact (lookup_insert_eq (xw_known g_world) _ _).
Defined.

Definition g_objects : gmap (@Address CE) (@StateObject CE CX XTO CIX XCH) := {[ 1 := 1; 10 := 10; 20 := 20 ]}.
Lemma genesis_order_irrelevant_witness :
  genesisFrom 0 "seed" "proof" (reverse (map_to_list g_objects)) g_objects
  = genesisFrom 0 "seed" "proof" (map_to_list g_objects) g_objects ∧
  returns (genesisFrom 0 "seed" "proof" (map_to_list g_objects) g_objects) = true.
Proof.
  split; [|vm_compute; reflexivity].
  destruct (genesisFrom 0 "seed" "proof" (map_to_list g_objects) g_objects) as [[x|e]| |] eqn:E; [|vm_compute in E; discriminate E..].
  apply (genesis_order_irrelevant 0 "seed" "proof" g_objects (reverse (map_to_list g_objects)) (map_to_list g_objects) x).
  - apply map_Forall_to_list. vm_compute. repeat constructor.
  - apply reverse_Permutation.
  - reflexivity.
  - exact E.
Defined.
