(* ===== verification/EngineScenario.v ===== *)
(** * A leader's run up to the start of an agreement, and the witnesses of the engine's theorems *)

From Stdlib Require Import Strings.String.
From stdpp Require Import base gmap strings list countable sorting fin_maps.
From Stdlib Require Import ZArith Lia.
From S2P Require Import Prelude Effect External Chain Types Concrete NodeSet Committee Cluster Validation VoteSet HeightVoteSet Scenario ConcreteChain Sortition Execution ExecutionSpec Safety Views ViewsSpec Ticker Kbft Slots SlotsSpec Engine EngineFacts EngineSpec ConcreteEngine.

#[local] Existing Instances CE CX CE_bits CCanon XTO XTO_laws XTV XCH XXE XXE_laws XRT XViews XPrepare XPrepared XTP.
#[local] Existing Instances MemStore MemStore_laws CSafetyCodec.
#[export] Instance XProposalInfo : PoloCodec ProposalInfo := {|
  Polorize _ := inr (EExternal "not needed"); Depolorize _ := inr (EExternal "not needed") |}.
#[export] Instance XEvidence : PoloCodec Evidence := {|
  Polorize _ := inl []; Depolorize _ := inr (EExternal "not needed") |}.
#[export] Instance XVote : PoloCodec Vote := {|
  Polorize _ := inl []; Depolorize _ := inr (EExternal "not needed") |}.
#[export] Instance XProposalMsg : PoloCodec ProposalMsg := {|
  Polorize _ := inl []; Depolorize _ := inr (EExternal "not needed") |}.

(** ** Node "A" *)
Definition x_self : KramaID := "A".
Definition x_sign (raw : bytes) : bytes * option err := (csign (list_byte_of_string "A") raw, None).
Definition x_verify : bytes → bytes → list bytes → bool * option err := VerifyAggregateSignature.
Definition x_multi (sig : bytes) (msgs keys : list bytes) : bool * option err :=
  (bool_decide (sig = concat (zip_with csign keys msgs)), None).
Definition x_vrf (seed : Z) : (Z * bytes) + err := inl (seed + 1, []).
Definition x_new (l : list (@Interaction CE CX CIX)) : @TsInteractions CE XTO XTP := l.
Definition x_list (l : @TsInteractions CE XTO XTP) : list (@Interaction CE CX CIX) := l.

(** What is known: the latest tesseract of account 10, certified in view 0. *)
Definition x_poxt : @PoXtData CE :=
  {| PX_Proposer := "B"; PX_View := 0; PX_LastCommit := ∅; PX_AccountLocks := ∅; PX_ICSSeed := 0; PX_ICSProof := [] |}.
Definition x_commit : @CommitInfo CE :=
  {| CI_QC := None; CI_RandomSet := ["X"; "Y"; "Z"]%string; CI_RandomSetSizeWithoutDelta := 3;
     CI_Operator := "B"; CI_ClusterID := "old"; CI_View := 0 |}.
Definition x_parent : XTesseract :=
  {| xt_ps := {[ 10 := @Build_PState CE 1 0 4 0 1 None ]}; xt_ixh := 1; xt_rh := 0; xt_epoch := 0; xt_time := 0;
     xt_used := 0; xt_limit := 0; xt_poxt := x_poxt; xt_sealer := "B"; xt_ixs := [1]; xt_receipts := 0;
     xt_commit := x_commit; xt_seal := [] |}.
Definition x_qc (h : Z) : @Qc CE :=
  {| Qc_Type := PRECOMMIT; Qc_View := 0; Qc_TSHash := h; Qc_Address := NilAddress; Qc_SignerIndices := None;
     Qc_Signature := [] |}.
Definition x_safety (h : Z) : MemDB :=
  {| m_meta := {[ 10 := xt_hash x_parent ]};
     m_safety := {[ 10 := pos_bytes (encode (@Build_SafetyData CE [x_qc h] [])) ]};
     m_commit := ∅; m_proposals := ∅ |}.
Definition x_world : XWorld := {| xw_contexts := w_contexts; xw_known := {[ xt_hash x_parent := x_parent ]} |}.

(** The node before its first view; [h] is the tesseract its safety data names. *)
Definition x_node (h : Z) : Engine :=
  {| E_view := 0; E_slots := NewSlots 2 2; E_futureMsg := []; E_db := x_safety h : @DB CE MemStore; E_world := x_world : @World CE CX XTO CIX XCH;
     E_heap := ∅; E_votes := ∅; E_accountLocks := ∅; E_handlers := []; E_newICS := []; E_bfts := [];
     E_closing := []; E_out := []; E_asked := 0 |}.

Notation x_main := (handler x_new x_sign x_self).
Notation x_ics := (icsHandler x_list x_sign x_verify x_multi x_vrf x_self [] false).
Notation x_system := (system_run x_new x_list x_sign x_verify x_multi x_vrf x_self [] false).
Notation x_prepared := (handlePrepared x_verify x_vrf x_self [] false).

Definition x_ixs : @Interactions CE CX := [5].
(** View 1 brings a batch; the cluster "A" of slot 1 is created and its PREPARE
    messages are sent. *)
Definition x_launch : list system_event :=
  [SysMain (EvTick 1 [x_ixs]); SysCluster "A" 1 IcsNewICS].
Definition x_state (k : Engine) (m : eff Engine ()) : Engine :=
  match m k with Ret (k', _) => k' | _ => k end.
Definition x_launched (h : Z) : Engine := x_state (x_node h) (x_system x_launch).

(** ** The answers of the committee *)
Definition x_views (h : Z) : list ViewInfo :=
  [{| VI_Addr := 10 : @Address CE; VI_LastView := 0; VI_CurrentLock := NoLock; VI_Qc := Some [x_qc h] |}].
Definition x_sign_bytes (vw : Z) (infos : option (list (@ViewInfo CE))) : bytes :=
  match @Polorize _ XViews (vw, infos) with inl raw => raw | inr _ => [] end.
Definition x_answer (h : Z) (id : KramaID) : Prepared :=
  {| Pd_View := 1; Pd_Infos := Some (x_views h);
     Pd_Signature := csign (list_byte_of_string id) (x_sign_bytes 1 (Some (x_views h))) |}.
Definition x_answers (h : Z) (ids : list KramaID) : list system_event :=
  ids ≫= λ id,
    [SysMain (EvMessage {| IM_Sender := id; IM_ClusterID := "A"; IM_MsgType := MSG_PREPARED;
                           IM_Payload := pos_bytes (encode (Pd_View (x_answer h id), Pd_Infos (x_answer h id),
                             Pd_Signature (x_answer h id)));
                           IM_ReceivedFrom := "" |});
     SysCluster "A" 1 IcsMsg].
(** All but the last answer of the quorum. *)
Definition x_gather (h : Z) : list system_event := x_launch ++ x_answers h ["B"; "C"; "X"; "Y"]%string.
Definition x_gathered (h : Z) : Engine := x_state (x_node h) (x_system (x_gather h)).
Definition x_started (h : Z) : Engine := x_state (x_gathered h) (x_prepared "A" (x_answer h "Z") "Z").

Definition x_returns (k : Engine) (m : eff Engine ()) : bool :=
  match m k with Ret (_, inl _) => true | _ => false end.
Lemma x_state_run k m : x_returns k m = true → m k = Ret (x_state k m, inl ()).
Proof. unfold x_returns, x_state. by destruct (m k) as [[k' [[]|e]]| |]. Qed.
Definition x_fails (k : Engine) (m : eff Engine ()) : option err :=
  match m k with Ret (_, inr e) => Some e | _ => None end.
Lemma x_state_fail k m e : x_fails k m = Some e → m k = Ret (x_state k m, inr e).
Proof. unfold x_fails, x_state. by destruct (m k) as [[k' [?|e']]| |]; intros [= ->]. Qed.

(** ** Witnesses: the engine *)
Lemma x_agreement_run :
  x_prepared "A" (x_answer 1 "Z") "Z" (x_gathered 1) = Ret (x_started 1, inl ()).
Proof. apply x_state_run. vm_compute. reflexivity. Qed.

(** The last node answers again: no second agreement. *)
Definition x_again : list (Prepared * KramaID) := [(x_answer 1 "Z", "Z"%string); (x_answer 1 "Y", "Y"%string)].
Definition x_again_run : eff Engine () := prepared_run x_verify x_vrf x_self [] false "A" x_again.
Lemma handlePrepared_starts_witness :
  ∃ l cs kb, quorum_reached x_verify (x_gathered 1) "A" (x_answer 1 "Z") "Z" l cs ∧
    E_bfts (x_started 1) = [(l, kb)] ∧ K_operator kb = x_self ∧
    E_bfts (x_state (x_started 1) x_again_run) = [(l, kb)].
Proof.
  destruct (handlePrepared_starts x_verify x_vrf x_self [] false "A" (x_answer 1 "Z") "Z"
              (x_gathered 1) (x_started 1) (inl ()))
    as (_ & l & cs & slot & slot' & kb & Hq & _ & _ & Hb & Hop & _ & _ & Hagain).
  - exact x_agreement_run.
  - intros H. apply (f_equal length) in H. vm_compute in H. discriminate H.
  - assert (Hb1 : E_bfts (x_started 1) = [(l, kb)]) by (rewrite Hb; reflexivity).
    exists l, cs, kb. split; [exact Hq|]. split; [exact Hb1|]. split; [exact Hop|].
    rewrite <-Hb1. apply (Hagain x_again _ (inl ())). apply x_state_run. vm_compute. reflexivity.
Defined.

(** The safety data of the account name a tesseract nobody has: the proposal fails. *)
Notation x_record := (recordPrepared x_verify "A" (x_answer 2 "Z") "Z" (x_gathered 2)).
Definition x_recorded : Engine * positive * ClusterState :=
  match x_record with Ret (k, inl (Some (l, cs))) => (k, l, cs) | _ => (x_gathered 2, 2%positive, w_cs) end.
Definition x_recorded_slot : positive := if x_record is Ret (_, inl (Some (l, _))) then l else 2%positive.
Lemma x_record_run : x_recorded_slot = 1%positive → x_record = Ret (x_recorded.1.1, inl (Some (1%positive, x_recorded.2))).
Proof.
  unfold x_recorded_slot, x_recorded. destruct x_record as [[k [[[l cs]|]|e]]| |]; try discriminate. by intros ->.
Qed.
Definition x_stuck : Engine := x_started 2.
Definition x_slot : Slot :=
  match slot_at (x_gathered 2) 1%positive with Some slot => slot | None => NewSlot OperatorSlot ∅ end.
Definition x_idle : list ics_event := [IcsTimeout; IcsMsg; IcsTimeout].
Lemma failed_proposal_stalls_witness :
  let k' := x_state x_stuck (cluster_run x_list x_sign x_verify x_multi x_vrf x_self [] false "A" 1 x_idle) in
  E_bfts k' = [] ∧ E_handlers k' = [("A"%string, 1%positive)] ∧
  activeAccounts (E_slots k') !! (10 : @Address CE) = Some [{| LI_lockType := MutateLock; LI_clusterID := "A" |}].
Proof.
  set (k' := x_state _ _).
  assert (Hslot : slot_at (x_gathered 2) 1%positive = Some x_slot).
  { unfold x_slot. assert (is_some (slot_at (x_gathered 2) 1%positive) = true) as H by (vm_compute; reflexivity).
    destruct (slot_at _ _); [reflexivity|discriminate H]. }
  destruct (failed_proposal_stalls x_list x_sign x_verify x_multi x_vrf x_self [] false "A" (x_answer 2 "Z") "Z"
              1 x_recorded.2 (x_gathered 2) x_recorded.1.1 x_stuck (inr (ECommon "ErrKeyNotFound")) x_idle k' (inl ())
              x_slot)
    as (Hb & Hh & _ & _ & Ha).
  - apply x_record_run. vm_compute. reflexivity.
  - apply x_state_fail. vm_compute. reflexivity.
  - vm_compute. reflexivity.
  - exact Hslot.
  - vm_compute. constructor.
  - repeat (apply Forall_cons_2; [first [left; reflexivity|right; reflexivity]|]). apply Forall_nil_2.
  - apply x_state_run. vm_compute. reflexivity.
  - cbv zeta. rewrite Hb, Hh, Ha. split; [|split]; vm_compute; reflexivity.
Defined.

Definition x_future : ICSMSG :=
  {| IM_Sender := "B"; IM_ClusterID := "Q"; IM_MsgType := MSG_PREPARE;
     IM_Payload := pos_bytes (encode (1, [5], [10])); IM_ReceivedFrom := "" |}.
Definition x_queued : Engine := x_state (x_node 1) (x_main (EvMessage x_future)).
Definition x_replied : Engine := x_state x_queued (x_main (EvTick 1 [])).
Definition x_sent (k : Engine) : list (KramaID * bool) :=
  omap (λ a, if a is ASent to m then Some (to, bool_decide (IM_MsgType m = MSG_PREPARED)) else None) (E_out k).
Lemma future_messages_witness :
  E_futureMsg x_queued = [x_future] ∧ x_sent x_queued = [] ∧
  E_futureMsg x_replied = [] ∧ x_sent x_replied = [("B"%string, true)].
Proof.
  destruct (future_messages x_new x_sign x_self (EvMessage x_future) (x_node 1) x_queued (inl ()))
    as (Hall & _ & Hq & Hsent); [apply Forall_nil_2|apply x_state_run; vm_compute; reflexivity|].
  destruct (Hsent eq_refl) as [_ Hk].
  destruct (future_messages x_new x_sign x_self (EvTick 1 []) x_queued x_replied (inl ()))
    as (_ & _ & Hq' & _); [exact Hall|apply x_state_run; vm_compute; reflexivity|].
  split; [rewrite Hq; vm_compute; reflexivity|]. split; [rewrite Hk; vm_compute; reflexivity|].
  split; [rewrite Hq'; vm_compute; reflexivity|vm_compute; reflexivity].
Defined.

(** Another module asks for an account that a cluster has locked. *)
Definition x_all : list system_event := x_launch ++ [SysAddActive (10 : @Address CE) ReadLock "other"].
Definition x_locked : Engine := x_state (x_node 1) (x_system x_all).
Definition x_lock : list LockInfo := [{| LI_lockType := MutateLock; LI_clusterID := "A" |}].
(** Every lock that a slot was created with is read or mutate. *)
Definition x_no_odd (k : Engine) : bool :=
  forallb (λ p : positive * Slot, forallb (λ q : Z * LockType, bool_decide (q.2 = MutateLock ∨ q.2 = ReadLock)) (map_to_list (SL_ps p.2)))
    (map_to_list (slotHeap (E_slots k))).
Lemma x_no_odd_spec k p slot a lt :
  x_no_odd k = true → slot_at k p = Some slot → SL_ps slot !! (a : Z) = Some lt → plain lt.
Proof.
  intros H Hp Ha. unfold x_no_odd in H. apply forallb_forall with (x := (p, slot)) in H.
  - apply forallb_forall with (x := (a, lt)) in H; [|by apply list_elem_of_In, elem_of_map_to_list].
    by apply bool_decide_eq_true in H.
  - by apply list_elem_of_In, elem_of_map_to_list.
Qed.
Lemma x_all_calls lt c : SysAddActive (10 : @Address CE) lt c ∈ x_all → lt = ReadLock.
Proof.
  intros H%list_elem_of_In. destruct H as [H|[H|[H|[]]]]; [discriminate H|discriminate H|].
  set (a := 10 : @Address CE) in H. clearbody a. injection H as H _. symmetry. exact H.
Qed.
Lemma engine_locks_exclusive_witness :
  activeAccounts (E_slots x_locked) !! (10 : @Address CE) = Some x_lock ∧ exclusive x_lock.
Proof.
  assert (Ha : activeAccounts (E_slots x_locked) !! (10 : @Address CE) = Some x_lock) by (vm_compute; reflexivity).
  split; [exact Ha|].
  destruct (engine_locks_exclusive x_new x_list x_sign x_verify x_multi x_vrf x_self [] false
           x_all (x_node 1) x_locked (inl ()) (10 : @Address CE) x_lock) as [H|[(p & slot & lt & Hp & Hlt & Hn)|(lt & c & Hin & Hn)]].
  - intros l H. vm_compute in H. discriminate H.
  - apply x_state_run. vm_compute. reflexivity.
  - exact Ha.
  - exact H.
  - destruct (Hn (x_no_odd_spec x_locked p slot 10 lt ltac:(vm_compute; reflexivity) Hp Hlt)).
  - destruct Hn. right. exact (x_all_calls lt c Hin).
Defined.
