(* ===== verification/ViewScenario.v ===== *)
(** * Witnesses of the theorems on views and on executing *)

From Stdlib Require Import Strings.String.
From stdpp Require Import base gmap strings list countable sorting fin_maps.
From Stdlib Require Import ZArith Lia.
From S2P Require Import Prelude Effect External Chain Types Concrete NodeSet Committee Cluster Validation VoteSet HeightVoteSet Scenario ConcreteChain Sortition Execution ExecutionSpec Safety Views ViewsSpec Ticker Kbft Slots SlotsSpec Engine EngineFacts EngineSpec ConcreteEngine EngineScenario.

#[local] Existing Instances CE CX CE_bits CCanon XTO XTO_laws XTV XCH XXE XXE_laws XRT XViews XPrepare XPrepared XTP.
#[local] Existing Instances MemStore MemStore_laws CSafetyCodec.


(** ** Witnesses: views *)
Lemma loadViewInfo_spec_witness :
  Sorted view_before (x_views 1) ∧ loadViewInfo (x_world : @World CE CX XTO CIX XCH) (x_safety 1 : @DB CE MemStore)
    ∅ [10 : @Address CE] = Ret (inl (x_views 1)).
Proof.
  assert (H : loadViewInfo (x_world : @World CE CX XTO CIX XCH) (x_safety 1 : @DB CE MemStore) ∅ [10 : @Address CE]
              = Ret (inl (x_views 1))) by (vm_compute; reflexivity).
  split; [|exact H].
  destruct (loadViewInfo_spec (x_world : @World CE CX XTO CIX XCH) (x_safety 1 : @DB CE MemStore) ∅
              [10 : @Address CE] (x_views 1)) as [Hs _].
  - intros a b. cbn. lia.
  - exact H.
  - exact Hs.
Defined.

(** A cluster that knows account 10 in view 0, and a peer that claims view 3. *)
Definition x_claim (qcs : list Qc) : ViewInfo :=
  {| VI_Addr := 10 : @Address CE; VI_LastView := 3; VI_CurrentLock := NoLock; VI_Qc := Some qcs |}.
Definition x_cluster (infos : list ViewInfo) : ClusterState :=
  NewICS x_ixs "A" "A" 0 "A" w_committee {[ (10 : Address) := w_participant ]} infos 1.
Notation x_update := (updateHighestVI x_verify (x_world : @World CE CX XTO CIX XCH) (x_safety 1 : @DB CE MemStore)).
Lemma updateHighestVI_raises_witness :
  x_update (x_cluster (x_views 1)) (Some [x_claim []]) = Ret (set_highest [x_claim []] (x_cluster (x_views 1)), None) ∧
  highestViewInfo (set_highest [x_claim []] (x_cluster (x_views 1))) !! 0%nat = Some (x_claim []).
Proof.
  assert (H : x_update (x_cluster (x_views 1)) (Some [x_claim []])
              = Ret (set_highest [x_claim []] (x_cluster (x_views 1)), None)) by (vm_compute; reflexivity).
  split; [exact H|].
  destruct (updateHighestVI_raises x_verify _ _ _ _ _ _ H) as (_ & _ & Hi).
  rewrite (Hi eq_refl 0%nat _ eq_refl). reflexivity.
Defined.
Lemma claimed_certificates_unchecked_witness :
  ('(_, e) ← x_update (x_cluster (x_views 1)) (Some [x_claim []]); Ret e) = Ret None ∧
  ('(_, e) ← x_update (x_cluster (x_views 1)) (Some [x_claim [x_qc 77]]); Ret e) = Ret None.
Proof.
  assert (H : ('(_, e) ← x_update (x_cluster (x_views 1)) (Some [x_claim []]); Ret e) = Ret None)
    by (vm_compute; reflexivity).
  split; [exact H|]. rewrite <-H. symmetry. apply claimed_certificates_unchecked.
  constructor; [split; reflexivity|constructor].
Defined.

(** The same peer and an account nobody has a certificate of. *)
Definition x_fresh : ViewInfo :=
  {| VI_Addr := 10 : @Address CE; VI_LastView := 0; VI_CurrentLock := NoLock; VI_Qc := None |}.
Lemma claimed_certificate_panics_witness :
  ∃ cs', x_update (x_cluster [x_fresh]) (Some [x_claim [x_qc 1]]) = Ret (cs', None) ∧
    lockedTesseracts (x_world : @World CE CX XTO CIX XCH) (x_safety 1 : @DB CE MemStore)
      (localViewInfo cs') (highestViewInfo cs') 0 ∅ = Panic "index out of range".
Proof.
  eexists. split; [vm_compute; reflexivity|].
  eapply (claimed_certificate_panics x_verify (x_world : @World CE CX XTO CIX XCH) (x_safety 1 : @DB CE MemStore)
            (x_cluster [x_fresh]) x_fresh [] (x_claim [x_qc 1]) [] (x_qc 1) [] x_parent); try reflexivity.
Defined.

(** ** Witnesses: executing *)
Lemma new_context_nodes_witness :
  getContextNodes false w_cs StochasticSetSize BehaviouralContextSize
  = Ret (["E"; "F"; "G"; "H"]%string, []).
Proof.
  destruct (new_context_nodes w_cs w_set1) as [H _].
  - vm_compute. reflexivity.
  - rewrite H. vm_compute. reflexivity.
Defined.

Notation x_propose := (createProposalTesseract x_vrf x_self false false (x_world : @World CE CX XTO CIX XCH)).
Definition x_leader : Cluster := {| CL_cs := x_cluster (x_views 1); CL_voteSet := None |}.
Definition x_proposal : Cluster * (@Tesseract CE XTO) :=
  match x_propose 1 x_leader with Ret (c, inl t) => (c, t) | _ => (x_leader, x_parent) end.
Lemma x_propose_run : x_propose 1 x_leader = Ret (x_proposal.1, inl x_proposal.2).
Proof.
  assert (H : match x_propose 1 x_leader with Ret (_, inl _) => true | _ => false end = true) by (vm_compute; reflexivity).
  unfold x_proposal. destruct (x_propose 1 x_leader) as [[c [t|e]]| |]; [reflexivity|discriminate H..].
Qed.
Lemma honest_proposal_validates_witness :
  xt_ixs x_proposal.2 = [5] ∧
  (ExecuteAndValidate (x_world : @World CE CX XTO CIX XCH) x_proposal.2 tt).2
  = inl (TsSetReceipts x_proposal.2 (5 : @Receipts CE CX XTO CIX XCH XXE)).
Proof.
  destruct (honest_proposal_validates x_vrf x_self false false (x_world : @World CE CX XTO CIX XCH) 1 x_leader
              x_proposal.1 x_proposal.2 x_propose_run) as (Hi & _ & tr & _ & Hv).
  - vm_compute. reflexivity.
  - split; [exact Hi|]. destruct tr. exact Hv.
Defined.

(** The interactions are hashed to 1 as a list and to 5 by the first of them. *)
Lemma locked_tesseract_refused_witness :
  createProposalTS x_vrf x_self false false (x_world : @World CE CX XTO CIX XCH) 2
    {[ (10 : @Address CE) := x_proposal.2 ]} x_leader = Ret (x_leader, inr (ENew "ts lock mismatch")).
Proof.
  apply (locked_tesseract_refused x_vrf x_self false false (x_world : @World CE CX XTO CIX XCH) 1 x_leader
           x_proposal.1 (x_world : @World CE CX XTO CIX XCH) 2 (10 : @Address CE) x_proposal.2 1 5 [] x_leader).
  - exact x_propose_run.
  - reflexivity.
  - reflexivity.
  - reflexivity.
  - discriminate.
Defined.
