(* ===== verification/Wal.v ===== *)
(** * The write-ahead log: [kbft/wal.go]

    A record is a CRC-32C checksum, a length and the encoded message.  The
    rotating file group below the log is code of another module: [WalGroup] gives
    its operations and [GroupReadLaws] what a reader of it documents.  The
    checksum is that of the standard library's [hash/crc32]. *)

From stdpp Require Import base gmap strings list.
From Stdlib Require Import ZArith Lia Strings.Byte.
From S2P Require Import Prelude External Types Safety.

(** ** CRC-32C and big-endian words *)
Definition byte_val (b : Byte.byte) : Z := Z.of_N (Byte.to_N b).
Definition val_byte (z : Z) : Byte.byte := default Byte.x00 (Byte.of_N (Z.to_N (z mod 256))).

(** [crc32.MakeTable(crc32.Castagnoli)]: the reflected polynomial. *)
Definition castagnoli : Z := 0x82f63b78.
Definition crc_bit (s : Z) : Z :=
  if Z.odd s then Z.lxor (Z.shiftr s 1) castagnoli else Z.shiftr s 1.
Definition crc_byte (s : Z) (b : Byte.byte) : Z := Nat.iter 8 crc_bit (Z.lxor s (byte_val b)).
Definition crc32c (data : bytes) : Z := Z.lxor (foldl crc_byte 0xffffffff data) 0xffffffff.

(** [binary.BigEndian.PutUint32] and [Uint32] *)
Definition PutUint32 (z : Z) : bytes :=
  [val_byte (z / 2 ^ 24); val_byte (z / 2 ^ 16); val_byte (z / 2 ^ 8); val_byte z].
Definition Uint32 (b : bytes) : Z :=
  foldl (λ acc x, acc * 256 + byte_val x) 0 (take 4 b).

Definition maxMsgSizeBytes : Z := 1024 * 12.

(** ** The file group *)
Class WalGroup := {
  Group : Type;
  Reader : Type;
  G_HeadSize : Group → Z + err;
  G_Start : Group → Group * option err;
  G_Write : Group → bytes → Group * option err;
  G_FlushAndSync : Group → Group * option err;
  G_Stop : Group → Group;
  G_Close : Group → Group;
  G_MinIndex : Group → Z;
  G_MaxIndex : Group → Z;
  G_NewReader : Group → Z → Reader + err;
  (** [Read(make(\[\]byte, n))]: the bytes read and the error *)
  R_Read : Reader → Z → bytes * option err * Reader;
  R_Close : Reader → option err;
}.
Definition io_EOF : err := EExternal "EOF".

(** A reader over the bytes that are left: it fills the buffer when it can and
    reports the end of the data when nothing is left. *)
Class GroupReadLaws (WG : WalGroup) := {
  unread : Reader → bytes;
  read_full : ∀ r n, 0 < n ≤ zlen (unread r) →
    ∃ r', R_Read r n = (take (Z.to_nat n) (unread r), None, r') ∧
      unread r' = drop (Z.to_nat n) (unread r);
  read_end : ∀ r n, 0 < n → unread r = [] → ∃ r', R_Read r n = ([], Some io_EOF, r') ∧ unread r' = [];
}.

(** The errors of this file: [DataCorruptionError] has no [Unwrap] method, and a
    pointer to one is a value of another type. *)
Inductive WalError :=
| WPlain (e : err)
| DataCorruptionError (cause : string)
| PtrDataCorruptionError (cause : string).

(** [errors.As(err, &dataCorruptionError)] with a target of type
    [*DataCorruptionError]: the error itself must be such a pointer. *)
Definition IsDataCorruptionError (e : WalError) : bool :=
  match e with PtrDataCorruptionError _ => true | _ => false end.
(** [errors.Is(err, io.EOF)] *)
Fixpoint is_EOF (e : err) : bool :=
  match e with
  | EExternal m => String.eqb m "EOF"
  | EWrap e' _ => is_EOF e'
  | _ => false
  end.
Definition wal_is_EOF (e : WalError) : bool := match e with WPlain e => is_EOF e | _ => false end.

Section Wal.
Context `{ET : ExtTypes} `{WG : !WalGroup}.
Context `{!PoloCodec TimedWALMessage}.

(** ** Encoder *)
Definition record (rawData : bytes) : bytes :=
  PutUint32 (crc32c rawData) ++ PutUint32 (zlen rawData) ++ rawData.
Definition Encode (wr : Group) (v : TimedWALMessage) : Group * option err :=
  match TimedWALMessage_Bytes v with
  | inr e => (wr, Some e)
  | inl rawData =>
      let length := u32 (zlen rawData) in
      if maxMsgSizeBytes <? length then (wr, Some (ENew "msg is too big"))
      else
        (* the buffer has [8 + length] bytes *)
        let msg := PutUint32 (crc32c rawData) ++ PutUint32 length ++ take (Z.to_nat length) rawData in
        G_Write wr msg
  end.

(** ** Decoder

    The bytes a short read leaves in the buffer are zero. *)
Definition buffer (n : Z) (got : bytes) : bytes :=
  take (Z.to_nat n) (got ++ replicate (Z.to_nat n) Byte.x00).
Definition Decode (rd : Reader) : (TimedWALMessage + WalError) * Reader :=
  let '(got, e, rd1) := R_Read rd 4 in
  match e with
  | Some e => (inr (if is_EOF e then WPlain e else DataCorruptionError "failed to read checksum"), rd1)
  | None =>
      let crc := Uint32 (buffer 4 got) in
      let '(got2, e2, rd2) := R_Read rd1 4 in
      match e2 with
      | Some _ => (inr (DataCorruptionError "failed to read length"), rd2)
      | None =>
          let length := Uint32 (buffer 4 got2) in
          if maxMsgSizeBytes <? length
          then (inr (DataCorruptionError "length exceeded maximum possible value"), rd2)
          else
            let '(got3, e3, rd3) := R_Read rd2 length in
            match e3 with
            | Some _ => (inr (DataCorruptionError "failed to read data"), rd3)
            | None =>
                let data := buffer length got3 in
                if negb (crc32c data =? crc)
                then (inr (DataCorruptionError "checksums do not match"), rd3)
                else match TimedWALMessage_FromBytes data with
                     | inr _ => (inr (DataCorruptionError "failed to decode data"), rd3)
                     | inl m => (inl m, rd3)
                     end
            end
      end
  end.

(** ** The log *)
Context `{!PoloCodec Vote} `{!TesseractOps ET}.
(** [proposalBytes] of [Engine.v], and the tesseract behind a pointer *)
Context (proposalBytes : Proposal → Tesseract → bytes + err) (load : option positive → res Tesseract).
(** [time.Now().UnixNano()] *)
Context (now : Z).

(** The group of a log, and whether its flush goroutine runs; [None] is a nil
    [*BaseWAL]. *)
Record BaseWAL := {
  W_group : Group;
  W_flushing : bool;
}.
Definition with_group (w : BaseWAL) (g : Group) : BaseWAL :=
  {| W_group := g; W_flushing := W_flushing w |}.

Definition WAL_Write (wal : option BaseWAL) (msg : ConsensusMessage) (clusterID : ClusterID)
    : res (option BaseWAL * option err) :=
  match wal with
  | None => Ret (None, None)
  | Some w =>
      r ← ConsensusMessage_WALMsg proposalBytes load msg;
      Ret match r with
          | inr e => (wal, Some e)
          | inl walMsg =>
              let '(g, e) := Encode (W_group w)
                {| TW_ClusterID := clusterID; TW_Timestamp := now; TW_Message := Some walMsg |} in
              (Some (with_group w g), e)
          end
  end.

Definition WAL_FlushAndSync (w : BaseWAL) : BaseWAL * option err :=
  let '(g, e) := G_FlushAndSync (W_group w) in (with_group w g, e).

Definition WAL_WriteSync (wal : option BaseWAL) (msg : ConsensusMessage) (clusterID : ClusterID)
    : res (option BaseWAL * option err) :=
  match wal with
  | None => Ret (None, None)
  | Some _ =>
      '(wal1, e) ← WAL_Write wal msg clusterID;
      match e, wal1 with
      | Some _, _ => Ret (wal1, e)
      | None, Some w => let '(w', e') := WAL_FlushAndSync w in Ret (Some w', e')
      | None, None => Ret (None, None)
      end
  end.

(** [processFlushTicks]: what the routine started by [Start] does at a tick; it
    returns ([None]) when the context is done. *)
Definition processFlushTicks (w : BaseWAL) (tick : bool) : option BaseWAL :=
  if tick then Some (fst (WAL_FlushAndSync w)) else None.

(** The first record marks the start of the log. *)
Definition WAL_Start (w : BaseWAL) : res (BaseWAL * option err) :=
  match G_HeadSize (W_group w) with
  | inr e => Ret (w, Some e)
  | inl size =>
      '(w1, e) ← (if size =? 0
                  then '(wal, e) ← WAL_WriteSync (Some w)
                         {| CM_PeerID := "init"; CM_Recipient := ""; CM_Payload := PayloadNil |} "init";
                       Ret (default w wal, e)
                  else Ret (w, None));
      match e with
      | Some e => Ret (w1, Some e)
      | None =>
          let '(g, e2) := G_Start (W_group w1) in
          match e2 with
          | Some e2 => Ret (with_group w1 g, Some e2)
          | None => Ret ({| W_group := g; W_flushing := true |}, None)
          end
      end
  end.

(** [flushTicker] is nil before [Start]. *)
Definition WAL_Close (w : BaseWAL) : res BaseWAL :=
  if negb (W_flushing w) then Panic "nil pointer dereference"
  else let '(w1, _) := WAL_FlushAndSync w in
       Ret {| W_group := G_Close (G_Stop (W_group w1)); W_flushing := true |}.

(** ** Search

    The inner loop of [SearchForClusterID] over one reader: the position after
    the record found, the end of the data ([None]), or an error.  [fuel] bounds
    the records read. *)
Fixpoint scan (fuel : nat) (ignore : bool) (clusterID : string) (gr : Reader)
    : res (option Reader + WalError) :=
  match fuel with
  | O => Hang
  | S fuel' =>
      let '(r, gr') := Decode gr in
      match r with
      | inr e =>
          if wal_is_EOF e then Ret (inl None)
          else if ignore && IsDataCorruptionError e then scan fuel' ignore clusterID gr'
          else Ret (inr e)
      | inl msg =>
          if String.eqb (TW_ClusterID msg) clusterID then Ret (inl (Some gr'))
          else scan fuel' ignore clusterID gr'
      end
  end.

(** The outer loop, from [index] down to [minimum]; [count] is how many indices
    are left. *)
Fixpoint searchFrom (fuel count : nat) (ignore : bool) (clusterID : string) (g : Group) (index : Z)
    : res (option Reader * option WalError) :=
  match count with
  | O => Ret (None, None)
  | S count' =>
      match G_NewReader g index with
      | inr e => Ret (None, Some (WPlain e))
      | inl gr =>
          r ← scan fuel ignore clusterID gr;
          match r with
          | inl (Some gr') => Ret (Some gr', None)
          | inr e => Ret (None, Some e)
          | inl None => searchFrom fuel count' ignore clusterID g (index - 1)
          end
      end
  end.
Definition SearchForClusterID (fuel : nat) (wal : BaseWAL) (clusterID : string)
    (IgnoreDataCorruptionErrors : bool) : res (option Reader * option WalError) :=
  let g := W_group wal in
  searchFrom fuel (Z.to_nat (G_MaxIndex g - G_MinIndex g + 1)) IgnoreDataCorruptionErrors clusterID g
    (G_MaxIndex g).
End Wal.

(** ** The log that does nothing: [kbft/nullwal.go] *)
Definition NullWal_Write `{ET : ExtTypes} (message : ConsensusMessage) (id : ClusterID) : option err := None.
Definition NullWal_Search `{WG : WalGroup} (clusterID : string) (ignore : bool)
    : option Reader * bool * option WalError := (None, false, None).
