(* ===== verification/WalSpec.v ===== *)
(** * What the write-ahead log guarantees: the theorems

    Records read back as written, the checksum catches every damaged byte, and a
    search over a sound log ends with the newest file that has the cluster.  Two
    theorems state what the code does instead of what its comments say. *)

From stdpp Require Import base gmap strings list countable.
From Stdlib Require Import ZArith Lia Strings.Byte.
From S2P Require Import Prelude External Types Safety Wal Concrete.

(** ** Words *)
Lemma byte_val_range b : 0 ≤ byte_val b < 256.
Proof. unfold byte_val. pose proof (Byte.to_N_bounded b). lia. Qed.

Lemma byte_val_inj b b' : byte_val b = byte_val b' → b = b'.
Proof.
  unfold byte_val. intros H. apply N2Z.inj in H.
  pose proof (Byte.of_to_N b) as E. rewrite H, Byte.of_to_N in E. by injection E.
Qed.

Lemma byte_val_byte z : byte_val (val_byte z) = z mod 256.
Proof.
  unfold byte_val, val_byte. pose proof (Z.mod_pos_bound z 256 ltac:(lia)).
  destruct (Byte.of_N (Z.to_N (z mod 256))) as [b|] eqn:E; cbn.
  - apply Byte.to_of_N in E. rewrite E. lia.
  - apply Byte.of_N_None_iff in E. lia.
Qed.

Lemma Uint32_PutUint32 z rest : 0 ≤ z < 2 ^ 32 → Uint32 (PutUint32 z ++ rest) = z.
Proof.
  intros Hz. unfold Uint32, PutUint32. cbn [app take foldl]. rewrite take_0. cbn [foldl].
  rewrite !byte_val_byte. change (2 ^ 24) with 16777216. change (2 ^ 16) with 65536.
  change (2 ^ 8) with 256. Z.to_euclidean_division_equations. lia.
Qed.

(** ** The checksum is injective in each byte *)
Definition word (z : Z) : Prop := 0 ≤ z < 2 ^ 32.

Lemma word_high z n : word z → 32 ≤ n → Z.testbit z n = false.
Proof. intros Hz Hn. rewrite <-(Z.mod_small z (2 ^ 32)) by done. apply Z.mod_pow2_bits_high. lia. Qed.

Lemma word_bits z : (∀ n, 32 ≤ n → Z.testbit z n = false) → word z.
Proof.
  intros H. assert (E : z = z mod 2 ^ 32).
  { apply Z.bits_inj'. intros n Hn. destruct (Z.lt_ge_cases n 32).
    - by rewrite Z.mod_pow2_bits_low by lia.
    - rewrite Z.mod_pow2_bits_high by lia. by apply H. }
  unfold word. rewrite E. apply Z.mod_pos_bound. lia.
Qed.

Lemma word_lxor a b : word a → word b → word (Z.lxor a b).
Proof. intros Ha Hb. apply word_bits. intros n Hn. by rewrite Z.lxor_spec, !word_high by done. Qed.

Lemma lxor_cancel a b d : Z.lxor a d = Z.lxor b d → a = b.
Proof.
  intros H. apply (f_equal (λ x, Z.lxor x d)) in H.
  by rewrite !Z.lxor_assoc, Z.lxor_nilpotent, !Z.lxor_0_r in H.
Qed.

Lemma word_shiftr s : word s → word (Z.shiftr s 1).
Proof.
  intros Hs. apply word_bits. intros n Hn. rewrite Z.shiftr_spec by lia. apply word_high; [done|lia].
Qed.
Lemma word_castagnoli : word castagnoli.
Proof. done. Qed.
#[local] Hint Resolve word_lxor word_shiftr word_castagnoli : core.

Lemma crc_bit_word s : word s → word (crc_bit s).
Proof. intros Hs. unfold crc_bit. destruct (Z.odd s); auto. Qed.

(** The top bit of the result tells the bit shifted out. *)
Lemma crc_bit_top s : word s → Z.testbit (crc_bit s) 31 = Z.odd s.
Proof.
  intros Hs. unfold crc_bit. destruct (Z.odd s).
  - rewrite Z.lxor_spec, Z.shiftr_spec, (word_high s) by (done || lia). done.
  - by rewrite Z.shiftr_spec, (word_high s) by (done || lia).
Qed.

Lemma crc_bit_inj s t : word s → word t → crc_bit s = crc_bit t → s = t.
Proof.
  intros Hs Ht H. pose proof (crc_bit_top s Hs) as Es. rewrite H, crc_bit_top in Es by done.
  assert (Hsh : Z.shiftr s 1 = Z.shiftr t 1).
  { unfold crc_bit in H. rewrite Es in H. destruct (Z.odd s); [by eapply lxor_cancel|done]. }
  rewrite !Z.shiftr_div_pow2 in Hsh by lia. change (2 ^ 1) with 2 in Hsh.
  pose proof (Z.div_mod s 2 ltac:(lia)). pose proof (Z.div_mod t 2 ltac:(lia)).
  rewrite !Zmod_odd in *. rewrite Es in *. lia.
Qed.

Lemma crc_bits_word n s : word s → word (Nat.iter n crc_bit s).
Proof. intros Hs. induction n; cbn; [done|by apply crc_bit_word]. Qed.
Lemma crc_bits_inj n s t : word s → word t → Nat.iter n crc_bit s = Nat.iter n crc_bit t → s = t.
Proof.
  intros Hs Ht. induction n as [|n IH]; cbn; [done|]. intros H. apply IH.
  apply crc_bit_inj in H; [done|by apply crc_bits_word..].
Qed.

Lemma word_byte b : word (byte_val b).
Proof. unfold word. pose proof (byte_val_range b). lia. Qed.
#[local] Hint Resolve word_byte : core.

Lemma crc_byte_word s b : word s → word (crc_byte s b).
Proof. intros Hs. apply crc_bits_word. auto. Qed.
Lemma crc_byte_inj_state s t b : word s → word t → crc_byte s b = crc_byte t b → s = t.
Proof. intros Hs Ht H. apply crc_bits_inj in H; auto. by eapply lxor_cancel. Qed.
Lemma crc_byte_inj_byte s b b' : word s → crc_byte s b = crc_byte s b' → b = b'.
Proof.
  intros Hs H. apply crc_bits_inj in H; auto. apply byte_val_inj.
  rewrite (Z.lxor_comm s (byte_val b)), (Z.lxor_comm s (byte_val b')) in H. by eapply lxor_cancel.
Qed.

Lemma crc_fold_word data s : word s → word (foldl crc_byte s data).
Proof. revert s. induction data as [|b data IH]; intros s Hs; cbn [foldl]; [done|]. by apply IH, crc_byte_word. Qed.
Lemma crc_fold_inj data s t : word s → word t → foldl crc_byte s data = foldl crc_byte t data → s = t.
Proof.
  revert s t. induction data as [|b data IH]; intros s t Hs Ht H; cbn [foldl] in H; [done|].
  apply IH in H; [|by apply crc_byte_word..]. by eapply crc_byte_inj_state.
Qed.

Lemma crc32c_word data : word (crc32c data).
Proof. apply word_lxor; [|done]. by apply crc_fold_word. Qed.

(** Changing one byte changes the checksum. *)
Lemma crc32c_one_byte data (i : nat) b b' :
  data !! i = Some b → b' ≠ b → crc32c (<[i := b']> data) ≠ crc32c data.
Proof.
  intros Hi Hne H. unfold crc32c in H. apply lxor_cancel in H.
  pose proof (lookup_lt_Some _ _ _ Hi) as Hl.
  rewrite <-(take_drop_middle data i b Hi) in H at 2.
  rewrite insert_take_drop in H by done. rewrite !foldl_app in H. cbn [foldl] in H.
  assert (Hw : word (foldl crc_byte 0xffffffff (take i data))) by (by apply crc_fold_word).
  apply crc_fold_inj in H; [|by apply crc_byte_word..]. by apply crc_byte_inj_byte in H.
Qed.

(** The check value of CRC-32C that its specification gives for "123456789". *)
Example crc32c_check : crc32c (val_byte <$> seqZ 49 9) = 0xe3069283.
Proof. vm_compute. done. Qed.

(** ** Records *)
Section Theorems.
Context `{ET : ExtTypes} `{WG : !WalGroup} `{!GroupReadLaws WG}.
Context `{!PoloCodec TimedWALMessage} `{!PoloRoundTrip TimedWALMessage}.

Lemma buffer_full n (got : bytes) : zlen got = n → buffer n got = got.
Proof.
  intros H. unfold buffer, zlen in *. rewrite take_app_le by lia. apply take_ge. lia.
Qed.

(** Reading a whole prefix. *)
Lemma read_prefix r a rest : unread r = a ++ rest → a ≠ [] →
  ∃ r', R_Read r (zlen a) = (a, None, r') ∧ unread r' = rest.
Proof.
  intros Hr Ha. destruct (read_full r (zlen a)) as (r' & Hrd & Hu).
  { rewrite Hr. unfold zlen. rewrite length_app. destruct a; [done|]. cbn. lia. }
  exists r'. rewrite Hrd, Hu, Hr. unfold zlen. rewrite Nat2Z.id, take_app_length, drop_app_length. done.
Qed.

(** What [Decode] makes of a header and data of the announced length. *)
Lemma Decode_framed rd crc data rest :
  word crc → data ≠ [] → zlen data ≤ maxMsgSizeBytes →
  unread rd = PutUint32 crc ++ PutUint32 (zlen data) ++ data ++ rest →
  ∃ rd', unread rd' = rest ∧
    Decode rd = (if negb (crc32c data =? crc) then inr (DataCorruptionError "checksums do not match")
                 else match TimedWALMessage_FromBytes data with
                      | inr _ => inr (DataCorruptionError "failed to decode data")
                      | inl m => inl m
                      end, rd').
Proof.
  intros Hcrc Hne Hmax Hu. unfold Decode.
  destruct (read_prefix rd (PutUint32 crc) (PutUint32 (zlen data) ++ data ++ rest)) as (r1 & Hr1 & Hu1);
    [done|done|]. change (zlen (PutUint32 crc)) with 4 in Hr1. rewrite Hr1.
  rewrite buffer_full by done. rewrite <-(app_nil_r (PutUint32 crc)), Uint32_PutUint32 by done.
  destruct (read_prefix r1 (PutUint32 (zlen data)) (data ++ rest)) as (r2 & Hr2 & Hu2);
    [done|done|]. change (zlen (PutUint32 (zlen data))) with 4 in Hr2. rewrite Hr2.
  assert (Hlen : 0 ≤ zlen data < 2 ^ 32) by (unfold maxMsgSizeBytes, zlen in *; lia).
  rewrite buffer_full by done. rewrite <-(app_nil_r (PutUint32 (zlen data))), Uint32_PutUint32 by done.
  destruct (Z.ltb_spec maxMsgSizeBytes (zlen data)); [lia|].
  destruct (read_prefix r2 data rest Hu2 Hne) as (r3 & Hr3 & Hu3). rewrite Hr3.
  rewrite buffer_full by done. exists r3. split; [done|].
  destruct (negb (crc32c data =? crc)); [done|]. by destruct (TimedWALMessage_FromBytes data).
Qed.

Lemma TimedWALMessage_roundtrip v raw :
  TimedWALMessage_Bytes v = inl raw → TimedWALMessage_FromBytes raw = inl v.
Proof.
  unfold TimedWALMessage_Bytes, TimedWALMessage_FromBytes, wrap_err.
  destruct (Polorize v) as [b|] eqn:E; intros [= <-]. by rewrite (depolorize_polorize v b).
Qed.

Lemma Decode_record rd v raw rest :
  TimedWALMessage_Bytes v = inl raw → raw ≠ [] → zlen raw ≤ maxMsgSizeBytes →
  unread rd = record raw ++ rest → ∃ rd', Decode rd = (inl v, rd') ∧ unread rd' = rest.
Proof.
  intros Hv Hne Hmax Hu. unfold record in Hu. rewrite <-!app_assoc in Hu.
  destruct (Decode_framed rd (crc32c raw) raw rest (crc32c_word raw) Hne Hmax Hu) as (rd' & Hr & He).
  exists rd'. split; [|done]. rewrite He, Z.eqb_refl. cbn [negb].
  by rewrite (TimedWALMessage_roundtrip v raw Hv).
Qed.

(** C38. Records read back: for a message that encodes to at most the allowed
    size, [Encode] writes one record to the group, and [Decode] at the start of
    that record, with anything behind it, gives the message back and leaves the
    reader right after it; a larger one is refused and nothing is written.  The
    allowed size is [maxMsgSizeBytes], twelve kilobytes; the comment on [Encode]
    in the code speaks of one megabyte. *)
Theorem wal_roundtrip g v raw :
  TimedWALMessage_Bytes v = inl raw → raw ≠ [] → zlen raw < 2 ^ 32 →
  if zlen raw <=? maxMsgSizeBytes
  then Encode g v = G_Write g (record raw) ∧
       ∀ rd rest, unread rd = record raw ++ rest → ∃ rd', Decode rd = (inl v, rd') ∧ unread rd' = rest
  else Encode g v = (g, Some (ENew "msg is too big")).
Proof.
  intros Hv Hne Hlen. unfold Encode. rewrite Hv, u32_small by (unfold zlen in *; lia).
  destruct (Z.leb_spec (zlen raw) maxMsgSizeBytes) as [Hle|Hgt].
  - destruct (Z.ltb_spec maxMsgSizeBytes (zlen raw)); [lia|]. split.
    + unfold record. f_equal. f_equal. f_equal. apply take_ge. unfold zlen. lia.
    + intros rd rest Hu. by eapply Decode_record.
  - destruct (Z.ltb_spec maxMsgSizeBytes (zlen raw)); [done|lia].
Qed.

(** C37. Damage is detected: if one byte of the data of a record has been changed
    on disk, whichever and to whatever value, [Decode] reports "checksums do not
    match" instead of a message. *)
Theorem wal_detects_damage raw (i : nat) b b' rd rest :
  raw !! i = Some b → b' ≠ b → zlen raw ≤ maxMsgSizeBytes →
  unread rd = PutUint32 (crc32c raw) ++ PutUint32 (zlen raw) ++ <[i := b']> raw ++ rest →
  ∃ rd', Decode rd = (inr (DataCorruptionError "checksums do not match"), rd') ∧ unread rd' = rest.
Proof.
  intros Hi Hne Hmax Hu.
  assert (Hlen : zlen (<[i := b']> raw) = zlen raw) by (unfold zlen; by rewrite length_insert).
  destruct (Decode_framed rd (crc32c raw) (<[i := b']> raw) rest (crc32c_word raw)) as (rd' & Hr & He).
  - intros Hn. apply lookup_lt_Some in Hi. apply (f_equal length) in Hn. rewrite length_insert in Hn. cbn in Hn. lia.
  - by rewrite Hlen.
  - by rewrite Hlen.
  - exists rd'. split; [|done]. rewrite He.
    destruct (Z.eqb_spec (crc32c (<[i := b']> raw)) (crc32c raw)) as [E|]; [|done].
    by destruct (crc32c_one_byte raw i b b' Hi Hne).
Qed.

(** ** Search *)
Lemma Decode_never_ptr rd e rd' : Decode rd = (inr e, rd') → IsDataCorruptionError e = false.
Proof.
  unfold Decode. destruct (R_Read rd 4) as [[got e1] r1]. destruct e1 as [e1|].
  { destruct (is_EOF e1); by intros [= <- _]. }
  destruct (R_Read r1 4) as [[got2 e2] r2]. destruct e2; [by intros [= <- _]|].
  destruct (_ <? _); [by intros [= <- _]|]. destruct (R_Read r2 _) as [[got3 e3] r3].
  destruct e3; [by intros [= <- _]|]. destruct (negb _); [by intros [= <- _]|].
  destruct (TimedWALMessage_FromBytes _); by intros [= <- _].
Qed.

Lemma scan_ignores_option fuel b b' id gr : scan fuel b id gr = scan fuel b' id gr.
Proof.
  revert gr. induction fuel as [|fuel IH]; intros gr; [done|]. cbn [scan].
  destruct (Decode gr) as [[m|e] gr'] eqn:E.
  - by destruct (String.eqb _ _).
  - rewrite (Decode_never_ptr _ _ _ E), !andb_false_r. done.
Qed.

(** [IgnoreDataCorruptionErrors] has no effect: the option asks the search
    to skip damaged records, but the test for them looks for a pointer to
    [DataCorruptionError] while the decoder returns the value, so no error of the
    decoder is ever recognised and the search gives the same answer with and
    without the option. *)
Theorem corruption_is_never_skipped :
  (∀ rd e rd', Decode rd = (inr e, rd') → IsDataCorruptionError e = false) ∧
  ∀ fuel w id, SearchForClusterID fuel w id true = SearchForClusterID fuel w id false.
Proof.
  split; [intros rd e rd'; apply Decode_never_ptr|]. intros fuel w id. unfold SearchForClusterID.
  generalize (Z.to_nat (G_MaxIndex (W_group w) - G_MinIndex (W_group w) + 1)) as n.
  generalize (G_MaxIndex (W_group w)) as index.
  intros index n. revert index. induction n as [|n IH]; intros index; [done|]. cbn [searchFrom].
  destruct (G_NewReader _ _) as [gr|]; [|done]. rewrite (scan_ignores_option fuel true false).
  destruct (scan fuel false id gr) as [[[gr'|]|e]| |]; cbn; try done.
Qed.

(** A log of whole records. *)
Definition encodable (v : TimedWALMessage) (raw : bytes) : Prop :=
  TimedWALMessage_Bytes v = inl raw ∧ raw ≠ [] ∧ zlen raw ≤ maxMsgSizeBytes.
Definition holds (bs : bytes) (vs : list TimedWALMessage) : Prop :=
  ∃ raws, Forall2 encodable vs raws ∧ bs = concat (record <$> raws).

Lemma scan_records fuel b id vs gr :
  holds (unread gr) vs → (length vs < fuel)%nat →
  if bool_decide (id ∈ TW_ClusterID <$> vs)
  then ∃ gr' before v after, scan fuel b id gr = Ret (inl (Some gr')) ∧
         vs = before ++ v :: after ∧ TW_ClusterID v = id ∧ id ∉ TW_ClusterID <$> before ∧
         holds (unread gr') after
  else scan fuel b id gr = Ret (inl None).
Proof.
  intros (raws & Hf & Hu). revert fuel gr Hu.
  induction Hf as [|v raw vs raws (Hv & Hne & Hmax) Hf IH]; intros fuel gr Hu Hlt;
    (destruct fuel as [|fuel]; [cbn in Hlt; lia|]); cbn [scan].
  - rewrite bool_decide_eq_false_2 by apply not_elem_of_nil.
    unfold Decode. destruct (read_end gr 4 ltac:(lia) Hu) as (r' & -> & _). done.
  - cbn in Hu. destruct (Decode_record gr v raw _ Hv Hne Hmax Hu) as (gr' & -> & Hu').
    destruct (String.eqb_spec (TW_ClusterID v) id) as [Heq|Hneq].
    + rewrite bool_decide_eq_true_2 by (cbn; rewrite Heq; apply list_elem_of_here).
      exists gr', [], v, vs. split_and!; try done; [apply not_elem_of_nil|]. by exists raws.
    + specialize (IH fuel gr' Hu' ltac:(cbn in Hlt; lia)).
      assert (Hiff : bool_decide (id ∈ TW_ClusterID <$> v :: vs) = bool_decide (id ∈ TW_ClusterID <$> vs)).
      { apply bool_decide_ext. cbn. rewrite elem_of_cons. naive_solver. }
      rewrite Hiff. destruct (bool_decide (id ∈ TW_ClusterID <$> vs)); [|done].
      destruct IH as (gr2 & before & w & after & Hs & -> & Hw & Hb & Ha).
      exists gr2, (v :: before), w, after. split_and!; try done.
      cbn. rewrite not_elem_of_cons. by split.
Qed.

(** C39. The search ends with the right place: when the readers opened at the
    indices of the group read whole records ([files k] at index [k]),
    [SearchForClusterID] tries the indices from the newest down and stops at the
    first that has the cluster, with the reader right after its first record of
    the cluster; it reports nothing found exactly when no index has one.  Fuel
    above the longest sequence is enough, so the search terminates. *)
Theorem search_finds_newest fuel w id ignore (files : Z → list TimedWALMessage) :
  let lo := G_MinIndex (W_group w) in let hi := G_MaxIndex (W_group w) in
  (∀ k, lo ≤ k ≤ hi → ∃ gr, G_NewReader (W_group w) k = inl gr ∧ holds (unread gr) (files k) ∧
     (length (files k) < fuel)%nat) →
  (∃ gr k before v after, SearchForClusterID fuel w id ignore = Ret (Some gr, None) ∧
     lo ≤ k ≤ hi ∧ files k = before ++ v :: after ∧ TW_ClusterID v = id ∧
     id ∉ TW_ClusterID <$> before ∧ holds (unread gr) after ∧
     ∀ k', k < k' ≤ hi → id ∉ TW_ClusterID <$> files k') ∨
  SearchForClusterID fuel w id ignore = Ret (None, None) ∧
     ∀ k, lo ≤ k ≤ hi → id ∉ TW_ClusterID <$> files k.
Proof.
  intros lo hi Hfiles. unfold SearchForClusterID. fold lo hi.
  assert (Hgen : ∀ count index, index ≤ hi → count = Z.to_nat (index - lo + 1) →
    (∀ k', index < k' ≤ hi → id ∉ TW_ClusterID <$> files k') →
    (∃ gr k before v after, searchFrom fuel count ignore id (W_group w) index = Ret (Some gr, None) ∧
       lo ≤ k ≤ hi ∧ files k = before ++ v :: after ∧ TW_ClusterID v = id ∧
       id ∉ TW_ClusterID <$> before ∧ holds (unread gr) after ∧
       ∀ k', k < k' ≤ hi → id ∉ TW_ClusterID <$> files k') ∨
    searchFrom fuel count ignore id (W_group w) index = Ret (None, None) ∧
       ∀ k, lo ≤ k ≤ hi → id ∉ TW_ClusterID <$> files k).
  { induction count as [|count IH]; intros index Hle Hc Hnew; cbn [searchFrom].
    - right. split; [done|]. intros k Hk. apply Hnew. lia.
    - destruct (Hfiles index) as (gr & -> & Hh & Hf); [lia|].
      pose proof (scan_records fuel ignore id (files index) gr Hh Hf) as Hs. case_bool_decide as Hin.
      + left. destruct Hs as (gr' & before & v & after & -> & Hsplit & Hv & Hb & Ha). cbn [mbind res_bind].
        exists gr', index, before, v, after. split_and!; try done. lia.
      + rewrite Hs. cbn [mbind res_bind]. apply IH; [lia|lia|]. intros k' Hk'.
        destruct (decide (k' = index)) as [->|]; [done|]. apply Hnew. lia. }
  apply Hgen; [done|done|]. intros k' Hk'. lia.
Qed.

(** ** Writing *)
Section Writing.
Context `{!PoloCodec Vote} `{!TesseractOps ET}.
Context (proposalBytes : Proposal → Tesseract → bytes + err) (load : option positive → res Tesseract).
Context (now : Z).

(** A synced write is on disk: when [WriteSync] reports no error, the record
    of exactly this message, stamped with the cluster and the time, was written
    to the group and the group was flushed after it, both without an error. *)
Theorem WriteSync_durable w msg id w' :
  WAL_WriteSync proposalBytes load now (Some w) msg id = Ret (w', None) →
  ∃ walMsg raw g, ConsensusMessage_WALMsg proposalBytes load msg = Ret (inl walMsg) ∧
    TimedWALMessage_Bytes {| TW_ClusterID := id; TW_Timestamp := now; TW_Message := Some walMsg |} = inl raw ∧
    u32 (zlen raw) ≤ maxMsgSizeBytes ∧
    G_Write (W_group w) (PutUint32 (crc32c raw) ++ PutUint32 (u32 (zlen raw)) ++ take (Z.to_nat (u32 (zlen raw))) raw)
      = (g, None) ∧
    ∃ g', G_FlushAndSync g = (g', None) ∧ w' = Some (with_group w g').
Proof.
  unfold WAL_WriteSync, WAL_Write. intros H. apply bind_Ret in H as ([wal1 e] & H1 & H).
  apply bind_Ret in H1 as (r & Hr & H1). destruct r as [walMsg|e0].
  2: { injection H1 as <- <-. by injection H. }
  exists walMsg. destruct (Encode _ _) as [g e1] eqn:Ee. injection H1 as <- <-.
  destruct e1 as [e1|]; [by injection H|]. unfold WAL_FlushAndSync in H. cbn [W_group with_group] in H.
  destruct (G_FlushAndSync g) as [g' e2] eqn:Ef. injection H as <- ->.
  unfold Encode in Ee. destruct (TimedWALMessage_Bytes _) as [raw|] eqn:Er; [|by injection Ee].
  destruct (Z.ltb_spec maxMsgSizeBytes (u32 (zlen raw))) as [|Hle]; [by injection Ee|].
  exists raw, g. split_and!; try done. by exists g'.
Qed.

(** A fresh log never starts: on an empty file [Start] first writes an "init"
    message without a payload, which the conversion to a log record refuses, so
    [Start] returns that error and starts neither the group nor the flush
    goroutine. *)
Theorem fresh_log_cannot_start w :
  G_HeadSize (W_group w) = inl 0 →
  WAL_Start proposalBytes load now w = Ret (w, Some (ENew "invalid message type")).
Proof. intros H. unfold WAL_Start. by rewrite H. Qed.
End Writing.
End Theorems.

(** ** A group in memory, and the witnesses *)
Definition wal_tuple (m : TimedWALMessage) : string * Z * option (string * Z * bytes) :=
  (TW_ClusterID m, TW_Timestamp m,
   (λ w, (WM_PeerID w, match WM_MsgType w with
                       | MSG_PREPARE => 0 | MSG_PREPARED => 1 | MSG_PROPOSAL => 2 | MSG_VOTEMSG => 3
                       | MSG_OTHER n => 4 + 2 * Z.abs n + (if n <? 0 then 1 else 0) end, WM_Msg w)) <$> TW_Message m).
Definition wal_kind (k : Z) : MsgType :=
  if k =? 0 then MSG_PREPARE else if k =? 1 then MSG_PREPARED else if k =? 2 then MSG_PROPOSAL
  else if k =? 3 then MSG_VOTEMSG
  else MSG_OTHER (if Z.odd k then - ((k - 4) / 2) else (k - 4) / 2).
Definition wal_of (t : string * Z * option (string * Z * bytes)) : TimedWALMessage :=
  let '(id, time, o) := t in
  {| TW_ClusterID := id; TW_Timestamp := time;
     TW_Message := (λ '(p, k, b), {| WM_PeerID := p; WM_MsgType := wal_kind k; WM_Msg := b |}) <$> o |}.
Lemma wal_of_tuple m : wal_of (wal_tuple m) = m.
Proof.
  destruct m as [id t [[p k b]|]]; [|done]. unfold wal_of, wal_tuple. cbn -[Z.mul Z.add].
  assert (Hk : wal_kind match k with
    | MSG_PREPARE => 0 | MSG_PREPARED => 1 | MSG_PROPOSAL => 2 | MSG_VOTEMSG => 3
    | MSG_OTHER n => 4 + 2 * Z.abs n + (if n <? 0 then 1 else 0) end = k); [|by rewrite Hk].
  destruct k as [| | | |n]; try done. unfold wal_kind.
  assert (Hc : ∀ x, 4 <= x → (x =? 0) = false ∧ (x =? 1) = false ∧ (x =? 2) = false ∧ (x =? 3) = false)
    by (intros x Hx; rewrite !Z.eqb_neq; lia).
  destruct (Hc (4 + 2 * Z.abs n + (if n <? 0 then 1 else 0))) as (-> & -> & -> & ->); [destruct (n <? 0); lia|].
  f_equal. destruct (Z.ltb_spec n 0).
  - replace (4 + 2 * Z.abs n + 1) with (1 + 2 * (Z.abs n + 2)) by lia.
    rewrite Z.odd_add, Z.odd_mul. cbn [Z.odd xorb andb]. Z.to_euclidean_division_equations. lia.
  - replace (4 + 2 * Z.abs n + 0) with (2 * (Z.abs n + 2)) by lia.
    rewrite Z.odd_mul. cbn [Z.odd xorb andb]. Z.to_euclidean_division_equations. lia.
Qed.
#[local] Instance msgtype_kind_eq : EqDecision TimedWALMessage.
Proof.
  refine (λ a b, cast_if (decide (wal_tuple a = wal_tuple b))).
  - abstract (rewrite <-(wal_of_tuple a), <-(wal_of_tuple b); congruence).
  - abstract (congruence).
Defined.
#[local] Instance wal_countable : Countable TimedWALMessage := inj_countable' wal_tuple wal_of wal_of_tuple.
#[local] Instance CWal : PoloCodec TimedWALMessage := codec_of TimedWALMessage.
#[local] Instance CWal_rt : PoloRoundTrip TimedWALMessage := codec_of_roundtrip TimedWALMessage.

(** A list of files, the last one the head; a reader reads one file. *)
Definition mem_write (g : list bytes) (b : bytes) : list bytes :=
  match reverse g with [] => [b] | x :: rest => reverse ((x ++ b) :: rest) end.
#[local] Instance MemGroup : WalGroup := {|
  Group := list bytes; Reader := bytes;
  G_HeadSize g := inl (zlen (default [] (head (reverse g))));
  G_Start g := (g, None);
  G_Write g b := (mem_write g b, None);
  G_FlushAndSync g := (g, None);
  G_Stop g := g; G_Close g := g;
  G_MinIndex g := 0; G_MaxIndex g := zlen g - 1;
  G_NewReader g k := match g !! Z.to_nat k with Some f => inl f | None => inr (EExternal "no such file") end;
  R_Read r n := if decide (r = []) then ([], Some io_EOF, [])
                else (take (Z.to_nat n) r, None, drop (Z.to_nat n) r);
  R_Close r := None;
|}.
#[local] Instance MemReads : GroupReadLaws MemGroup.
Proof.
  refine {| unread := λ r : @Reader MemGroup, r : bytes |}.
  - intros r n Hn. cbn. case_decide as Hd; [subst r; unfold zlen in Hn; cbn in Hn; lia|].
    by exists (drop (Z.to_nat n) r).
  - intros r n _ ->. by exists [].
Defined.

Definition m_msg (id : string) (time : Z) : TimedWALMessage :=
  {| TW_ClusterID := id; TW_Timestamp := time; TW_Message := None |}.
Definition m_raw (id : string) (time : Z) : bytes :=
  match TimedWALMessage_Bytes (m_msg id time) with inl raw => raw | inr _ => [] end.
Definition m_file (ms : list (string * Z)) : bytes := concat ((λ p, record (m_raw p.1 p.2)) <$> ms).

Lemma wal_roundtrip_witness :
  ∃ rd', Decode (m_file [("a", 1); ("b", 2)]%string : @Reader MemGroup) = (inl (m_msg "a" 1), rd') ∧
    unread rd' = m_file [("b", 2)]%string.
Proof.
  pose proof (wal_roundtrip ([] : @Group MemGroup) (m_msg "a" 1) (m_raw "a" 1)) as H.
  assert (Hle : zlen (m_raw "a" 1) <=? maxMsgSizeBytes = true) by (vm_compute; reflexivity).
  rewrite Hle in H. destruct H as [_ H].
  - reflexivity.
  - vm_compute. discriminate.
  - vm_compute. reflexivity.
  - apply H. unfold m_file. cbn. rewrite app_nil_r. reflexivity.
Defined.

Definition m_damaged : bytes := <[3%nat := Byte.x77]> (m_raw "a" 1).
Lemma wal_detects_damage_witness :
  ∃ rd', Decode (PutUint32 (crc32c (m_raw "a" 1)) ++ PutUint32 (zlen (m_raw "a" 1)) ++ m_damaged ++ []
                 : @Reader MemGroup) = (inr (DataCorruptionError "checksums do not match"), rd') ∧ unread rd' = [].
Proof.
  apply (wal_detects_damage (m_raw "a" 1) 3 (default Byte.x77 (m_raw "a" 1 !! 3%nat)) Byte.x77).
  - vm_compute. reflexivity.
  - vm_compute. discriminate.
  - vm_compute. discriminate.
  - reflexivity.
Defined.

Definition m_group : list bytes := [m_file [("a", 1); ("b", 2)]; m_file [("b", 3); ("c", 4); ("b", 5)]]%string.
Definition m_files (k : Z) : list TimedWALMessage :=
  if k =? 0 then [m_msg "a" 1; m_msg "b" 2] else [m_msg "b" 3; m_msg "c" 4; m_msg "b" 5].
Definition m_wal : BaseWAL := {| W_group := m_group : @Group MemGroup; W_flushing := true |}.

Lemma m_encodable id time :
  negb (zlen (m_raw id time) =? 0) && (zlen (m_raw id time) <=? maxMsgSizeBytes) = true →
  encodable (m_msg id time) (m_raw id time).
Proof.
  intros [H1 H2]%andb_true_iff. apply negb_true_iff, Z.eqb_neq in H1. apply Z.leb_le in H2.
  split; [done|]. split; [|done]. intros E. rewrite E in H1. done.
Defined.
Lemma m_holds ms :
  forallb (λ p, negb (zlen (m_raw p.1 p.2) =? 0) && (zlen (m_raw p.1 p.2) <=? maxMsgSizeBytes)) ms = true →
  holds (m_file ms) ((λ p, m_msg p.1 p.2) <$> ms).
Proof.
  intros H. exists ((λ p, m_raw p.1 p.2) <$> ms). split.
  - induction ms as [|p ms IH]; cbn in *; [constructor|]. apply andb_true_iff in H as [H1 H2].
    constructor; [by apply m_encodable|by apply IH].
  - unfold m_file. by rewrite <-list_fmap_compose.
Defined.

Lemma search_finds_newest_witness :
  ∃ gr, SearchForClusterID 10 m_wal "b" false = Ret (Some gr, None) ∧
    gr = m_file [("c", 4); ("b", 5)]%string.
Proof.
  destruct (search_finds_newest 10 m_wal "b" false m_files) as [H|[_ Hn]].
  - intros k Hk. change (0 <= k <= 1) in Hk. assert (Hk' : k = 0 ∨ k = 1) by lia. destruct Hk' as [->| ->]; eexists.
    + split; [reflexivity|]. split; [|cbn; lia]. apply (m_holds [("a", 1); ("b", 2)]%string). vm_compute. reflexivity.
    + split; [reflexivity|]. split; [|cbn; lia].
      apply (m_holds [("b", 3); ("c", 4); ("b", 5)]%string). vm_compute. reflexivity.
  - destruct H as (gr & k & before & v & after & Hs & _). exists gr. split; [exact Hs|].
    revert Hs. vm_compute. intros [= <-]. reflexivity.
  - exfalso. apply (Hn 1); [change (0 <= 1 <= 1); lia|]. apply list_elem_of_here.
Defined.

#[local] Existing Instances CE CT.
#[local] Instance CVoteBytes : PoloCodec Vote := {|
  Polorize v := inl [cbyte (ctype_code (@V_Type CE v)); cbyte (@V_View CE v)];
  Depolorize raw := inr (EExternal "not needed");
|}.
Definition m_proposal (p : Proposal) (t : @Tesseract CE CT) : bytes + err := inl [].
Definition m_load (p : option positive) : res (@Tesseract CE CT) := Panic "nil pointer dereference".
Definition m_vote : ConsensusMessage :=
  {| CM_PeerID := "A"; CM_Recipient := "";
     CM_Payload := PayloadVote {| V_Type := PREVOTE; V_IsQC := false; V_View := 1; V_SignerIndex := 0;
       V_Timestamp := 0; V_Heights := ∅; V_TSHash := (7 : @Hash CE); V_SignerIndices := None; V_Signature := [] |} |}.
Definition m_after : option BaseWAL :=
  match WAL_WriteSync m_proposal m_load 9 (Some m_wal) m_vote "c" with Ret (w, _) => w | _ => None end.
Lemma WriteSync_durable_witness :
  ∃ walMsg, ConsensusMessage_WALMsg m_proposal m_load m_vote = Ret (inl walMsg) ∧ WM_MsgType walMsg = MSG_VOTEMSG.
Proof.
  destruct (WriteSync_durable m_proposal m_load 9 m_wal m_vote "c" m_after) as (walMsg & _ & _ & Hm & _).
  - vm_compute. reflexivity.
  - exists walMsg. split; [exact Hm|]. revert Hm. vm_compute. intros [= <-]. reflexivity.
Defined.

Definition m_empty : BaseWAL := {| W_group := [] : @Group MemGroup; W_flushing := false |}.
Lemma fresh_log_cannot_start_witness :
  WAL_Start m_proposal m_load 9 m_empty = Ret (m_empty, Some (ENew "invalid message type")).
Proof. apply fresh_log_cannot_start. reflexivity. Defined.
