(* ===== verification/KbftProgress.v ===== *)
(** * Progress of an agreement: within its view an engine decides

    An engine that has a proposal never panics on what arrives during its view:
    votes and certificates of the view in any order, valid or not, further
    proposals, its own messages and timeouts of the view.  When validators that
    reach every threshold have precommitted to the proposal's tesseract, in votes
    sent to it or in a certificate of the operator, and vote for nothing else, it
    has finalized the tesseract. *)

From stdpp Require Import base gmap strings list fin_maps.
From Stdlib Require Import ZArith Lia.
From S2P Require Import Prelude External Types NodeSet Committee Cluster VoteSet Tally VoteSetFacts VoteSetSpec HeightVoteSet Safety Ticker Kbft KbftFacts KbftSpec Concrete Scenario KbftScenario.

(** ** Counting for one tesseract *)
Section Counting.
Context `{ET : ExtTypes} `{!ExtOps ET} `{!BitLaws ET} `{!PoloCodec CanonicalVote}.
Context (c : ICSCommittee) (q : list Z) (vw : Z) (vt : ConsensusMsgType) (sent : Vote → Prop).
Context (Henv : env_ok c q).
Notation vs_ok := (vs_ok c q vw vt sent).

(** A vote that [AddVote] has nothing to object to. *)
Definition valid_vote (vs : VoteSet) (v : Vote) : Prop :=
  admissible c vs v ∧ ∃ raw, Vote_SignBytes v = inl raw ∧
    Verify raw (V_Signature v) (key_at c (V_SignerIndex v)) = (true, None).
(** Validator [i] votes for nothing but [h]. *)
Definition loyal (h : Hash) (i : nat) : Prop := ∀ w, authentic c vw vt sent (Z.of_nat i) w → V_TSHash w = h.

Lemma majority_quiet vs vs' :
  vs_ok vs → vs_ok vs' → (∀ h i, counted_for vs' h i = counted_for vs h i) →
  maj23TsHash vs = None → maj23TsHash vs' = None.
Proof.
  intros [_ Hm] [_ Hm'] Hc Hn. destruct (maj23TsHash vs') as [h|] eqn:E; [|done]. exfalso.
  unfold maj_ok in *. rewrite Hn in Hm. rewrite E in Hm'. destruct Hm' as (b & _ & Hb & Hr & _).
  apply (proj2 Hm h). revert Hr. apply reaches_mono. intros i _ Hi. rewrite <-Hc. by apply Hb.
Qed.

Lemma counted_loyal vs h' h i : vs_ok vs → loyal h i → counted_for vs h' i = true → h' = h.
Proof.
  intros [Hc _] Hl Hv. unfold counted_for in Hv. destruct (votesByTesseract vs !! h') as [tv|] eqn:E; [|done].
  apply voted_true in Hv as [w Hw]. destruct (to_auth _ _ _ _ _ _ (vo_tvs _ _ _ _ _ Hc _ _ E) _ _ Hw) as [<- Ha].
  by apply Hl.
Qed.

Lemma voted_counted vs h i : vs_ok vs → loyal h i → voted (VS_votes vs) i = true → counted_for vs h i = true.
Proof.
  intros Hok Hl Hv. apply (vo_voted _ _ _ _ _ (proj1 Hok)) in Hv as [h' Hv].
  by rewrite (counted_loyal vs h' h i Hok Hl Hv) in Hv.
Qed.

Lemma held_loyal vs h i w : vs_ok vs → loyal h i → held vs i h = Some w → counted_for vs h i = true.
Proof.
  intros Hok Hl. unfold held, counted_for.
  assert (Htv : mjoin ((λ tv, mjoin (TV_votes tv !! i)) <$> votesByTesseract vs !! h) = Some w →
    match votesByTesseract vs !! h with Some tv => voted (TV_votes tv) i | None => false end = true).
  { destruct (votesByTesseract vs !! h) as [tv|]; [|done]. cbn. unfold voted.
    by destruct (TV_votes tv !! i) as [[]|]. }
  destruct (VS_votes vs !! i) as [[e|]|] eqn:E; [|done|done].
  intros _. apply (voted_counted vs h i Hok Hl). unfold voted. by rewrite E.
Qed.

(** After [AddVote] a valid vote of a loyal validator is counted. *)
Lemma AddVote_counts vs cs v r :
  vs_ok vs → cluster_ok c q cs → sent v → valid_vote vs v → loyal (V_TSHash v) (Z.to_nat (V_SignerIndex v)) →
  AddVote vs cs (Some v) = Ret r → counted_for r.1.2 (V_TSHash v) (Z.to_nat (V_SignerIndex v)) = true.
Proof.
  intros Hok Hcs Hs [Had (raw & Hraw & Hver)] Hl H. set (i := Z.to_nat (V_SignerIndex v)) in *.
  destruct (held vs i (V_TSHash v)) as [w|] eqn:Eh.
  - destruct (AddVote_unfold c q vw vt sent Henv vs cs v Hok Hcs Had) as (e & He & _); [left; fold i; by rewrite Eh|].
    rewrite He in H. injection H as <-. by eapply held_loyal.
  - destruct (AddVote_checked c q vw vt sent Henv vs cs v raw Hok Hcs Hs Had Hraw Eh Hver)
      as (vs' & cs' & He & _ & Hc).
    rewrite He in H. injection H as <-. cbn. rewrite Hc. fold i.
    destruct (voted (VS_votes vs) i) eqn:Ev.
    + by rewrite (voted_counted vs _ i Hok Hl Ev).
    + unfold vote_answer. fold i. rewrite Eh, Ev, bool_decide_eq_true_2 by done. by rewrite orb_true_r.
Qed.

(** Loyal validators that reach the thresholds are the majority, when every
    majority weighs more than half of some position. *)
Lemma good_majority vs h good k x :
  vs_ok vs → (∀ i, good i = true → counted_for vs h i = true) → reaches c q good →
  q !! k = Some x → tally c (Z.of_nat k) (λ _, true) < 2 * x → maj23TsHash vs = Some h.
Proof.
  intros [Hc Hm] Hg Hr Hk Hx. unfold maj_ok in Hm. destruct (maj23TsHash vs) as [h'|].
  - destruct Hm as (b & _ & Hb & Hrb & _). f_equal.
    pose proof (tally_overlap c (Z.of_nat k) _ _ x (Hrb k x Hk) (Hr k x Hk)) as Ho. cbn beta in Ho.
    destruct (tally_pos_member c (Z.of_nat k) (λ i, GetIndex b (Z.of_nat i) && good i)) as (i & _ & Hi & _); [lia|].
    apply andb_true_iff in Hi as [Hi1 Hi2]. apply (vo_once _ _ _ _ _ Hc h' h i); [by apply Hb|by apply Hg].
  - exfalso. apply (proj2 Hm h). revert Hr. apply reaches_mono. intros i _. apply Hg.
Qed.

(** A certificate that checks under the keys of its signers. *)
Definition valid_cert (v : Vote) (signers : list Z) : Prop :=
  0 ≤ V_SignerIndex v ∧ signerIndices v = Ret signers ∧
  (∀ n, n ∈ signers → KR_ID (lookup_spec c (i32 n)) ≠ ""%string) ∧
  ∃ raw, Vote_SignBytes v = inl raw ∧
    VerifyAggregateSignature raw (V_Signature v) ((λ n, key_at c (i32 n)) <$> signers) = (true, None).
(** No set of the view holds a majority for another tesseract. *)
Definition unrivalled (h : Hash) : Prop := ∀ vs h', vs_ok vs → maj23TsHash vs = Some h' → h' = h.

Lemma loyal_unrivalled h good k x :
  (∀ i, good i = true → loyal h i) → reaches c q good →
  q !! k = Some x → tally c (Z.of_nat k) (λ _, true) < 2 * x → unrivalled h.
Proof.
  intros Hl Hr Hk Hx vs h' Hok Hm. pose proof (proj2 Hok) as Hmaj. unfold maj_ok in Hmaj. rewrite Hm in Hmaj.
  destruct Hmaj as (b & _ & Hb & Hrb & _).
  pose proof (tally_overlap c (Z.of_nat k) _ _ x (Hrb k x Hk) (Hr k x Hk)) as Ho. cbn beta in Ho.
  destruct (tally_pos_member c (Z.of_nat k) (λ i, GetIndex b (Z.of_nat i) && good i)) as (i & _ & Hi & _); [lia|].
  apply andb_true_iff in Hi as [Hi1 Hi2]. apply (counted_loyal vs h' h i Hok (Hl i Hi2)). by apply Hb.
Qed.

(** [AddQc] returns when there are signer indices, changes nothing when it
    refuses, and counts the loyal signers of a valid certificate. *)
Lemma AddQc_counts vs cs v signers :
  vs_ok vs → cluster_ok c q cs → sent v → V_View v = vw → V_Type v = vt → signerIndices v = Ret signers →
  ∃ a e vs' cs', AddQc vs cs (Some v) = Ret (a, e, vs', cs') ∧ step_ok c q vw vt sent vs vs' cs' ∧
    (a = true → e = None) ∧ (a = false → ∀ h k, counted_for vs' h k = counted_for vs h k) ∧
    (valid_cert v signers → unrivalled (V_TSHash v) → ∀ n, n ∈ signers →
       loyal (V_TSHash v) (Z.to_nat (i32 n)) → counted_for vs' (V_TSHash v) (Z.to_nat (i32 n)) = true).
Proof.
  intros Hok Hcs Hs Hv Ht Hsig. destruct (qc_valid_dec c sent vs v signers Hsig) as [[raw Hval]|Hn].
  - destruct (AddQc_accepts c q vw vt sent Henv vs cs v signers raw Hok Hcs Hs Hv Ht Hval) as (vs' & cs' & He & Hst & Hacc).
    exists true, None, vs', cs'. split_and!; [done|done|done|done|]. intros _ _ n Hn Hl.
    destruct Hacc as (_ & _ & Hacc). destruct (Hacc n Hn) as (_ & _ & h & Hh & [->|Hh0]); [done|].
    enough (h = V_TSHash v) as <- by done. apply (counted_loyal vs h (V_TSHash v) _ Hok Hl Hh0).
  - destruct (AddQc_refuses c q Henv vs cs v signers Hcs Hsig Hn) as [e He].
    exists false, e, vs, cs. split_and!; [done|by apply step_ok_refl|done|done|].
    intros (Hi & _ & Hk & raw & Hraw & Hver) Hun. destruct (Hn raw). split; [done| |done..]. intros h Hh. by apply (Hun vs).
Qed.

(** [HasMajorityAny] returns on a sound set. *)
Lemma HasMajorityAny_Ret vs cs : vs_ok vs → cluster_ok c q cs → ∃ b cs', HasMajorityAny (Some vs) cs = Ret (b, cs').
Proof.
  intros [Hc _] Hcs. pose proof (vo_sums _ _ _ _ _ Hc) as Hsums.
  destruct (sumsReach_spec c q Henv (voted (VS_votes vs)) cs (VS_sum vs) 0) as (b & cs' & Hb & _); [done| | |by eauto].
  - by rewrite (sums_are_length _ _ _ Hsums).
  - intros j x Hx. pose proof (lookup_lt_Some _ _ _ Hx) as Hl. rewrite (sums_are_length _ _ _ Hsums) in Hl.
    rewrite (sums_are_lookup _ _ _ _ Hsums Hl) in Hx. cbn beta in Hx.
    rewrite (tally_u32 c q) in Hx by done. by simplify_eq.
Qed.
End Counting.

(** ** The engine within a view *)
Section Within.
Context `{ET : ExtTypes} `{!ExtOps ET} `{!TesseractOps ET}.
Context `{!SafetyStore ET} `{!TesseractParts ET _}.
Context `{!PoloCodec CanonicalVote} `{!PoloCodec SafetyData} `{!PoloCodec ProposalInfo} `{!PoloCodec Evidence}.
Context `{!BitLaws ET} `{!TesseractLaws ET _}.
Context (vault : option (bytes → bytes * option err)) (tesseractHandler : Tesseract → option err).

(** A message whose vote, if it has one, is a vote or a certificate of view
    [view]; a certificate names its signers. *)
Definition in_view_msg (view : Z) (m : ConsensusMessage) : Prop :=
  ∀ v, any_vote m = Some v →
    (V_IsQC v = true → is_Some (V_SignerIndices v)) ∧ voteType (V_Type v) ∧ V_View v = view.

(** What no handler changes while the view stays: what the engine sends itself are
    votes of the view, and the proposal keeps its tesseract. *)
Definition same_view (k k' : KBFT) : Prop :=
  K_Votes k' = K_Votes k ∧ K_View k' = K_View k ∧ K_Proposal k' = K_Proposal k ∧
  K_ProposalTS k' = K_ProposalTS k ∧ K_Heights k' = K_Heights k ∧ K_selfRead k' = K_selfRead k ∧
  (∃ ms, K_self k' = K_self k ++ ms ∧ Forall (in_view_msg (K_View k)) ms) ∧
  (∀ t, load k (K_ProposalTS k) = Ret t → ∃ t', load k' (K_ProposalTS k) = Ret t' ∧ TsHash t' = TsHash t).
(** Nothing is decided either. *)
Definition same_outcome (k k' : KBFT) : Prop :=
  same_view k k' ∧ K_heap k' = K_heap k ∧ K_finalized k' = K_finalized k ∧ K_closed k' = K_closed k.

Lemma same_view_trans a b d : same_view a b → same_view b d → same_view a d.
Proof.
  intros (V1 & W1 & P1 & T1 & H1 & R1 & (m1 & S1 & F1) & L1) (V2 & W2 & P2 & T2 & H2 & R2 & (m2 & S2 & F2) & L2).
  split_and!; [congruence..| |].
  - exists (m1 ++ m2). rewrite S2, S1, app_assoc. split; [done|]. rewrite W1 in F2. by apply Forall_app.
  - intros t Ht. destruct (L1 t Ht) as (t1 & Ht1 & E1). rewrite <-T1 in Ht1.
    destruct (L2 t1 Ht1) as (t2 & Ht2 & E2). rewrite T1 in Ht2. exists t2. split; [done|congruence].
Qed.
Lemma same_outcome_trans a b d : same_outcome a b → same_outcome b d → same_outcome a d.
Proof. intros (V1 & H1 & F1 & C1) (V2 & H2 & F2 & C2). split; [by eapply same_view_trans|]. split_and!; congruence. Qed.
(** Fields that no conjunct mentions. *)
Ltac same_fields := split_and!; try done; [exists []; split; [by rewrite app_nil_r|by constructor]|eauto].
Ltac same_by := solve [same_fields | split; [same_fields|by split_and!]].
Lemma same_view_refl k : same_view k k.
Proof. same_by. Qed.
Lemma same_outcome_refl k : same_outcome k k.
Proof. same_by. Qed.

Lemma sendVote_same ty h internal k :
  voteType ty → same_outcome k (sendVote vault ty h internal k) ∧ K_Step (sendVote vault ty h internal k) = K_Step k.
Proof.
  intros Hty. destruct (sendVote_cases vault ty h internal k) as [->|(v & m & E1 & E2 & _ & Hm & [-> | ->])];
    (split; [|done]); [same_by| |same_by].
  split; [|by split_and!]. split_and!; try done; [|eauto]. exists [m]. split; [done|].
  apply Forall_singleton. intros w Hw. rewrite (out_any _ _ Hm) in Hw. injection Hw as <-.
  split; [|split; [by rewrite E1|done]]. unfold out_vote in Hm. destruct (CM_Payload m); try done.
  destruct (V_IsQC v0) eqn:E; [done|]. injection Hm as <-. by rewrite E.
Qed.

Lemma sendQc_total ty h k :
  voteType ty → is_Some (getVoteSet (K_Votes k) (K_View k) ty) →
  ∃ k', sendQc vault ty h k = Ret k' ∧ same_outcome k k' ∧ K_Step k' = K_Step k ∧ K_db k' = K_db k ∧ K_id k' = K_id k.
Proof.
  intros Hty [vs Hvs]. unfold sendQc, HVS_Prevotes, HVS_Precommits.
  destruct (negb _); [exists k; by split_and!; [|same_by|..]|].
  destruct Hty as [-> | ->]; rewrite Hvs; cbn [deref mbind res_bind]; eexists; (split; [done|]); by split_and!; [same_by|..].
Qed.

(** *** Prevotes *)
Lemma enterPreCommit_body_total k p t :
  K_Proposal k = Some p → K_ProposalTS k = Prop_Tesseract p → load k (Prop_Tesseract p) = Ret t →
  ∃ k', enterPreCommit_body vault (K_View k) k = Ret k' ∧ same_outcome k k' ∧ K_Step k' = K_Step k.
Proof.
  intros Hp Hts Ht. unfold enterPreCommit_body, HVS_Prevotes.
  destruct (SuperMajority _) as [h [|]] eqn:Em; [|exists k; by split_and!; [|same_by|]].
  destruct (SuperMajority_GetQC _ _ _ _ Em) as (vs & qc & Hvs & Hqc & _).
  assert (H1 : ∃ k1, (if isLeader k (K_View k) (K_id k) then sendQc vault PREVOTE h k else Ret k) = Ret k1 ∧
    same_outcome k k1 ∧ K_Step k1 = K_Step k).
  { destruct (isLeader _ _ _); [|exists k; by split_and!; [|same_by|]].
    destruct (sendQc_total PREVOTE h k) as (k1 & ? & ? & ? & _); [by left|by rewrite Hvs|by exists k1]. }
  destruct H1 as (k1 & -> & Hs & Hst). cbn [mbind res_bind].
  pose proof Hs as ((Ev & Ew & Ep & Et & _) & Eh & _ & _).
  assert (Ht1 : load k1 (Prop_Tesseract p) = Ret t) by (unfold load; by rewrite Eh).
  rewrite Et, Hts, Ht1. cbn [mbind res_bind]. destruct (negb _).
  { rewrite Ep, Hp. cbn [deref mbind res_bind]. rewrite Ht1. by exists k1. }
  rewrite Ev, Ew, Hqc, Ep, Hp. cbn [mbind res_bind].
  destruct (UpdateSafetyInfo_Ret (load k1) (K_db k1) p t qc Ht1) as (db & e & ->). cbn [mbind res_bind].
  assert (Hdb : same_outcome k (with_db k1 db)) by (eapply same_outcome_trans; [exact Hs|same_by]).
  destruct e; [by exists (with_db k1 db)|].
  destruct (sendVote_same PRECOMMIT h (isLeader (with_db k1 db) (K_View k) (K_id (with_db k1 db))) (with_db k1 db)) as [Hv Hsv];
    [by right|].
  eexists. split; [done|]. split; [by eapply same_outcome_trans|]. by rewrite Hsv.
Qed.

Lemma enterPreCommit_total h k p t :
  K_Proposal k = Some p → K_ProposalTS k = Prop_Tesseract p → load k (Prop_Tesseract p) = Ret t →
  ∃ k', enterPreCommit vault h (K_View k) k = Ret k' ∧ same_outcome k k' ∧
    (K_Step k' = K_Step k ∨ K_Step k < ViewStepPrecommit ∧ K_Step k' = ViewStepPrecommit).
Proof.
  intros Hp Hts Ht. unfold enterPreCommit. destruct (_ || _) eqn:Eg; [exists k; split_and!; [done|same_by|by left]|].
  apply orb_false_iff in Eg as [_ Eg]. rewrite Z.eqb_refl in Eg. apply Z.leb_gt in Eg.
  destruct (enterPreCommit_body_total k p t Hp Hts Ht) as (k1 & -> & Hs & Hst). cbn [mbind res_bind].
  eexists. split; [done|]. split; [|by right]. eapply same_outcome_trans; [exact Hs|].
  replace (K_View k) with (K_View k1) by apply Hs. same_by.
Qed.

(** *** Precommits *)
Lemma updateConsensusInfo_same bits sig k e k' :
  updateConsensusInfoInTesseracts vault bits sig k = Ret (e, k') → same_view k k'.
Proof.
  unfold updateConsensusInfoInTesseracts. destruct (FlushEvidence _) as [[eh data]|e0]; [|intros [= <- <-]; same_by].
  intros (p & _ & (pt & _ & (t & Ht & H)%bind_Ret)%bind_Ret)%bind_Ret.
  set (qc := {| Qc_Type := PRECOMMIT |}) in H. cbn [K_ProposalTS with_votes] in Ht, H.
  change (load (with_votes _ _ _) _) with (load k (K_ProposalTS k)) in Ht.
  destruct (K_ProposalTS k) as [l|] eqn:El; [|done].
  assert (Hstore : ∀ t1 k1, K_heap k1 = <[l := t1]> (K_heap k) → TsHash t1 = TsHash t →
    (K_Votes k1, K_View k1, K_Proposal k1, K_ProposalTS k1, K_Heights k1, K_selfRead k1, K_self k1)
    = (K_Votes k, K_View k, K_Proposal k, K_ProposalTS k, K_Heights k, K_selfRead k, K_self k) → same_view k k1).
  { intros t1 k1 Eh E1 [= ? ? ? ? ? ? Es]. split_and!; try done.
    - exists []. rewrite app_nil_r. by split; [|constructor].
    - intros t0 H0. rewrite El in H0. assert (t0 = t) as -> by congruence.
      exists t1. split; [|done]. rewrite El. unfold load. by rewrite Eh, lookup_insert_eq. }
  destruct (TsSignBytes _) as [raw|e1].
  2: { injection H as <- <-. apply (Hstore (TsSetCommitQc t qc)); [done|by rewrite ts_hash_qc|done]. }
  apply bind_Ret in H as (sign & _ & H). destruct (sign raw) as [seal [e2|]]; injection H as <- <-.
  { apply (Hstore (TsSetCommitQc t qc)); [done|by rewrite ts_hash_qc|done]. }
  cbn [K_ProposalTS with_heap with_votes]. rewrite El.
  apply (Hstore (TsSetSealBy (TsSetSeal (TsSetCommitQc t qc) seal) (K_id k))); [|by rewrite ts_hash_seal_by, ts_hash_seal, ts_hash_qc|done].
  cbn. by rewrite insert_insert_eq.
Qed.

Lemma finalizeCommit_same h k k' : finalizeCommit vault tesseractHandler h k = Ret k' → same_view k k'.
Proof.
  unfold finalizeCommit. intros H. destruct (negb (areHeightsEqual _ _)); [done|].
  destruct (SuperMajority _) as [th [|]]; [|injection H as <-; same_by].
  destruct (decide _); [injection H as <-; same_by|]. destruct (K_Proposal k) as [p|]; [|injection H as <-; same_by].
  apply bind_Ret in H as (pt & _ & H). destruct (negb _); [injection H as <-; same_by|].
  destruct (_ || _); [injection H as <-; same_by|].
  apply bind_Ret in H as (vs & _ & H). apply bind_Ret in H as ([e k1] & Hu & H).
  eapply same_view_trans; [by eapply updateConsensusInfo_same|].
  destruct e as [e|]; [injection H as <-; same_by|]. apply bind_Ret in H as (t & _ & H).
  destruct (tesseractHandler _); injection H as <-; same_by.
Qed.

(** Storing and announcing the certificate of a precommit majority never fails
    while there is a proposal. *)
Lemma enterCommit_body_total k p t h :
  K_Proposal k = Some p → load k (Prop_Tesseract p) = Ret t →
  SuperMajority (HVS_Precommits (K_Votes k) (K_View k)) = (h, true) →
  ∃ k', enterCommit_body vault (K_View k) k = Ret k' ∧ same_outcome k k' ∧ K_Step k' = K_Step k.
Proof.
  intros Hp Ht Hm. unfold enterCommit_body. rewrite Hm.
  destruct (SuperMajority_GetQC _ _ _ _ Hm) as (vs & qc & Hvs & -> & _). cbn [mbind res_bind]. rewrite Hp.
  destruct (UpdateSafetyInfo_Ret (load k) (K_db k) p t qc Ht) as (db & e & ->). cbn [mbind res_bind].
  destruct e; [exists (with_db k db); by split_and!; [|same_by|]|].
  destruct (isLeader _ _ _); [|exists (with_db k db); by split_and!; [|same_by|]].
  destruct (sendQc_total PRECOMMIT h (with_db k db)) as (k1 & ? & Hs & ? & _); [by right|by eexists|].
  exists k1. split; [done|]. split; [|done]. eapply same_outcome_trans; [|exact Hs]. same_by.
Qed.

Lemma enterCommit_same h k k' p t th :
  K_Proposal k = Some p → load k (Prop_Tesseract p) = Ret t →
  SuperMajority (HVS_Precommits (K_Votes k) (K_View k)) = (th, true) →
  enterCommit vault tesseractHandler h (K_View k) k = Ret k' → same_view k k'.
Proof.
  intros Hp Ht Hm. rewrite enterCommit_Ret. destruct (_ || _); [intros [= <-]; same_by|].
  destruct (enterCommit_body_total k p t th Hp Ht Hm) as (k1 & -> & [Hs _] & _). cbn [mbind res_bind]. intros H.
  apply finalizeCommit_same in H. eapply same_view_trans; [exact Hs|]. eapply same_view_trans; [|exact H]. same_by.
Qed.

(** A precommit majority for another tesseract ends the engine's work without a
    decision. *)
Lemma enterCommit_other k p t h :
  K_Proposal k = Some p → load k (Prop_Tesseract p) = Ret t →
  SuperMajority (HVS_Precommits (K_Votes k) (K_View k)) = (h, true) → h ≠ TsHash t →
  ∃ k', enterCommit vault tesseractHandler (K_Heights k) (K_View k) k = Ret k'.
Proof.
  intros Hp Ht Hm Hne. unfold enterCommit. destruct (_ || _); [by eexists|].
  destruct (enterCommit_body_total k p t h Hp Ht Hm) as (k1 & -> & Hs & _). cbn [mbind res_bind].
  pose proof Hs as ((Ev & Ew & Ep & _ & Eh & _) & Ehp & _).
  unfold commit_step, finalizeCommit. cbn [K_Heights K_Votes K_CommitView K_Proposal with_commit_view stepChange updateViewStep with_step].
  change (K_Heights (stepChange _)) with (K_Heights k1). change (K_Votes (stepChange _)) with (K_Votes k1).
  change (K_CommitView (stepChange _)) with (K_View k). change (K_Proposal (stepChange _)) with (K_Proposal k1).
  rewrite Eh, areHeightsEqual_refl, Ev, Hm, Ep, Hp. cbn [negb]. destruct (decide _); [by eexists|].
  change (load (stepChange _)) with (load k1). assert (E : load k1 (Prop_Tesseract p) = Ret t) by (unfold load; by rewrite Ehp).
  rewrite E. cbn [mbind res_bind]. destruct (TsCompareHash t h) eqn:Ec; [|by eexists].
  apply ts_compare in Ec. congruence.
Qed.

(** *** What holds while the view lasts *)
Section Live.
Context (c : ICSCommittee) (q : list Z) (Henv : env_ok c q) (Hthr : ∃ x, x ∈ q ∧ 0 < x).
Context (view : Z) (heights : gmap Address Z) (operator : KramaID) (p : Proposal) (t : Tesseract).
Context (fin0 : list Tesseract) (closed0 : list (option err)).
(** Evidence and the tesseract encode, and the vault signs. *)
Record can_always_seal : Prop := {
  as_evidence : ∀ e, ∃ ev, FlushEvidence e = inl ev;
  as_seal : ∃ sign, vault = Some sign ∧ ∀ qc, ∃ raw seal, TsSignBytes (TsSetCommitQc t qc) = inl raw ∧ sign raw = (seal, None);
}.
Context (Hseal : can_always_seal) (Hnil : TsHash t ≠ NilHash).

Definition decided (k : KBFT) : Prop :=
  K_Step k = ViewStepCommit ∧ ∃ t', TsHash t' = TsHash t ∧ K_finalized k = fin0 ++ [t'] ∧
    K_closed k = closed0 ++ [tesseractHandler t'].
Definition undecided (k : KBFT) : Prop :=
  K_Step k < ViewStepCommit ∧ load k (Prop_Tesseract p) = Ret t ∧ K_finalized k = fin0 ∧ K_closed k = closed0.
(** The precommits say whether it is decided. *)
Definition outcome (k : KBFT) (vs : VoteSet) : Prop :=
  match maj23TsHash vs with
  | None => undecided k
  | Some h => h = TsHash t → decided k
  end.

Section Step.
Context (sent : Vote → Prop).
Record alive (k : KBFT) (vs : VoteSet) : Prop := {
  lv_inv : kinv c q sent k;
  lv_view : K_View k = view;
  lv_heights : K_Heights k = heights;
  lv_operator : K_operator k = operator;
  lv_step : ViewStepNewHeight < K_Step k;
  lv_prop : K_Proposal k = Some p;
  lv_load : ∃ t', load k (Prop_Tesseract p) = Ret t' ∧ TsHash t' = TsHash t;
  lv_set : getVoteSet (K_Votes k) view PRECOMMIT = Some vs;
  lv_self : Forall (in_view_msg view) (drop (K_selfRead k) (K_self k));
}.
(** Nobody is forgotten. *)
Definition grows (vs vs' : VoteSet) : Prop :=
  header vs' = header vs ∧ ∀ h i, counted_for vs h i = true → counted_for vs' h i = true.
Lemma grows_refl vs : grows vs vs.
Proof. by split. Qed.
Lemma grows_trans a b d : grows a b → grows b d → grows a d.
Proof. intros [E1 H1] [E2 H2]. split; [congruence|eauto]. Qed.

Lemma alive_ts k vs : alive k vs → K_ProposalTS k = Prop_Tesseract p.
Proof. intros Hl. apply (ki_prop _ _ _ _ _ (lv_inv _ _ Hl)), Hl. Qed.
Lemma alive_vs k vs : alive k vs → vs_ok c q view PRECOMMIT sent vs.
Proof. intros Hl. by eapply (ho_sets _ _ _ _ (ki_votes _ _ _ _ _ (lv_inv _ _ Hl))), lv_set. Qed.

(** A handler that keeps the view keeps all but the outcome. *)
Lemma alive_same k k' vs :
  alive k vs → same_view k k' → kinv c q sent k' → kext k k' → alive k' vs.
Proof.
  intros Hl (Ev & Ew & Ep & Et & Eh & Er & (ms & Es & Hms) & Hload) Hi [Hle _ _ (_ & Eo & _) _].
  pose proof (alive_ts _ _ Hl) as Hts. destruct Hl as [_ Hw Hh Hop Hs Hp (t' & Ht & E) Hset Hself]. split; try congruence.
  - unfold kle in Hle. lia.
  - rewrite Hts in Hload. destruct (Hload t' Ht) as (t1 & ? & ?). exists t1. split; [done|congruence].
  - rewrite Es, Er. destruct (decide (K_selfRead k ≤ length (K_self k))%nat).
    + rewrite drop_app_le by done. apply Forall_app. split; [done|]. by rewrite <-Hw.
    + rewrite drop_app_ge by lia. apply Forall_drop. by rewrite <-Hw.
Qed.
Lemma outcome_same k k' vs : outcome k vs → same_outcome k k' → K_Step k' = K_Step k → outcome k' vs.
Proof.
  intros Ho (_ & Eh & Ef & Ec) Es. unfold outcome, decided, undecided, load in *. rewrite Eh, Ef, Ec, Es. exact Ho.
Qed.

(** The validators a vote speaks for, once it has been checked. *)
Definition vouched (vs : VoteSet) (v : Vote) (i : nat) : Prop :=
  if V_IsQC v then ∃ signers n, valid_cert c v signers ∧ n ∈ signers ∧ i = Z.to_nat (i32 n)
  else valid_vote c vs v ∧ i = Z.to_nat (V_SignerIndex v).
(** A vote set's answer to a vote and what it counts. *)
Definition answered (ty : ConsensusMsgType) (vs : VoteSet) (v : Vote) (a : bool) (e : option err) (vs' : VoteSet) (cs' : ClusterState) : Prop :=
  step_ok c q (V_View v) ty sent vs vs' cs' ∧ (a = true → e = None) ∧
  (a = false → ∀ h k, counted_for vs' h k = counted_for vs h k) ∧
  ∀ i, vouched vs v i → unrivalled c q (V_View v) ty sent (V_TSHash v) →
    loyal c (V_View v) ty sent (V_TSHash v) i → counted_for vs' (V_TSHash v) i = true.

Lemma vote_answered vs cs v :
  vs_ok c q (V_View v) (V_Type v) sent vs → cluster_ok c q cs → sent v → (V_IsQC v = true → is_Some (V_SignerIndices v)) →
  ∃ a e vs' cs', (if V_IsQC v then AddQc vs cs (Some v) else AddVote vs cs (Some v)) = Ret (a, e, vs', cs') ∧
    answered (V_Type v) vs v a e vs' cs'.
Proof.
  intros Hok Hcs Hs Hq. unfold answered, vouched. destruct (V_IsQC v).
  - destruct (Hq eq_refl) as [b Hb].
    assert (Hsig : signerIndices v = Ret (GetTrueIndices b)) by (unfold signerIndices; by rewrite Hb).
    destruct (AddQc_counts c q _ _ sent Henv vs cs v _ Hok Hcs Hs eq_refl eq_refl Hsig) as (a & e & vs' & cs' & He & Hst & Hae & Hf & Hc).
    exists a, e, vs', cs'. split; [done|]. split_and!; [done..|].
    intros i (signers & n & Hval & Hn & ->) Hun Hl. pose proof (proj1 (proj2 Hval)) as E. rewrite Hsig in E.
    injection E as <-. by apply Hc.
  - destruct (AddVote_ok c q _ _ sent Henv vs cs (Some v) Hok Hcs) as (a & e & vs' & cs' & He & Hst & Ht & Hf); [by intros ? [= <-]|].
    exists a, e, vs', cs'. split; [done|]. split_and!; [done|intros Ha; by destruct (Ht Ha)|done|].
    intros i [Hval ->] _ Hl. exact (AddVote_counts c q _ _ sent Henv vs cs v _ Hok Hcs Hs Hval Hl He).
Qed.

(** The vote sets of the view take a vote or a certificate. *)
Lemma AddVote_current hvs cs v peer vs :
  hvs_ok c q sent hvs → cluster_ok c q cs → sent v → voteType (V_Type v) →
  (V_IsQC v = true → is_Some (V_SignerIndices v)) → getVoteSet hvs (V_View v) PRECOMMIT = Some vs →
  ∃ a e hvs' cs' vs', (if V_IsQC v then HVS_AddQC hvs cs v peer else HVS_AddVote hvs cs v peer) = Ret (a, e, hvs', cs') ∧
    cluster_ok c q cs' ∧ getVoteSet hvs' (V_View v) PRECOMMIT = Some vs' ∧ grows vs vs' ∧ maj_kept vs vs' ∧
    (V_Type v = PREVOTE ∨ a = false → maj23TsHash vs' = maj23TsHash vs) ∧ (a = true → e = None) ∧
    (V_Type v = PRECOMMIT → ∀ i, vouched vs v i → unrivalled c q (V_View v) PRECOMMIT sent (V_TSHash v) →
     loyal c (V_View v) PRECOMMIT sent (V_TSHash v) i → counted_for vs' (V_TSHash v) i = true).
Proof.
  intros Hok Hcs Hsent Hty Hq Hvs.
  assert (Hg : is_Some (getVoteSet hvs (V_View v) (V_Type v))).
  { apply getVoteSet_Some; [done|]. unfold getVoteSet in Hvs. by destruct (viewVoteSet hvs !! V_View v). }
  destruct Hg as [vs0 Hg]. pose proof (ho_sets _ _ _ _ Hok _ _ _ Hg) as Hok0.
  destruct (vote_answered vs0 cs v Hok0 Hcs Hsent Hq)
    as (a & e & vs' & cs' & He & (Hok' & Hcs' & Hhd & Hmk & Hmono) & Hae & Hf & Hc).
  exists a, e, (putVoteSet hvs (V_View v) (V_Type v) vs'), cs'.
  rewrite (getVoteSet_put q Hthr hvs (V_View v) (V_Type v) vs0 vs' (V_View v) PRECOMMIT Hg).
  assert (Hcall : (if V_IsQC v then HVS_AddQC hvs cs v peer else HVS_AddVote hvs cs v peer)
    = Ret (a, e, putVoteSet hvs (V_View v) (V_Type v) vs', cs')).
  { unfold HVS_AddQC, HVS_AddVote. rewrite Hg. unfold callVoteSet. rewrite Hg. cbn [deref mbind res_bind].
    destruct (V_IsQC v); by rewrite He. }
  destruct Hty as [E|E]; rewrite E in *.
  - rewrite decide_False by (intros [_ ?]; done). exists vs. split_and!; try done; apply grows_refl.
  - rewrite decide_True by done. rewrite Hvs in Hg. injection Hg as <-. exists vs'. split_and!; try done.
    intros [?|Ha]; [done|]. destruct (maj23TsHash vs) as [h|] eqn:Em.
    + destruct Hmk as (-> & _); [by rewrite Em|done].
    + apply (majority_quiet c q _ _ sent vs vs' Hok0 Hok'); [by apply Hf|done].
Qed.

(** *** After a vote has been counted *)
Lemma afterPrevote_total k vs v :
  alive k vs → V_View v = view → outcome k vs →
  ∃ k', afterPrevote vault v k = Ret k' ∧ same_view k k' ∧ outcome k' vs.
Proof.
  intros Hl Hv Ho. unfold afterPrevote. rewrite (lv_view _ _ Hl), Hv, Z.ltb_irrefl. cbn [mbind res_bind].
  rewrite (lv_view _ _ Hl), Z.eqb_refl. cbn [andb].
  destruct (_ <=? _); [|exists k; by split_and!; [|apply same_view_refl|]].
  destruct (SuperMajority _) as [h ok]. destruct (_ && _); [|exists k; by split_and!; [|apply same_view_refl|]].
  destruct (lv_load _ _ Hl) as (t' & Ht & _).
  destruct (enterPreCommit_total (K_Heights k) k p t' (lv_prop _ _ Hl) (alive_ts _ _ Hl) Ht) as (k' & Hk & Hs & Hst).
  rewrite (lv_view _ _ Hl) in Hk. exists k'. split; [done|]. split; [apply Hs|].
  destruct Hst as [Hst|[Hlt Hst]]; [by eapply outcome_same|].
  destruct Hs as (_ & Eh & Ef & Ec). unfold outcome, decided, undecided, load in *. rewrite Eh, Ef, Ec, Hst.
  destruct (maj23TsHash vs); [intros [E _]%Ho; unfold ViewStepCommit, ViewStepPrecommit in *; lia|].
  split; [done|apply Ho].
Qed.

Lemma afterPrecommit_total k vs0 vs v :
  alive k vs → V_View v = view → outcome k vs0 → maj_kept vs0 vs →
  ∃ k', afterPrecommit vault tesseractHandler v k = Ret k' ∧ same_view k k' ∧ outcome k' vs.
Proof.
  intros Hl Hv Ho Hk. unfold afterPrecommit, HVS_Precommits. rewrite Hv, (lv_set _ _ Hl). unfold outcome in *.
  destruct (lv_load _ _ Hl) as (t' & Ht & Hth). pose proof (lv_view _ _ Hl) as Hview.
  assert (Hsame : ∀ (Q : KBFT → Prop) h k', maj23TsHash vs = Some h →
    enterCommit vault tesseractHandler (K_Heights k) view k = Ret k' → Q k' →
    ∃ k', enterCommit vault tesseractHandler (K_Heights k) view k = Ret k' ∧ same_view k k' ∧ Q k').
  { intros Q h k' Em He HQ. exists k'. split_and!; [done| |done]. rewrite <-Hview in He.
    eapply (enterCommit_same _ k k' p t' h); [apply Hl|exact Ht| |exact He].
    unfold HVS_Precommits. rewrite Hview, (lv_set _ _ Hl). cbn. by rewrite Em. }
  cbn [SuperMajority]. destruct (maj23TsHash vs) as [h|] eqn:Em.
  - destruct (decide (h = NilHash)) as [->|Hn]; [exists k; split_and!; [done|apply same_view_refl|congruence]|].
    destruct (decide (h = TsHash t)) as [->|Hne].
    + destruct (maj23TsHash vs0) as [h0|] eqn:Em0.
      * destruct Hk as (Hk & _); [by rewrite Em0|]. assert (h0 = TsHash t) as -> by congruence. specialize (Ho eq_refl).
        eapply (Hsame _ _ k eq_refl); [|by intros _]. unfold enterCommit. destruct Ho as [Est _]. rewrite Est.
        by rewrite orb_true_r.
      * destruct Ho as (Hst & Hload & Hf & Hc). destruct Hseal as [Hev (sign & Hvault & Hraw)].
        destruct (Hraw (commit_qc k t vs)) as (raw & seal & Hraw1 & Hsig).
        destruct (enterCommit_result vault tesseractHandler (K_Heights k) k p t vs seal) as (k' & He & Hf' & Hc' & Hs').
        -- apply areHeightsEqual_refl.
        -- done.
        -- split; [rewrite Hview; apply Hl|cbn; by rewrite Em|done|apply Hl|by eapply alive_ts|done].
        -- split; [apply Hev|by exists sign, raw].
        -- rewrite Hview in He. eapply (Hsame _ _ k' eq_refl He). intros _. split; [done|].
           exists (TsCopy (sealed k t vs seal)). rewrite Hf', Hc', Hf, Hc. split_and!; [|done..].
           unfold sealed. by rewrite ts_hash_copy, ts_hash_seal_by, ts_hash_seal, ts_hash_qc.
    + destruct (enterCommit_other k p t' h) as [k' He]; [apply Hl|exact Ht| |congruence|].
      { unfold HVS_Precommits. rewrite Hview, (lv_set _ _ Hl). cbn. by rewrite Em. }
      rewrite Hview in He. by eapply (Hsame _ _ k' eq_refl He).
  - destruct (maj23TsHash vs0) as [h0|] eqn:Em0; [destruct Hk as (Hk & _); [by rewrite Em0|congruence]|].
    rewrite Hview, Z.leb_refl.
    destruct (HasMajorityAny_Ret c q view PRECOMMIT sent Henv vs (K_ics k) (alive_vs _ _ Hl)) as (b & ics & ->);
      [apply (ki_cluster _ _ _ _ _ (lv_inv _ _ Hl))|].
    cbn [mbind res_bind]. eexists. split; [done|]. split; [|exact Ho].
    split_and!; try done; [|by eauto]. exists []. by rewrite app_nil_r.
Qed.

(** *** One vote, one message, one event *)
Definition live (k : KBFT) (vs : VoteSet) : Prop := alive k vs ∧ outcome k vs.
(** The vote is a precommit for the tesseract that speaks for validator [i]; only
    the operator's certificates count. *)
Definition speaks (vs : VoteSet) (v : Vote) (peer : KramaID) (i : nat) : Prop :=
  AreVoteHeightsEqual (V_Heights v) heights = true ∧ V_Type v = PRECOMMIT ∧ V_TSHash v = TsHash t ∧
  (V_IsQC v = true → operator = peer) ∧ vouched vs v i.
(** A validator whose precommits are for the tesseract, and no other has a majority. *)
Definition steady (i : nat) : Prop :=
  loyal c view PRECOMMIT sent (TsHash t) i ∧ unrivalled c q view PRECOMMIT sent (TsHash t).

Lemma live_evidence k vs e : live k vs → live (with_evidence k e) vs.
Proof.
  intros [Hl Ho]. destruct (quiet_inv _ _ _ _ k _ (lv_inv _ _ Hl) (evidence_quiet _ _ _ _ k e (lv_inv _ _ Hl))) as [Hi He].
  split; [|exact Ho]. eapply alive_same; [exact Hl| |exact Hi|exact He].
  split_and!; try done; [|by eauto]. exists []. by rewrite app_nil_r.
Qed.

Lemma countVote_live k vs v peer :
  live k vs → sent v → (V_IsQC v = true → is_Some (V_SignerIndices v)) → voteType (V_Type v) → V_View v = view →
  ∃ a e k' vs', countVote v peer k = Ret (a, e, k') ∧ alive k' vs' ∧ grows vs vs' ∧ maj_kept vs vs' ∧
    outcome k' vs ∧ (V_Type v = PREVOTE ∨ is_Some e ∨ a = false → outcome k' vs') ∧
    ∀ i, speaks vs v peer i → steady i → counted_for vs' (TsHash t) i = true.
Proof.
  intros [Hl Ho] Hs Hq Hty Hv. unfold countVote, isLeader. rewrite (lv_operator _ _ Hl).
  destruct (V_IsQC v && _) eqn:Eq.
  { exists false, (Some (ENew "Invalid Leader")), k, vs. split_and!; [done|done|apply grows_refl|done|done|done|].
    intros i (_ & _ & _ & Hop & _). apply andb_true_iff in Eq as [Eq Ep]. apply negb_true_iff in Ep.
    apply bool_decide_eq_false in Ep. by destruct (Ep (Hop Eq)). }
  clear Eq. pose proof (lv_inv _ _ Hl) as Hi. pose proof (lv_set _ _ Hl) as Hvs. rewrite <-Hv in Hvs.
  destruct (AddVote_current (K_Votes k) (K_ics k) v peer vs (ki_votes _ _ _ _ _ Hi) (ki_cluster _ _ _ _ _ Hi) Hs Hty Hq Hvs)
    as (a & e & votes & ics & vs' & He & Hcs' & Hvs' & Hg & Hmk & Hmaj & Hae & Hcnt).
  rewrite He. cbn [mbind res_bind].
  assert (Hret : hvs_ok c q sent votes ∧ hvs_kept (K_Votes k) votes).
  { destruct (V_IsQC v).
    - by destruct (HVS_AddQC_Ret c q sent Henv Hthr _ _ v peer _ _ _ _ (ki_votes _ _ _ _ _ Hi) (ki_cluster _ _ _ _ _ Hi) Hs He) as (? & _ & ?).
    - by destruct (HVS_AddVote_Ret c q sent Henv Hthr _ _ v peer _ _ _ _ (ki_votes _ _ _ _ _ Hi) (ki_cluster _ _ _ _ _ Hi) Hs He) as (? & _ & ?). }
  destruct Hret as [Hok Hkept].
  destruct (votes_inv c q sent (K_Step k) k votes ics Hi Hok Hcs') as [Hi1 _].
  { intros vw ty h. by apply hvs_kept_super. }
  set (k1 := with_votes k votes ics) in *. rewrite Hv in Hvs'.
  assert (Hl1 : alive k1 vs') by (destruct Hl; by split).
  assert (Ho1 : outcome k1 vs) by exact Ho.
  assert (Hcnt' : ∀ i, speaks vs v peer i → steady i → counted_for vs' (TsHash t) i = true).
  { intros i (_ & Ht & E & _ & Hval) [Hloyal Hun]. rewrite <-E. rewrite <-E, <-Hv in Hloyal, Hun. by apply Hcnt. }
  assert (Hsame : maj23TsHash vs' = maj23TsHash vs → outcome k1 vs') by (intros E; unfold outcome; by rewrite E).
  destruct (is_some e || negb a) eqn:Er.
  - assert (a = false) as -> by (destruct a; [|done]; rewrite (Hae eq_refl) in Er; done).
    assert (Ho2 : outcome k1 vs') by (apply Hsame, Hmaj; by right).
    exists false, e, (with_evidence k1 (Evidence_AddVote (K_evidence k1) v)), vs'. split; [done|].
    destruct (live_evidence k1 vs' (Evidence_AddVote (K_evidence k1) v) (conj Hl1 Ho2)) as [Hl2 Ho3].
    by split_and!.
  - exists a, e, k1, vs'. split_and!; try done.
    intros [H|[[x ->]| ->]]; [apply Hsame, Hmaj; by left|done|]. by rewrite orb_true_r in Er.
Qed.

Lemma addVote_live k vs v peer :
  live k vs → sent v → (V_IsQC v = true → is_Some (V_SignerIndices v)) → voteType (V_Type v) → V_View v = view →
  ∃ r vs', addVote vault tesseractHandler v peer k = Ret r ∧ live r.2 vs' ∧ grows vs vs' ∧
    ∀ i, speaks vs v peer i → steady i → counted_for vs' (TsHash t) i = true.
Proof.
  intros Hl Hs Hq Hty Hv. unfold addVote. rewrite (lv_heights _ _ (proj1 Hl)).
  destruct (AreVoteHeightsEqual (V_Heights v) heights) eqn:Eh; cbn [negb].
  2: { exists (false, None, k), vs. split_and!; [done|done|apply grows_refl|]. intros i (E & _). congruence. }
  assert (H1 : ∃ k1, match K_ProposalTS k with
      | Some _ => t ← load k (K_ProposalTS k);
                  Ret (if decide (V_TSHash v = TsHash t) then k else with_evidence k (Evidence_AddVote (K_evidence k) v))
      | None => Ret k end = Ret k1 ∧ live k1 vs).
  { destruct (lv_load _ _ (proj1 Hl)) as (t' & Ht & _). rewrite (alive_ts _ _ (proj1 Hl)).
    destruct (Prop_Tesseract p) as [l|]; [|done]. rewrite Ht. cbn [mbind res_bind]. eexists. split; [done|].
    case_decide; [done|by apply live_evidence]. }
  destruct H1 as (k1 & -> & Hl1). cbn [mbind res_bind].
  destruct (countVote_live k1 vs v peer Hl1 Hs Hq Hty Hv) as (a & e & k2 & vs' & -> & Hl2 & Hg & Hmk & Ho & Ho' & Hc).
  cbn [mbind res_bind]. destruct (is_some e || negb a) eqn:Er.
  { exists (a, e, k2), vs'. split_and!; try done. split; [exact Hl2|]. apply Ho'. right. destruct e; [by left; eexists|]. right. by destruct a. }
  assert (H3 : ∃ k3, match V_Type v with PREVOTE => afterPrevote vault v k2
      | PRECOMMIT => afterPrecommit vault tesseractHandler v k2 | _ => Ret k2 end = Ret k3 ∧ live k3 vs').
  { destruct Hty as [E|E]; rewrite E in *.
    - destruct (afterPrevote_total k2 vs' v Hl2 Hv) as (k3 & H3 & Hs3 & Ho3); [by apply Ho'; left|].
      exists k3. split; [done|]. split; [|done].
      destruct (afterPrevote_inv vault c q Henv Hthr sent v k2 k3 (lv_inv _ _ Hl2) H3). by eapply alive_same.
    - destruct (afterPrecommit_total k2 vs vs' v Hl2 Hv Ho Hmk) as (k3 & H3 & Hs3 & Ho3).
      exists k3. split; [done|]. split; [|done].
      destruct (afterPrecommit_inv vault tesseractHandler c q Henv Hthr sent v k2 k3 (lv_inv _ _ Hl2) H3). by eapply alive_same. }
  destruct H3 as (k3 & -> & Hl3). cbn [mbind res_bind]. exists (a, None, k3), vs'. by split_and!.
Qed.

Lemma speaks_grows vs vs' v peer i : grows vs vs' → speaks vs v peer i → speaks vs' v peer i.
Proof.
  intros [[= E1 E2 E3] _] (Hh & Ht & Hth & Hop & Hv). split_and!; try done. unfold vouched in *.
  destruct (V_IsQC v); [done|]. destruct Hv as [([? ? ? ? ? ?] & Hraw) ->]. split; [|done]. split; [|done].
  split; try done; congruence.
Qed.
(** What an event's message says. *)
Definition ev_speaks (vs : VoteSet) (ev : kevent) (i : nat) : Prop :=
  match ev with
  | EvInbound m _ => ∃ v, any_vote m = Some v ∧ speaks vs v (CM_PeerID m) i
  | _ => False
  end.

Lemma handleMsg_live k vs m :
  live k vs → in_view_msg view m → (∀ v, any_vote m = Some v → sent v) →
  ∃ k' vs', handleMsg vault tesseractHandler m k = Ret k' ∧ live k' vs' ∧ grows vs vs' ∧
    ∀ v i, any_vote m = Some v → speaks vs v (CM_PeerID m) i → steady i → counted_for vs' (TsHash t) i = true.
Proof.
  intros Hl Hm Hs. unfold handleMsg, in_view_msg, any_vote in *. destruct (CM_Payload m) as [v|pr|pd|].
  - destruct (Hm v eq_refl) as (Hq & Hty & Hv).
    destruct (addVote_live k vs v (CM_PeerID m) Hl (Hs v eq_refl) Hq Hty Hv) as ([[a e] k'] & vs' & -> & Hl' & Hg & Hc).
    exists k', vs'. split_and!; try done. intros w i [= <-]. by apply Hc.
  - unfold setProposal. rewrite (lv_prop _ _ (proj1 Hl)). exists k, vs. by split_and!; [|exact Hl|apply grows_refl|].
  - exists k, vs. by split_and!; [|exact Hl|apply grows_refl|].
  - exists k, vs. by split_and!; [|exact Hl|apply grows_refl|].
Qed.

(** What can arrive while the view lasts: messages of the view, the engine's own
    and timeouts that are not for a later view. *)
Definition in_view_event (ev : kevent) : Prop :=
  match ev with
  | EvInbound m _ => in_view_msg view m
  | EvSelf => True
  | EvTimeout ti => TI_View ti ≤ view
  end.

Lemma live_heap k vs decoded : live k vs → live (with_heap k (K_heap k ∪ decoded)) vs.
Proof.
  intros [Hl Ho]. set (k1 := with_heap _ _).
  assert (Hload : ∀ o t0, load k o = Ret t0 → load k1 o = Ret t0).
  { intros [l|] t0; [|done]. unfold load. destruct (K_heap k !! l) as [t1|] eqn:E; [|done].
    intros [= <-]. cbn. by rewrite (lookup_union_Some_l _ _ _ _ E). }
  destruct (quiet_inv _ _ _ _ k k1 (lv_inv _ _ Hl) (quiet_heap _ _ _ _ k _ (lv_inv _ _ Hl))) as [Hi He]. split.
  - eapply alive_same; [exact Hl| |exact Hi|exact He]. split_and!; try done.
    + exists []. by rewrite app_nil_r.
    + intros t0 H0. exists t0. by split; [apply Hload|].
  - unfold outcome, undecided in *. destruct (maj23TsHash vs); [done|].
    destruct Ho as (? & ? & ? & ?). split_and!; try done. by apply Hload.
Qed.

Lemma live_read k vs m :
  live k vs → K_self k !! K_selfRead k = Some m →
  live (with_self k (K_self k) (S (K_selfRead k)) (K_wal k ++ [m])) vs ∧ in_view_msg view m.
Proof.
  intros [Hl Ho] Hm. set (k1 := with_self _ _ _ _). pose proof (lv_self _ _ Hl) as Hself.
  rewrite (drop_S _ _ _ Hm) in Hself. apply Forall_cons in Hself as [Hmv Hself].
  assert (Hq : quiet c q k k1) by (split_and!; try done; apply (ki_cluster _ _ _ _ _ (lv_inv _ _ Hl))).
  destruct (quiet_inv _ _ _ _ k k1 (lv_inv _ _ Hl) Hq) as [Hi _].
  split; [|done]. split; [|exact Ho]. by destruct Hl.
Qed.

Lemma handleTimeout_stays k vs ti : live k vs → TI_View ti ≤ view → handleTimeout vault ti k = Ret k.
Proof.
  intros [Hl _] Hti. unfold handleTimeout. destruct (_ || _) eqn:E; [done|].
  apply orb_false_iff in E as [E E3]. apply orb_false_iff in E as [_ E2]. rewrite (lv_view _ _ Hl) in *.
  apply Z.ltb_ge in E2. rewrite (proj2 (Z.eqb_eq _ _)) in E3 by lia. apply Z.ltb_ge in E3.
  pose proof (lv_step _ _ Hl). destruct (Z.eqb_spec (TI_Step ti) ViewStepNewHeight); [lia|done].
Qed.

Lemma kstep_live k vs ev :
  live k vs → in_view_event ev → (∀ v, ev_vote ev = Some v → sent v) → (∀ v, v ∈ signed k → sent v) →
  ∃ k' vs', kstep vault tesseractHandler k ev = Ret k' ∧ live k' vs' ∧ grows vs vs' ∧
    ∀ i, ev_speaks vs ev i → steady i → counted_for vs' (TsHash t) i = true.
Proof.
  intros Hl Hev Hin Hself. destruct ev as [m decoded| |ti]; cbn [kstep].
  - destruct (handleMsg_live _ vs m (live_heap k vs decoded Hl) Hev Hin) as (k' & vs' & ? & ? & ? & Hc).
    exists k', vs'. split_and!; try done. intros i (v & Hv & Hsp). by apply (Hc v i).
  - destruct (K_self k !! K_selfRead k) as [m|] eqn:E; [|exists k, vs; by split_and!; [|exact Hl|apply grows_refl|]].
    destruct (live_read k vs m Hl E) as [Hl1 Hm].
    destruct (handleMsg_live _ vs m Hl1 Hm) as (k' & vs' & ? & ? & ? & _); [|by exists k', vs'; split_and!].
    intros v Hv. apply Hself. unfold signed. apply elem_of_app. left. apply list_elem_of_omap. exists m.
    by split; [eapply list_elem_of_lookup_2|].
  - rewrite (handleTimeout_stays k vs ti Hl Hev). exists k, vs. by split_and!; [|exact Hl|apply grows_refl|].
Qed.
End Step.

(** *** A run *)
Lemma krun_kext evs k k' : kinv c q (λ _, True) k → krun vault tesseractHandler evs k = Ret k' → kext k k'.
Proof.
  revert k. induction evs as [|ev evs IH]; intros k Hk H; [injection H as <-; apply kext_refl|].
  unfold krun in H. cbn [foldM] in H. apply bind_Ret in H as (k1 & H1 & H).
  destruct (kstep_inv vault tesseractHandler c q Henv Hthr (λ _, True) k ev k1 Hk) as [Hi1 He1]; [done..|].
  eapply kext_trans; [exact He1|by apply IH].
Qed.

Lemma run_returns evs k vs :
  live (λ _, True) k vs → Forall in_view_event evs → ∃ k', krun vault tesseractHandler evs k = Ret k'.
Proof.
  intros Hl Hevs. revert k vs Hl. induction Hevs as [|ev evs Hev Hevs IH]; intros k vs Hl; [by eexists|].
  destruct (kstep_live (λ _, True) k vs ev Hl Hev) as (k1 & vs1 & H1 & Hl1 & _); [done..|].
  unfold krun. cbn [foldM]. rewrite H1. cbn [mbind res_bind]. by eapply IH.
Qed.

Lemma run_live sent evs k vs k' :
  live sent k vs → Forall in_view_event evs → (∀ v, v ∈ omap ev_vote evs → sent v) →
  krun vault tesseractHandler evs k = Ret k' → (∀ v, v ∈ signed k' → sent v) →
  ∃ vs', live sent k' vs' ∧ grows vs vs' ∧
    ∀ ev i, ev ∈ evs → ev_speaks vs ev i → steady sent i → counted_for vs' (TsHash t) i = true.
Proof.
  intros Hl Hevs. revert k vs Hl. induction Hevs as [|ev evs Hev Hevs IH]; intros k vs Hl Hin Hr Hs.
  { injection Hr as <-. exists vs. split_and!; [done|apply grows_refl|]. by intros ev i ?%elem_of_nil. }
  assert (Hk : kext k k').
  { eapply krun_kext; [|exact Hr]. eapply kinv_mono; [|exact (lv_inv _ _ _ (proj1 Hl))]. done. }
  unfold krun in Hr. cbn [foldM] in Hr. apply bind_Ret in Hr as (k1 & H1 & Hr).
  destruct (kstep_live sent k vs ev Hl Hev) as (k1' & vs1 & H1' & Hl1 & Hg1 & Hc1).
  { intros v Hv. apply Hin. cbn. rewrite Hv. apply list_elem_of_here. }
  { intros v Hv. by apply Hs, (ke_signed _ _ Hk). }
  rewrite H1 in H1'. injection H1' as <-.
  destruct (IH k1 vs1 Hl1) as (vs' & Hl' & Hg & Hc); [|done|done|].
  { intros v Hv. apply Hin. cbn. destruct (ev_vote ev); [by apply list_elem_of_further|done]. }
  exists vs'. split; [done|]. split; [by eapply grows_trans|]. intros ev' i [->|Hv]%elem_of_cons Hsp Hst.
  - apply (proj2 Hg). by apply Hc1.
  - apply (Hc ev'); [done| |done]. destruct ev' as [m decoded| |]; [|done..].
    destruct Hsp as (w & Hw & Hsp). exists w. split; [done|by eapply speaks_grows].
Qed.
End Live.

(** An engine with a proposal that has not decided: the view's vote sets exist, no
    precommit majority yet, and what it has queued for itself is of the view. *)
Record ready (k : KBFT) (p : Proposal) (t : Tesseract) (vs : VoteSet) : Prop := {
  rd_step : ViewStepNewHeight < K_Step k < ViewStepCommit;
  rd_prop : K_Proposal k = Some p;
  rd_load : load k (Prop_Tesseract p) = Ret t;
  rd_hash : TsHash t ≠ NilHash;
  rd_set : getVoteSet (K_Votes k) (K_View k) PRECOMMIT = Some vs;
  rd_open : SuperMajority (Some vs) = (NilHash, false);
  rd_self : Forall (in_view_msg (K_View k)) (drop (K_selfRead k) (K_self k));
}.

(** An engine in any sound state that is ready, whatever votes [sent] contains. *)
Lemma progress c q sent0 k evs p t vs :
  env_ok c q → (∃ x, x ∈ q ∧ 0 < x) → kinv c q sent0 k → ready k p t vs → can_always_seal t →
  Forall (in_view_event (K_View k)) evs →
  ∃ k', krun vault tesseractHandler evs k = Ret k' ∧ K_View k' = K_View k ∧ kext k k' ∧
    ∀ (sent : Vote → Prop) good pos x,
      (∀ v, sent0 v ∨ v ∈ omap ev_vote evs ∨ v ∈ signed k' → sent v) →
      reaches c q good → q !! pos = Some x → tally c (Z.of_nat pos) (λ _, true) < 2 * x →
      (∀ i, good i = true → loyal c (K_View k) PRECOMMIT sent (TsHash t) i ∧
         (counted_for vs (TsHash t) i = true ∨
          ∃ ev, ev ∈ evs ∧ ev_speaks c (K_Heights k) (K_operator k) t vs ev i)) →
      K_Step k' = ViewStepCommit ∧ ∃ t', TsHash t' = TsHash t ∧ K_finalized k' = K_finalized k ++ [t'] ∧
        K_closed k' = K_closed k ++ [tesseractHandler t'].
Proof.
  intros Henv Hthr Hi [Hstep Hp Hload Hnil Hset Hopen Hself] Hseal Hevs.
  assert (Hl : ∀ sent : Vote → Prop, (∀ v, sent0 v → sent v) →
    live c q (K_View k) (K_Heights k) (K_operator k) p t (K_finalized k) (K_closed k) sent k vs).
  { intros sent Hs. split.
    - split; try done; [by eapply kinv_mono|lia|by exists t].
    - unfold outcome. unfold SuperMajority in Hopen. destruct (maj23TsHash vs); [done|]. split_and!; [lia|done..]. }
  destruct (run_returns c q Henv Hthr (K_View k) (K_Heights k) (K_operator k) p t (K_finalized k) (K_closed k) Hseal Hnil evs k vs)
    as [k' Hr]; [by apply Hl|done|].
  exists k'. split; [done|].
  assert (Hk : kext k k') by (eapply (krun_kext c q Henv Hthr); [by eapply kinv_mono|exact Hr]).
  assert (Hrun : ∀ sent : Vote → Prop, (∀ v, sent0 v ∨ v ∈ omap ev_vote evs ∨ v ∈ signed k' → sent v) →
    ∃ vs', live c q (K_View k) (K_Heights k) (K_operator k) p t (K_finalized k) (K_closed k) sent k' vs' ∧ grows vs vs' ∧
      ∀ ev i, ev ∈ evs → ev_speaks c (K_Heights k) (K_operator k) t vs ev i →
        steady c q (K_View k) t sent i → counted_for vs' (TsHash t) i = true).
  { intros sent Hs.
    apply (run_live c q Henv Hthr (K_View k) (K_Heights k) (K_operator k) p t (K_finalized k) (K_closed k) Hseal Hnil
      sent evs k vs k'); [|done| |done|]; [apply Hl|..]; intros v Hv; apply Hs; auto. }
  split.
  { destruct (Hrun (λ _, True)) as (vs' & [Hl' _] & _); [done|]. apply (lv_view _ _ _ _ _ _ _ _ _ _ Hl'). }
  split; [done|]. intros sent good pos x Hs Hreach Hpos Hx Hgood.
  destruct (Hrun sent Hs) as (vs' & [Hl' Ho'] & [_ Hmono] & Hc).
  assert (Hun : unrivalled c q (K_View k) PRECOMMIT sent (TsHash t)).
  { apply (loyal_unrivalled c q _ _ sent (TsHash t) good pos x); [|done..]. intros i Hg. apply (Hgood i Hg). }
  assert (Hmaj : maj23TsHash vs' = Some (TsHash t)).
  { eapply (good_majority c q _ PRECOMMIT _ vs' (TsHash t) good pos x); [by eapply alive_vs| |done..].
    intros i Hg. destruct (Hgood i Hg) as [Hloyal [H|(ev & Hev & Hsp)]]; [by apply Hmono|].
    by apply (Hc ev i Hev Hsp). }
  unfold outcome in Ho'. rewrite Hmaj in Ho'. exact (Ho' eq_refl).
Qed.

End Within.

(** ** Witness: the leader's view, with votes out of order and a forged one, and a
    follower's, with the leader's certificates, one from elsewhere and one that
    does not check *)
#[local] Existing Instances CE CX CE_bits CCanon CT CT_laws MemStore CParts CSafetyCodec CProposalCodec CEvidence.
Definition g_forged : kevent := e_in
  {| V_Type := PRECOMMIT; V_IsQC := false; V_View := 1; V_SignerIndex := 3; V_Timestamp := 0; V_Heights := w_heights;
     V_TSHash := (7 : @Hash CE); V_SignerIndices := None; V_Signature := [] |}.
Definition g_signers : list Z := [1; 2; 3; 5; 6; 7].
Definition g_view : list kevent :=
  e_round PRECOMMIT [5; 6] ++ [g_forged] ++ e_round PREVOTE e_others ++ [EvTimeout e_timeout; EvSelf] ++ e_round PRECOMMIT [7; 1; 2; 3].
Definition g_ready : KBFT := e_state e_propose e_start.
Definition g_vs : VoteSet :=
  default (NewVoteSet w_heights 1 PRECOMMIT w_cs) (getVoteSet (K_Votes g_ready) 1 PRECOMMIT).
Definition g_done : KBFT := e_state g_view g_ready.
Lemma g_ready_run : krun (Some e_sign) e_handler e_propose e_start = Ret g_ready.
Proof. apply e_state_run. vm_compute. reflexivity. Defined.
Lemma Ret_same {A} (a b : A) : Ret a = Ret b → a = b.
Proof. by intros [= ->]. Qed.
Lemma g_done_run : krun (Some e_sign) e_handler g_view g_ready = Ret g_done.
Proof. apply e_state_run. vm_compute. reflexivity. Defined.
Lemma g_is_ready : ready g_ready e_proposal w_tess g_vs.
Proof.
  split; try (vm_compute; reflexivity).
  - vm_compute. split; reflexivity.
  - vm_compute. discriminate.
  - vm_compute. apply Forall_nil_2.
Defined.
Lemma g_seals : can_always_seal (Some e_sign) w_tess.
Proof.
  split.
  - intros e. eexists. reflexivity.
  - exists e_sign. split; [reflexivity|]. intros qc. eexists _, _. split; reflexivity.
Defined.
Lemma in_view_vote (view : Z) (m : @ConsensusMessage CE) v :
  any_vote m = Some v → (V_IsQC v = true → is_Some (V_SignerIndices v)) → voteType (V_Type v) → V_View v = view →
  in_view_msg view m.
Proof. intros E ? ? ? w Hw. rewrite E in Hw. by injection Hw as <-. Qed.
Ltac in_view_events :=
  repeat (apply Forall_cons_2;
    [first [eapply in_view_vote; [reflexivity|first [discriminate | intros _; eexists; reflexivity]|
                                  first [by left | by right]|vm_compute; reflexivity]
           |exact I | by vm_compute]|]);
  apply Forall_nil_2.
Lemma g_in_view : Forall (in_view_event 1) g_view.
Proof. in_view_events. Defined.
Lemma g_valid n : n ∈ g_signers → valid_vote w_committee g_vs (w_vote PRECOMMIT 1 7 n).
Proof.
  intros Hn. unfold g_signers in Hn. rewrite !elem_of_cons, elem_of_nil in Hn. destruct_or! Hn; subst n; try done;
    (split; [split; vm_compute; try reflexivity; try (split; [discriminate|reflexivity]); discriminate|
             eexists; split; vm_compute; reflexivity]).
Qed.

Lemma g_speaks i : Z.of_nat i ∈ g_signers →
  ∃ ev, ev ∈ g_view ∧ ev_speaks w_committee (K_Heights g_ready) (K_operator g_ready) w_tess g_vs ev i.
Proof.
  intros Hi. exists (e_in (w_vote PRECOMMIT 1 7 (Z.of_nat i))). split.
  - unfold g_signers in Hi. rewrite !elem_of_cons, elem_of_nil in Hi.
    apply list_elem_of_In. destruct_or! Hi; try done; rewrite Hi; cbn; tauto.
  - exists (w_vote PRECOMMIT 1 7 (Z.of_nat i)). split; [reflexivity|].
    split; [vm_compute; reflexivity|]. split; [reflexivity|]. split; [reflexivity|]. split; [discriminate|].
    split; [by apply g_valid|]. symmetry. apply Nat2Z.id.
Qed.

(** Validator "B": the proposal and the prevote certificate have come. *)
Definition f_run (evs : list kevent) (k0 : KBFT) : KBFT := run_value k0 (krun (Some b_sign) e_handler evs k0).
Definition f_stray (peer : KramaID) (sig : bytes) : kevent :=
  EvInbound {| CM_PeerID := peer; CM_Recipient := ""; CM_Payload := PayloadVote
    {| V_Type := PRECOMMIT; V_IsQC := true; V_View := 1; V_SignerIndex := 0; V_Timestamp := 0; V_Heights := w_heights;
       V_TSHash := (8 : @Hash CE); V_SignerIndices := Some ((λ i, bool_decide (i ∈ [2; 3; 5; 6])) <$> seqZ 0 8);
       V_Signature := sig |} |} ∅.
Definition f_view : list kevent := [f_stray "C" []; e_cert PREVOTE; EvSelf; f_stray "A" []; EvSelf; e_cert PRECOMMIT].
Definition f_start : list kevent := [EvTimeout e_timeout; e_propose_in; e_cert PREVOTE].
Definition f_ready : KBFT := f_run f_start (e_engine "B").
Definition f_done : KBFT := f_run f_view f_ready.
Definition f_vs : VoteSet :=
  default (NewVoteSet w_heights 1 PRECOMMIT w_cs) (getVoteSet (K_Votes f_ready) 1 PRECOMMIT).
Lemma f_ready_run : krun (Some b_sign) e_handler f_start (e_engine "B") = Ret f_ready.
Proof. apply run_value_run. vm_compute. reflexivity. Qed.
Lemma f_done_run : krun (Some b_sign) e_handler f_view f_ready = Ret f_done.
Proof. apply run_value_run. vm_compute. reflexivity. Qed.
Lemma f_seals : can_always_seal (Some b_sign) w_tess.
Proof. split; [intros e; eexists; reflexivity|]. exists b_sign. split; [reflexivity|]. intros qc. eexists _, _. split; reflexivity. Qed.
Lemma f_is_ready : ready f_ready e_proposal w_tess f_vs.
Proof.
  split; try (vm_compute; reflexivity).
  - vm_compute. split; reflexivity.
  - vm_compute. discriminate.
  - vm_compute. apply Forall_nil_2.
Defined.
Definition f_signers : list Z := [0; 1; 2; 4; 5; 6].
Lemma f_valid : valid_cert w_committee (w_qc PRECOMMIT 1 7 f_signers) f_signers.
Proof.
  split; [vm_compute; discriminate|]. split; [vm_compute; reflexivity|]. split.
  - intros n Hn. unfold f_signers in Hn. rewrite !elem_of_cons, elem_of_nil in Hn.
    destruct_or! Hn; subst n; try done; vm_compute; discriminate.
  - eexists. split; vm_compute; reflexivity.
Qed.

Lemma f_speaks i : Z.of_nat i ∈ f_signers →
  ∃ ev, ev ∈ f_view ∧ ev_speaks w_committee (K_Heights f_ready) (K_operator f_ready) w_tess f_vs ev i.
Proof.
  intros Hi. exists (e_cert PRECOMMIT). split; [apply list_elem_of_In; cbn; tauto|].
  exists (w_qc PRECOMMIT 1 7 f_signers). split; [reflexivity|].
  split; [vm_compute; reflexivity|]. split; [reflexivity|]. split; [reflexivity|]. split; [intros _; vm_compute; reflexivity|].
  exists f_signers, (Z.of_nat i). split; [exact f_valid|]. split; [exact Hi|].
  unfold f_signers in Hi. rewrite !elem_of_cons, elem_of_nil in Hi.
  destruct_or! Hi; try done; rewrite <-(Nat2Z.id i), Hi; reflexivity.
Qed.
Lemma f_in_view_1 : K_View f_ready = 1.
Proof. vm_compute. reflexivity. Qed.
Lemma f_in_view : Forall (in_view_event (K_View f_ready)) f_view.
Proof. rewrite f_in_view_1. in_view_events. Qed.
(** Nobody has signed for another tesseract. *)
Definition f_honest (evs : list kevent) (k : KBFT) : bool :=
  forallb (λ v, (@V_TSHash CE v =? 7) || bool_decide (V_Signature v = [] ∧ V_SignerIndex v = 0 ∧
      V_SignerIndices v = Some ((λ i, bool_decide (i ∈ [2; 3; 5; 6])) <$> seqZ 0 8)))
    (omap ev_vote evs ++ signed k).
Lemma f_loyal evs k i : f_honest evs k = true → loyal w_committee 1 PRECOMMIT (known evs k) 7 i.
Proof.
  intros Hall w [Hk (_ & _ & raw & Hraw & Hver)]. unfold f_honest in Hall.
  unfold known in Hk. rewrite <-elem_of_app in Hk. rewrite forallb_forall in Hall.
  apply list_elem_of_In, Hall, orb_true_iff in Hk as [Hk%Z.eqb_eq|(Hs & H0 & Hi)%bool_decide_eq_true]; [exact Hk|exfalso].
  rewrite Hs, H0 in Hver. destruct Hver as [[<- Hver]|(signers & Hsig & _ & Hver)].
  - vm_compute in Hver. discriminate Hver.
  - unfold signerIndices in Hsig. rewrite Hi in Hsig. vm_compute in Hsig. injection Hsig as <-.
    vm_compute in Hver. discriminate Hver.
Qed.

