(* ===== verification/Lifecycle.v ===== *)
(** * Building, starting and closing a node: [NewKramaEngine], [Engine.Start], [Engine.Close], [NewWAL]

    What the node is made of: the state of the event loop ([Engine.v]), the log
    ([Wal.v]), the operator selection ([Sortition.v]), the tesseract tracker
    ([Tracker.v]); the goroutines that run on it; and the context they share.
    The transport is given, and [kt.ctxCancel] is all its [Close] does.

    The theorems follow a node from its construction: what it answers about
    account locks, and what happens when it is closed. *)

From stdpp Require Import base gmap strings list fin_maps.
From Stdlib Require Import ZArith Lia.
From S2P Require Import Prelude Effect External Chain Types NodeSet Committee Cluster Validation VoteSet HeightVoteSet Sortition Execution Safety Views ViewsSpec Ticker Kbft Slots Engine EngineFacts EngineSpec Tracker Wal Concrete ConcreteChain ConcreteEngine Scenario SortitionSpec EngineScenario WalSpec.

(** ** The log *)
Section Log.
Context `{WG : WalGroup}.
(** [utils.EnsureDir] of the log's directory and [utils.OpenGroup] *)
Definition NewWAL (ensured : option err) (opened : Group + err) : BaseWAL + err :=
  match ensured with
  | Some e => inr (EWrap e "failed to ensure WAL directory is in place")
  | None => match opened with
            | inr e => inr e
            | inl group => inl {| W_group := group; W_flushing := false |}
            end
  end.
End Log.

(** ** The node *)
Section Node.
Context `{ET : ExtTypes} `{EX : !ExtOps ET} `{TO : !TesseractOps ET} `{IX : !InteractionOps ET EX}.
Context `{TV : !TesseractView ET EX TO} `{CH : !Chain ET EX TO IX} `{XE : !Execution ET EX TO IX CH}.
Context `{ST : !SafetyStore ET} `{TP : !TesseractParts ET TO} `{RT : !Runtime} `{WG : !WalGroup}.
Context {LotteryKey : Type} `{!LruCache LotteryKey ICSOperators} {TesseractMsg : Type}.
Context `{!PoloCodec CanonicalVote} `{!PoloCodec SafetyData} `{!PoloCodec ProposalInfo}.
Context `{!PoloCodec (Z * Views)} `{!PoloCodec Prepare} `{!PoloCodec Prepared} `{!PoloCodec Vote}.
Context `{!PoloCodec ProposalMsg} `{!PoloCodec Evidence}.
Context (NewInteractions : list Interaction → TsInteractions) (TsIxList : TsInteractions → list Interaction).
Context (sign : bytes → bytes * option err) (signatureVerifier : bytes → bytes → list bytes → bool * option err).
Context (VerifyMultiSig : bytes → list bytes → list bytes → bool * option err).
Context (vrfEvaluate : Z → (Z * bytes) + err).
Context (self : KramaID) (trustedPeers : list KramaID) (debugMode : bool).

Inductive routine := RTracker | RMinter | RHandler | RTransport.
Record Node := {
  ND_engine : Engine;
  ND_wal : BaseWAL;
  ND_lottery : OperatorSelection;
  ND_tracker : Tracker (TesseractMsg := TesseractMsg);
  ND_routines : list routine;
  (** [ctx] of the transport and of the engine *)
  ND_transportDone : bool;
  ND_done : bool;
}.

(** No vote set, agreement or cluster exists yet. *)
Definition NewEngine (db : DB) (w : World) (slots : Slots) : Engine :=
  {| E_view := 0; E_slots := slots; E_futureMsg := []; E_db := db; E_world := w; E_heap := ∅; E_votes := ∅;
     E_accountLocks := ∅; E_handlers := []; E_newICS := []; E_bfts := []; E_closing := []; E_out := []; E_asked := 0 |}.
(** [lru.New] fails for a negative size only. *)
Definition NewKramaEngine (db : DB) (w : World) (slots : Slots) (ensured : option err) (opened : Group + err) : Node + err :=
  match NewWAL ensured opened with
  | inr e => inr (EWrap e "WAL failed")
  | inl wal =>
      inl {| ND_engine := NewEngine db w slots; ND_wal := wal; ND_lottery := NewOperatorSelection;
             ND_tracker := newTracker; ND_routines := []; ND_transportDone := false; ND_done := false |}
  end.

Definition Engine_Start (n : Node) : Node :=
  {| ND_engine := ND_engine n; ND_wal := ND_wal n; ND_lottery := ND_lottery n; ND_tracker := ND_tracker n;
     ND_routines := ND_routines n ++ [RTracker; RMinter; RHandler; RTransport];
     ND_transportDone := ND_transportDone n; ND_done := ND_done n |}.
(** The deferred [ctxCancel] is only reached when the calls before it return. *)
Definition Engine_Close (n : Node) : res Node :=
  wal ← WAL_Close (ND_wal n);
  Ret {| ND_engine := ND_engine n; ND_wal := wal; ND_lottery := ND_lottery n; ND_tracker := ND_tracker n;
         ND_routines := ND_routines n; ND_transportDone := true; ND_done := true |}.

(** ** What can happen on a node *)
Inductive node_event :=
| NStart
| NSystem (ev : system_event)
| NTracker (ev : tracker_event (TesseractMsg := TesseractMsg))
| NClose.
Definition with_engine (k : Engine) (n : Node) : Node :=
  {| ND_engine := k; ND_wal := ND_wal n; ND_lottery := ND_lottery n; ND_tracker := ND_tracker n;
     ND_routines := ND_routines n; ND_transportDone := ND_transportDone n; ND_done := ND_done n |}.
Definition with_tracker (t : Tracker) (n : Node) : Node :=
  {| ND_engine := ND_engine n; ND_wal := ND_wal n; ND_lottery := ND_lottery n; ND_tracker := t;
     ND_routines := ND_routines n; ND_transportDone := ND_transportDone n; ND_done := ND_done n |}.

Notation sys_step :=
  (system_step NewInteractions TsIxList sign signatureVerifier VerifyMultiSig vrfEvaluate self trustedPeers debugMode).
Definition node_step (n : Node) (ev : node_event) : res Node :=
  match ev with
  | NStart => Ret (Engine_Start n)
  | NSystem ev => '(k, _) ← attempt (sys_step ev) (ND_engine n); Ret (with_engine k n)
  | NTracker ev => Ret (with_tracker (tsEventTracker ev (ND_tracker n)) n)
  | NClose => Engine_Close n
  end.
Fixpoint node_run (evs : list node_event) (n : Node) : res Node :=
  match evs with
  | [] => Ret n
  | ev :: evs => n' ← node_step n ev; node_run evs n'
  end.

(** ** Nothing records an account lock *)
Definition same_locks (k k' : Engine) : Prop := E_accountLocks k' = E_accountLocks k.
Lemma same_locks_framed : framed (λ _, True) same_locks.
Proof. split; try done. split; [done|]. intros a b c H1 H2. unfold same_locks in *. congruence. Qed.

Lemma system_same_locks ev k k' r : sys_step ev k = Ret (k', r) → same_locks k k'.
Proof.
  destruct ev as [ev|c l ev|t|a lt c|a c]; cbn [system_step].
  - by apply (only_handler _ _ _ (λ _, True) (λ _, I) (λ _, I) (λ _, I) _ same_locks_framed).
  - by apply (only_ics _ _ _ _ _ _ _ _ (λ _, True) _ same_locks_framed).
  - by apply (only_finalized _ (λ _, True) _ same_locks_framed).
  - unfold Engine_AddActiveAccount. intros H.
    destruct (AddActiveAccount (E_slots k) a lt c) as [[b s]| |] eqn:E;
      unfold mbind, eff_bind, gets, lift, modify, mret, eff_ret, skip in H; rewrite E in H;
      [by injection H as <- _|done|done].
  - unfold Engine_ClearActiveAccount. rewrite gets_bind. by intros [= <- _].
Qed.

Lemma node_step_keeps n ev n' :
  node_step n ev = Ret n' →
  E_accountLocks (ND_engine n') = E_accountLocks (ND_engine n) ∧ W_flushing (ND_wal n') = W_flushing (ND_wal n).
Proof.
  destruct ev as [|ev|ev|]; cbn [node_step]; [by intros [= <-]| |by intros [= <-]|].
  - unfold attempt. destruct (sys_step ev (ND_engine n)) as [[k r]| |] eqn:E; [|done|done].
    intros [= <-]. split; [|done]. by apply system_same_locks in E.
  - unfold Engine_Close, WAL_Close. destruct (W_flushing (ND_wal n)) eqn:E; [|done].
    destruct (WAL_FlushAndSync (ND_wal n)) as [w e]. by intros [= <-].
Qed.
Lemma node_run_keeps evs : ∀ n n',
  node_run evs n = Ret n' →
  E_accountLocks (ND_engine n') = E_accountLocks (ND_engine n) ∧ W_flushing (ND_wal n') = W_flushing (ND_wal n).
Proof.
  induction evs as [|ev evs IH]; intros n n'; [by intros [= <-]|]. cbn [node_run].
  destruct (node_step n ev) as [n1| |] eqn:E; [|done|done].
  apply node_step_keeps in E as [<- <-]. apply IH.
Qed.
Lemma built_node db w s ensured opened n :
  NewKramaEngine db w s ensured opened = inl n →
  E_accountLocks (ND_engine n) = ∅ ∧ W_flushing (ND_wal n) = false ∧ ND_done n = false ∧ ND_transportDone n = false.
Proof. unfold NewKramaEngine, NewWAL. destruct ensured; [done|]. destruct opened; [|done]. by intros [= <-]. Qed.

(** Whatever has happened on a node since it was built, locks taken on behalf of
    other modules included, its answers to PREPARE messages report no lock for any
    account: the map they are read from is never written. *)
Theorem prepared_reports_no_lock db w s ensured opened evs n n' msg k p :
  NewKramaEngine db w s ensured opened = inl n → node_run evs n = Ret n' →
  prepared_for sign msg (ND_engine n') = Ret (k, inl p) →
  ∃ infos, Pd_Infos p = Some infos ∧ Forall (λ i, VI_CurrentLock i = NoLock) infos.
Proof.
  intros Hb Hr Hp. apply built_node in Hb as (Hl & _). apply node_run_keeps in Hr as [Hk _].
  revert Hp. unfold prepared_for. rewrite gets_bind. unfold lift_res, createPreparedMsg, id. rewrite Hk, Hl.
  destruct (loadViewInfo (E_world (ND_engine n')) (E_db (ND_engine n')) ∅ (Pr_Ps msg)) as [[infos|e]| |] eqn:E;
    cbn; [|done|done|done].
  unfold Prepared_Sign. intros H. exists infos. apply loadViewInfo_locks in E. split.
  - repeat case_match; simplify_eq; reflexivity.
  - eapply Forall_impl; [exact E|]. intros i ->. unfold accountLockStatus. by rewrite lookup_empty.
Qed.

(** A node never closes: nothing starts its log, so [Engine.Close] dereferences the
    log's nil ticker before it reaches the transport and the context. *)
Theorem node_never_closes db w s ensured opened evs n n' :
  NewKramaEngine db w s ensured opened = inl n → node_run evs n = Ret n' →
  node_step n' NClose = Panic "nil pointer dereference" ∧
  (∀ evs', NClose ∈ evs' → ∀ n'', node_run evs' n' ≠ Ret n'').
Proof.
  intros Hb Hr. apply built_node in Hb as (_ & Hf & _). apply node_run_keeps in Hr as [_ Hk].
  rewrite Hf in Hk. clear Hf. split.
  - cbn [node_step]. unfold Engine_Close, WAL_Close. by rewrite Hk.
  - intros evs'. revert n' Hk. induction evs' as [|ev evs' IH]; intros n' Hk; [by intros ?%not_elem_of_nil|].
    intros Hin n'' Hr. cbn [node_run] in Hr. destruct (node_step n' ev) as [n1| |] eqn:E; [|done|done].
    apply elem_of_cons in Hin as [<-|Hin].
    + revert E. cbn [node_step]. unfold Engine_Close, WAL_Close. by rewrite Hk.
    + apply node_step_keeps in E as [_ E]. eapply (IH n1); [congruence|done|exact Hr].
Qed.
End Node.

(** ** A concrete node

    Node "A" is built and started, asks for the locks of account 10, opens a
    cluster on it, and still answers a PREPARE message with "no lock". *)
#[local] Existing Instances CE CX CE_bits CCanon XTO XTO_laws XTV XCH XXE XXE_laws XRT XViews XPrepare XPrepared XTP.
#[local] Existing Instances MemStore MemStore_laws CSafetyCodec MemGroup.
#[local] Instance l_lru : LruCache string ICSOperators := CLru ICSOperators.

Definition l_built : Node (LotteryKey := string) (TesseractMsg := string) + err :=
  NewKramaEngine (x_safety 1 : @DB CE MemStore) (x_world : @World CE CX XTO CIX XCH) (NewSlots 2 2) None (inl ([] : @Group MemGroup)).
Definition l_events : list (node_event (TesseractMsg := string)) :=
  [NStart; NSystem (SysMain (EvTick 1 [x_ixs])); NSystem (SysCluster "A" 1 IcsNewICS);
   NSystem (SysAddActive (10 : @Address CE) ReadLock "other"); NTracker (TrTick 7)].
Definition l_run (n : Node (LotteryKey := string) (TesseractMsg := string)) : res (Node (LotteryKey := string) (TesseractMsg := string)) :=
  node_run x_new x_list x_sign x_verify x_multi x_vrf x_self [] false l_events n.
Definition l_answer : option (list LockType) :=
  match l_built with
  | inl n => match l_run n with
             | Ret n' => match prepared_for x_sign {| Pr_View := 1; Pr_Ixns := []; Pr_Ps := [10 : @Address CE] |} (ND_engine n') with
                         | Ret (_, inl p) => map VI_CurrentLock <$> Pd_Infos p
                         | _ => None
                         end
             | _ => None
             end
  | inr _ => None
  end.
Example node_answers : l_answer = Some [NoLock].
Proof. vm_compute. reflexivity. Qed.
Example node_close_panics :
  match l_built with
  | inl n => match l_run n with
             | Ret n' => match Engine_Close n' with Panic _ => true | _ => false end
             | _ => false
             end
  | inr _ => false
  end = true.
Proof. vm_compute. reflexivity. Qed.
