(* ===== verification/LockSpec.v ===== *)
(** * What a validator does about its locks: nothing

    A node stores the certificate of a tesseract before it precommits to it.  The
    theorem of this file is that nothing a validator does with a later proposal
    reads what it stored: neither its verdict on the proposal nor its prevote.
    The scenario is two views of one committee that finalize two tesseracts for
    the same account and height, without a validator signing twice in a view. *)

From stdpp Require Import base gmap strings list fin_maps sorting.
From Stdlib Require Import ZArith Lia Relations.
From S2P Require Import Prelude Effect External Chain Types NodeSet Committee Cluster Validation VoteSet HeightVoteSet Sortition Execution Safety Views Ticker Kbft KbftFacts Slots Engine EngineFacts EngineSpec KbftSpec Concrete Scenario KbftScenario.

(** ** Two runs side by side

    [agree P P' Q m1 m2]: from states related by [P], runs of [m1] and [m2] that
    both return end in states related by [P'], both with values related by [Q] or
    both with one error. *)
Section Agree.
Context {S : Type}.
Definition agree {A B} (P P' : relation S) (Q : A → B → Prop) (m1 : eff S A) (m2 : eff S B) : Prop :=
  ∀ s1 s2 s1' s2' r1 r2, P s1 s2 → m1 s1 = Ret (s1', r1) → m2 s2 = Ret (s2', r2) →
    P' s1' s2' ∧ match r1, r2 with
                 | inl a, inl b => Q a b
                 | inr e1, inr e2 => e1 = e2
                 | _, _ => False
                 end.

Lemma agree_bind {A B C D} (P P1 P' : relation S) (Q : A → B → Prop) (Q' : C → D → Prop) m1 m2 f1 f2 :
  agree P P1 Q m1 m2 → (∀ s1 s2, P1 s1 s2 → P' s1 s2) → (∀ a b, Q a b → agree P1 P' Q' (f1 a) (f2 b)) →
  agree P P' Q' (m1 ≫= f1) (m2 ≫= f2).
Proof.
  intros Hm HP Hf s1 s2 s1' s2' r1 r2 Hs. unfold mbind, eff_bind.
  destruct (m1 s1) as [[t1 x1]| |] eqn:E1; [|done..]. destruct (m2 s2) as [[t2 x2]| |] eqn:E2.
  2, 3: by destruct x1.
  destruct (Hm _ _ _ _ _ _ Hs E1 E2) as [Ht Hx]. destruct x1 as [a|e1], x2 as [b|e2]; try done.
  - by eapply Hf.
  - intros [= <- <-] [= <- <-]. by split; [apply HP|].
Qed.
(** A step that looks at nothing the states may differ in. *)
Lemma agree_bind_same {A C D} (P P' : relation S) (Q' : C → D → Prop) (m : eff S A) f1 f2 :
  agree P P eq m m → (∀ s1 s2, P s1 s2 → P' s1 s2) → (∀ a, agree P P' Q' (f1 a) (f2 a)) →
  agree P P' Q' (m ≫= f1) (m ≫= f2).
Proof. intros Hm HP Hf. eapply agree_bind; [exact Hm|exact HP|]. intros a ? <-. apply Hf. Qed.

Context (P : relation S).
Lemma agree_lift {A} (x : res A) : agree P P eq (lift x) (lift x).
Proof. intros s1 s2 s1' s2' r1 r2 Hs. unfold lift. destruct x; [|done..]. by intros [= <- <-] [= <- <-]. Qed.
Lemma agree_lift_or {A} (x : A + err) : agree P P eq (lift_or x) (lift_or x).
Proof. intros s1 s2 s1' s2' r1 r2 Hs [= <- <-] [= <- <-]. by destruct x. Qed.
Lemma agree_lift_res {A} (x : res (A + err)) : agree P P eq (lift_res x) (lift_res x).
Proof. intros s1 s2 s1' s2' r1 r2 Hs. unfold lift_res. destruct x as [[]| |]; [..|done|done]; by intros [= <- <-] [= <- <-]. Qed.
Lemma agree_check e : agree P P eq (check e) (check e).
Proof. intros s1 s2 s1' s2' r1 r2 Hs [= <- <-] [= <- <-]. by destruct e. Qed.
Lemma agree_raise {A B} (P' : relation S) (Q : A → B → Prop) e :
  (∀ s1 s2, P s1 s2 → P' s1 s2) → agree P P' Q (raise e) (raise e).
Proof. intros Hp s1 s2 s1' s2' r1 r2 Hs [= <- <-] [= <- <-]. split; [by apply Hp|done]. Qed.
Lemma agree_gets {A B} (Q : A → B → Prop) f g : (∀ s1 s2, P s1 s2 → Q (f s1) (g s2)) → agree P P Q (gets f) (gets g).
Proof. intros Hq s1 s2 s1' s2' r1 r2 Hs [= <- <-] [= <- <-]. by split; [|apply Hq]. Qed.
Lemma agree_modify (P' : relation S) f g :
  (∀ s1 s2, P s1 s2 → P' (f s1) (g s2)) → agree P P' eq (modify f) (modify g).
Proof. intros Hf s1 s2 s1' s2' r1 r2 Hs [= <- <-] [= <- <-]. by split; [apply Hf|]. Qed.
Lemma agree_lift_any {A B} (x : res A) (y : res B) : agree P P (λ _ _, True) (lift x) (lift y).
Proof. intros s1 s2 s1' s2' r1 r2 Hs. unfold lift. destruct x, y; try done. by intros [= <- <-] [= <- <-]. Qed.
End Agree.

(** ** The verdict on a proposal *)
Section Verdict.
Context `{ET : ExtTypes} `{EX : !ExtOps ET} `{TO : !TesseractOps ET} `{IX : !InteractionOps ET EX}.
Context `{TV : !TesseractView ET EX TO} `{CH : !Chain ET EX TO IX} `{XE : !Execution ET EX TO IX CH}.
Context `{ST : !SafetyStore ET} `{TP : !TesseractParts ET TO} `{RT : !Runtime}.
Context `{!PoloCodec CanonicalVote} `{!PoloCodec SafetyData} `{!PoloCodec ProposalInfo}.
Context `{!PoloCodec (Z * Views)} `{!PoloCodec Prepare} `{!PoloCodec Prepared} `{!PoloCodec Vote}.
Context `{!PoloCodec ProposalMsg} `{!PoloCodec Evidence}.
Context (signatureVerifier : bytes → bytes → list bytes → bool * option err).
Context (VerifyMultiSig : bytes → list bytes → list bytes → bool * option err).

(** A cluster state without what was loaded from the safety data: the node's own
    locks and the highest ones of the committee. *)
Definition set_views (lv hv : list ViewInfo) (cs : ClusterState) : ClusterState :=
  {| selfID := selfID cs; committee := committee cs; ixns := ixns cs; CS_ClusterID := CS_ClusterID cs;
     operator := operator cs; dirty := dirty cs; ts := ts cs; ICSReqTime := ICSReqTime cs;
     ICSRespCount := ICSRespCount cs; operatorIncluded := operatorIncluded cs;
     Participants := Participants cs; SuccessMsg := SuccessMsg cs;
     CS_Transition := CS_Transition cs; quorum := quorum cs; localViewInfo := lv; highestViewInfo := hv;
     preparedQc := preparedQc cs; view := view cs; TrustedPeers := TrustedPeers cs |}.
Definition blind : ClusterState → ClusterState := set_views [] [].
Definition blind_slot (slot : Slot) : Slot := UpdateClusterState slot (blind <$> SL_cs slot).

(** Nodes with the same tesseracts and chain whose slots differ in the locks of
    their clusters only, and any safety data. *)
Definition same_chain (k1 k2 : Engine) : Prop := E_heap k1 = E_heap k2 ∧ E_world k1 = E_world k2.
Definition same_slots (k1 k2 : Engine) : Prop :=
  (∀ l, blind_slot <$> slot_at k1 l = blind_slot <$> slot_at k2 l) ∧ same_chain k1 k2.

Lemma agree_read_slot l :
  agree same_slots same_slots (λ a b, blind_slot a = blind_slot b) (read_slot l) (read_slot l).
Proof.
  unfold read_slot. eapply (agree_bind _ same_slots _ (λ a b, blind_slot <$> a = blind_slot <$> b)); [|done|].
  - apply agree_gets. intros s1 s2 [H _]. apply H.
  - intros [a|] [b|] Hab s1 s2 s1' s2' r1 r2 Hs; try done. cbn in Hab. apply (inj Some) in Hab.
    intros [= <- <-] [= <- <-]. by split.
Qed.
Lemma agree_read_cs l : agree same_slots same_slots (λ a b, blind a = blind b) (read_cs l) (read_cs l).
Proof.
  unfold read_cs. eapply agree_bind; [apply agree_read_slot|done|].
  intros a b Hab%(f_equal SL_cs). cbn in Hab. intros s1 s2 s1' s2' r1 r2 Hs.
  destruct (SL_cs a) as [c|], (SL_cs b) as [d|]; try done. intros [= <- <-] [= <- <-].
  split; [done|]. exact (inj Some _ _ Hab).
Qed.
Lemma agree_write_cs l cs1 cs2 :
  blind cs1 = blind cs2 → agree same_slots same_slots eq (write_cs l cs1) (write_cs l cs2).
Proof.
  intros Hcs. unfold write_cs, update_slot. eapply agree_bind; [apply agree_read_slot|done|]. intros a b Hab.
  apply agree_modify. intros s1 s2 [Hs ?]. split; [|done]. intros l'. rewrite !slot_at_write.
  case_decide; [|apply Hs]. cbn [fmap option_fmap option_map]. f_equal.
  specialize (Hs l). unfold blind_slot, assign_slot, UpdateClusterState in *. cbn in *. rewrite Hcs.
  destruct (slot_at s1 l), (slot_at s2 l); try done; cbn in *; congruence.
Qed.
(** Other cluster states: only the chain stays the same. *)
Lemma agree_write_any l cs1 cs2 : agree same_chain same_chain eq (write_cs l cs1) (write_cs l cs2).
Proof.
  unfold write_cs, read_slot, update_slot. eapply (agree_bind _ same_chain _ (λ _ _, True)); [|done|intros s1 s2 _].
  - eapply (agree_bind _ same_chain _ (λ _ _, True)); [by apply agree_gets|done|intros ? ? _; apply agree_lift_any].
  - by apply agree_modify.
Qed.
Lemma agree_load_ts p : agree same_chain same_chain eq (load_ts p) (load_ts p).
Proof.
  unfold load_ts. eapply agree_bind_same; [apply agree_lift|done|intros l].
  eapply agree_bind; [apply (agree_gets _ eq)|done|intros ? ? <-; apply agree_lift]. by intros s1 s2 [-> _].
Qed.
#[local] Create HintDb agree.
#[local] Hint Resolve agree_lift agree_lift_or agree_lift_res agree_check agree_load_ts : agree.

(** From merging the peers' views on, which reads the database. *)
Definition after_views (l : positive) (proposal : Proposal) (views : list Views) (cs : ClusterState) : eff Engine () :=
  k ← gets id;
  cs ← lift (mergeViews signatureVerifier (E_world k) (E_db k) views cs);
  _ ← write_cs l cs;
  ts ← load_ts (Prop_Tesseract proposal);
  transition ← lift_or match SM_LoadTransitionObjects (E_world k) (Ixs_Participants (TsIxns ts)) with
    | inr e => inr (EWrap e "failed to load transition objects") | inl t => inl t end;
  let '(transition, r) := ExecuteAndValidate (E_world k) ts transition in
  ts' ← lift_or r;
  p ← lift (deref (Prop_Tesseract proposal));
  _ ← modify (λ k, with_theap (<[p := ts']> (E_heap k)) k);
  write_cs l (SetStateTransition transition cs).
Lemma agree_after_views l proposal views cs1 cs2 :
  agree same_slots same_chain eq (after_views l proposal views cs1) (after_views l proposal views cs2).
Proof.
  unfold after_views. eapply (agree_bind _ same_chain _ (λ k1 k2 : Engine, E_world k1 = E_world k2)).
  { intros s1 s2 s1' s2' r1 r2 [_ Hs] [= <- <-] [= <- <-]. by split; [|destruct Hs]. }
  { done. }
  intros k1 k2 <-. eapply (agree_bind _ same_chain _ (λ _ _, True)); [apply agree_lift_any|done|intros c1 c2 _].
  eapply agree_bind; [apply agree_write_any|done|intros _ _ _].
  eapply agree_bind_same; [auto with agree|done|intros ts].
  eapply agree_bind_same; [auto with agree|done|intros tr].
  destruct (ExecuteAndValidate _ _ _) as [tr' r].
  eapply agree_bind_same; [auto with agree|done|intros ts'].
  eapply agree_bind_same; [auto with agree|done|intros pt].
  eapply agree_bind; [|done|intros _ _ _; apply agree_write_any].
  apply (agree_modify _ same_chain). intros s1 s2 [E ?]. unfold same_chain. cbn. by rewrite E.
Qed.

Lemma handleProposal_agree l proposal :
  agree same_slots same_chain eq (handleProposal signatureVerifier VerifyMultiSig l proposal)
    (handleProposal signatureVerifier VerifyMultiSig l proposal).
Proof.
  assert (Hc : ∀ s1 s2, same_slots s1 s2 → same_chain s1 s2) by (by intros s1 s2 []).
  assert (Hraise : ∀ e, agree same_slots same_chain (@eq ()) (raise e) (raise e)) by (intros e; by apply agree_raise).
  unfold handleProposal.
  eapply agree_bind_same; [auto with agree|done|intros _].
  eapply agree_bind_same; [auto with agree|done|intros qc].
  eapply agree_bind_same; [auto with agree|done|intros idx].
  eapply agree_bind_same; [auto with agree|done|intros raws].
  eapply agree_bind; [apply agree_read_cs|done|intros cs1 cs2 Hcs].
  assert (Hc2 : committee cs2 = committee cs1) by (symmetry; exact (f_equal committee Hcs)). rewrite Hc2.
  eapply agree_bind_same; [auto with agree|done|intros [r c]].
  assert (Hd : blind (set_committee c cs1) = blind (set_committee c cs2)) by exact (f_equal (set_committee c) Hcs).
  eapply agree_bind; [by apply agree_write_cs|done|intros _ _ _].
  eapply agree_bind_same; [auto with agree|done|intros keys].
  change (ClusterIsContextQuorum (set_committee c ?x)) with (ClusterIsContextQuorum (blind (set_committee c x))).
  change (ClusterIsRandomQuorum (set_committee c ?x)) with (ClusterIsRandomQuorum (blind (set_committee c x))).
  rewrite Hd.
  eapply agree_bind_same; [auto with agree|done|intros cq]. destruct (negb cq); [apply Hraise|].
  eapply agree_bind_same; [auto with agree|done|intros rq]. destruct (negb rq); [apply Hraise|].
  destruct (VerifyMultiSig _ _ _) as [verified e].
  eapply agree_bind_same; [auto with agree|done|intros _]. destruct (negb verified); [apply Hraise|].
  exact (agree_after_views l proposal _ _ _).
Qed.
End Verdict.

(** ** The prevote *)
Section Prevote.
Context `{ET : ExtTypes} `{!ExtOps ET} `{!TesseractOps ET}.
Context `{!SafetyStore ET} `{!TesseractParts ET _}.
Context `{!PoloCodec CanonicalVote} `{!PoloCodec SafetyData} `{!PoloCodec ProposalInfo} `{!PoloCodec Evidence}.
Context (vault : option (bytes → bytes * option err)).

(** Another database, and the locks that were loaded from it. *)
Definition with_safety (lv hv : list ViewInfo) (db : DB) (k : KBFT) : KBFT :=
  with_db (with_votes k (K_Votes k) (set_views lv hv (K_ics k))) db.

Lemma sendVote_db ty h b k lv hv db :
  sendVote vault ty h b (with_safety lv hv db k) = with_safety lv hv db (sendVote vault ty h b k).
Proof.
  unfold sendVote. destruct vault as [sign|]; [|done].
  change (ClusterHasKramaID (K_ics (with_safety lv hv db k)) (K_id (with_safety lv hv db k)))
    with (ClusterHasKramaID (K_ics k) (K_id k)).
  destruct (ClusterHasKramaID _ _) as [[i pk] r]. destruct (negb r); [done|].
  change (signVote sign (with_safety lv hv db k)) with (signVote sign k).
  destruct (signVote sign k ty h); [|done]. by destruct b.
Qed.

Lemma enterPrevote_db h view k lv hv db :
  enterPrevote vault h view (with_safety lv hv db k) =
    (k' ← enterPrevote vault h view k; Ret (with_safety lv hv db k')).
Proof.
  unfold enterPrevote. cbn [K_Heights K_View K_Step K_ProposalTS K_id with_safety with_db with_votes].
  change (load (with_safety lv hv db k)) with (load k).
  change (isLeader (with_safety lv hv db k)) with (isLeader k).
  destruct (_ || _); [done|]. destruct (K_ProposalTS k) as [l|].
  - destruct (load k (Some l)) as [t| |]; [|done..]. cbn [mbind res_bind]. by rewrite sendVote_db.
  - cbn [mbind res_bind]. by rewrite sendVote_db.
Qed.

(** Taking a proposal commutes with replacing the safety data. *)
Lemma setProposal_db p k lv hv db :
  setProposal vault p (with_safety lv hv db k) =
    ('(e, k') ← setProposal vault p k; Ret (e, with_safety lv hv db k')).
Proof.
  unfold setProposal. change (Proposal_Heights (with_safety lv hv db k) p) with (Proposal_Heights k p).
  cbn [K_Proposal K_Heights K_View with_safety with_db with_votes]. destruct (K_Proposal k); [done|].
  destruct (Proposal_Heights k p) as [hs| |]; [|done..]. cbn [mbind res_bind].
  match goal with |- context [if negb (areHeightsEqual ?a ?b) then ?x else ?y] =>
    destruct (if negb (areHeightsEqual a b) then x else y) as [[]| |]; [done| |done..] end.
  cbn [mbind res_bind]. set (k1 := with_proposal k _ _).
  change (with_proposal (with_safety lv hv db k) _ _) with (with_safety lv hv db k1).
  change (isLeader (with_safety lv hv db k1)) with (isLeader k1). cbn [K_View K_id with_safety with_db with_votes].
  set (m := {| CM_PeerID := _ |}). set (k2 := if isLeader k1 _ _ then sendExternalMessage m k1 else k1).
  assert (E : (if isLeader k1 (K_View k1) (K_id k1) then sendExternalMessage m (with_safety lv hv db k1)
    else with_safety lv hv db k1) = with_safety lv hv db k2)
    by (unfold k2; by destruct (isLeader _ _ _)).
  rewrite E. cbn [K_Step K_Heights K_View with_safety with_db with_votes].
  change (isProposalReceived (with_safety lv hv db k2)) with (isProposalReceived k2).
  destruct (_ && _); [|done]. rewrite enterPrevote_db. by destruct (enterPrevote _ _ _ _).
Qed.
End Prevote.

(** ** A validator's vote does not depend on its safety data *)
Section Ignores.
Context `{ET : ExtTypes} `{EX : !ExtOps ET} `{TO : !TesseractOps ET} `{IX : !InteractionOps ET EX}.
Context `{TV : !TesseractView ET EX TO} `{CH : !Chain ET EX TO IX} `{XE : !Execution ET EX TO IX CH}.
Context `{ST : !SafetyStore ET} `{TP : !TesseractParts ET TO} `{RT : !Runtime}.
Context `{!PoloCodec CanonicalVote} `{!PoloCodec SafetyData} `{!PoloCodec ProposalInfo}.
Context `{!PoloCodec (Z * Views)} `{!PoloCodec Prepare} `{!PoloCodec Prepared} `{!PoloCodec Vote}.
Context `{!PoloCodec ProposalMsg} `{!PoloCodec Evidence}.

(** C35.  A validator's answer to a proposal does not depend on its locks: two
    nodes whose slots agree in everything but the view infos of their clusters,
    with one chain and any databases, give the same verdict in [handleProposal],
    and the round's engine takes the proposal to the same state, with the same
    votes signed, whatever certificates the database has recorded and whatever
    local and highest view infos were loaded from it.  The lock
    [UpdateSafetyInfo] stores before a precommit binds the leader's choice of a
    tesseract, and no validator's vote. *)
Theorem validator_ignores_locks (signatureVerifier : bytes → bytes → list bytes → bool * option err)
    (VerifyMultiSig : bytes → list bytes → list bytes → bool * option err)
    l proposal (k1 k2 k1' k2' : Engine) r1 r2 :
  (∀ p, blind_slot <$> slot_at k1 p = blind_slot <$> slot_at k2 p) →
  E_heap k1 = E_heap k2 → E_world k1 = E_world k2 →
  handleProposal signatureVerifier VerifyMultiSig l proposal k1 = Ret (k1', r1) →
  handleProposal signatureVerifier VerifyMultiSig l proposal k2 = Ret (k2', r2) →
  r1 = r2 ∧
  ∀ vault (kb : KBFT) lv hv db e kb', setProposal vault proposal kb = Ret (e, kb') →
    setProposal vault proposal (with_safety lv hv db kb) = Ret (e, with_safety lv hv db kb') ∧
    signed (with_safety lv hv db kb') = signed kb'.
Proof.
  intros Hs Hh Hw H1 H2. split.
  - destruct (handleProposal_agree _ _ l proposal k1 k2 _ _ _ _ (conj Hs (conj Hh Hw)) H1 H2) as [_ HQ].
    destruct r1 as [[]|], r2 as [[]|]; by subst.
  - intros vault kb lv hv db e kb' H. rewrite setProposal_db, H. done.
Qed.
End Ignores.

(** ** Two views that finalize two tesseracts

    View 1: node "A" finalizes tesseract 7.  Node "B" has seen the prevote
    certificate, stored it and precommitted to 7.  View 2, led by "C", for the same
    account and height: "B" runs on the database it stored the certificate in. *)
Section Rival.
#[local] Existing Instances CE CX CE_bits CCanon CT CT_laws MemStore CParts CSafetyCodec CProposalCodec CEvidence.
Definition b_run (evs : list kevent) (k0 : KBFT) : KBFT := run_value k0 (krun (Some b_sign) e_handler evs k0).
Definition b_locked : KBFT := b_run [e_propose_in; e_cert PREVOTE] (e_engine "B").

Definition r_tess : @Tesseract CE CT :=
  {| ct_hash := 8; ct_heights := w_heights; ct_cluster := "rival"; ct_qc := None; ct_seal := []; ct_sealer := "" |}.
Definition r_qc : PreparedInfo := {| PI_View := 2; PI_PeerViews := []; PI_SignerIndices := None; PI_Signature := [] |}.
Definition r_ics : ClusterState := SetTesseract (Some 2%positive) (SetPrepareQc (Some r_qc)
  (NewICS [2] "rival" "C" 0 "B" w_committee {[ (10 : Address) := w_participant ]} [] 2)).
Definition r_votes : HeightVoteSet :=
  run_value e_votes (NewHeightVoteSet ["chain"%string] (NewHeights r_ics) r_ics).
(** [NewKBFTService] of the cluster of view 2, on the database of view 1. *)
Definition r_engine : KBFT := NewKBFTService "C" r_ics r_votes e_evidence (K_db b_locked) {[ 2%positive := r_tess ]}.
Definition r_proposal : kevent :=
  EvInbound {| CM_PeerID := "C"; CM_Recipient := "";
    CM_Payload := PayloadProposal {| Prop_Type := PROPOSAL; Prop_PrepareQc := Some r_qc; Prop_Tesseract := Some 2%positive |} |} ∅.
Definition r_cert (ty : ConsensusMsgType) : kevent :=
  EvInbound {| CM_PeerID := "C"; CM_Recipient := "";
               CM_Payload := PayloadVote (w_qc ty 2 8 [1; 2; 3; 5; 6; 7]) |} ∅.
Definition r_done : KBFT := b_run [r_proposal; r_cert PREVOTE; r_cert PRECOMMIT] r_engine.

Lemma r_engine_start : engine_start w_committee w_quorum r_ics r_engine.
Proof.
  destruct w_started as [Henv Hcs Hh Hthr]. split.
  - split; [exact Henv| |exact Hh|exact Hthr]. split; [reflexivity|]. eexists. vm_compute. reflexivity.
  - vm_compute. discriminate.
  - exists "C"%string, ["chain"%string], r_votes, e_evidence, (K_db b_locked), {[ 2%positive := r_tess ]}. split; reflexivity.
Qed.

(**  Agreement holds within a view ([finalized_agreement]) and is lost across
    views when a leader disregards the locks.  Under one committee and one height,
    node "A" finalizes tesseract 7 in view 1.  Node "B" prevotes and precommits for
    7 in that view and stores its certificate.  In view 2, on the database it
    stored it in, "B" prevotes and precommits for the tesseract 8 its leader
    proposes, and finalizes it. *)
Theorem views_disagree :
  ∃ kA kB kB2 : KBFT,
    engine_start w_committee w_quorum (e_ics "A") e_start ∧ krun (Some e_sign) e_handler e_run e_start = Ret kA ∧
    engine_start w_committee w_quorum (e_ics "B") (e_engine "B") ∧
    krun (Some b_sign) e_handler [e_propose_in; e_cert PREVOTE] (e_engine "B") = Ret kB ∧
    engine_start w_committee w_quorum r_ics r_engine ∧ K_db r_engine = K_db kB ∧
    krun (Some b_sign) e_handler [r_proposal; r_cert PREVOTE; r_cert PRECOMMIT] r_engine = Ret kB2 ∧
    (K_View kA, K_View kB, K_View kB2) = (1, 1, 2) ∧
    K_Heights kA = K_Heights kB ∧ K_Heights kB = K_Heights kB2 ∧
    ((λ v, (V_Type v, V_View v, V_TSHash v)) <$> signed kB) = [(PREVOTE, 1, 7); (PRECOMMIT, 1, 7)] ∧
    ((λ v, (V_Type v, V_View v, V_TSHash v)) <$> signed kB2) = [(PREVOTE, 2, 8); (PRECOMMIT, 2, 8)] ∧
    TsHash <$> K_finalized kA = [7] ∧ TsHash <$> K_finalized kB2 = [8].
Proof.
  exists (e_state e_run e_start), b_locked, r_done.
  split; [apply e_engine_start|]. split; [exact e_leader_run|]. split; [apply e_engine_start|].
  split; [apply run_value_run; vm_compute; reflexivity|]. split; [exact r_engine_start|]. split; [reflexivity|].
  split; [apply run_value_run; vm_compute; reflexivity|].
  repeat split; vm_compute; reflexivity.
Qed.
End Rival.
