(* ===== verification/LockScenario.v ===== *)
(** * The leader's own proposal, checked over two databases

    The witness of the first theorem of [LockSpec.v], on the node of [EngineScenario.v]. *)

From Stdlib Require Import Strings.String.
From stdpp Require Import base gmap strings list countable sorting fin_maps.
From Stdlib Require Import ZArith Lia.
From S2P Require Import Prelude Effect External Chain Types Concrete NodeSet Committee Cluster Validation VoteSet HeightVoteSet Scenario ConcreteChain Sortition Execution ExecutionSpec Safety Views Ticker Kbft KbftFacts Slots Engine EngineFacts EngineSpec ConcreteEngine EngineScenario LockSpec.

#[local] Existing Instances CE CX CE_bits CCanon XTO XTO_laws XTV XCH XXE XXE_laws XRT XViews XPrepare XPrepared XTP.
#[local] Existing Instances MemStore MemStore_laws CSafetyCodec.

(** The node that has started its round, and one that stored another certificate
    and loaded its locks from it. *)
Definition v_node : Engine := x_started 1.
Definition v_relock (lv hv : list ViewInfo) (l : positive) (k : Engine) : Engine :=
  match slot_at k l with
  | Some slot => with_slots (write_slot l (UpdateClusterState slot (set_views lv hv <$> SL_cs slot)) (E_slots k)) k
  | None => k
  end.
Lemma v_relock_same lv hv l (db : @DB CE MemStore) w k p :
  blind_slot <$> slot_at k p = blind_slot <$> slot_at (with_stores db w (v_relock lv hv l k)) p.
Proof.
  unfold v_relock. destruct (slot_at k l) as [slot|] eqn:E; [|reflexivity].
  change (slot_at (with_stores db w ?k1) p) with (slot_at k1 p). rewrite slot_at_write.
  case_decide as Hp; [|reflexivity]. subst p. rewrite E. destruct slot as [ty [cs|] ps ms bi bc st]; reflexivity.
Qed.
Definition v_locked : Engine :=
  with_stores (x_safety 2 : @DB CE MemStore) (E_world v_node) (v_relock (x_views 2) (x_views 2) 1 v_node).
(** The locks a cluster works with. *)
Definition v_locks (k : Engine) : option (list (@ViewInfo CE)) :=
  slot ← slot_at k 1%positive; localViewInfo <$> SL_cs slot.
Definition v_proposal : Proposal :=
  match E_bfts v_node with
  | (_, kb) :: _ =>
    {| Prop_Type := PROPOSAL; Prop_PrepareQc := PrepareQc (K_ics kb); Prop_Tesseract := ts (K_ics kb) |}
  | [] => {| Prop_Type := PROPOSAL; Prop_PrepareQc := None; Prop_Tesseract := None |}
  end.
Notation v_check := (handleProposal x_verify x_multi 1%positive v_proposal).

(** Whether the round's engine takes the proposal, and the state it reaches. *)
Definition v_taken (kb : KBFT) : option (option err * KBFT) :=
  match setProposal (Some x_sign) v_proposal kb with Ret r => Some r | _ => None end.

Lemma validator_ignores_locks_witness :
  v_locks v_node = Some (x_views 1) ∧ v_locks v_locked = Some (x_views 2) ∧
  x_returns v_node v_check = true ∧ x_returns v_locked v_check = true ∧
  ∃ l kb kb', E_bfts v_node = [(l, kb)] ∧ length (signed kb') = 1%nat ∧
    setProposal (Some x_sign) v_proposal (with_safety (x_views 2) (x_views 2) (E_db v_locked) kb)
      = Ret (None, with_safety (x_views 2) (x_views 2) (E_db v_locked) kb').
Proof.
  destruct (validator_ignores_locks x_verify x_multi 1%positive v_proposal v_node v_locked
    (x_state v_node v_check) (x_state v_locked v_check) (inl ()) (inl ())) as [_ H].
  - intros p. unfold v_locked. generalize v_node. intros k. apply v_relock_same.
  - vm_compute. reflexivity.
  - vm_compute. reflexivity.
  - apply x_state_run. vm_compute. reflexivity.
  - apply x_state_run. vm_compute. reflexivity.
  - do 4 (split; [vm_compute; reflexivity|]).
    assert (E : bool_decide (length (E_bfts v_node) = 1%nat) = true) by (vm_compute; reflexivity).
    assert (T : forallb (λ b, match v_taken b.2 with Some (None, k') => length (signed k') =? 1 | _ => false end)%nat
                  (E_bfts v_node) = true) by (vm_compute; reflexivity).
    destruct (E_bfts v_node) as [|[l kb] [|? ?]]; [discriminate E| |discriminate E].
    unfold v_taken in T. cbn [forallb snd] in T. destruct (setProposal _ _ kb) as [[[e|] kb']| |] eqn:Hp; try discriminate T.
    exists l, kb, kb'. split; [reflexivity|]. split; [|apply (H _ _ _ _ _ _ _ Hp)].
    apply Nat.eqb_eq. rewrite andb_true_r in T. exact T.
Defined.
