(* ===== verification/Network.v ===== *)
(** * Many engines and an adversary: agreement across the network

    The validators of one committee that run the code, each with its own engine,
    key and tesseract handler, and a network that delivers to each of them
    whatever it likes in whatever order.  The other validators are the
    adversary's.  Signatures are the only thing the adversary cannot make up
    ([unforgeable]).  The model of the network is the step relation [net_step]; an
    engine's step is [kstep] of [Kbft.v]. *)

From stdpp Require Import base relations gmap strings list fin_maps.
From Stdlib Require Import ZArith Lia.
From S2P Require Import Prelude External Types NodeSet Committee Cluster VoteSet Tally VoteSetFacts HeightVoteSet Safety Ticker Kbft KbftFacts KbftSpec Concrete Scenario KbftScenario.

Section Network.
Context `{ET : ExtTypes} `{!ExtOps ET} `{!TesseractOps ET}.
Context `{!SafetyStore ET} `{!TesseractParts ET _}.
Context `{!PoloCodec CanonicalVote} `{!PoloCodec SafetyData} `{!PoloCodec ProposalInfo} `{!PoloCodec Evidence}.
Context `{!BitLaws ET} `{!TesseractLaws ET _}.
Context (vault : KramaID → option (bytes → bytes * option err)) (tesseractHandler : KramaID → Tesseract → option err).

(** The engines of the nodes that run the code, by node id, and every vote that
    was ever delivered to one of them. *)
Record network := { N_engines : gmap KramaID KBFT; N_received : list Vote }.

Inductive net_step (n : network) : network → Prop :=
| net_event id k ev k' :
    N_engines n !! id = Some k → kstep (vault id) (tesseractHandler id) k ev = Ret k' →
    net_step n {| N_engines := <[id := k']> (N_engines n); N_received := option_list (ev_vote ev) ++ N_received n |}.

(** The votes that exist: delivered to a node, or signed by one. *)
Definition pool (n : network) (v : Vote) : Prop :=
  v ∈ N_received n ∨ ∃ id k, N_engines n !! id = Some k ∧ v ∈ signed k.

Record net_start (c : ICSCommittee) (q : list Z) (n : network) : Prop := {
  ns_engines : ∀ id k, N_engines n !! id = Some k → ∃ cs, engine_start c q cs k ∧ K_id k = id;
  ns_received : N_received n = [];
}.

(** The node that sits at a position of the committee, and whether the adversary runs it. *)
Definition sits (c : ICSCommittee) (i : nat) : KramaID := KR_ID (lookup_spec c (Z.of_nat i)).
Definition byzantine (c : ICSCommittee) (n : network) (i : nat) : bool :=
  bool_decide (N_engines n !! sits c i = None).

(** A vote that checks under the key of a node that runs the code, alone or in an
    aggregate, is for something the node has signed. *)
Definition unforgeable (c : ICSCommittee) (n : network) : Prop :=
  ∀ vw ty i v k, N_engines n !! sits c i = Some k → authentic c vw ty (pool n) (Z.of_nat i) v →
    ∃ w, w ∈ signed k ∧ canonical w = canonical v.

Definition net_inv (c : ICSCommittee) (q : list Z) (n : network) : Prop :=
  ∀ id k, N_engines n !! id = Some k → kinv c q (pool n) k.

Lemma net_step_inv c q n n' :
  env_ok c q → (∃ x, x ∈ q ∧ 0 < x) → net_inv c q n → net_step n n' → net_inv c q n'.
Proof.
  intros Henv Hthr Hinv [id k ev k' Hk Hstep].
  set (n1 := {| N_engines := _ |}). set (s := λ v, pool n v ∨ ev_vote ev = Some v).
  destruct (kstep_inv (vault id) (tesseractHandler id) c q Henv Hthr s k ev k') as [Hi He]; [| | |done|].
  - eapply kinv_mono; [|exact (Hinv _ _ Hk)]. by left.
  - by right.
  - intros v Hv. left. right. by exists id, k.
  - assert (Hpool : ∀ v, s v → pool n1 v).
    { intros v [[Hv|(id' & k0 & Hk0 & Hv)]|Hv].
      - left. apply elem_of_app. by right.
      - right. destruct (decide (id' = id)) as [->|Hne].
        + exists id, k'. rewrite Hk in Hk0. injection Hk0 as <-. split; [apply lookup_insert_eq|].
          by apply (ke_signed _ _ He).
        + exists id', k0. split; [|done]. cbn. by rewrite lookup_insert_ne.
      - left. apply elem_of_app. left. rewrite Hv. apply list_elem_of_here. }
    intros id' k0 Hk0. cbn in Hk0. apply lookup_insert_Some in Hk0 as [[<- <-]|[Hne Hk0]].
    + eapply kinv_mono; [|exact Hi]. exact Hpool.
    + eapply kinv_mono; [|exact (Hinv _ _ Hk0)]. intros v Hv. apply Hpool. by left.
Qed.

Lemma net_start_inv c q n : net_start c q n → net_inv c q n.
Proof. intros [He _] id k Hk. destruct (He id k Hk) as (cs & Hst & _). apply (start_inv c q cs k _ Hst). Qed.

(** Reachable networks keep the invariant of every engine. *)
Lemma net_reachable c q n0 n :
  env_ok c q → (∃ x, x ∈ q ∧ 0 < x) → net_start c q n0 → rtc net_step n0 n → net_inv c q n.
Proof.
  intros Henv Hthr Hst%net_start_inv Hr. induction Hr as [|n0 n1 n Hs _ IH]; [done|].
  apply IH. by eapply net_step_inv.
Qed.

(** A run of one engine inside the network. *)
Lemma net_run n id k evs k' :
  N_engines n !! id = Some k → krun (vault id) (tesseractHandler id) evs k = Ret k' →
  ∃ r, rtc net_step n {| N_engines := <[id := k']> (N_engines n); N_received := r |} ∧
    ∀ v, v ∈ r ↔ v ∈ omap ev_vote evs ∨ v ∈ N_received n.
Proof.
  revert n k. induction evs as [|ev evs IH]; intros n k Hk H.
  - injection H as <-. exists (N_received n). rewrite insert_id by done. split; [by destruct n|].
    intros v. cbn. rewrite elem_of_nil. naive_solver.
  - unfold krun in H. cbn [foldM] in H. apply bind_Ret in H as (k1 & H1 & H).
    set (n1 := {| N_engines := <[id := k1]> (N_engines n); N_received := option_list (ev_vote ev) ++ N_received n |}).
    destruct (IH n1 k1) as (r & Hr & Hv); [apply lookup_insert_eq|exact H|].
    exists r. split.
    + eapply rtc_l; [by eapply (net_event n id k ev k1)|]. cbn in Hr. by rewrite insert_insert_eq in Hr.
    + intros v. rewrite Hv. cbn. rewrite elem_of_app. destruct (ev_vote ev) as [w|]; cbn;
        rewrite ?elem_of_cons, ?elem_of_nil; naive_solver.
Qed.

(** Nodes that run the code do not vote twice. *)
Lemma honest_once c q n (i : nat) vw ty v1 v2 :
  net_inv c q n → unforgeable c n →
  authentic c vw ty (pool n) (Z.of_nat i) v1 → authentic c vw ty (pool n) (Z.of_nat i) v2 →
  V_TSHash v1 ≠ V_TSHash v2 → byzantine c n i = true.
Proof.
  intros Hinv Hun H1 H2 Hne. unfold byzantine. apply bool_decide_eq_true.
  destruct (N_engines n !! sits c i) as [k|] eqn:Hk; [exfalso|done]. apply Hne.
  destruct (Hun _ _ _ _ _ Hk H1) as (w1 & Hw1 & E1). destruct (Hun _ _ _ _ _ Hk H2) as (w2 & Hw2 & E2).
  destruct H1 as (_ & V1 & T1 & _), H2 as (_ & V2 & T2 & _).
  injection E1 as ET1 EV1 EH1. injection E2 as ET2 EV2 EH2.
  assert (w1 = w2) as -> by (apply (ki_once _ _ _ _ _ (Hinv _ _ Hk)); [done|done|congruence|congruence]). congruence.
Qed.

(** The adversary's validators are too light at some position for two quorums. *)
Definition tolerable (c : ICSCommittee) (q : list Z) (n : network) : Prop :=
  ∃ (p : nat) x, q !! p = Some x ∧ 0 < x ∧
    tally c (Z.of_nat p) (byzantine c n) < 2 * x - tally c (Z.of_nat p) (λ _, true).

Lemma net_majority_agree c q n id1 id2 k1 k2 view ty h1 h2 :
  net_inv c q n → unforgeable c n → tolerable c q n →
  N_engines n !! id1 = Some k1 → N_engines n !! id2 = Some k2 →
  majority_at k1 view ty h1 → majority_at k2 view ty h2 → h1 = h2.
Proof.
  intros Hinv Hun (p & x & Hx & _ & Hlt) Hk1 Hk2 Hm1 Hm2.
  destruct (engine_majority _ _ _ _ _ _ _ (Hinv _ _ Hk1) Hm1) as [b1 Hb1].
  destruct (engine_majority _ _ _ _ _ _ _ (Hinv _ _ Hk2) Hm2) as [b2 Hb2].
  eapply (majority_for_agree c q view ty _ _ (pool n)); [exact Hb1|exact Hb2|done|done| |exact Hx|exact Hlt].
  intros i v1 v2 H1 H2 Hne. exact (honest_once c q n i view ty v1 v2 Hinv Hun H1 H2 Hne).
Qed.
(** Every quorum has a node that runs the code, and what it signed counts in it. *)
Lemma honest_in_majority c q n id k view ty h :
  net_inv c q n → unforgeable c n → tolerable c q n → N_engines n !! id = Some k → majority_at k view ty h →
  ∃ id' k' w, N_engines n !! id' = Some k' ∧ w ∈ signed k' ∧ V_Type w = ty ∧ V_View w = view ∧ V_TSHash w = h.
Proof.
  intros Hinv Hun (p & x & Hx & _ & Hlt) Hk Hm.
  destruct (engine_majority _ _ _ _ _ _ _ (Hinv _ _ Hk) Hm) as (b & Hr & Ha).
  specialize (Hr p x Hx). set (f := λ i : nat, GetIndex b (Z.of_nat i)) in Hr.
  assert (Hpos : 0 < tally c (Z.of_nat p) (λ i, f i && negb (byzantine c n i))).
  { pose proof (tally_inclusion_exclusion c (Z.of_nat p) (byzantine c n) (λ i, f i && negb (byzantine c n i))) as He. cbn beta in He.
    assert (tally c (Z.of_nat p) f ≤ tally c (Z.of_nat p) (λ i, byzantine c n i || (f i && negb (byzantine c n i)))).
    { apply tally_mono. intros i _ ->. by destruct (byzantine c n i). }
    pose proof (tally_nonneg c (Z.of_nat p) (λ i, byzantine c n i && (f i && negb (byzantine c n i)))).
    pose proof (tally_le_total c (Z.of_nat p) f). lia. }
  apply tally_pos_member in Hpos as (i & _ & [Hi Hb]%andb_true_iff & _). apply negb_true_iff in Hb.
  unfold byzantine in Hb. apply bool_decide_eq_false in Hb.
  destruct (N_engines n !! sits c i) as [k'|] eqn:Hk'; [|done].
  destruct (Ha i Hi) as (v & Hv & Hau). destruct (Hun _ _ _ _ _ Hk' Hau) as (w & Hw & E).
  destruct Hau as (_ & V & T & _). injection E as E1 E2 E3. exists (sits c i), k', w. split_and!; congruence.
Qed.

(** C1.  Agreement across the network: the validators that run the code take any
    messages, timeouts and self-deliveries in any interleaving, and the rest of
    the committee is the adversary's.  As long as the adversary's validators weigh
    less than twice the threshold minus the whole at one position and signatures
    cannot be forged, any two nodes that report a majority for one view and type
    report it for one tesseract, all precommits of a view are for one tesseract,
    and what two nodes finalize in one view is one tesseract, for which a node that
    runs the code has precommitted and one has prevoted. *)
Theorem network_agreement c q n0 n id1 id2 k1 k2 :
  env_ok c q → net_start c q n0 → rtc net_step n0 n → unforgeable c n → tolerable c q n →
  N_engines n !! id1 = Some k1 → N_engines n !! id2 = Some k2 →
  (∀ view ty h1 h2, majority_at k1 view ty h1 → majority_at k2 view ty h2 → h1 = h2) ∧
  (∀ v w, v ∈ signed k1 → w ∈ signed k2 → V_Type v = PRECOMMIT → V_Type w = PRECOMMIT →
     V_View v = V_View w → V_TSHash v = V_TSHash w) ∧
  (∀ t1 t2, t1 ∈ K_finalized k1 → t2 ∈ K_finalized k2 → ∃ view1 view2,
     majority_at k1 view1 PRECOMMIT (TsHash t1) ∧ majority_at k2 view2 PRECOMMIT (TsHash t2) ∧
     (view1 = view2 → TsHash t1 = TsHash t2) ∧
     ∀ ty, ty = PREVOTE ∨ ty = PRECOMMIT → ∃ id k w, N_engines n !! id = Some k ∧ w ∈ signed k ∧
       V_Type w = ty ∧ V_View w = view1 ∧ V_TSHash w = TsHash t1).
Proof.
  intros Henv Hst Hr Hun Htol Hk1 Hk2. pose proof Htol as (p & x & Hx & Hpos & _).
  assert (Hinv : net_inv c q n).
  { eapply net_reachable; [exact Henv| |exact Hst|exact Hr]. exists x. split; [by eapply list_elem_of_lookup_2|done]. }
  pose proof (Hinv _ _ Hk1) as Hi1. pose proof (Hinv _ _ Hk2) as Hi2.
  assert (Hag : ∀ view ty h1 h2, majority_at k1 view ty h1 → majority_at k2 view ty h2 → h1 = h2)
    by (intros view ty h1 h2; by apply (net_majority_agree c q n id1 id2)).
  split; [exact Hag|]. split.
  - intros v w Hv Hw Tv Tw E. pose proof (ki_just _ _ _ _ _ Hi1 v Hv Tv) as M1.
    pose proof (ki_just _ _ _ _ _ Hi2 w Hw Tw) as M2. rewrite <-E in M2. exact (Hag _ _ _ _ M1 M2).
  - intros t1 t2 Ht1 Ht2. destruct (ki_final _ _ _ _ _ Hi1 t1 Ht1) as [view1 M1].
    destruct (ki_final _ _ _ _ _ Hi2 t2 Ht2) as [view2 M2]. exists view1, view2.
    split; [exact M1|]. split; [exact M2|]. split; [intros <-; exact (Hag _ _ _ _ M1 M2)|].
    assert (Hc : ∃ id k w, N_engines n !! id = Some k ∧ w ∈ signed k ∧
      V_Type w = PRECOMMIT ∧ V_View w = view1 ∧ V_TSHash w = TsHash t1) by exact (honest_in_majority c q n id1 k1 view1 _ _ Hinv Hun Htol Hk1 M1).
    intros ty [->| ->]; [|exact Hc]. destruct Hc as (id & k & w & Hk & Hw & T & V & H).
    pose proof (ki_just _ _ _ _ _ (Hinv _ _ Hk) w Hw T) as Mp. rewrite V, H in Mp.
    exact (honest_in_majority c q n id k view1 _ _ Hinv Hun Htol Hk Mp).
Qed.
End Network.

(** ** Three nodes of a committee of eight

    "A" leads and finalizes on single votes, "B" and "C" follow by its
    certificates.  At the first position they weigh three of four. *)
Section Witness.
#[local] Existing Instances CE CX CE_bits CCanon CT CT_laws MemStore CParts CSafetyCodec CProposalCodec CEvidence.
Definition n_key (id : KramaID) : bytes := if bool_decide (id = "A") then w_key 0 else if bool_decide (id = "B") then w_key 1 else w_key 2.
Definition n_vault (id : KramaID) : option (bytes → bytes * option err) := Some (λ raw, (csign (n_key id) raw, None)).
Definition n_handler (id : KramaID) : @Tesseract CE CT → option err := e_handler.
Definition n_evs (id : KramaID) : list kevent := if bool_decide (id = "A") then e_run else e_follow.
Definition n_end (id : KramaID) : KBFT := run_value (e_engine id) (krun (n_vault id) (n_handler id) (n_evs id) (e_engine id)).
Definition n_start : network :=
  {| N_engines := {[ "A"%string := e_engine "A"; "B"%string := e_engine "B"; "C"%string := e_engine "C" ]}; N_received := [] |}.
Definition n_engines : gmap KramaID KBFT :=
  {[ "A"%string := n_end "A"; "B"%string := n_end "B"; "C"%string := n_end "C" ]}.

Lemma n_engines_cases (m : KramaID → KBFT) id k :
  ({[ "A"%string := m "A"; "B"%string := m "B"; "C"%string := m "C" ]} : gmap KramaID KBFT) !! id = Some k →
  id ∈ ["A"; "B"; "C"]%string ∧ k = m id.
Proof.
  intros H. repeat (apply lookup_insert_Some in H as [[<- <-]|[_ H]]; [split; [set_solver|reflexivity]|]).
  apply lookup_singleton_Some in H as [<- <-]. split; [set_solver|reflexivity].
Qed.

Lemma n_reach : ∃ n, rtc (net_step n_vault n_handler) n_start n ∧ N_engines n = n_engines ∧
  ∀ v, v ∈ N_received n → v ∈ omap ev_vote (n_evs "A" ++ n_evs "B" ++ n_evs "C").
Proof.
  assert (Hrun : ∀ id, returns (krun (n_vault id) (n_handler id) (n_evs id) (e_engine id)) = true →
    krun (n_vault id) (n_handler id) (n_evs id) (e_engine id) = Ret (n_end id)) by (intros id; apply run_value_run).
  destruct (net_run n_vault n_handler n_start "A" (e_engine "A") (n_evs "A") (n_end "A")) as (r1 & Hr1 & Hv1);
    [reflexivity|apply Hrun; vm_compute; reflexivity|].
  match type of Hr1 with rtc _ _ ?n => set (n1 := n) in Hr1 end.
  destruct (net_run n_vault n_handler n1 "B" (e_engine "B") (n_evs "B") (n_end "B")) as (r2 & Hr2 & Hv2);
    [reflexivity|apply Hrun; vm_compute; reflexivity|].
  match type of Hr2 with rtc _ _ ?n => set (n2 := n) in Hr2 end.
  destruct (net_run n_vault n_handler n2 "C" (e_engine "C") (n_evs "C") (n_end "C")) as (r3 & Hr3 & Hv3);
    [reflexivity|apply Hrun; vm_compute; reflexivity|].
  eexists. split; [etrans; [exact Hr1|]; etrans; [exact Hr2|exact Hr3]|].
  split; [reflexivity|].
  intros v Hv. rewrite !omap_app, !elem_of_app. apply Hv3 in Hv as [Hv|Hv]; [by right; right|].
  apply Hv2 in Hv as [Hv|Hv]; [by right; left|]. apply Hv1 in Hv as [Hv|Hv]; [by left|]. by apply elem_of_nil in Hv.
Qed.

(** Every vote there is prevotes or precommits for tesseract 7 in view 1, and each
    node has signed both. *)
Definition n_votes : list Vote :=
  omap ev_vote (n_evs "A" ++ n_evs "B" ++ n_evs "C") ++ signed (n_end "A") ++ signed (n_end "B") ++ signed (n_end "C").
Definition is_for_7 (v : Vote) : bool :=
  match V_Type v with PREVOTE | PRECOMMIT => (@V_View CE v =? 1) && (@V_TSHash CE v =? 7) | _ => false end.
Definition has_vote (ty : ConsensusMsgType) (k : KBFT) : bool :=
  existsb (λ v, bool_decide (V_Type v = ty) && (@V_View CE v =? 1) && (@V_TSHash CE v =? 7)) (signed k).
Lemma has_vote_signed v k :
  is_for_7 v = true → has_vote PREVOTE k && has_vote PRECOMMIT k = true → ∃ w, w ∈ signed k ∧ canonical w = canonical v.
Proof.
  intros Hv [Hp Hc]%andb_true_iff. unfold is_for_7 in Hv.
  assert (E : (V_View v =? 1) && (V_TSHash v =? 7) = true ∧ has_vote (V_Type v) k = true)
    by (destruct (V_Type v); [done..| | |]; try discriminate Hv; done).
  destruct E as [[E1%Z.eqb_eq E2%Z.eqb_eq]%andb_true_iff (w & Hw & [[Ew%bool_decide_eq_true E3%Z.eqb_eq]%andb_true_iff E4%Z.eqb_eq]%andb_true_iff)%existsb_exists].
  exists w. split; [by apply list_elem_of_In|]. unfold canonical. by rewrite Ew, E1, E2, E3, E4.
Qed.

Lemma n_unforgeable n :
  N_engines n = n_engines → (∀ v, v ∈ N_received n → v ∈ omap ev_vote (n_evs "A" ++ n_evs "B" ++ n_evs "C")) →
  unforgeable w_committee n.
Proof.
  intros He Hr vw ty i v k Hk (Hpool & _). rewrite He in Hk. apply n_engines_cases in Hk as [Hid ->].
  assert (Hin : v ∈ n_votes).
  { unfold n_votes. rewrite elem_of_app. destruct Hpool as [Hv|(id & k & Hk & Hv)]; [left; by apply Hr|right].
    rewrite He in Hk. apply n_engines_cases in Hk as [Hid' ->]. rewrite !elem_of_app.
    apply list_elem_of_In in Hid' as [<-|[<-|[<-|[]]]]; [by left|by right; left|by right; right]. }
  assert (Hall : forallb is_for_7 n_votes = true) by (vm_compute; reflexivity).
  rewrite forallb_forall in Hall. apply has_vote_signed; [by apply Hall, list_elem_of_In|].
  assert (Hs : forallb (λ id, has_vote PREVOTE (n_end id) && has_vote PRECOMMIT (n_end id)) ["A"; "B"; "C"]%string = true)
    by (vm_compute; reflexivity).
  rewrite forallb_forall in Hs. by apply Hs, list_elem_of_In.
Qed.

Lemma network_agreement_witness :
  ∃ n t1 t2, rtc (net_step n_vault n_handler) n_start n ∧ N_engines n = n_engines ∧
    t1 ∈ K_finalized (n_end "A") ∧ t2 ∈ K_finalized (n_end "C") ∧ TsHash t1 = 7 ∧
    ∃ view1 view2 : Z, (view1 = view2 → TsHash t1 = TsHash t2) ∧
      ∃ id k w, n_engines !! id = Some k ∧ w ∈ signed k ∧ V_Type w = PREVOTE ∧ V_View w = view1 ∧ V_TSHash w = TsHash t1.
Proof.
  destruct n_reach as (n & Hr & He & Hv). exists n, (head_or w_tess (K_finalized (n_end "A"))), (head_or w_tess (K_finalized (n_end "C"))).
  assert (H1 : head_or w_tess (K_finalized (n_end "A")) ∈ K_finalized (n_end "A"))
    by (apply list_elem_of_In; vm_compute; left; reflexivity).
  assert (H2 : head_or w_tess (K_finalized (n_end "C")) ∈ K_finalized (n_end "C"))
    by (apply list_elem_of_In; vm_compute; left; reflexivity).
  split; [exact Hr|]. split; [exact He|]. split; [exact H1|]. split; [exact H2|]. split; [vm_compute; reflexivity|].
  destruct (network_agreement n_vault n_handler w_committee w_quorum n_start n "A" "C" (n_end "A") (n_end "C"))
    as (_ & _ & H).
  - exact (st_env _ _ _ _ w_started).
  - split; [|reflexivity]. intros id k Hk. apply (n_engines_cases e_engine) in Hk as [Hid ->].
    exists (e_ics id). split; [apply e_engine_start|]. reflexivity.
  - exact Hr.
  - by apply n_unforgeable.
  - exists 0%nat, 3. split; [reflexivity|]. split; [lia|]. unfold byzantine. rewrite He. vm_compute. reflexivity.
  - rewrite He. reflexivity.
  - rewrite He. reflexivity.
  - destruct (H _ _ H1 H2) as (view1 & view2 & _ & _ & Hag & Hp). exists view1, view2. split; [exact Hag|].
    rewrite <-He. apply Hp. by left.
Defined.
End Witness.
