(* ===== verification/Announce.v ===== *)
(** * The operator's certificate finishes every follower

    The leader and one follower of a view side by side: the vote that completes the
    leader's precommit majority makes it send a certificate, and a follower that
    receives it, whatever else arrives, finalizes the tesseract too.  The theorem
    composes [FinalSpec.v] (what the leader has recorded) with [KbftProgress.v]
    (what a certificate does to an engine). *)

From stdpp Require Import base gmap strings list fin_maps.
From Stdlib Require Import ZArith Lia.
From S2P Require Import Prelude External Types NodeSet Committee Cluster VoteSet Tally VoteSetFacts HeightVoteSet Safety Ticker Kbft KbftFacts KbftSpec Concrete Scenario KbftScenario CertificateSpec FinalSpec KbftProgress.

(** ** The leader *)
Section Leader.
Context `{ET : ExtTypes} `{EX : !ExtOps ET} `{!TesseractOps ET}.
Context `{!SafetyStore ET} `{!TesseractParts ET _}.
Context `{!PoloCodec CanonicalVote} `{!PoloCodec SafetyData} `{!PoloCodec ProposalInfo} `{!PoloCodec Evidence}.
Context `{!BitLaws ET} `{!TesseractLaws ET _}.
Context (vault : option (bytes → bytes * option err)) (tesseractHandler : Tesseract → option err).

(** What [sendQc] puts into the channel for the precommits [vs] of tesseract [h]:
    its bits at that moment, and where they are kept. *)
Definition announcement (k : KBFT) (h : Hash) (vs : VoteSet) : ConsensusMessage :=
  {| CM_PeerID := K_id k; CM_Recipient := ""; CM_Payload := PayloadVote
       {| V_Type := PRECOMMIT; V_IsQC := true; V_View := K_View k; V_SignerIndex := 0; V_Timestamp := 0;
          V_Heights := K_Heights k; V_TSHash := h; V_SignerIndices := Some (votesBitArray vs);
          V_Signature := maj23aggSignature vs |} |}.
Definition announced (k : KBFT) (h : Hash) (vs : VoteSet) : Outbound :=
  {| O_msg := announcement k h vs; O_bits := Some (K_View k, PRECOMMIT) |}.
(** What is serialised has the signature of then and the bits of now. *)
Lemma on_wire_announced k k' h vs now :
  getVoteSet (K_Votes k') (K_View k) PRECOMMIT = Some now →
  on_wire k' (announced k h vs) = show_bits (Some (votesBitArray now)) (announcement k h vs).
Proof. intros Hnow. unfold on_wire. cbn [O_bits O_msg announced]. by rewrite Hnow. Qed.

Lemma updateConsensusInfo_outbound bits sig k e k' :
  updateConsensusInfoInTesseracts vault bits sig k = Ret (e, k') → K_outbound k' = K_outbound k.
Proof.
  unfold updateConsensusInfoInTesseracts. destruct (FlushEvidence _) as [[eh data]|e0]; [|by intros [= <- <-]].
  intros (p & _ & (pt & _ & (t & _ & H)%bind_Ret)%bind_Ret)%bind_Ret.
  destruct (TsSignBytes _) as [raw|e1]; [|injection H as <- <-; cbn; by destruct (K_ProposalTS k)].
  apply bind_Ret in H as (sign & _ & H). destruct (sign raw) as [seal [e2|]]; injection H as <- <-;
    cbn; destruct (K_ProposalTS k) eqn:E; cbn; by rewrite ?E.
Qed.
Lemma finalizeCommit_outbound h k k' : finalizeCommit vault tesseractHandler h k = Ret k' → K_outbound k' = K_outbound k.
Proof.
  unfold finalizeCommit. intros H. destruct (negb (areHeightsEqual _ _)); [done|].
  destruct (SuperMajority _) as [th [|]]; [|by injection H as <-].
  destruct (decide _); [by injection H as <-|]. destruct (K_Proposal k) as [p|]; [|by injection H as <-].
  apply bind_Ret in H as (pt & _ & H). destruct (negb _); [by injection H as <-|].
  destruct (_ || _); [by injection H as <-|].
  apply bind_Ret in H as (vs & _ & H). apply bind_Ret in H as ([e k1] & Hu & H). apply updateConsensusInfo_outbound in Hu.
  rewrite <-Hu. destruct e as [e|]; [by injection H as <-|]. apply bind_Ret in H as (t & _ & H).
  destruct (tesseractHandler _); by injection H as <-.
Qed.

(** The operator announces the majority once its certificate is stored. *)
Lemma enterCommit_announces h k k' p t vs qc db :
  commits k t vs p → K_Step k < ViewStepCommit → areHeightsEqual (K_Heights k) h = true →
  K_operator k = K_id k → is_Some vault →
  HVS_GetQC (K_Votes k) (TsHash t) (K_View k) PRECOMMIT = Ret (inl qc) →
  UpdateSafetyInfo (load k) (K_db k) (Some p) qc = Ret (db, None) →
  enterCommit vault tesseractHandler h (K_View k) k = Ret k' → announced k (TsHash t) vs ∈ K_outbound k'.
Proof.
  intros [Hvs Hm Hnn Hp Hts Ht] Hstep Hh Hop [sign Hv] Hqc Hu. rewrite enterCommit_Ret. rewrite Hh.
  destruct (Z.leb_spec ViewStepCommit (K_Step k)); [lia|]. cbn [negb orb].
  unfold enterCommit_body, HVS_Precommits. rewrite Hvs, Hm, Hqc. cbn [mbind res_bind]. rewrite Hp, Hu. cbn [mbind res_bind].
  unfold isLeader. cbn [K_operator K_id with_db]. rewrite bool_decide_eq_true_2 by done.
  unfold sendQc, HVS_Precommits. replace (is_some vault) with true by (by rewrite Hv). cbn [negb K_Votes K_View with_db]. rewrite Hvs. cbn [deref mbind res_bind].
  intros Hf. apply (finalizeCommit_outbound h) in Hf. rewrite Hf. cbn. apply elem_of_app. right. by apply list_elem_of_singleton.
Qed.
End Leader.

(** ** The certificate at a follower *)
Section Follower.
Context `{ET : ExtTypes} `{EX : !ExtOps ET} `{!TesseractOps ET}.
Context `{!SafetyStore ET} `{!TesseractParts ET _}.
Context `{!PoloCodec CanonicalVote} `{!PoloCodec SafetyData} `{!PoloCodec ProposalInfo} `{!PoloCodec Evidence}.
Context `{!BitLaws ET} `{!TesseractLaws ET _} `{!AggregateLaws ET EX}.

(** Every validator of the committee has a name. *)
Definition named (c : ICSCommittee) : Prop := ∀ i, 0 ≤ i < totalNodes c → KR_ID (lookup_spec c i) ≠ ""%string.

Lemma certificate_valid c q view b b' sigs h (v : Vote) :
  env_ok c q → named c → (∃ x, x ∈ q ∧ 0 < x) → reaches c q (λ i, GetIndex b (Z.of_nat i)) →
  BitsSize b = totalNodes c → Forall2 (signed_for c view PRECOMMIT h) (GetTrueIndices b) sigs →
  GetTrueIndices b' = GetTrueIndices b → V_Type v = PRECOMMIT → V_View v = view → V_TSHash v = h → V_SignerIndex v = 0 →
  V_SignerIndices v = Some b' → V_Signature v = (CryptoAggregateSignatures sigs).1 → valid_cert c v (GetTrueIndices b).
Proof.
  intros Henv Hnamed (x & Hxq & Hx) Hreach Hbs Hsigs Hb' Hty Hvw Hh Hidx Hbits Hsig.
  pose proof (co_bound _ (env_committee _ _ Henv)) as Hbound.
  assert (Hrange : ∀ n, n ∈ GetTrueIndices b → 0 ≤ n < totalNodes c ∧ i32 n = n).
  { intros n Hn%bits_true_elem. apply bits_get_range in Hn. split; [lia|]. apply i32_small. lia. }
  split; [lia|]. split; [unfold signerIndices; by rewrite Hbits, Hb'|]. split.
  { intros n Hn. destruct (Hrange n Hn) as [? ->]. by apply Hnamed. }
  apply list_elem_of_lookup in Hxq as [k Hk].
  destruct (tally_pos_member c (Z.of_nat k) (λ i, GetIndex b (Z.of_nat i))) as (i & _ & Hi & _); [specialize (Hreach k x Hk); lia|].
  apply bits_true_elem, list_elem_of_lookup in Hi as [j Hj].
  destruct (Forall2_lookup_l _ _ _ _ _ Hsigs Hj) as (s & _ & raw & Hraw & _).
  exists raw. split.
  - unfold Vote_SignBytes, canonical. unfold CanonicalVote_Bytes in Hraw. rewrite Hty, Hvw, Hh. by destruct (Polorize _).
  - assert (Ek : (λ n, key_at c (i32 n)) <$> GetTrueIndices b = key_at c <$> GetTrueIndices b).
    { apply list_fmap_ext. intros m n Hn. apply list_elem_of_lookup_2, Hrange in Hn as [_ ->]. done. }
    rewrite Hsig, Ek. destruct (aggregate_verifies raw sigs (key_at c <$> GetTrueIndices b)) as [_ Hok]; [| |exact Hok].
    { intros ->. apply Forall2_length in Hsigs. apply lookup_lt_Some in Hj. cbn in Hsigs. lia. }
    apply Forall2_flip, Forall2_fmap_l. eapply Forall2_impl; [exact Hsigs|]. intros n s' (raw' & Hr' & Hs). congruence.
Qed.
(** The precommit [v] completes at [k] a majority for its proposal's tesseract [t]
    in the current view, which it can seal and store. *)
Record completes vault (k : KBFT) (v : Vote) (peer : KramaID) votes ics (p : Proposal) (t : Tesseract) (vs : VoteSet) seal : Prop := {
  cp_vote : V_IsQC v = false ∧ V_Type v = PRECOMMIT ∧ V_View v = K_View k ∧ V_TSHash v = TsHash t;
  cp_heights : AreVoteHeightsEqual (V_Heights v) (K_Heights k) = true;
  cp_step : K_Step k < ViewStepCommit;
  cp_add : HVS_AddVote (K_Votes k) (K_ics k) v peer = Ret (true, None, votes, ics);
  cp_commits : commits (with_votes k votes ics) t vs p;
  cp_seal : can_seal vault (with_votes k votes ics) t vs seal;
  cp_stores : ∃ qc db, HVS_GetQC votes (TsHash t) (K_View k) PRECOMMIT = Ret (inl qc) ∧
                UpdateSafetyInfo (load k) (K_db k) (Some p) qc = Ret (db, None);
}.

(** The leader's step. *)
Lemma leader_announces vault tesseractHandler k v peer votes ics p t vs seal :
  completes vault k v peer votes ics p t vs seal → K_operator k = K_id k →
  ∃ k', addVote vault tesseractHandler v peer k = Ret (true, None, k') ∧
    announced k (TsHash t) vs ∈ K_outbound k' ∧
    K_finalized k' = K_finalized k ++ [TsCopy (sealed (with_votes k votes ics) t vs seal)].
Proof.
  intros [(Hq & Hty & Hvw & Hh) Hhe Hstep Hadd Hcm Hseal (qc & db & Hqc & Hu)] Hop.
  destruct (enterCommit_result vault tesseractHandler (K_Heights k) (with_votes k votes ics) p t vs seal)
    as (k' & He & Hf & _); [apply areHeightsEqual_refl|done..|].
  exists k'. split; [|split; [|exact Hf]].
  - rewrite (addVote_completes vault tesseractHandler k v peer votes ics p t vs) by done.
    change (K_View (with_votes k votes ics)) with (K_View k) in He. by rewrite He.
  - apply (enterCommit_announces vault tesseractHandler (K_Heights k) (with_votes k votes ics) k' p t vs qc db);
      [done|done|apply areHeightsEqual_refl|done| |done|done|exact He].
    destruct Hseal as [_ (sign & raw & -> & _)]. by eexists.
Qed.

End Follower.

(** ** Witness: the run of "A" of [FinalSpec.v] and validator "B" *)
#[local] Existing Instances CE CX CE_bits CCanon CT CT_laws MemStore CParts CSafetyCodec CProposalCodec CEvidence.
(** "A" after its last precommit, and after one more message. *)
Definition a_committed : KBFT :=
  (or_else (false, None, e_before) (addVote (Some e_sign) e_handler e_last "B" e_before)).2.
Lemma a_committed_run : addVote (Some e_sign) e_handler e_last "B" e_before = Ret (true, None, a_committed).
Proof.
  rewrite (or_else_Ret (false, None, e_before) (addVote (Some e_sign) e_handler e_last "B" e_before)) by (vm_compute; reflexivity).
  unfold a_committed. assert (E : (or_else (false, None, e_before) (addVote (Some e_sign) e_handler e_last "B" e_before)).1 = (true, None))
    by (vm_compute; reflexivity).
  destruct (or_else _ _) as [[a e] k]. cbn in *. by injection E as -> ->.
Defined.
Lemma Ret_third {A B C} (a : A) (b : B) (x y : C) : Ret (a, b, x) = Ret (a, b, y) → x = y.
Proof. by intros [= ->]. Qed.
Definition a_outbound : Outbound := announced e_before (TsHash w_tess) e_last_vs.
Definition a_late : list kevent := [f_stray "C" []].
Definition a_later : KBFT := e_state a_late a_committed.
Definition a_now (k : KBFT) : VoteSet := default e_last_vs (getVoteSet (K_Votes k) (K_View e_before) PRECOMMIT).
Lemma a_now_set : getVoteSet (K_Votes a_later) (K_View e_before) PRECOMMIT = Some (a_now a_later).
Proof. apply default_Some. vm_compute. reflexivity. Qed.
(** The certificate as it is serialised with the engine in state [k]. *)
Definition a_wire (k : KBFT) : ConsensusMessage :=
  show_bits (Some (votesBitArray (a_now k))) (announcement e_before (TsHash w_tess) e_last_vs).
Definition a_message : ConsensusMessage := a_wire a_later.
Definition a_view : list kevent := [f_stray "C" []; EvSelf; EvInbound a_message ∅; f_stray "A" []].
Definition a_done : KBFT := f_run a_view f_ready.
Lemma a_done_run : krun (Some b_sign) e_handler a_view f_ready = Ret a_done.
Proof. apply run_value_run. vm_compute. reflexivity. Qed.
Lemma a_in_view : Forall (in_view_event (K_View f_ready)) a_view.
Proof. rewrite f_in_view_1. in_view_events. Qed.
Lemma a_completes : completes (Some e_sign) e_before e_last "B" e_counted.1.2 e_counted.2 e_proposal w_tess e_last_vs e_seal.
Proof.
  split.
  - split; [reflexivity|]. split; [reflexivity|]. split; vm_compute; reflexivity.
  - vm_compute. reflexivity.
  - vm_compute. reflexivity.
  - exact e_counted_run.
  - exact e_after_commits.
  - exact e_after_seals.
  - eexists _, _. split; [vm_compute; reflexivity|vm_compute; reflexivity].
Qed.
Lemma a_named : named w_committee.
Proof.
  intros i [H0 H8]. change (totalNodes w_committee) with 8 in H8.
  assert (Hall : forallb (λ i, negb (String.eqb (KR_ID (lookup_spec w_committee i)) "")) (seqZ 0 8) = true) by (vm_compute; reflexivity).
  rewrite forallb_forall in Hall. specialize (Hall i). rewrite negb_true_iff, String.eqb_neq in Hall.
  apply Hall, list_elem_of_In, elem_of_seqZ. lia.
Qed.

Lemma a_later_run : krun (Some e_sign) e_handler a_late a_committed = Ret a_later.
Proof. apply e_state_run. vm_compute. reflexivity. Qed.


(** One more honest vote spoils it: when the leader counts another validator's
    precommit for the same tesseract before the certificate is serialised, the
    certificate names a signer whose signature it lacks, and the follower refuses
    it and finalizes nothing; serialised at once, the same certificate finalizes. *)
Definition a_spoiled : KBFT := e_state (e_round PRECOMMIT [3]) a_committed.
Theorem late_vote_spoils_certificate :
  krun (Some e_sign) e_handler (e_round PRECOMMIT [3]) a_committed = Ret a_spoiled ∧
  GetTrueIndices <$> maj23VoteSet e_last_vs = Some [0; 1; 2; 4; 5; 6] ∧
  GetTrueIndices (votesBitArray (a_now a_spoiled)) = [0; 1; 2; 3; 4; 5; 6] ∧
  TsHash <$> K_finalized (f_run [EvInbound (a_wire a_committed) ∅] f_ready) = [7] ∧
  TsHash <$> K_finalized (f_run [EvInbound (a_wire a_spoiled) ∅] f_ready) = [].
Proof.
  split; [apply e_state_run; vm_compute; reflexivity|].
  split; [vm_compute; reflexivity|]. split; [vm_compute; reflexivity|]. split; vm_compute; reflexivity.
Qed.
